(** * LEO cargo-hold packer: a shallow embedding and its verified properties

    The Python sources are embedded module by module.  Python floats are
    idealised as exact rationals ([Q]): every comparison, [min], [max],
    [abs] and arithmetic operation of the source is kept, rounding error is
    not modelled.  Dictionaries whose order matters are association lists,
    a failed dictionary lookup is an explicit [KeyError]. *)

From Stdlib Require Import QArith Qround Lqa Lia ZArith Bool String Ascii List Permutation.
From Stdlib Require Import DecimalString DecimalNat Sorted.
Import ListNotations.
Open Scope Q_scope.

Set Implicit Arguments.

(** ** Numeric helpers (Python [<], [<=], [min], [max], [abs] on floats) *)

Definition Qleb (x y : Q) : bool := Qle_bool x y.
Definition Qltb (x y : Q) : bool := negb (Qle_bool y x).

Notation "x <=? y" := (Qleb x y) (at level 70, no associativity) : Q_scope.
Notation "x <? y" := (Qltb x y) (at level 70, no associativity) : Q_scope.

(** Python [min(a, b)] returns [b] only when [b < a]; [max(a, b)] returns
    [b] only when [b > a]. *)
Definition qmin (a b : Q) : Q := if b <? a then b else a.
Definition qmax (a b : Q) : Q := if a <? b then b else a.
Definition qabs (a : Q) : Q := if a <? 0 then - a else a.
(** ** domain/types.py *)

(** [Rect = (minX, maxX, minZ, maxZ)] (declared in geometry/free_rects.py). *)
Record Rect : Type := mkRect { rx0 : Q; rx1 : Q; rz0 : Q; rz1 : Q }.

Inductive ItemStatus : Type := st_ok | st_unplaced | st_box_loose | st_stacked.
Inductive ModeName : Type := mode_weight | mode_volume | mode_mixed.

(** [Vehicle] is a [TypedDict]: the three inner dimensions are always read
    with [vehicle["..."]], the other keys with [vehicle.get(...)]. *)
Record Vehicle : Type := mkVehicle {
  innerWidth : Q; innerLength : Q; innerHeight : Q;
  fillFactorFloor : option Q; fillFactorVolume : option Q;
  payloadMaxKg : option Q;
  axleALimitKg : option Q; axleBLimitKg : option Q;
  axleAPosFromHeadM : option Q; axleBPosFromHeadM : option Q }.

Record Item : Type := mkItem {
  item_id : string;
  item_palletType : option string; item_palletTypeNorm : option string;
  item_width : Q; item_length : Q; item_height : Q; item_weight : Q; item_ratio : Q;
  item_canBeBase : bool; item_canBeStacked : bool;
  item_status : ItemStatus }.

Record AABB : Type := mkAABB {
  minX : Q; maxX : Q; minY : Q; maxY : Q; minZ : Q; maxZ : Q }.

Record PlacedItem : Type := mkPlacedItem {
  p_item : Item;
  p_x : Q; p_y : Q; p_z : Q;
  p_rotationY : Z;
  p_dims : Q * Q * Q;
  p_aabb : AABB;
  p_corner : Q * Q;
  p_status : ItemStatus }.

(** The [meta] dictionary of a candidate, one field per key the sources
    write. *)
Record Meta : Type := mkMeta {
  m_pattern : option string;
  m_patternId : option string;
  m_rect : option Rect;
  m_slotZ0 : option Q;
  m_row : option nat;
  m_idx : option nat;
  m_role : option string;
  m_kRank : option nat;
  m_anchor : option (Q * Q) }.

Record Candidate : Type := mkCandidate {
  c_itemId : string;
  c_x : Q; c_y : Q; c_z : Q;
  c_rotationY : Z;
  c_dx : Q; c_dy : Q; c_dz : Q;
  c_aabb : AABB;
  c_kind : string;
  c_meta : Meta }.

Record AxleLoads : Type := mkAxleLoads {
  axleA_kg : Q; axleB_kg : Q; payload_kg : Q }.

Record ModeDecision : Type := mkModeDecision {
  mode_name : ModeName;
  weight_pressure : Q; floor_pressure : Q; volume_pressure : Q;
  alpha : option Q }.

(** ** geometry/free_rects.py *)

Definition eps9 : Q := 1 # 1000000000.
Definition eps6 : Q := 1 # 1000000.

Definition rect_area (r : Rect) : Q :=
  qmax 0 (rx1 r - rx0 r) * qmax 0 (rz1 r - rz0 r).

Definition rect_contains (big small : Rect) (eps : Q) : bool :=
  (rx0 big - eps <=? rx0 small) && (rx1 small <=? rx1 big + eps) &&
  (rz0 big - eps <=? rz0 small) && (rz1 small <=? rz1 big + eps).

Definition rect_intersects (a b : Rect) (eps : Q) : bool :=
  if (rx1 a <=? rx0 b + eps) || (rx1 b - eps <=? rx0 a) then false
  else if (rz1 a <=? rz0 b + eps) || (rz1 b - eps <=? rz0 a) then false
  else true.

Definition split_rect (free used : Rect) (eps : Q) : list Rect :=
  let '(mkRect fx0 fx1 fz0 fz1) := free in
  let '(mkRect ux0 ux1 uz0 uz1) := used in
  let out := [] in
  let out := if fx0 + eps <? ux0
             then out ++ [mkRect fx0 (qmin ux0 fx1) fz0 fz1] else out in
  let out := if ux1 <? fx1 - eps
             then out ++ [mkRect (qmax ux1 fx0) fx1 fz0 fz1] else out in
  let out := if fz0 + eps <? uz0
             then out ++ [mkRect (qmax fx0 ux0) (qmin fx1 ux1) fz0 (qmin uz0 fz1)] else out in
  let out := if uz1 <? fz1 - eps
             then out ++ [mkRect (qmax fx0 ux0) (qmin fx1 ux1) (qmax uz1 fz0) fz1] else out in
  filter (fun r => eps9 <? rect_area r) out.

(** [prune_contained]: the rectangle at index [i] is dropped when some
    rectangle at another index [j <> i] contains it.  [before] holds the
    rectangles at smaller indices, the tail of [after] those at larger
    ones. *)
Fixpoint prune_aux (before after : list Rect) (eps : Q) : list Rect :=
  match after with
  | [] => []
  | r :: rest =>
      let contained := existsb (fun other => rect_contains other r eps) (before ++ rest) in
      if contained then prune_aux (before ++ [r]) rest eps
      else r :: prune_aux (before ++ [r]) rest eps
  end.

Definition prune_contained (rects : list Rect) (eps : Q) : list Rect :=
  prune_aux [] rects eps.

Definition _almost_equal (a b eps : Q) : bool := qabs (a - b) <=? eps.

Definition _normalize_rect (r : Rect) (eps : Q) : Rect :=
  let '(mkRect x0 x1 z0 z1) := r in
  let '(x0, x1) := if x1 <? x0 then (x1, x0) else (x0, x1) in
  let '(z0, z1) := if z1 <? z0 then (z1, z0) else (z0, z1) in
  let x0 := if qabs x0 <? eps then 0 else x0 in
  let x1 := if qabs x1 <? eps then 0 else x1 in
  let z0 := if qabs z0 <? eps then 0 else z0 in
  let z1 := if qabs z1 <? eps then 0 else z1 in
  mkRect x0 x1 z0 z1.

(** The local helper [try_merge] of [merge_adjacent]. *)
Definition try_merge (eps : Q) (a b : Rect) : option Rect :=
  let '(mkRect ax0 ax1 az0 az1) := a in
  let '(mkRect bx0 bx1 bz0 bz1) := b in
  if _almost_equal az0 bz0 eps && _almost_equal az1 bz1 eps
     && ((bx0 - eps <=? ax1) && (ax0 - eps <=? bx1))
  then Some (mkRect (qmin ax0 bx0) (qmax ax1 bx1) az0 az1)
  else if _almost_equal ax0 bx0 eps && _almost_equal ax1 bx1 eps
          && ((bz0 - eps <=? az1) && (az0 - eps <=? bz1))
  then Some (mkRect ax0 ax1 (qmin az0 bz0) (qmax az1 bz1))
  else None.

Fixpoint set_used (j : nat) (used : list bool) : list bool :=
  match used, j with
  | [], _ => []
  | _ :: t, O => true :: t
  | u :: t, S j' => u :: set_used j' t
  end.

(** State of the greedy scan: the rectangle grown so far, the [used]
    flags, and the two flags [merged_any] and [changed]. *)
Record ScanState : Type := mkScan {
  sc_merged : Rect; sc_used : list bool; sc_any : bool; sc_changed : bool }.

(** One execution of [for j in range(len(cur))] for the rectangle at
    index [i]; [js] is the list of the indices still to visit, paired with
    the rectangles at these indices. *)
Fixpoint scan_js (eps : Q) (i : nat) (js : list (nat * Rect)) (s : ScanState) : ScanState :=
  match js with
  | [] => s
  | (j, b) :: rest =>
      if Nat.eqb i j || nth j (sc_used s) false then scan_js eps i rest s
      else match try_merge eps (sc_merged s) b with
           | Some m =>
               scan_js eps i rest
                 (mkScan (_normalize_rect m eps) (set_used j (sc_used s)) true true)
           | None => scan_js eps i rest s
           end
  end.

Definition enumerate (A : Type) (l : list A) : list (nat * A) :=
  combine (seq 0 (length l)) l.

(** [while changed: ...]: every pass that changes something marks one more
    index as used, so [fuel] passes suffice when [fuel] exceeds the number
    of unused indices (see [merge_while_fuel]). *)
Fixpoint merge_while (fuel : nat) (eps : Q) (i : nat) (cur : list Rect) (s : ScanState)
  : ScanState :=
  match fuel with
  | O => s
  | S fuel' =>
      let s' := scan_js eps i (enumerate cur)
                  (mkScan (sc_merged s) (sc_used s) (sc_any s) false) in
      if sc_changed s' then merge_while fuel' eps i cur s' else s'
  end.

Definition count_unused (used : list bool) : nat :=
  length (filter negb used).

(** State of [for i in range(len(cur))]: [used], [nxt], [merged_any]. *)
Record RoundState : Type := mkRound {
  rd_used : list bool; rd_nxt : list Rect; rd_any : bool }.

Definition round_step (eps : Q) (cur : list Rect) (st : RoundState) (ia : nat * Rect)
  : RoundState :=
  let '(i, a) := ia in
  if nth i (rd_used st) false then st
  else
    let s := merge_while (S (count_unused (rd_used st))) eps i cur
               (mkScan a (rd_used st) (rd_any st) true) in
    mkRound (set_used i (sc_used s)) (rd_nxt st ++ [sc_merged s]) (sc_any s).

Definition merge_round (eps : Q) (cur : list Rect) : RoundState :=
  fold_left (round_step eps cur) (enumerate cur)
    (mkRound (repeat false (length cur)) [] false).

Definition normalize_live (eps : Q) (rects : list Rect) : list Rect :=
  map (fun r => _normalize_rect r eps) (filter (fun r => eps9 <? rect_area r) rects).

(** [for _ in range(max_iters)] with its [break]. *)
Fixpoint merge_iters (max_iters : nat) (eps : Q) (cur : list Rect) : list Rect :=
  match max_iters with
  | O => cur
  | S n =>
      let st := merge_round eps cur in
      let nxt := normalize_live eps (prune_contained (rd_nxt st) eps) in
      if rd_any st then merge_iters n eps nxt else nxt
  end.

Definition merge_adjacent (rects : list Rect) (eps : Q) (max_iters : nat) : list Rect :=
  match rects with
  | [] => []
  | _ => merge_iters max_iters eps (normalize_live eps rects)
  end.

(** *** The [FreeRects] container *)

Record FreeRects : Type := mkFreeRects { rects : list Rect }.

Definition init_for_vehicle (vehicle : Vehicle) : FreeRects :=
  let half_w := innerWidth vehicle / 2 in
  let half_l := innerLength vehicle / 2 in
  mkFreeRects [mkRect (- half_w) half_w (- half_l) half_l].

Definition reserve_split (rs : list Rect) (used : Rect) : list Rect :=
  flat_map (fun r => if rect_intersects r used eps9 then split_rect r used eps9 else [r]) rs.

Definition reserve (fr : FreeRects) (used : Rect) : FreeRects :=
  let new_rects := reserve_split (rects fr) used in
  let new_rects := prune_contained new_rects eps9 in
  let new_rects := merge_adjacent new_rects eps6 50 in
  mkFreeRects new_rects.



(** ** Exceptions

    A Python exception aborts the run; the embedding makes the three that
    can be reached explicit.  [OutOfFuel] is not a Python exception: it is
    returned when the bounded rendering of [while remaining] runs out of
    iterations (which [pack_fuel_enough] rules out). *)
Inductive error : Type :=
| KeyError (key : string)
| ZeroDivisionError
| OutOfFuel.

Inductive res (A : Type) : Type :=
| Ok (a : A)
| Err (e : error).

Arguments Ok {A} a.
Arguments Err {A} e.

Definition bind (A B : Type) (m : res A) (k : A -> res B) : res B :=
  match m with
  | Ok a => k a
  | Err e => Err e
  end.

Notation "x <- m ;; k" := (bind m (fun x => k))
  (at level 61, m at next level, right associativity).
Notation "' p <- m ;; k" := (bind m (fun x => let p := x in k))
  (at level 61, p pattern, m at next level, right associativity).

(** [for x in xs: acc = step(acc, x)] where [step] may raise. *)
Fixpoint foldM (A B : Type) (step : B -> A -> res B) (xs : list A) (acc : B) : res B :=
  match xs with
  | [] => Ok acc
  | x :: rest => acc' <- step acc x ;; foldM step rest acc'
  end.

(** ** geometry/aabb.py *)

Definition aabb_from_center (x y z dx dy dz : Q) : AABB :=
  mkAABB (x - dx / 2) (x + dx / 2) (y - dy / 2) (y + dy / 2) (z - dz / 2) (z + dz / 2).

Definition aabb_intersects (a b : AABB) (eps : Q) : bool :=
  if (maxX a <=? minX b + eps) || (maxX b - eps <=? minX a) then false
  else if (maxY a <=? minY b + eps) || (maxY b - eps <=? minY a) then false
  else if (maxZ a <=? minZ b + eps) || (maxZ b - eps <=? minZ a) then false
  else true.

Definition oob_check (aabb : AABB) (vehicle : Vehicle) (eps : Q) : bool :=
  let half_w := innerWidth vehicle / 2 in
  let half_l := innerLength vehicle / 2 in
  let inner_h := innerHeight vehicle in
  if (minX aabb <? - half_w - eps) || (half_w + eps <? maxX aabb) then true
  else if (minZ aabb <? - half_l - eps) || (half_l + eps <? maxZ aabb) then true
  else if (minY aabb <? 0 - eps) || (inner_h + eps <? maxY aabb) then true
  else false.

Definition collides_with_any (aabb : AABB) (placed : list PlacedItem) (eps : Q) : bool :=
  existsb (fun p => aabb_intersects aabb (p_aabb p) eps) placed.

(** ** catalogs/placed_item.py *)

Definition placed_from_candidate (candidate : Candidate) (item : Item) : PlacedItem :=
  let aabb := c_aabb candidate in
  mkPlacedItem item (c_x candidate) (c_y candidate) (c_z candidate)
    (c_rotationY candidate)
    (c_dx candidate, c_dy candidate, c_dz candidate)
    aabb (minX aabb, minZ aabb) (item_status item).

(** ** constraints/bounds.py *)

Definition check_oob (candidate : Candidate) (vehicle : Vehicle) : bool * list string :=
  if oob_check (c_aabb candidate) vehicle eps9 then (false, ["oob"%string]) else (true, []).

Definition check_collision (candidate : Candidate) (placed : list PlacedItem)
  : bool * list string :=
  if collides_with_any (c_aabb candidate) placed eps9
  then (false, ["collision"%string]) else (true, []).

(** ** constraints/axles.py *)

Definition sum_weights (placed : list PlacedItem) : Q :=
  fold_left (fun total p => total + item_weight (p_item p)) placed 0.

(** The second loop of [compute_loads]: the pair [(axleA, axleB)]. *)
Definition axle_step (L a_pos span : Q) (acc : Q * Q) (p : PlacedItem) : Q * Q :=
  let w := item_weight (p_item p) in
  let z0 := - L / 2 in
  let x_from_head := p_z p - z0 in
  let rb := w * (x_from_head - a_pos) / span in
  let ra := w - rb in
  (fst acc + ra, snd acc + rb).

Definition compute_loads (placed : list PlacedItem) (vehicle : Vehicle) : AxleLoads :=
  let total := sum_weights placed in
  match axleAPosFromHeadM vehicle, axleBPosFromHeadM vehicle with
  | Some a_pos, Some b_pos =>
      if qabs (b_pos - a_pos) <? eps9 then mkAxleLoads 0 0 total
      else
        let L := innerLength vehicle in
        let span := b_pos - a_pos in
        let ab := fold_left (axle_step L a_pos span) placed (0, 0) in
        mkAxleLoads (fst ab) (snd ab) total
  | _, _ => mkAxleLoads 0 0 total
  end.

Definition over_limit (limit : option Q) (load : Q) : bool :=
  match limit with
  | Some l => l + eps9 <? load
  | None => false
  end.

Definition check_loads (loads : AxleLoads) (vehicle : Vehicle) : bool * list string :=
  let reasons := [] in
  let reasons := if over_limit (payloadMaxKg vehicle) (payload_kg loads)
                 then reasons ++ ["payload_limit"%string] else reasons in
  let reasons := if over_limit (axleALimitKg vehicle) (axleA_kg loads)
                 then reasons ++ ["axleA_limit"%string] else reasons in
  let reasons := if over_limit (axleBLimitKg vehicle) (axleB_kg loads)
                 then reasons ++ ["axleB_limit"%string] else reasons in
  (Nat.eqb (length reasons) 0, reasons).

Definition would_pass_with_candidate (placed : list PlacedItem) (candidate : Candidate)
  (item : Item) (vehicle : Vehicle) : bool * list string * AxleLoads :=
  let tmp := placed ++ [placed_from_candidate candidate item] in
  let loads := compute_loads tmp vehicle in
  let '(ok, reasons) := check_loads loads vehicle in
  (ok, reasons, loads).

(** ** settings.py

    The module [settings] is not part of the sources at hand; only its
    uses are.  [SETTINGS] is therefore a parameter of the development.
    Attributes read as [SETTINGS.NAME] are plain fields, attributes read
    with [getattr(SETTINGS, NAME, default)] or [_get_setting] are optional
    fields and the default of the call site applies when they are absent. *)
Record ZoneConfig : Type := mkZoneConfig { zc_a : Q; zc_b : Q; zc_c : Q; zc_d : Q }.

Record Settings : Type := mkSettings {
  EPS : Q;
  MODE_PRESSURE_THRESHOLD : Q;
  FILL_FACTOR_FLOOR_DEFAULT : Q;
  FILL_FACTOR_VOLUME_DEFAULT : Q;
  TOP_N_WINDOW : Z;
  POLICY_SCORE_WEIGHT : option Q;
  PACK_DENSITY_W : option Q;
  PACK_TOUCH_W : option Q;
  PACK_SLACK_W : option Q;
  PATTERN_REJECT_LOG_LIMIT : option Z;
  POLICY_ZONES : option ZoneConfig;
  POLICY_HI_WEIGHT_ABS : option Q;
  POLICY_HI_VOL_ABS : option Q;
  POLICY_HI_WEIGHT_ABS_MIXED : option Q;
  POLICY_W_HI_AB_BONUS : option Q;
  POLICY_W_HI_CD_PENALTY : option Q;
  POLICY_W_LO_CD_BONUS : option Q;
  POLICY_W_LO_AB_PENALTY : option Q;
  POLICY_V_BIG_ABC_BONUS : option Q;
  POLICY_V_BIG_D_PENALTY : option Q;
  POLICY_V_SMALL_CD_BONUS : option Q;
  POLICY_BIG_FOOTPRINT_M2 : option Q;
  POLICY_M_HI_AB_BONUS : option Q;
  POLICY_M_LO_AB_PENALTY : option Q;
  POLICY_OVERSIZE_BONUS : option Q;
  POLICY_BOX_AB_PENALTY : option Q;
  POLICY_BOX_CD_BONUS : option Q;
  POLICY_HARD_OVERSIZE_IN_D : option bool;
  POLICY_CLASS_PRIORITY : option (list (string * Z)) }.

Definition _get_setting (A : Type) (attr : option A) (default : A) : A :=
  match attr with
  | Some v => v
  | None => default
  end.

(** ** Strings: [str.upper] and [sub in s] (byte strings, ASCII letters) *)

Definition upper_ascii (c : ascii) : ascii :=
  let n := nat_of_ascii c in
  if (Nat.leb 97 n && Nat.leb n 122)%bool then ascii_of_nat (n - 32) else c.

Fixpoint upper (s : string) : string :=
  match s with
  | EmptyString => EmptyString
  | String c rest => String (upper_ascii c) (upper rest)
  end.

Fixpoint lower_ascii_string (s : string) : string :=
  match s with
  | EmptyString => EmptyString
  | String c rest =>
      let n := nat_of_ascii c in
      String (if (Nat.leb 65 n && Nat.leb n 90)%bool then ascii_of_nat (n + 32) else c)
             (lower_ascii_string rest)
  end.

Fixpoint str_in (sub s : string) : bool :=
  if String.prefix sub s then true
  else match s with
       | EmptyString => false
       | String _ rest => str_in sub rest
       end.

Fixpoint str_join (sep : string) (parts : list string) : string :=
  match parts with
  | [] => EmptyString
  | [p] => p
  | p :: rest => (p ++ sep ++ str_join sep rest)%string
  end.

(** ** catalogs/item.py *)

Definition footprint_m2 (item : Item) : Q := item_width item * item_length item.

Definition is_box_like (item : Item) : bool :=
  let pt := upper (match item_palletType item with Some s => s | None => EmptyString end) in
  let ptn := upper (match item_palletTypeNorm item with Some s => s | None => EmptyString end) in
  if str_in "BOX" pt || str_in "BOX" ptn then true
  else if footprint_m2 item <=? (2 # 5) * (2 # 5) then true
  else if ((8 # 5) <=? item_height item)
          && (qmin (item_width item) (item_length item) <=? (3 # 5)) then true
  else false.

Definition close_to (tol x y : Q) : bool := qabs (x - y) <=? tol.

Definition is_standard_80x120 (item : Item) (tol_m : Q) : bool :=
  let w := item_width item in
  let l := item_length item in
  let a := 4 # 5 in
  let b := 6 # 5 in
  (close_to tol_m w a && close_to tol_m l b) || (close_to tol_m w b && close_to tol_m l a).

Definition is_fin_100x120 (item : Item) (tol_m : Q) : bool :=
  let w := item_width item in
  let l := item_length item in
  let a := 1 in
  let b := 6 # 5 in
  (close_to tol_m w a && close_to tol_m l b) || (close_to tol_m w b && close_to tol_m l a).

Definition is_square_120 (item : Item) (tol_m : Q) : bool :=
  (qabs (item_width item - (6 # 5)) <=? tol_m) && (qabs (item_length item - (6 # 5)) <=? tol_m).

Definition is_oversize (item : Item) (vehicle_inner_width : option Q) (tol_m : Q) : bool :=
  let w := item_width item in
  let l := item_length item in
  if (8 # 5) + tol_m <=? qmax w l then true
  else if (12 # 5) + tol_m <=? qmax w l then true
  else match vehicle_inner_width with
       | Some viw =>
           if (viw - (1 # 50) <=? w) || (viw - (1 # 50) <=? l) then true else false
       | None => false
       end.

Definition item_class (item : Item) (vehicle_inner_width : option Q) : string :=
  if is_oversize item vehicle_inner_width (1 # 100) then "oversize"
  else if is_standard_80x120 item (3 # 100) || is_fin_100x120 item (3 # 100)
          || is_square_120 item (3 # 100) then "standard"
  else if is_box_like item then "box"
  else "other".

(** ** scoring/coeff.py *)

(** [float(i.ratio) if i.ratio and float(i.ratio) > 0 else 1.0]. *)
Definition ratio_or_one (item : Item) : Q :=
  if 0 <? item_ratio item then item_ratio item else 1.

(** Float division raises [ZeroDivisionError] on a zero divisor. *)
Definition div_checked (a b : Q) : res Q :=
  if Qeq_bool b 0 then Err ZeroDivisionError else Ok (a / b).

Definition item_volume_clamped (item : Item) : Q :=
  qmax 0 (item_width item) * qmax 0 (item_length item) * qmax 0 (item_height item).

(** The accumulation loop of [detect_mode]:
    [(total_weight, total_volume, total_floor_demand)]. *)
Definition mode_totals (items : list Item) : Q * Q * Q :=
  fold_left (fun acc i =>
               let '(tw, tv, tf) := acc in
               (tw + qmax 0 (item_weight i), tv + item_volume_clamped i, tf + ratio_or_one i))
            items (0, 0, 0).

Section WithSettings.
Variable SETTINGS : Settings.

Definition detect_mode (items : list Item) (vehicle : Vehicle) : res ModeDecision :=
  let eps := EPS SETTINGS in
  match items with
  | [] => Ok (mkModeDecision mode_mixed 0 0 0 (Some (1 # 2)))
  | _ =>
      let '(total_weight, total_volume, total_floor_demand) := mode_totals items in
      let weight_capacity :=
        match payloadMaxKg vehicle with
        | Some payload_max => payload_max
        | None => qmax total_weight 1
        end in
      let fill_floor := _get_setting (fillFactorFloor vehicle) (FILL_FACTOR_FLOOR_DEFAULT SETTINGS) in
      let fill_vol := _get_setting (fillFactorVolume vehicle) (FILL_FACTOR_VOLUME_DEFAULT SETTINGS) in
      let floor_capacity_m2 := (innerWidth vehicle * innerLength vehicle) * fill_floor in
      let floor_capacity := floor_capacity_m2 / 1 in
      let vol_capacity :=
        (innerWidth vehicle * innerLength vehicle * innerHeight vehicle) * fill_vol in
      weight_pressure <- div_checked total_weight (qmax weight_capacity eps) ;;
      floor_pressure <- div_checked total_floor_demand (qmax floor_capacity eps) ;;
      volume_pressure <- div_checked total_volume (qmax vol_capacity eps) ;;
      let thr := MODE_PRESSURE_THRESHOLD SETTINGS in
      if (thr <=? weight_pressure) && (floor_pressure <? thr)
      then Ok (mkModeDecision mode_weight weight_pressure floor_pressure volume_pressure None)
      else if (thr <=? floor_pressure) && (weight_pressure <? thr)
      then Ok (mkModeDecision mode_volume weight_pressure floor_pressure volume_pressure None)
      else
        let raw := (weight_pressure - floor_pressure + 1) / 2 in
        let alpha := qmin (4 # 5) (qmax (1 # 5) raw) in
        Ok (mkModeDecision mode_mixed weight_pressure floor_pressure volume_pressure (Some alpha))
  end.

Definition compute_k (item : Item) (mode : ModeDecision) : Q :=
  let r := ratio_or_one item in
  let w := qmax 0 (item_weight item) in
  let vol := item_volume_clamped item in
  match (mode_name mode) with
  | mode_weight => w * r
  | mode_volume => vol * r
  | mode_mixed =>
      let alpha := match alpha mode with Some a => a | None => 1 # 2 end in
      alpha * (w * r) + (1 - alpha) * (vol * r)
  end.

(** ** constraints/policies.py *)

Definition DEFAULT_ZONES : ZoneConfig := mkZoneConfig (1 # 4) (1 # 4) (1 # 4) (1 # 4).

Definition x_from_head (z_center : Q) (vehicle : Vehicle) : Q :=
  let L := innerLength vehicle in
  z_center + (L / 2).

Definition zone_for_z (z_center : Q) (vehicle : Vehicle) (cfg : ZoneConfig) : string :=
  let L := innerLength vehicle in
  let x := x_from_head z_center vehicle in
  let x := if x <? 0 then 0 else x in
  let x := if L <? x then L else x in
  let a_end := L * zc_a cfg in
  let b_end := a_end + L * zc_b cfg in
  let c_end := b_end + L * zc_c cfg in
  if x <=? a_end then "A"
  else if x <=? b_end then "B"
  else if x <=? c_end then "C"
  else "D".

Record PolicyDecision : Type := mkPolicyDecision {
  hard_reject_reasons : list string;
  zone_penalty : Q;
  zone_bonus : Q;
  tag_zone : string;
  tag_class : string;
  tag_hi : string;
  tag_mode : ModeName }.

Definition _zones_from_settings : ZoneConfig :=
  match POLICY_ZONES SETTINGS with
  | None => DEFAULT_ZONES
  | Some z => z
  end.

Definition _is_high_value (item : Item) (mode : ModeDecision) : bool :=
  let thr_w := _get_setting (POLICY_HI_WEIGHT_ABS SETTINGS) 700 in
  let thr_vol := _get_setting (POLICY_HI_VOL_ABS SETTINGS) 1 in
  let thr_mixed_w := _get_setting (POLICY_HI_WEIGHT_ABS_MIXED SETTINGS) thr_w in
  let w := qmax 0 (item_weight item) in
  let vol := item_volume_clamped item in
  match (mode_name mode) with
  | mode_weight => thr_w <=? w
  | mode_volume => thr_vol <=? vol
  | mode_mixed => thr_mixed_w <=? w
  end.

Definition zone_in (zone : string) (zs : list string) : bool :=
  existsb (String.eqb zone) zs.

Definition evaluate_candidate_policy (item : Item) (candidate : Candidate) (vehicle : Vehicle)
  (mode : ModeDecision) (allow_hard_rules : bool) : PolicyDecision :=
  let z := c_z candidate in
  let zone_cfg := _zones_from_settings in
  let zone := zone_for_z z vehicle zone_cfg in
  let cls := item_class item (Some (innerWidth vehicle)) in
  let hi := _is_high_value item mode in
  let hard : list string := [] in
  let penalty : Q := 0 in
  let bonus : Q := 0 in
  let W_HI_AB_BONUS := _get_setting (POLICY_W_HI_AB_BONUS SETTINGS) 2 in
  let W_HI_CD_PENALTY := _get_setting (POLICY_W_HI_CD_PENALTY SETTINGS) 3 in
  let W_LO_CD_BONUS := _get_setting (POLICY_W_LO_CD_BONUS SETTINGS) (1 # 2) in
  let W_LO_AB_PENALTY := _get_setting (POLICY_W_LO_AB_PENALTY SETTINGS) (1 # 2) in
  let V_BIG_ABC_BONUS := _get_setting (POLICY_V_BIG_ABC_BONUS SETTINGS) 1 in
  let V_BIG_D_PENALTY := _get_setting (POLICY_V_BIG_D_PENALTY SETTINGS) 2 in
  let V_SMALL_CD_BONUS := _get_setting (POLICY_V_SMALL_CD_BONUS SETTINGS) (1 # 2) in
  let BIG_FOOTPRINT_M2 := _get_setting (POLICY_BIG_FOOTPRINT_M2 SETTINGS) (8 # 5) in
  let M_HI_AB_BONUS := _get_setting (POLICY_M_HI_AB_BONUS SETTINGS) (3 # 2) in
  let M_LO_AB_PENALTY := _get_setting (POLICY_M_LO_AB_PENALTY SETTINGS) (1 # 2) in
  let OVERSIZE_BONUS := _get_setting (POLICY_OVERSIZE_BONUS SETTINGS) (4 # 5) in
  let BOX_AB_PENALTY := _get_setting (POLICY_BOX_AB_PENALTY SETTINGS) (7 # 10) in
  let BOX_CD_BONUS := _get_setting (POLICY_BOX_CD_BONUS SETTINGS) (3 # 2) in
  let HARD_OVERSIZE_IN_D := _get_setting (POLICY_HARD_OVERSIZE_IN_D SETTINGS) false in
  let '(bonus, penalty) :=
    match (mode_name mode) with
    | mode_weight =>
        if hi then
          if zone_in zone ["A"; "B"]%string then (bonus + W_HI_AB_BONUS, penalty)
          else (bonus, penalty + W_HI_CD_PENALTY)
        else
          if zone_in zone ["C"; "D"]%string then (bonus + W_LO_CD_BONUS, penalty)
          else (bonus, penalty + W_LO_AB_PENALTY)
    | mode_volume =>
        let big_footprint := BIG_FOOTPRINT_M2 <=? item_width item * item_length item in
        if big_footprint then
          if zone_in zone ["A"; "B"; "C"]%string then (bonus + V_BIG_ABC_BONUS, penalty)
          else (bonus, penalty + V_BIG_D_PENALTY)
        else
          if zone_in zone ["C"; "D"]%string then (bonus + V_SMALL_CD_BONUS, penalty)
          else (bonus, penalty)
    | mode_mixed =>
        let bonus := if hi && zone_in zone ["A"; "B"]%string
                     then bonus + M_HI_AB_BONUS else bonus in
        let penalty := if negb hi && zone_in zone ["A"; "B"]%string
                       then penalty + M_LO_AB_PENALTY else penalty in
        (bonus, penalty)
    end in
  let bonus := if String.eqb cls "oversize" then bonus + OVERSIZE_BONUS else bonus in
  let '(bonus, penalty) :=
    if String.eqb cls "box" then
      if zone_in zone ["A"; "B"]%string then (bonus, penalty + BOX_AB_PENALTY)
      else (bonus + BOX_CD_BONUS, penalty)
    else (bonus, penalty) in
  let hard :=
    if allow_hard_rules then
      if HARD_OVERSIZE_IN_D && String.eqb cls "oversize" && String.eqb zone "D"
      then hard ++ ["oversize_in_D"%string] else hard
    else hard in
  mkPolicyDecision hard penalty bonus zone cls (if hi then "1" else "0") (mode_name mode).

Definition CLASS_PRIORITY_DEFAULT : list (string * Z) :=
  [("oversize", 0); ("standard", 1); ("other", 2); ("box", 3)]%string%Z.

Fixpoint dict_get (A : Type) (d : list (string * A)) (key : string) : option A :=
  match d with
  | [] => None
  | (k, v) :: rest => if String.eqb k key then Some v else dict_get rest key
  end.

Definition sort_key_for_queue (item : Item) (vehicle : Vehicle) (mode : ModeDecision) : Z * Q :=
  let cls := item_class item (Some (innerWidth vehicle)) in
  let pr :=
    match POLICY_CLASS_PRIORITY SETTINGS with
    | Some class_priority => _get_setting (dict_get class_priority cls) 99%Z
    | None => _get_setting (dict_get CLASS_PRIORITY_DEFAULT cls) 99%Z
    end in
  let r := ratio_or_one item in
  let w := qmax 0 (item_weight item) in
  let vol := item_volume_clamped item in
  let k :=
    match (mode_name mode) with
    | mode_weight => w * r
    | mode_volume => vol * r
    | mode_mixed =>
        let alpha := match alpha mode with Some a => a | None => 1 # 2 end in
        alpha * (w * r) + (1 - alpha) * (vol * r)
    end in
  (pr, - k).

End WithSettings.

(** ** candidates/patterns.py *)

Definition MAX_PREFIX_STD : nat := 14.
Definition MAX_PREFIX_BIG : nat := 10.
Definition MAX_VARIANTS_3 : nat := 6.
Definition MAX_VARIANTS_5 : nat := 8.
Definition MAX_VARIANTS_140P80 : nat := 20.

(** [items[: min(len(items), n)]] for a non-negative [n]. *)
Definition _top (items : list Item) (n : nat) : list Item := firstn n items.

Definition is_std_80x120 (it : Item) (tol : Q) : bool :=
  let w := item_width it in
  let l := item_length it in
  let a := 4 # 5 in
  let b := 6 # 5 in
  (close_to tol w a && close_to tol l b) || (close_to tol w b && close_to tol l a).

Definition is_140x120 (it : Item) (tol : Q) : bool :=
  let w := item_width it in
  let l := item_length it in
  let a := 7 # 5 in
  let b := 6 # 5 in
  (close_to tol w a && close_to tol l b) || (close_to tol w b && close_to tol l a).

Definition _rot_for (it : Item) (want_w want_l : Q) : Z :=
  if (qabs (item_width it - want_w) <=? (3 # 100))
     && (qabs (item_length it - want_l) <=? (3 # 100))
  then 0%Z else 90%Z.

(** [(it.width, it.length) if rot == 0 else (it.length, it.width)]. *)
Definition dims_for_rot (it : Item) (rot : Z) : Q * Q :=
  if Z.eqb rot 0 then (item_width it, item_length it) else (item_length it, item_width it).

Definition _build_candidate (it : Item) (x y z : Q) (rot : Z) (kind : string) (meta : Meta)
  : Candidate :=
  let '(dx, dz) := dims_for_rot it rot in
  let dy := item_height it in
  let aabb := aabb_from_center x (y + dy / 2) z dx dy dz in
  mkCandidate (item_id it) x y z rot dx dy dz aabb kind meta.

Fixpoint insert_nat (n : nat) (l : list nat) : list nat :=
  match l with
  | [] => [n]
  | m :: t => if Nat.ltb n m then n :: l else m :: insert_nat n t
  end.

Definition sorted_nats (l : list nat) : list nat := fold_right insert_nat [] l.

Definition nat_list_eqb (a b : list nat) : bool :=
  if list_eq_dec Nat.eq_dec a b then true else false.

(** [tuple(items[i] for i in idxs)]; all indices have been checked to be
    below [len(items)], so the lookup cannot fail. *)
Fixpoint pick (items : list Item) (idxs : list nat) : list Item :=
  match idxs with
  | [] => []
  | i :: rest =>
      match nth_error items i with
      | Some it => it :: pick items rest
      | None => pick items rest
      end
  end.

(** The selection loop shared by [_variants_take3] and [_variants_take5]:
    [seen] holds the sorted index tuples already emitted, the loop stops
    as soon as [cap] variants have been produced. *)
Fixpoint variants_loop (cap : nat) (items : list Item) (idx_sets : list (list nat))
  (seen : list (list nat)) (out : list (list Item)) : list (list Item) :=
  match idx_sets with
  | [] => out
  | idxs :: rest =>
      let n := length items in
      if forallb (fun i => Nat.ltb i n) idxs then
        let key := sorted_nats idxs in
        if existsb (nat_list_eqb key) seen then variants_loop cap items rest seen out
        else
          let out := out ++ [pick items idxs] in
          if Nat.leb cap (length out) then out
          else variants_loop cap items rest (key :: seen) out
      else
        if Nat.leb cap (length out) then out
        else variants_loop cap items rest seen out
  end.

Definition _variants_take3 (items : list Item) : list (list Item) :=
  let n := length items in
  if Nat.ltb n 3 then []
  else
    let idx_sets := [[0; 1; 2]]%nat in
    let idx_sets := if Nat.leb 4 n
                    then idx_sets ++ [[0; 1; 3]; [0; 2; 3]; [1; 2; 3]]%nat else idx_sets in
    let idx_sets := if Nat.leb 5 n
                    then idx_sets ++ [[0; 1; 4]; [0; 2; 4]]%nat else idx_sets in
    variants_loop MAX_VARIANTS_3 items idx_sets [] [].

Definition _variants_take5 (items : list Item) : list (list Item) :=
  let n := length items in
  if Nat.ltb n 5 then []
  else
    let idx_sets := [[0; 1; 2; 3; 4]]%nat in
    let idx_sets := if Nat.leb 6 n
                    then idx_sets ++ [[0; 1; 2; 3; 5]; [0; 1; 2; 4; 5]; [0; 1; 3; 4; 5]]%nat
                    else idx_sets in
    let idx_sets := if Nat.leb 7 n
                    then idx_sets ++ [[0; 2; 3; 4; 5]; [1; 2; 3; 4; 5];
                                      [0; 1; 2; 3; 6]; [0; 1; 2; 4; 6]]%nat
                    else idx_sets in
    variants_loop MAX_VARIANTS_5 items idx_sets [] [].

Definition of_nat (j : nat) : Q := inject_Z (Z.of_nat j).

(** The row loop [for j, it in enumerate(row)] of the row-based patterns.
    [None] renders [ok = False; break]: the pack under construction is
    dropped by every caller.  [want_w], [want_l] are the arguments of
    [_rot_for], [max_dx], [max_dz] the admission limits, [slot_w] the
    step of [x] and [mk_meta j] the [meta] dictionary of the member. *)
Fixpoint pattern_row (kind : string) (mk_meta : nat -> Meta) (minX y zc : Q)
  (want_w want_l max_dx max_dz slot_w : Q) (j : nat) (row : list Item)
  : option (list Candidate) :=
  match row with
  | [] => Some []
  | it :: rest =>
      let rot := _rot_for it want_w want_l in
      let '(dx, dz) := dims_for_rot it rot in
      if (max_dx <? dx) || (max_dz <? dz) then None
      else
        let x := minX + (of_nat j * slot_w) + dx / 2 in
        match pattern_row kind mk_meta minX y zc want_w want_l max_dx max_dz slot_w (S j) rest with
        | None => None
        | Some pack => Some (_build_candidate it x y zc rot kind (mk_meta j) :: pack)
        end
  end.

Definition PATTERN_3ACROSS_W : Q := 12 # 5.
Definition PATTERN_3ACROSS_Z : Q := 6 # 5.

Definition gen_3across (rect : Rect) (std_items : list Item) (z_anchor : Q) (pattern_id : string)
  : list (list Candidate) :=
  let '(mkRect minX maxX minZ maxZ) := rect in
  let rect_w := maxX - minX in
  let rect_l := maxZ - minZ in
  if (rect_w + eps9 <? PATTERN_3ACROSS_W) || (rect_l + eps9 <? PATTERN_3ACROSS_Z) then []
  else
    let pool := _top std_items MAX_PREFIX_STD in
    if Nat.ltb (length pool) 3 then []
    else
      let z0 := z_anchor in
      let zc := z0 + PATTERN_3ACROSS_Z / 2 in
      let y := 0 in
      let mk_meta j := mkMeta (Some "3across"%string) (Some pattern_id) (Some rect) (Some z0)
                              None (Some j) None (Some j) None in
      flat_map (fun trio =>
                  match pattern_row "pattern_3across" mk_meta minX y zc
                          (4 # 5) (6 # 5) (43 # 50) (63 # 50) (4 # 5) 0 trio with
                  | Some pack => [pack]
                  | None => []
                  end)
               (_variants_take3 pool).

Definition PATTERN_140P80_W : Q := 11 # 5.
Definition PATTERN_140P80_Z : Q := 6 # 5.

(** State of the two nested loops of [gen_140plus80]: the packs so far,
    [produced], and whether [return out] has been executed. *)
Record Gen140State : Type := mkGen140 {
  g_out : list (list Candidate); g_produced : nat; g_returned : bool }.

Fixpoint gen_140_inner (rect : Rect) (rect_w zc z0 y : Q) (pattern_id : string)
  (bi : Item) (bi_idx : nat) (rot_b : Z) (dx_b : Q)
  (si_idx : nat) (std_pool : list Item) (st : Gen140State) : Gen140State :=
  match std_pool with
  | [] => st
  | si :: rest =>
      let continue_ := gen_140_inner rect rect_w zc z0 y pattern_id bi bi_idx rot_b dx_b
                         (S si_idx) rest in
      let rot_s := _rot_for si (4 # 5) (6 # 5) in
      let '(dx_s, dz_s) := dims_for_rot si rot_s in
      if ((43 # 50) <? dx_s) || ((63 # 50) <? dz_s) then continue_ st
      else if rect_w + eps9 <? dx_b + dx_s then continue_ st
      else
        let minX := rx0 rect in
        let xb := minX + dx_b / 2 in
        let xs := minX + dx_b + dx_s / 2 in
        let meta_b := mkMeta (Some "140plus80"%string) (Some pattern_id) (Some rect) (Some z0)
                             None None (Some "big"%string) (Some bi_idx) None in
        let meta_s := mkMeta (Some "140plus80"%string) (Some pattern_id) (Some rect) (Some z0)
                             None None (Some "std"%string) (Some si_idx) None in
        let out := g_out st ++
                   [[_build_candidate bi xb y zc rot_b "pattern_140plus80" meta_b;
                     _build_candidate si xs y zc rot_s "pattern_140plus80" meta_s]] in
        let produced := S (g_produced st) in
        if Nat.leb MAX_VARIANTS_140P80 produced then mkGen140 out produced true
        else continue_ (mkGen140 out produced false)
  end.

Fixpoint gen_140_outer (rect : Rect) (rect_w zc z0 y : Q) (pattern_id : string)
  (std_pool : list Item) (bi_idx : nat) (big_pool : list Item) (st : Gen140State)
  : Gen140State :=
  match big_pool with
  | [] => st
  | bi :: rest =>
      let rot_b := _rot_for bi (7 # 5) (6 # 5) in
      let '(dx_b, dz_b) := dims_for_rot bi rot_b in
      if ((73 # 50) <? dx_b) || ((63 # 50) <? dz_b)
      then gen_140_outer rect rect_w zc z0 y pattern_id std_pool (S bi_idx) rest st
      else
        let st := gen_140_inner rect rect_w zc z0 y pattern_id bi bi_idx rot_b dx_b
                    0 std_pool st in
        if g_returned st then st
        else gen_140_outer rect rect_w zc z0 y pattern_id std_pool (S bi_idx) rest st
  end.

Definition gen_140plus80 (rect : Rect) (big_items std_items : list Item) (z_anchor : Q)
  (pattern_id : string) : list (list Candidate) :=
  let '(mkRect minX maxX minZ maxZ) := rect in
  let rect_w := maxX - minX in
  let rect_l := maxZ - minZ in
  if (rect_w + eps9 <? PATTERN_140P80_W) || (rect_l + eps9 <? PATTERN_140P80_Z) then []
  else
    let big_pool := _top big_items MAX_PREFIX_BIG in
    let std_pool := _top std_items MAX_PREFIX_STD in
    match big_pool, std_pool with
    | [], _ => []
    | _, [] => []
    | _, _ =>
        let z0 := z_anchor in
        let zc := z0 + PATTERN_140P80_Z / 2 in
        let y := 0 in
        g_out (gen_140_outer rect rect_w zc z0 y pattern_id std_pool 0 big_pool
                 (mkGen140 [] 0 false))
    end.

Definition PATTERN_3P2_W : Q := 12 # 5.
Definition PATTERN_3P2_Z : Q := 2.

Definition gen_3plus2 (rect : Rect) (std_items : list Item) (z_anchor : Q) (pattern_id : string)
  : list (list Candidate) :=
  let '(mkRect minX maxX minZ maxZ) := rect in
  let rect_w := maxX - minX in
  let rect_l := maxZ - minZ in
  if (rect_w + eps9 <? PATTERN_3P2_W) || (rect_l + eps9 <? PATTERN_3P2_Z) then []
  else
    let pool := _top std_items MAX_PREFIX_STD in
    if Nat.ltb (length pool) 5 then []
    else
      let z0 := z_anchor in
      let zc1 := z0 + (6 # 5) / 2 in
      let z1 := z0 + (6 # 5) in
      let zc2 := z1 + (4 # 5) / 2 in
      let y := 0 in
      let meta1 j := mkMeta (Some "3plus2"%string) (Some pattern_id) (Some rect) (Some z0)
                            (Some 1%nat) (Some j) None (Some j) None in
      let meta2 j := mkMeta (Some "3plus2"%string) (Some pattern_id) (Some rect) (Some z0)
                            (Some 2%nat) (Some j) None (Some (3 + j)%nat) None in
      flat_map (fun five =>
                  let row1 := firstn 3 five in
                  let row2 := skipn 3 five in
                  match pattern_row "pattern_3plus2" meta1 minX y zc1
                          (4 # 5) (6 # 5) (43 # 50) (63 # 50) (4 # 5) 0 row1 with
                  | None => []
                  | Some pack1 =>
                      match pattern_row "pattern_3plus2" meta2 minX y zc2
                              (6 # 5) (4 # 5) (63 # 50) (43 # 50) (6 # 5) 0 row2 with
                      | None => []
                      | Some pack2 => [pack1 ++ pack2]
                      end
                  end)
               (_variants_take5 pool).

Definition PATTERN_ZIGZAG_W : Q := 12 # 5.
Definition PATTERN_ZIGZAG_Z : Q := 2.

Definition gen_zigzag (rect : Rect) (std_items : list Item) (z_anchor : Q) (pattern_id : string)
  : list (list Candidate) :=
  let '(mkRect minX maxX minZ maxZ) := rect in
  let rect_w := maxX - minX in
  let rect_l := maxZ - minZ in
  if (rect_w + eps9 <? PATTERN_ZIGZAG_W) || (rect_l + eps9 <? PATTERN_ZIGZAG_Z) then []
  else
    let pool := _top std_items MAX_PREFIX_STD in
    if Nat.ltb (length pool) 5 then []
    else
      let z0 := z_anchor in
      let zc1 := z0 + (4 # 5) / 2 in
      let z1 := z0 + (4 # 5) in
      let zc2 := z1 + (6 # 5) / 2 in
      let y := 0 in
      let meta1 j := mkMeta (Some "zigzag"%string) (Some pattern_id) (Some rect) (Some z0)
                            (Some 1%nat) (Some j) None (Some j) None in
      let meta2 j := mkMeta (Some "zigzag"%string) (Some pattern_id) (Some rect) (Some z0)
                            (Some 2%nat) (Some j) None (Some (2 + j)%nat) None in
      flat_map (fun five =>
                  let row1 := firstn 2 five in
                  let row2 := skipn 2 five in
                  match pattern_row "pattern_zigzag" meta1 minX y zc1
                          (6 # 5) (4 # 5) (63 # 50) (43 # 50) (6 # 5) 0 row1 with
                  | None => []
                  | Some pack1 =>
                      match pattern_row "pattern_zigzag" meta2 minX y zc2
                              (4 # 5) (6 # 5) (43 # 50) (63 # 50) (4 # 5) 0 row2 with
                      | None => []
                      | Some pack2 => [pack1 ++ pack2]
                      end
                  end)
               (_variants_take5 pool).

(** ** candidates/generators.py *)

(** [round(x, 6)] as the integer number of millionths, ties to even. *)
Definition round6 (x : Q) : Z :=
  let y := x * 1000000 in
  let f := Qfloor y in
  let d := y - inject_Z f in
  if d <? (1 # 2) then f
  else if (1 # 2) <? d then (f + 1)%Z
  else if Z.even f then f else (f + 1)%Z.

Definition key_eqb (a b : Z * Z) : bool := Z.eqb (fst a) (fst b) && Z.eqb (snd a) (snd b).

Fixpoint dedupe_anchors (pts : list (Q * Q)) (seen : list (Z * Z)) : list (Q * Q) :=
  match pts with
  | [] => []
  | (x, z) :: rest =>
      let k := (round6 x, round6 z) in
      if existsb (key_eqb k) seen then dedupe_anchors rest seen
      else (x, z) :: dedupe_anchors rest (k :: seen)
  end.

Definition _anchors_for_rect (r : Rect) (dx dz : Q) : list (Q * Q) :=
  let '(mkRect minX maxX minZ maxZ) := r in
  let x0 := minX in
  let x1 := maxX - dx in
  let z0 := minZ in
  let z1 := maxZ - dz in
  if (x1 <? x0 - eps9) || (z1 <? z0 - eps9) then []
  else dedupe_anchors [(x0, z0); (x1, z0); (x0, z1); (x1, z1)] [].

Definition _z_anchors_for_len (rect : Rect) (slot_len : Q) : list Q :=
  let '(mkRect minX maxX minZ maxZ) := rect in
  if (maxZ - minZ) + eps9 <? slot_len then []
  else [minZ; maxZ - slot_len].

Definition set_patternId (c : Candidate) (pid : string) : Candidate :=
  let m := c_meta c in
  mkCandidate (c_itemId c) (c_x c) (c_y c) (c_z c) (c_rotationY c)
    (c_dx c) (c_dy c) (c_dz c) (c_aabb c) (c_kind c)
    (mkMeta (m_pattern m) (Some pid) (m_rect m) (m_slotZ0 m) (m_row m) (m_idx m)
            (m_role m) (m_kRank m) (m_anchor m)).

Definition _assign_pattern_id (pack : list Candidate) (pid : string) : list Candidate :=
  map (fun c => set_patternId c pid) pack.

(** [f"p{pattern_seq}"]. *)
Definition pattern_pid (pattern_seq : nat) : string :=
  ("p" ++ NilEmpty.string_of_uint (Nat.to_uint pattern_seq))%string.

(** [for pack in packs: pid = ...; pattern_seq += 1; ...; out.extend(pack)]
    on the pair [(out, pattern_seq)]. *)
Definition assign_packs (packs : list (list Candidate)) (st : list Candidate * nat)
  : list Candidate * nat :=
  fold_left (fun st pack =>
               (fst st ++ _assign_pattern_id pack (pattern_pid (snd st)), S (snd st)))
            packs st.

Definition patterns_for_rect (std_items big_140 : list Item)
  (st : list Candidate * nat) (r : Rect) : list Candidate * nat :=
  let st := fold_left (fun st z0 => assign_packs (gen_3across r std_items z0 "scan") st)
                      (_z_anchors_for_len r PATTERN_3ACROSS_Z) st in
  let st := fold_left (fun st z0 => assign_packs (gen_140plus80 r big_140 std_items z0 "scan") st)
                      (_z_anchors_for_len r PATTERN_140P80_Z) st in
  let st := fold_left (fun st z0 => assign_packs (gen_3plus2 r std_items z0 "scan") st)
                      (_z_anchors_for_len r PATTERN_3P2_Z) st in
  let st := fold_left (fun st z0 => assign_packs (gen_zigzag r std_items z0 "scan") st)
                      (_z_anchors_for_len r PATTERN_ZIGZAG_Z) st in
  st.

(** [sorted(xs, key=rect_area, reverse=True)]: stable, largest first. *)
Fixpoint insert_by_area (r : Rect) (l : list Rect) : list Rect :=
  match l with
  | [] => [r]
  | y :: t => if rect_area y <? rect_area r then r :: l else y :: insert_by_area r t
  end.

Definition sort_by_area_desc (l : list Rect) : list Rect :=
  fold_left (fun acc r => insert_by_area r acc) l [].

Definition single_candidates_for (rects : list Rect) (it : Item) (rot : Z) : list Candidate :=
  let '(dx, dz) := dims_for_rot it rot in
  let dy := item_height it in
  flat_map (fun r =>
              let '(mkRect minX maxX minZ maxZ) := r in
              if (maxX - minX) + eps9 <? dx then []
              else if (maxZ - minZ) + eps9 <? dz then []
              else
                map (fun a =>
                       let '(ax, az) := a in
                       let x := ax + dx / 2 in
                       let z := az + dz / 2 in
                       let y := 0 in
                       let aabb := aabb_from_center x (y + dy / 2) z dx dy dz in
                       mkCandidate (item_id it) x y z rot dx dy dz aabb "single"
                         (mkMeta None None (Some r) None None None None None (Some (ax, az))))
                    (_anchors_for_rect r dx dz))
           rects.

(** [generate_floor_candidates(state, items_subset)] reads only
    [state.free_rects]. *)
Definition generate_floor_candidates (free_rects : FreeRects) (items_subset : list Item)
  : list Candidate :=
  let rects := firstn 250 (sort_by_area_desc (rects free_rects)) in
  let std_items := filter (fun it => is_std_80x120 it (3 # 100)) items_subset in
  let big_140 := filter (fun it => is_140x120 it (3 # 100)) items_subset in
  let patterns := fst (fold_left (patterns_for_rect std_items big_140) rects ([], O)) in
  let singles :=
    flat_map (fun it => flat_map (single_candidates_for rects it) [0%Z; 90%Z]) items_subset in
  patterns ++ singles.

(** ** catalogs/plan_state.py, scoring/objective.py, solver/packer.py *)

Definition Score : Type := (Z * Q * Q * Q)%type.
Definition PatScore : Type := (Z * Q * Q * Q * Q)%type.

(** The [dbg] dictionary of [_packing_quality]. *)
Record PackDbg : Type := mkPackDbg {
  dbg_used : Q; dbg_bboxArea : Q; dbg_density : Q;
  dbg_slack : Q; dbg_touch : Q; dbg_quality : Q }.

(** The payloads of the events the packer emits. *)
Inductive Payload : Type :=
| PModeDetected (m : ModeDecision)
| PCandidatesGenerated (count window singleCount patternCandCount patternGroups : nat)
| PPatternNotAvailable (patternId : string) (missingItemIds : list string) (groupSize : nat)
| PPatternRejected (patternId reason : string) (reasons : list string) (groupSize : nat)
| PPatternRejectSummary (groups logged : nat) (stats : list (string * nat)) (logLimit : Z)
| PUnplacedAllRemaining (count : nat)
| PPatternCommitted (patternId : option string) (count : nat) (itemIds : list string)
    (score : option PatScore) (packing : option PackDbg)
| PCandidateChosen (itemId kind : string) (score : option Score)
    (policy : option (string * string * string * Q * Q)).

Record DebugEvent : Type := mkDebugEvent { evt : string; payload : Payload }.

Record PlanState : Type := mkPlanState {
  ps_task_id : string;
  ps_transport_type : string;
  ps_vehicle : Vehicle;
  ps_mode : ModeDecision;
  ps_debug : list DebugEvent;
  ps_items_by_id : list (string * Item);
  ps_placed : list PlacedItem;
  ps_unplaced : list Item;
  ps_free_rects : FreeRects;
  ps_loads : option AxleLoads }.

Record PlanResult : Type := mkPlanResult {
  pr_taskId : string;
  pr_transportType : string;
  pr_vehicle : Vehicle;
  pr_mode : ModeDecision;
  pr_placed : list PlacedItem;
  pr_unplaced : list Item;
  pr_loads : option AxleLoads;
  pr_debug : list DebugEvent }.

(** [d[key] = value] on an insertion-ordered dictionary. *)
Fixpoint dict_set (A : Type) (d : list (string * A)) (key : string) (value : A)
  : list (string * A) :=
  match d with
  | [] => [(key, value)]
  | (k, v) :: rest =>
      if String.eqb k key then (k, value) :: rest else (k, v) :: dict_set rest key value
  end.

(** [d[key]], which raises [KeyError] on a missing key. *)
Definition dict_lookup (A : Type) (d : list (string * A)) (key : string) : res A :=
  match dict_get d key with
  | Some v => Ok v
  | None => Err (KeyError key)
  end.

Definition with_debug (s : PlanState) (d : list DebugEvent) : PlanState :=
  mkPlanState (ps_task_id s) (ps_transport_type s) (ps_vehicle s) (ps_mode s) d
    (ps_items_by_id s) (ps_placed s) (ps_unplaced s) (ps_free_rects s) (ps_loads s).

Definition emit (s : PlanState) (e : string) (p : Payload) : PlanState :=
  with_debug s (ps_debug s ++ [mkDebugEvent e p]).

Definition init_free_rects (s : PlanState) : PlanState :=
  mkPlanState (ps_task_id s) (ps_transport_type s) (ps_vehicle s) (ps_mode s) (ps_debug s)
    (ps_items_by_id s) (ps_placed s) (ps_unplaced s) (init_for_vehicle (ps_vehicle s))
    (ps_loads s).

Definition can_place (s : PlanState) (cand : Candidate) : res (bool * list string) :=
  let reasons : list string := [] in
  let '(ok, r) := check_oob cand (ps_vehicle s) in
  if negb ok then Ok (false, reasons ++ r)
  else
    let '(ok, r) := check_collision cand (ps_placed s) in
    if negb ok then Ok (false, reasons ++ r)
    else
      item <- dict_lookup (ps_items_by_id s) (c_itemId cand) ;;
      let tmp_placed := ps_placed s ++ [placed_from_candidate cand item] in
      let loads := compute_loads tmp_placed (ps_vehicle s) in
      let '(ok, r) := check_loads loads (ps_vehicle s) in
      if negb ok then Ok (false, reasons ++ r)
      else Ok (true, []).

Definition commit (s : PlanState) (cand : Candidate) : res PlanState :=
  item <- dict_lookup (ps_items_by_id s) (c_itemId cand) ;;
  let p := placed_from_candidate cand item in
  let placed := ps_placed s ++ [p] in
  let used := mkRect (minX (c_aabb cand)) (maxX (c_aabb cand))
                     (minZ (c_aabb cand)) (maxZ (c_aabb cand)) in
  let free_rects := reserve (ps_free_rects s) used in
  let loads := compute_loads placed (ps_vehicle s) in
  Ok (mkPlanState (ps_task_id s) (ps_transport_type s) (ps_vehicle s) (ps_mode s) (ps_debug s)
        (ps_items_by_id s) placed (ps_unplaced s) free_rects (Some loads)).

Definition snapshot (s : PlanState) : PlanResult :=
  mkPlanResult (ps_task_id s) (ps_transport_type s) (ps_vehicle s) (ps_mode s)
    (ps_placed s) (ps_unplaced s) (ps_loads s) (ps_debug s).

(** [groups.setdefault(pid, []).append(c)]. *)
Fixpoint group_append (groups : list (string * list Candidate)) (pid : string) (c : Candidate)
  : list (string * list Candidate) :=
  match groups with
  | [] => [(pid, [c])]
  | (k, g) :: rest =>
      if String.eqb k pid then (k, g ++ [c]) :: rest else (k, g) :: group_append rest pid c
  end.

(** [(c.get("meta") or {}).get("patternId")], [None] when absent or empty
    (the test is [if not pid]). *)
Definition pattern_id_of (c : Candidate) : option string :=
  match m_patternId (c_meta c) with
  | Some pid => if String.eqb pid EmptyString then None else Some pid
  | None => None
  end.

Definition _group_pattern_candidates (cands : list Candidate)
  : list (string * list Candidate) :=
  fold_left (fun groups c =>
               match pattern_id_of c with
               | None => groups
               | Some pid => group_append groups pid c
               end)
            cands [].

(** [for i in range(len(group)): for j in range(i): ...]; [prev] holds
    [group[0 .. i-1]]. *)
Fixpoint internal_collision (prev rest : list Candidate) : bool :=
  match rest with
  | [] => false
  | c :: t =>
      if existsb (fun d => aabb_intersects (c_aabb c) (c_aabb d) eps9) prev then true
      else internal_collision (prev ++ [c]) t
  end.

(** Step 2 of [_can_commit_group]: the first member that fails a gate
    decides the answer. *)
Fixpoint group_gates (vehicle : Vehicle) (placed : list PlacedItem) (group : list Candidate)
  : bool * list string :=
  match group with
  | [] => (true, [])
  | c :: rest =>
      let '(ok, r) := check_oob c vehicle in
      if negb ok then (false, r)
      else
        let '(ok, r) := check_collision c placed in
        if negb ok then (false, r)
        else group_gates vehicle placed rest
  end.

Definition _can_commit_group (s : PlanState) (group : list Candidate)
  : res (bool * list string) :=
  let reasons : list string := [] in
  if internal_collision [] group then Ok (false, ["pattern_internal_collision"%string])
  else
    let '(ok, r) := group_gates (ps_vehicle s) (ps_placed s) group in
    if negb ok then Ok (false, r)
    else
      tmp_placed <- foldM (fun tmp c =>
                             it <- dict_lookup (ps_items_by_id s) (c_itemId c) ;;
                             Ok (tmp ++ [placed_from_candidate c it]))
                          group (ps_placed s) ;;
      let loads := compute_loads tmp_placed (ps_vehicle s) in
      let '(ok, r) := check_loads loads (ps_vehicle s) in
      if negb ok then Ok (false, reasons ++ r)
      else Ok (true, []).

Definition _pat_reason_bucket (reasons : list string) : string :=
  match reasons with
  | [] => "unknown"
  | _ =>
      let s := lower_ascii_string (str_join "|" reasons) in
      if str_in "pattern_internal_collision" s then "internal_collision"
      else if str_in "oob" s || str_in "out" s then "oob"
      else if str_in "collision" s || str_in "intersect" s then "collision"
      else if str_in "axle" s || str_in "load" s || str_in "support" s then "axles"
      else "other"
  end.

(** The accumulation loop of [_packing_quality]:
    [(used, minX, maxX, minZ, maxZ)]. *)
Definition quality_bbox (group : list Candidate) : Q * Q * Q * Q * Q :=
  fold_left (fun acc c =>
               let '(used, mnX, mxX, mnZ, mxZ) := acc in
               let a := c_aabb c in
               (used + c_dx c * c_dz c,
                qmin mnX (minX a), qmax mxX (maxX a),
                qmin mnZ (minZ a), qmax mxZ (maxZ a)))
            group
            (0, 1000000000000000000, - (1000000000000000000),
             1000000000000000000, - (1000000000000000000)).

Definition lex_gt4 (a b : Score) : bool :=
  let '(a0, a1, a2, a3) := a in
  let '(b0, b1, b2, b3) := b in
  if negb (Z.eqb a0 b0) then Z.ltb b0 a0
  else if negb (Qeq_bool a1 b1) then b1 <? a1
  else if negb (Qeq_bool a2 b2) then b2 <? a2
  else b3 <? a3.

Definition lex_gt5 (a b : PatScore) : bool :=
  let '(a0, a1, a2, a3, a4) := a in
  let '(b0, b1, b2, b3, b4) := b in
  if negb (Z.eqb a0 b0) then Z.ltb b0 a0
  else if negb (Qeq_bool a1 b1) then b1 <? a1
  else if negb (Qeq_bool a2 b2) then b2 <? a2
  else if negb (Qeq_bool a3 b3) then b3 <? a3
  else b4 <? a4.

(** [stats[k] = stats.get(k, 0) + 1]. *)
Definition stat_incr (stats : list (string * nat)) (k : string) : list (string * nat) :=
  dict_set stats k (S (_get_setting (dict_get stats k) O)).

(** [remaining[:n]] for a Python integer [n]. *)
Definition slice_to (A : Type) (l : list A) (n : Z) : list A :=
  if (0 <=? n)%Z then firstn (Z.to_nat n) l
  else firstn (length l - Z.to_nat (- n)) l.

Definition set_status (it : Item) (st : ItemStatus) : Item :=
  mkItem (item_id it) (item_palletType it) (item_palletTypeNorm it)
    (item_width it) (item_length it) (item_height it) (item_weight it) (item_ratio it)
    (item_canBeBase it) (item_canBeStacked it) st.

(** Tuple comparison [key(x) < key(y)] on [(int, float)] keys. *)
Definition key_lt (a b : Z * Q) : bool :=
  if negb (Z.eqb (fst a) (fst b)) then Z.ltb (fst a) (fst b) else snd a <? snd b.

(** [list.sort(key=...)]: stable, smallest key first. *)
Fixpoint insert_by_key (key : Item -> Z * Q) (x : Item) (l : list Item) : list Item :=
  match l with
  | [] => [x]
  | y :: t => if key_lt (key x) (key y) then x :: l else y :: insert_by_key key x t
  end.

Definition sort_by_key (key : Item -> Z * Q) (l : list Item) : list Item :=
  fold_left (fun acc x => insert_by_key key x acc) l [].

Inductive Step : Type :=
| Exhausted (s : PlanState)
| Continue (s : PlanState) (remaining : list Item).

(** Best pattern so far: group, score, pattern id, quality record. *)
Record PatBest : Type := mkPatBest {
  pb_group : list Candidate; pb_score : PatScore; pb_pid : string;
  pb_dbg : option PackDbg }.

(** State of the loop over [pattern_groups.items()]. *)
Record PatLoop : Type := mkPatLoop {
  pl_state : PlanState;
  pl_best : option PatBest;
  pl_logged : nat;
  pl_stats : list (string * nat) }.

(** Best single so far: candidate, score, policy decision. *)
Record SingleBest : Type := mkSingleBest {
  sb_cand : Candidate; sb_score : Score; sb_pol : PolicyDecision }.

Section Packer.
Variable SETTINGS : Settings.

Definition score_candidate (s : PlanState) (candidate : Candidate) (mode : ModeDecision)
  : res Score :=
  item <- dict_lookup (ps_items_by_id s) (c_itemId candidate) ;;
  let k := compute_k item mode in
  let used_area := c_dx candidate * c_dz candidate in
  Ok (1%Z, k, used_area, 0).

Definition _apply_policy_to_score (sc : Score) (pol : PolicyDecision) : Score :=
  let w := _get_setting (POLICY_SCORE_WEIGHT SETTINGS) 1 in
  let term := w * (zone_bonus pol - zone_penalty pol) in
  let '(sc0, sc1, sc2, sc3) := sc in
  (sc0, sc1, sc2, sc3 + term).

Definition _packing_quality (group : list Candidate) : Q * option PackDbg :=
  match group with
  | [] => (0, None)
  | first :: _ =>
      let '(used, mnX, mxX, mnZ, mxZ) := quality_bbox group in
      let bbox_w := qmax 0 (mxX - mnX) in
      let bbox_l := qmax 0 (mxZ - mnZ) in
      let bbox_area := bbox_w * bbox_l in
      let density := if eps9 <? bbox_area then used / bbox_area else 0 in
      let '(slack, touch) :=
        match m_rect (c_meta first) with
        | Some (mkRect rminX rmaxX rminZ rmaxZ) =>
            let left_gap := qmax 0 (mnX - rminX) in
            let right_gap := qmax 0 (rmaxX - mxX) in
            let front_gap := qmax 0 (mnZ - rminZ) in
            let back_gap := qmax 0 (rmaxZ - mxZ) in
            let slack := left_gap + right_gap + front_gap + back_gap in
            let eps := 1 # 1000 in
            let t := 0%nat in
            let t := if left_gap <=? eps then S t else t in
            let t := if right_gap <=? eps then S t else t in
            let t := if front_gap <=? eps then S t else t in
            let t := if back_gap <=? eps then S t else t in
            (slack, of_nat t)
        | None => (0, 0)
        end in
      let DENSITY_W := _get_setting (PACK_DENSITY_W SETTINGS) 10 in
      let TOUCH_W := _get_setting (PACK_TOUCH_W SETTINGS) (3 # 5) in
      let SLACK_W := _get_setting (PACK_SLACK_W SETTINGS) (3 # 2) in
      let quality := (DENSITY_W * density) + (TOUCH_W * touch) - (SLACK_W * slack) in
      (quality, Some (mkPackDbg used bbox_area density slack touch quality))
  end.

Definition log_limit : Z := _get_setting (PATTERN_REJECT_LOG_LIMIT SETTINGS) 25%Z.

(** [if pattern_rejects_logged < LIMIT: state.emit(...); logged += 1]. *)
Definition log_reject (st : PatLoop) (bucket : string) (p : Payload) : PatLoop :=
  let stats := stat_incr (pl_stats st) bucket in
  if (Z.of_nat (pl_logged st) <? log_limit)%Z
  then mkPatLoop (emit (pl_state st) "pattern_rejected" p) (pl_best st)
                 (S (pl_logged st)) stats
  else mkPatLoop (pl_state st) (pl_best st) (pl_logged st) stats.

(** The policy loop over a group; [inl reasons] renders [bad = True]. *)
Fixpoint group_policies (s : PlanState) (vehicle : Vehicle) (mode : ModeDecision)
  (group : list Candidate) (terms : list PolicyDecision)
  : res (list string + list PolicyDecision) :=
  match group with
  | [] => Ok (inr terms)
  | c :: rest =>
      it <- dict_lookup (ps_items_by_id s) (c_itemId c) ;;
      let pol := evaluate_candidate_policy SETTINGS it c vehicle mode false in
      match hard_reject_reasons pol with
      | [] => group_policies s vehicle mode rest (terms ++ [pol])
      | hard => Ok (inl hard)
      end
  end.

(** The scoring loop over a group: [(used_area_sum, k_sum, policy_sum)].
    [group_pol_terms[idx]] exists for every member. *)
Fixpoint group_scores (s : PlanState) (mode : ModeDecision)
  (group : list Candidate) (terms : list PolicyDecision) (acc : Q * Q * Q) : res (Q * Q * Q) :=
  match group, terms with
  | c :: rest, pol :: terms' =>
      sc <- score_candidate s c mode ;;
      let '(_, sc1, sc2, sc3) := _apply_policy_to_score sc pol in
      let '(used_area_sum, k_sum, policy_sum) := acc in
      group_scores s mode rest terms' (used_area_sum + sc2, k_sum + sc1, policy_sum + sc3)
  | _, _ => Ok acc
  end.

Definition in_ids (ids : list string) (key : string) : bool := existsb (String.eqb key) ids.

(** One pass of [for pid, group in pattern_groups.items()]. *)
Definition pattern_step (vehicle : Vehicle) (mode : ModeDecision) (rem_ids : list string)
  (st : PatLoop) (entry : string * list Candidate) : res PatLoop :=
  let '(pid, group) := entry in
  if existsb (fun c => negb (in_ids rem_ids (c_itemId c))) group then
    let missing := map c_itemId (filter (fun c => negb (in_ids rem_ids (c_itemId c))) group) in
    Ok (log_reject st "not_available"
          (PPatternNotAvailable pid (firstn 20 missing) (length group)))
  else
    '(ok, reasons) <- _can_commit_group (pl_state st) group ;;
    if negb ok then
      let bucket := _pat_reason_bucket reasons in
      Ok (log_reject st bucket (PPatternRejected pid bucket (firstn 20 reasons) (length group)))
    else
      pols <- group_policies (pl_state st) vehicle mode group [] ;;
      match pols with
      | inl hard_reasons =>
          Ok (log_reject st "policy_hard"
                (PPatternRejected pid "policy_hard" (firstn 20 hard_reasons) (length group)))
      | inr group_pol_terms =>
          '(used_area_sum, k_sum, policy_sum) <-
             group_scores (pl_state st) mode group group_pol_terms (0, 0, 0) ;;
          let '(quality, qdbg) := _packing_quality group in
          let pat_score : PatScore := (1%Z, quality, used_area_sum, policy_sum, k_sum) in
          let better :=
            match pl_best st with
            | None => true
            | Some b => lex_gt5 pat_score (pb_score b)
            end in
          if better
          then Ok (mkPatLoop (pl_state st)
                     (Some (mkPatBest group pat_score pid qdbg))
                     (pl_logged st) (pl_stats st))
          else Ok st
      end.

(** One pass of [for cand in candidates] of the single-candidate search. *)
Definition single_step (s : PlanState) (vehicle : Vehicle) (mode : ModeDecision)
  (best : option SingleBest) (cand : Candidate) : res (option SingleBest) :=
  match pattern_id_of cand with
  | Some _ => Ok best
  | None =>
      '(ok, reasons) <- can_place s cand ;;
      if negb ok then Ok best
      else
        it <- dict_lookup (ps_items_by_id s) (c_itemId cand) ;;
        let pol := evaluate_candidate_policy SETTINGS it cand vehicle mode false in
        match hard_reject_reasons pol with
        | _ :: _ => Ok best
        | [] =>
            sc <- score_candidate s cand mode ;;
            let sc := _apply_policy_to_score sc pol in
            let better :=
              match best with
              | None => true
              | Some b => lex_gt4 sc (sb_score b)
              end in
            if better then Ok (Some (mkSingleBest cand sc pol)) else Ok best
        end
  end.

Definition count_pattern_cands (candidates : list Candidate) : nat :=
  length (filter (fun c => match pattern_id_of c with Some _ => true | None => false end)
            candidates).

(** The body of [while remaining], after the candidates have been
    generated. *)
Definition select_and_commit (state : PlanState) (vehicle : Vehicle) (mode : ModeDecision)
  (remaining window : list Item) (candidates : list Candidate) : res Step :=
  let rem_ids := map item_id remaining in
  let pattern_groups := _group_pattern_candidates candidates in
  let pat_count := count_pattern_cands candidates in
  let single_count := (length candidates - pat_count)%nat in
  let state := emit state "candidates_generated"
                 (PCandidatesGenerated (length candidates) (length window)
                    single_count pat_count (length pattern_groups)) in
  pl <- foldM (pattern_step vehicle mode rem_ids) pattern_groups
          (mkPatLoop state None O []) ;;
  let state := pl_state pl in
  let state := match pattern_groups with
               | [] => state
               | _ => emit state "pattern_reject_summary"
                        (PPatternRejectSummary (length pattern_groups) (pl_logged pl)
                           (pl_stats pl) log_limit)
               end in
  best_single <- foldM (single_step state vehicle mode) candidates None ;;
  match pl_best pl, best_single with
  | None, None =>
      let state :=
        mkPlanState (ps_task_id state) (ps_transport_type state) (ps_vehicle state)
          (ps_mode state) (ps_debug state) (ps_items_by_id state) (ps_placed state)
          (ps_unplaced state ++ map (fun it => set_status it st_unplaced) remaining)
          (ps_free_rects state) (ps_loads state) in
      Ok (Exhausted (emit state "unplaced_all_remaining"
                       (PUnplacedAllRemaining (length remaining))))
  | Some best_pat, _ =>
      state <- foldM commit (pb_group best_pat) state ;;
      let committed_ids := map c_itemId (pb_group best_pat) in
      let state := emit state "pattern_committed"
                     (PPatternCommitted (Some (pb_pid best_pat)) (length (pb_group best_pat))
                        committed_ids (Some (pb_score best_pat)) (pb_dbg best_pat)) in
      Ok (Continue state
            (filter (fun it => negb (in_ids committed_ids (item_id it))) remaining))
  | None, Some best =>
      state <- commit state (sb_cand best) ;;
      let pol := sb_pol best in
      let state := emit state "candidate_chosen"
                     (PCandidateChosen (c_itemId (sb_cand best)) (c_kind (sb_cand best))
                        (Some (sb_score best))
                        (Some (tag_zone pol, tag_class pol, tag_hi pol,
                               zone_bonus pol, zone_penalty pol))) in
      Ok (Continue state
            (filter (fun it => negb (String.eqb (item_id it) (c_itemId (sb_cand best))))
                    remaining))
  end.

Definition pack_iteration (state : PlanState) (vehicle : Vehicle) (mode : ModeDecision)
  (remaining : list Item) : res Step :=
  let window := slice_to remaining (TOP_N_WINDOW SETTINGS) in
  let candidates := generate_floor_candidates (ps_free_rects state) window in
  select_and_commit state vehicle mode remaining window candidates.

(** [while remaining: ...], bounded by [fuel] iterations. *)
Fixpoint pack_loop (fuel : nat) (state : PlanState) (vehicle : Vehicle) (mode : ModeDecision)
  (remaining : list Item) : res PlanState :=
  match remaining with
  | [] => Ok state
  | _ :: _ =>
      match fuel with
      | O => Err OutOfFuel
      | S fuel' =>
          step <- pack_iteration state vehicle mode remaining ;;
          match step with
          | Exhausted s => Ok s
          | Continue s remaining' => pack_loop fuel' s vehicle mode remaining'
          end
      end
  end.

Definition initial_state (items : list Item) (vehicle : Vehicle) (task_id transport_type : string)
  (mode : ModeDecision) : PlanState :=
  let state := mkPlanState task_id transport_type vehicle mode [] [] [] []
                 (mkFreeRects []) None in
  let state := init_free_rects state in
  let state :=
    mkPlanState (ps_task_id state) (ps_transport_type state) (ps_vehicle state)
      (ps_mode state) (ps_debug state)
      (fold_left (fun d it => dict_set d (item_id it) it) items [])
      (ps_placed state) (ps_unplaced state) (ps_free_rects state) (ps_loads state) in
  emit state "mode_detected" (PModeDetected mode).

Definition pack_with_fuel (fuel : nat) (items : list Item) (vehicle : Vehicle)
  (task_id transport_type : string) : res PlanResult :=
  mode <- detect_mode SETTINGS items vehicle ;;
  let state := initial_state items vehicle task_id transport_type mode in
  let remaining := sort_by_key (fun it => sort_key_for_queue SETTINGS it vehicle mode) items in
  state <- pack_loop fuel state vehicle mode remaining ;;
  Ok (snapshot state).

(** [pack]: one iteration per input unit is enough, see [pack_terminates]. *)
Definition pack (items : list Item) (vehicle : Vehicle) (task_id transport_type : string)
  : res PlanResult :=
  pack_with_fuel (length items) items vehicle task_id transport_type.

End Packer.

(** ** domain/types.py: the methods of [Item] *)

(** [Item.volume]: [max(w, 0.0) * max(l, 0.0) * max(h, 0.0)]. *)
Definition item_volume (it : Item) : Q :=
  qmax (item_width it) 0 * qmax (item_length it) 0 * qmax (item_height it) 0.

(** [Item.footprint]. *)
Definition item_footprint (it : Item) : Q :=
  qmax (item_width it) 0 * qmax (item_length it) 0.

(** ** catalogs/item.py: the dimension helpers *)


Definition volume_m3 (item : Item) : Q :=
  item_width item * item_length item * item_height item.

(** ** catalogs/placed_item.py: [from_item_at_pose] *)


(** ** catalogs/vehicles.py

    The presets carry the three inner dimensions and nothing else: every
    key read with [vehicle.get] is absent.  Strings are byte strings, the
    preset names are their UTF-8 encodings. *)
Definition preset_vehicle (w h l : Q) : Vehicle :=
  mkVehicle w l h None None None None None None None.

Definition VEHICLE_PRESETS : list (string * Vehicle) :=
  [("Тент (20т)"%string, preset_vehicle (245 # 100) (270 # 100) (1360 # 100));
   ("Тент (10т)"%string, preset_vehicle (245 # 100) (270 # 100) (680 # 100));
   ("Контейнер 40'' HC"%string, preset_vehicle (235 # 100) (239 # 100) (1202 # 100))].

Definition DEFAULT_VEHICLE : Vehicle :=
  preset_vehicle (245 # 100) (270 # 100) (1360 # 100).

(** [get_vehicle(transport_type)]: [not transport_type] holds for [None]
    and for the empty string, [not v] for a missing preset. *)
Definition get_vehicle (transport_type : option string) : Vehicle :=
  match transport_type with
  | None => DEFAULT_VEHICLE
  | Some EmptyString => DEFAULT_VEHICLE
  | Some t =>
      match dict_get VEHICLE_PRESETS t with
      | None => DEFAULT_VEHICLE
      | Some v => v
      end
  end.
(** * Specification vocabulary for the free-rectangle tracker *)

(** A symmetric relation holding between any two entries of a list. *)
Fixpoint pairwise (A : Type) (R : A -> A -> Prop) (l : list A) : Prop :=
  match l with
  | [] => True
  | x :: t => Forall (R x) t /\ pairwise R t
  end.

Definition no_contain (eps : Q) (a b : Rect) : Prop :=
  rect_contains a b eps = false /\ rect_contains b a eps = false.

(** [_normalize_rect] written with its two steps, ordering and clamping. *)
Definition order2 (a b : Q) : Q * Q := if b <? a then (b, a) else (a, b).
Definition clamp0 (eps c : Q) : Q := if qabs c <? eps then 0 else c.

Definition normal (eps : Q) (r : Rect) : Prop := _normalize_rect r eps = r.

Definition proper (r : Rect) : Prop := rx0 r < rx1 r /\ rz0 r < rz1 r.

(** Exact disjointness of the interiors. *)
Definition disj (a b : Rect) : Prop :=
  rx1 a <= rx0 b \/ rx1 b <= rx0 a \/ rz1 a <= rz0 b \/ rz1 b <= rz0 a.

Definition req (a b : Rect) : Prop :=
  rx0 a == rx0 b /\ rx1 a == rx1 b /\ rz0 a == rz0 b /\ rz1 a == rz1 b.

(** [m] is the union of [a] and [b], which share a full edge. *)
Definition union_of (a b m : Rect) : Prop :=
  (rz0 a == rz0 b /\ rz1 a == rz1 b /\ rx0 b <= rx1 a /\ rx0 a <= rx1 b /\
   rx0 m == qmin (rx0 a) (rx0 b) /\ rx1 m == qmax (rx1 a) (rx1 b) /\
   rz0 m == rz0 a /\ rz1 m == rz1 a)
  \/
  (rx0 a == rx0 b /\ rx1 a == rx1 b /\ rz0 b <= rz1 a /\ rz0 a <= rz1 b /\
   rz0 m == qmin (rz0 a) (rz0 b) /\ rz1 m == qmax (rz1 a) (rz1 b) /\
   rx0 m == rx0 a /\ rx1 m == rx1 a).

Fixpoint live_all (used : list bool) (cur : list Rect) : list Rect :=
  match used, cur with
  | u :: used', b :: cur' => if u then live_all used' cur' else b :: live_all used' cur'
  | _, _ => []
  end.

(** [p] lies inside [f]. *)
Definition inside (p f : Rect) : Prop :=
  rx0 f <= rx0 p /\ rx1 p <= rx1 f /\ rz0 f <= rz0 p /\ rz1 p <= rz1 f.

(** The strips of [split_rect], before the area filter. *)
Definition split_strips (free used : Rect) (eps : Q) : list Rect :=
  let '(mkRect fx0 fx1 fz0 fz1) := free in
  let '(mkRect ux0 ux1 uz0 uz1) := used in
  (if fx0 + eps <? ux0 then [mkRect fx0 (qmin ux0 fx1) fz0 fz1] else []) ++
  (if ux1 <? fx1 - eps then [mkRect (qmax ux1 fx0) fx1 fz0 fz1] else []) ++
  (if fz0 + eps <? uz0
   then [mkRect (qmax fx0 ux0) (qmin fx1 ux1) fz0 (qmin uz0 fz1)] else []) ++
  (if uz1 <? fz1 - eps
   then [mkRect (qmax fx0 ux0) (qmin fx1 ux1) (qmax uz1 fz0) fz1] else []).

Definition on_grid (g c : Q) : Prop := exists k : Z, c == inject_Z k * g.

Definition rect_on_grid (g : Q) (r : Rect) : Prop :=
  on_grid g (rx0 r) /\ on_grid g (rx1 r) /\ on_grid g (rz0 r) /\ on_grid g (rz1 r).

(** The invariant of the free list: grid aligned, non-degenerate,
    disjoint from every reserved rectangle, pairwise disjoint. *)
Definition good (g : Q) (us l : list Rect) : Prop :=
  Forall (rect_on_grid g) l /\ Forall proper l /\
  Forall (fun f => Forall (disj f) us) l /\ pairwise disj l.

(** * Specification vocabulary for loads and the mode classifier *)

Fixpoint sumQ (A : Type) (f : A -> Q) (l : list A) : Q :=
  match l with
  | [] => 0
  | x :: t => f x + sumQ f t
  end.

(** The lever-arm share of axle B for a unit at longitudinal centre [z]:
    [w * ((z + L/2) - a) / (b - a)]. *)
Definition axleB_share (L a b : Q) (p : PlacedItem) : Q :=
  item_weight (p_item p) * ((p_z p + L / 2) - a) / (b - a).

Definition axleA_share (L a b : Q) (p : PlacedItem) : Q :=
  item_weight (p_item p) - axleB_share L a b p.

(** A configured limit is exceeded beyond the tolerance. *)
Definition exceeds (limit : option Q) (load : Q) : Prop :=
  exists l, limit = Some l /\ l + eps9 < load.

(** The three pressures of the classifier, as the sources compute them. *)
Definition weight_capacity_of (items : list Item) (vehicle : Vehicle) : Q :=
  match payloadMaxKg vehicle with
  | Some payload_max => payload_max
  | None => qmax (fst (fst (mode_totals items))) 1
  end.

Definition floor_capacity_of (S : Settings) (vehicle : Vehicle) : Q :=
  (innerWidth vehicle * innerLength vehicle)
  * _get_setting (fillFactorFloor vehicle) (FILL_FACTOR_FLOOR_DEFAULT S) / 1.

Definition vol_capacity_of (S : Settings) (vehicle : Vehicle) : Q :=
  (innerWidth vehicle * innerLength vehicle * innerHeight vehicle)
  * _get_setting (fillFactorVolume vehicle) (FILL_FACTOR_VOLUME_DEFAULT S).

(** [min(0.8, max(0.2, raw))]. *)
Definition clamp_alpha (raw : Q) : Q := qmin (4 # 5) (qmax (1 # 5) raw).

(** * Specification vocabulary for candidates and plans *)

(** [c] places a unit of [pool] on the floor: [y = 0], the box starts at
    height 0 and ends at the unit's height. *)
Definition floor_cand (pool : list Item) (c : Candidate) : Prop :=
  exists it, In it pool /\ c_itemId c = item_id it /\ c_y c = 0 /\
             c_dy c = item_height it /\
             minY (c_aabb c) == 0 /\ maxY (c_aabb c) == item_height it.

(** * Specification vocabulary for the packer loop *)

(** Two placed boxes do not intersect beyond the tolerance. *)
Definition no_overlap (p q : PlacedItem) : Prop :=
  aabb_intersects (p_aabb p) (p_aabb q) eps9 = false.

(** A placed box lies in the hold's interior envelope, within tolerance. *)
Definition in_bounds (vehicle : Vehicle) (p : PlacedItem) : Prop :=
  oob_check (p_aabb p) vehicle eps9 = false.

(** The envelope written out:
    [-halfWidth, halfWidth] x [0, innerHeight] x [-halfLength, halfLength]. *)
Definition in_envelope (vehicle : Vehicle) (b : AABB) (eps : Q) : Prop :=
  - (innerWidth vehicle / 2) - eps <= minX b /\ maxX b <= innerWidth vehicle / 2 + eps /\
  0 - eps <= minY b /\ maxY b <= innerHeight vehicle + eps /\
  - (innerLength vehicle / 2) - eps <= minZ b /\ maxZ b <= innerLength vehicle / 2 + eps.

(** A placed unit rests on the floor. *)
Definition on_floor (p : PlacedItem) : Prop :=
  p_y p = 0 /\ minY (p_aabb p) == 0 /\ maxY (p_aabb p) == snd (fst (p_dims p)).

(** [p] is the placement of candidate [c] under the unit index [d]. *)
Definition is_placement (d : list (string * Item)) (c : Candidate) (p : PlacedItem) : Prop :=
  exists it, dict_get d (c_itemId c) = Some it /\ p = placed_from_candidate c it.

(** A pattern group that passes every gate of the iteration. *)
Definition feasible_group (s : PlanState) (rem_ids : list string) (group : list Candidate)
  : Prop :=
  (forall c, In c group -> in_ids rem_ids (c_itemId c) = true) /\
  exists r, _can_commit_group s group = Ok (true, r).

(** A single candidate that passes every gate of the iteration. *)
Definition feasible_single (s : PlanState) (c : Candidate) : Prop :=
  pattern_id_of c = None /\ exists r, can_place s c = Ok (true, r).

(** The score the single-candidate search compares. *)
Definition single_score_of (S : Settings) (s : PlanState) (vehicle : Vehicle)
  (mode : ModeDecision) (c : Candidate) : res Score :=
  it <- dict_lookup (ps_items_by_id s) (c_itemId c) ;;
  sc <- score_candidate s c mode ;;
  Ok (_apply_policy_to_score S sc (evaluate_candidate_policy S it c vehicle mode false)).

Definition step_state (st : Step) : PlanState :=
  match st with
  | Exhausted s => s
  | Continue s _ => s
  end.

(** Lexicographic "greater than" on single scores, as a proposition. *)
Definition score_gt (a b : Score) : Prop :=
  let '(a0, a1, a2, a3) := a in
  let '(b0, b1, b2, b3) := b in
  (b0 < a0)%Z \/
  (a0 = b0 /\ (b1 < a1 \/ (a1 == b1 /\ (b2 < a2 \/ (a2 == b2 /\ b3 < a3))))).

(** Everything but the placed list, the free space, the loads and the
    event trail is left alone. *)
Definition same_frame (s s' : PlanState) : Prop :=
  ps_vehicle s' = ps_vehicle s /\ ps_items_by_id s' = ps_items_by_id s /\
  ps_mode s' = ps_mode s /\ ps_task_id s' = ps_task_id s /\
  ps_transport_type s' = ps_transport_type s.

(** The three outcomes of one iteration. *)
Definition pattern_outcome (state : PlanState) (remaining : list Item)
  (candidates : list Candidate) (step : Step) : Prop :=
  exists pid group ps s',
    In (pid, group) (_group_pattern_candidates candidates) /\
    feasible_group state (map item_id remaining) group /\
    Forall2 (is_placement (ps_items_by_id state)) group ps /\
    step = Continue s'
             (filter (fun it => negb (in_ids (map c_itemId group) (item_id it))) remaining) /\
    ps_placed s' = ps_placed state ++ ps /\
    ps_unplaced s' = ps_unplaced state /\ same_frame state s'.

Definition single_outcome (S : Settings) (state : PlanState) (vehicle : Vehicle)
  (mode : ModeDecision) (remaining : list Item) (candidates : list Candidate) (step : Step)
  : Prop :=
  exists c sc p s',
    In c candidates /\ feasible_single state c /\
    single_score_of S state vehicle mode c = Ok sc /\
    (forall c' sc', In c' candidates -> feasible_single state c' ->
       single_score_of S state vehicle mode c' = Ok sc' -> ~ score_gt sc' sc) /\
    is_placement (ps_items_by_id state) c p /\
    step = Continue s'
             (filter (fun it => negb (String.eqb (item_id it) (c_itemId c))) remaining) /\
    ps_placed s' = ps_placed state ++ [p] /\
    ps_unplaced s' = ps_unplaced state /\ same_frame state s'.

Definition exhausted_outcome (state : PlanState) (remaining : list Item) (step : Step) : Prop :=
  exists s',
    step = Exhausted s' /\
    ps_placed s' = ps_placed state /\
    ps_free_rects s' = ps_free_rects state /\
    ps_loads s' = ps_loads state /\
    ps_unplaced s' = ps_unplaced state ++ map (fun it => set_status it st_unplaced) remaining /\
    same_frame state s'.

Definition some_feasible_group (state : PlanState) (remaining : list Item)
  (candidates : list Candidate) : Prop :=
  exists e, In e (_group_pattern_candidates candidates) /\
            feasible_group state (map item_id remaining) (snd e).

Definition some_feasible_single (state : PlanState) (candidates : list Candidate) : Prop :=
  exists c, In c candidates /\ feasible_single state c.

(** The invariant carried by the plan state. *)
Definition plan_inv (vehicle : Vehicle) (d : list (string * Item)) (s : PlanState) : Prop :=
  ps_vehicle s = vehicle /\ ps_items_by_id s = d /\
  pairwise no_overlap (ps_placed s) /\
  Forall (in_bounds vehicle) (ps_placed s) /\
  Forall on_floor (ps_placed s).

(** The dictionary has an entry for the key. *)
Definition has_key (d : list (string * Item)) (k : string) : Prop :=
  exists v, dict_get d k = Some v.

(** The committed set passes the load check (nothing is checked before the
    first commit). *)
Definition loads_ok (s : PlanState) : Prop :=
  ps_placed s = [] \/
  fst (check_loads (compute_loads (ps_placed s) (ps_vehicle s)) (ps_vehicle s)) = true.

(** * Concrete inputs used by the examples *)

(** A settings object: tolerance 1e-9, mode threshold 0.85, fill factors
    0.9, window of 50 units, every optional attribute absent. *)
Definition ex_settings : Settings :=
  mkSettings (1 # 1000000000) (17 # 20) (9 # 10) (9 # 10) 50%Z
    None None None None None None None None None None None None
    None None None None None None None None None None None None.

(** A 2.45 x 13.60 x 2.70 hold with a payload limit of 1000 kg. *)
Definition ex_vehicle : Vehicle :=
  mkVehicle (245 # 100) (136 # 10) (27 # 10) None None (Some 1000) None None None None.

Definition ex_item (name : string) (w l h kg : Q) : Item :=
  mkItem name None None w l h kg 1 true false st_ok.

(** Two standard pallets of 600 kg and 401 kg: together 1 kg over the
    payload limit. *)
Definition ex_heavy_a : Item := ex_item "a" (4 # 5) (6 # 5) 1 600.
Definition ex_heavy_b : Item := ex_item "b" (4 # 5) (6 # 5) 1 401.

(** Five light standard pallets. *)
Definition ex_five : list Item :=
  [ex_item "p1" (4 # 5) (6 # 5) 1 100; ex_item "p2" (4 # 5) (6 # 5) 1 101;
   ex_item "p3" (4 # 5) (6 # 5) 1 102; ex_item "p4" (4 # 5) (6 # 5) 1 103;
   ex_item "p5" (4 # 5) (6 # 5) 1 104].

(** A 3 x 3 floor and three footprints side by side along the far wall,
    whose near edges step by 2^-20 (less than a micrometre). *)
Definition ex_small_vehicle : Vehicle :=
  mkVehicle 3 3 1 None None None None None None None.
Definition ex_used1 : Rect := mkRect (- (3 # 2)) (- (1 # 2)) (1 # 2) (3 # 2).
Definition ex_used2 : Rect := mkRect (- (1 # 2)) (1 # 2) (524289 # 1048576) (3 # 2).
Definition ex_used3 : Rect := mkRect (1 # 2) (3 # 2) (262145 # 524288) (3 # 2).

(** Two pallet footprints side by side in a corner of the 2.45 x 13.60
    floor, on the millimetre grid. *)
Definition ex_used_mm : list Rect :=
  [mkRect (- (1225 # 1000)) (- (425 # 1000)) (5600 # 1000) (6800 # 1000);
   mkRect (- (425 # 1000)) (375 # 1000) (5600 # 1000) (6800 # 1000)].

(** One unit of 850 kg for a payload limit of 1000 kg: weight pressure
    equal to the threshold 0.85. *)
Definition ex_boundary_item : Item := ex_item "w" (4 # 5) (6 # 5) 1 850.

(** Axles configured half a nanometre apart, one unit of 100 kg in the
    middle of a 10 m hold. *)
Definition ex_axle_vehicle : Vehicle :=
  mkVehicle (245 # 100) 10 (27 # 10) None None None None None
    (Some 0) (Some (1 # 2000000000)).
Definition ex_axle_placed : list PlacedItem :=
  [mkPlacedItem (ex_item "u" (4 # 5) (6 # 5) 1 100) 0 0 0 0%Z
     (4 # 5, 1, 6 # 5) (aabb_from_center 0 (1 # 2) 0 (4 # 5) 1 (6 # 5)) (- (2 # 5), - (3 # 5))
     st_ok].

(** Axles at 2 m and 8 m of the same hold. *)
Definition ex_axle_vehicle_ok : Vehicle :=
  mkVehicle (245 # 100) 10 (27 # 10) None None None None None (Some 2) (Some 8).

(** The state and the mode of the first iteration of a run. *)
Definition ex_mode (items : list Item) : ModeDecision :=
  match detect_mode ex_settings items ex_vehicle with
  | Ok m => m
  | Err _ => mkModeDecision mode_mixed 0 0 0 None
  end.

Definition ex_state (items : list Item) : PlanState :=
  initial_state items ex_vehicle "task" "truck" (ex_mode items).

Definition ex_queue (items : list Item) : list Item :=
  sort_by_key (fun it => sort_key_for_queue ex_settings it ex_vehicle (ex_mode items)) items.

Definition ex_step (items : list Item) : Step :=
  match pack_iteration ex_settings (ex_state items) ex_vehicle (ex_mode items)
          (ex_queue items) with
  | Ok step => step
  | Err _ => Exhausted (ex_state items)
  end.

(** The state and the queue after the first iteration. *)
Definition ex_state_after (items : list Item) : PlanState := step_state (ex_step items).

Definition ex_queue_after (items : list Item) : list Item :=
  match ex_step items with
  | Continue _ remaining => remaining
  | Exhausted _ => []
  end.

Definition ex_plan (items : list Item) : PlanResult :=
  match pack ex_settings items ex_vehicle "task" "truck" with
  | Ok plan => plan
  | Err _ => snapshot (ex_state items)
  end.


(** The floor of [ex_small_vehicle] as one free rectangle. *)
Definition ex_floor : Rect := mkRect (- (3 # 2)) (3 # 2) (- (3 # 2)) (3 # 2).

(** The state in which the loop of a run ends. *)
Definition ex_final (items : list Item) : PlanState :=
  match pack_loop ex_settings (length items) (ex_state items) ex_vehicle (ex_mode items)
          (ex_queue items) with
  | Ok s => s
  | Err _ => ex_state items
  end.

(** * Vocabulary for the further properties *)

(** The unit described the other way round: width and length exchanged. *)
Definition swap_wl (it : Item) : Item :=
  mkItem (item_id it) (item_palletType it) (item_palletTypeNorm it)
    (item_length it) (item_width it) (item_height it) (item_weight it) (item_ratio it)
    (item_canBeBase it) (item_canBeStacked it) (item_status it).


(** Zones in the order head to tail. *)
Definition zone_rank (zone : string) : nat :=
  if String.eqb zone "A" then 0
  else if String.eqb zone "B" then 1
  else if String.eqb zone "C" then 2
  else 3.

(** An optional setting is absent or not negative. *)
Definition opt_nonneg (o : option Q) : Prop :=
  match o with
  | Some v => 0 <= v
  | None => True
  end.

(** Every weight of the zone guidance that is configured is not negative
    (the defaults are positive). *)
Definition policy_weights_nonneg (S : Settings) : Prop :=
  opt_nonneg (POLICY_W_HI_AB_BONUS S) /\ opt_nonneg (POLICY_W_HI_CD_PENALTY S) /\
  opt_nonneg (POLICY_W_LO_CD_BONUS S) /\ opt_nonneg (POLICY_W_LO_AB_PENALTY S) /\
  opt_nonneg (POLICY_V_BIG_ABC_BONUS S) /\ opt_nonneg (POLICY_V_BIG_D_PENALTY S) /\
  opt_nonneg (POLICY_V_SMALL_CD_BONUS S) /\
  opt_nonneg (POLICY_M_HI_AB_BONUS S) /\ opt_nonneg (POLICY_M_LO_AB_PENALTY S) /\
  opt_nonneg (POLICY_OVERSIZE_BONUS S) /\
  opt_nonneg (POLICY_BOX_AB_PENALTY S) /\ opt_nonneg (POLICY_BOX_CD_BONUS S).

(** [key(x) == key(y)] on the keys of the queue. *)
Definition key_eq (a b : Z * Q) : Prop := fst a = fst b /\ snd a == snd b.

(** [key(x) <= key(y)]. *)
Definition key_le (a b : Z * Q) : Prop := key_lt b a = false.

(** [key(x) == k] as a test. *)
Definition queue_key_eqb (a b : Z * Q) : bool := Z.eqb (fst a) (fst b) && Qeq_bool (snd a) (snd b).

(** [x] may stand before [y] in a list sorted by [key]. *)
Definition key_ordered (key : Item -> Z * Q) (x y : Item) : Prop :=
  key_le (key x) (key y).

(** The two pools of [generate_floor_candidates]. *)
Definition std_items_of (pool : list Item) : list Item :=
  filter (fun it => is_std_80x120 it (3 # 100)) pool.

Definition big_140_of (pool : list Item) : list Item :=
  filter (fun it => is_140x120 it (3 # 100)) pool.

(** The packs of the pattern generators, in the order in which
    [generate_floor_candidates] asks for them: per free rectangle, the
    four patterns in turn, each at its two anchors. *)
Definition packs_for_rect (std_items big_140 : list Item) (r : Rect) : list (list Candidate) :=
  flat_map (fun z0 => gen_3across r std_items z0 "scan")
    (_z_anchors_for_len r PATTERN_3ACROSS_Z) ++
  flat_map (fun z0 => gen_140plus80 r big_140 std_items z0 "scan")
    (_z_anchors_for_len r PATTERN_140P80_Z) ++
  flat_map (fun z0 => gen_3plus2 r std_items z0 "scan")
    (_z_anchors_for_len r PATTERN_3P2_Z) ++
  flat_map (fun z0 => gen_zigzag r std_items z0 "scan")
    (_z_anchors_for_len r PATTERN_ZIGZAG_Z).

Definition generated_packs (free_rects : FreeRects) (items_subset : list Item)
  : list (list Candidate) :=
  let rects := firstn 250 (sort_by_area_desc (rects free_rects)) in
  let std_items := filter (fun it => is_std_80x120 it (3 # 100)) items_subset in
  let big_140 := filter (fun it => is_140x120 it (3 # 100)) items_subset in
  flat_map (packs_for_rect std_items big_140) rects.

(** The packs under the identifiers [p<n>], [p<n+1>], ... *)
Fixpoint number_packs (n : nat) (packs : list (list Candidate))
  : list (string * list Candidate) :=
  match packs with
  | [] => []
  | pack :: rest =>
      (pattern_pid n, _assign_pattern_id pack (pattern_pid n)) :: number_packs (S n) rest
  end.

(** Their members in one list. *)
Fixpoint tag_packs (n : nat) (packs : list (list Candidate)) : list Candidate :=
  match packs with
  | [] => []
  | pack :: rest => _assign_pattern_id pack (pattern_pid n) ++ tag_packs (S n) rest
  end.

(** The single candidates of [generate_floor_candidates]. *)
Definition generated_singles (free_rects : FreeRects) (items_subset : list Item)
  : list Candidate :=
  let rects := firstn 250 (sort_by_area_desc (rects free_rects)) in
  flat_map (fun it => flat_map (single_candidates_for rects it) [0%Z; 90%Z]) items_subset.

(** One step of the loop of [_group_pattern_candidates]. *)
Definition group_step (groups : list (string * list Candidate)) (c : Candidate)
  : list (string * list Candidate) :=
  match pattern_id_of c with
  | None => groups
  | Some pid => group_append groups pid c
  end.

(** What the members of a pack are: two, three or five candidates, each
    for a unit of the pool, and for different units when the pool's
    identifiers are all different. *)
Definition pack_of_pool (pool : list Item) (pack : list Candidate) : Prop :=
  (length pack = 2 \/ length pack = 3 \/ length pack = 5)%nat /\
  (forall c, In c pack -> exists it, In it pool /\ c_itemId c = item_id it) /\
  (NoDup (map item_id pool) -> NoDup (map c_itemId pack)).

(** The identifiers of the placed units. *)
Definition placed_ids (placed : list PlacedItem) : list string :=
  map (fun p => item_id (p_item p)) placed.

(** Every entry of the unit index is a unit of the input, filed under its
    own identifier. *)
Definition index_of (items : list Item) (d : list (string * Item)) : Prop :=
  forall k it, dict_get d k = Some it -> item_id it = k /\ In it items.

(** The units of the input are accounted for: each identifier is placed,
    unplaced or still queued, exactly as often as the input has it; the
    placed units are units of the input, the unplaced ones are units of
    the input marked unplaced. *)
Definition accounted (items : list Item) (placed : list PlacedItem)
  (unplaced remaining : list Item) : Prop :=
  Permutation (placed_ids placed ++ map item_id unplaced ++ map item_id remaining)
    (map item_id items) /\
  (forall p, In p placed -> In (p_item p) items) /\
  (forall u, In u unplaced -> exists it, In it items /\ u = set_status it st_unplaced) /\
  (forall it, In it remaining -> In it items).

(** [r] is a rectangle of the floor rectangle [f]: its corners are in
    order and inside [f]. *)
Definition floor_part (f r : Rect) : Prop :=
  inside r f /\ rx0 r <= rx1 r /\ rz0 r <= rz1 r.

Definition holds_origin (f : Rect) : Prop :=
  rx0 f <= 0 /\ 0 <= rx1 f /\ rz0 f <= 0 /\ 0 <= rz1 f.

(** The floor rectangle that [commit] reserves for a placed unit. *)
Definition footprint_of (p : PlacedItem) : Rect :=
  mkRect (minX (p_aabb p)) (maxX (p_aabb p)) (minZ (p_aabb p)) (maxZ (p_aabb p)).

(** The derived fields of a plan state agree with its placed list. *)
Definition in_sync (s : PlanState) : Prop :=
  ps_loads s = match ps_placed s with
               | [] => None
               | _ :: _ => Some (compute_loads (ps_placed s) (ps_vehicle s))
               end /\
  ps_free_rects s =
    fold_left reserve (map footprint_of (ps_placed s)) (init_for_vehicle (ps_vehicle s)).



(** The first candidate for one standard pallet on the empty floor of
    [ex_vehicle]; one unit gives no pattern, so it is a single one. *)
Definition ex_single : Candidate :=
  match generate_floor_candidates (init_for_vehicle ex_vehicle) [ex_heavy_a] with
  | c :: _ => c
  | [] => _build_candidate ex_heavy_a 0 0 0 0 "single"
            (mkMeta None None None None None None None None None)
  end.

(** * Vocabulary of the selection rule, written out

    The notions below are stated on the data alone: boxes by their
    coordinates, groups by the identifiers the candidates carry, marks by
    the fields of the units. *)

(** [R later earlier] holds of any two entries of the list, [later]
    standing behind [earlier]. *)
Definition later_earlier (A : Type) (R : A -> A -> Prop) (l : list A) : Prop :=
  forall i j x y,
    (j < i)%nat -> nth_error l i = Some x -> nth_error l j = Some y -> R x y.

(** Two boxes are apart along one of the three axes, up to [eps]; the
    first box is the one tested against the second. *)
Definition separated (a b : AABB) (eps : Q) : Prop :=
  maxX a <= minX b + eps \/ maxX b - eps <= minX a \/
  maxY a <= minY b + eps \/ maxY b - eps <= minY a \/
  maxZ a <= minZ b + eps \/ maxZ b - eps <= minZ a.



(** [p] is the unit of [c] in the index [d], at the pose and with the box
    of [c]. *)
Definition places (d : list (string * Item)) (c : Candidate) (p : PlacedItem) : Prop :=
  exists it,
    dict_get d (c_itemId c) = Some it /\ p_item p = it /\
    p_x p = c_x c /\ p_y p = c_y c /\ p_z p = c_z c /\
    p_rotationY p = c_rotationY c /\ p_dims p = (c_dx c, c_dy c, c_dz c) /\
    p_aabb p = c_aabb c /\ p_corner p = (minX (c_aabb c), minZ (c_aabb c)) /\
    p_status p = item_status it.

(** [u] is the unit [it] with the status [unplaced] and nothing else
    changed. *)
Definition marked_unplaced (it u : Item) : Prop :=
  item_status u = st_unplaced /\ item_id u = item_id it /\
  item_palletType u = item_palletType it /\ item_palletTypeNorm u = item_palletTypeNorm it /\
  item_width u = item_width it /\ item_length u = item_length it /\
  item_height u = item_height it /\ item_weight u = item_weight it /\
  item_ratio u = item_ratio it /\ item_canBeBase u = item_canBeBase it /\
  item_canBeStacked u = item_canBeStacked it.

(** [c] carries the pattern identifier [pid]. *)
Definition carries_pid (pid : string) (c : Candidate) : bool :=
  match m_patternId (c_meta c) with
  | Some p => String.eqb p pid
  | None => false
  end.

(** [c] belongs to no pattern: it has no identifier, or an empty one. *)
Definition no_pattern (c : Candidate) : Prop :=
  m_patternId (c_meta c) = None \/ m_patternId (c_meta c) = Some EmptyString.

(** The members of the pattern [pid] in a candidate list: all the
    candidates that carry [pid], in the order of the list. *)
Definition members_of (candidates : list Candidate) (pid : string) : list Candidate :=
  filter (carries_pid pid) candidates.

(** [group] is the pattern group [pid] of the candidate list: the
    identifier is not empty and [group] holds every candidate that
    carries it, at least one. *)
Definition is_pattern_group (candidates : list Candidate) (pid : string)
  (group : list Candidate) : Prop :=
  pid <> EmptyString /\ group <> [] /\ group = members_of candidates pid.








(** ** Atomic commits *)

(** The free rectangles after the units of [placed] have been placed on
    the empty floor of the vehicle. *)
Definition free_after (vehicle : Vehicle) (placed : list PlacedItem) : FreeRects :=
  fold_left reserve (map footprint_of placed) (init_for_vehicle vehicle).

(** The candidates of the iteration that starts with [placed] in the hold
    and [remaining] in the queue. *)
Definition candidates_at (S : Settings) (vehicle : Vehicle) (placed : list PlacedItem)
  (remaining : list Item) : list Candidate :=
  generate_floor_candidates (free_after vehicle placed)
    (slice_to remaining (TOP_N_WINDOW S)).

(** What one iteration adds to the placed list: every member of one
    pattern group of its candidates, in the order of the group, while the
    units of all the members leave the queue; or one candidate that
    belongs to no pattern; or nothing, and the loop stops. *)
Definition atomic_step (S : Settings) (state : PlanState) (remaining : list Item) (step : Step)
  : Prop :=
  let candidates :=
    generate_floor_candidates (ps_free_rects state)
      (slice_to remaining (TOP_N_WINDOW S)) in
  (exists pid group ps s',
     is_pattern_group candidates pid group /\
     Forall2 (places (ps_items_by_id state)) group ps /\
     step = Continue s'
              (filter (fun it => negb (in_ids (map c_itemId group) (item_id it))) remaining) /\
     ps_placed s' = ps_placed state ++ ps)
  \/
  (exists c p s',
     In c candidates /\ no_pattern c /\ places (ps_items_by_id state) c p /\
     step = Continue s'
              (filter (fun it => negb (String.eqb (item_id it) (c_itemId c))) remaining) /\
     ps_placed s' = ps_placed state ++ [p])
  \/
  (exists s', step = Exhausted s' /\ ps_placed s' = ps_placed state).

(** A run of the loop from [placed] and the queue [remaining] to the
    final placed list: a sequence of iterations, each of which commits a
    whole pattern group of its own candidates or one candidate that
    belongs to no pattern, until the loop stops. *)
Inductive atomic_run (S : Settings) (vehicle : Vehicle) (d : list (string * Item))
  : list PlacedItem -> list Item -> list PlacedItem -> Prop :=
| ar_stop (placed : list PlacedItem) (remaining : list Item) :
    atomic_run S vehicle d placed remaining placed
| ar_group (placed : list PlacedItem) (remaining : list Item) (pid : string)
    (group : list Candidate) (ps final : list PlacedItem) :
    is_pattern_group (candidates_at S vehicle placed remaining) pid group ->
    Forall2 (places d) group ps ->
    atomic_run S vehicle d (placed ++ ps)
      (filter (fun it => negb (in_ids (map c_itemId group) (item_id it))) remaining) final ->
    atomic_run S vehicle d placed remaining final
| ar_single (placed : list PlacedItem) (remaining : list Item) (c : Candidate)
    (p : PlacedItem) (final : list PlacedItem) :
    In c (candidates_at S vehicle placed remaining) -> no_pattern c ->
    places d c p ->
    atomic_run S vehicle d (placed ++ [p])
      (filter (fun it => negb (String.eqb (item_id it) (c_itemId c))) remaining) final ->
    atomic_run S vehicle d placed remaining final.
(** * Proofs *)

(** The operations are unfolded on request only. *)
Arguments check_loads : simpl never.
Arguments compute_loads : simpl never.
Arguments check_oob : simpl never.
Arguments check_collision : simpl never.
Arguments oob_check : simpl never.
Arguments aabb_intersects : simpl never.
Arguments rect_intersects : simpl never.
Arguments reserve : simpl never.
Arguments placed_from_candidate : simpl never.
Arguments evaluate_candidate_policy : simpl never.
Arguments compute_k : simpl never.
Arguments generate_floor_candidates : simpl never.
Arguments _group_pattern_candidates : simpl never.
Arguments _can_commit_group : simpl never.
Arguments can_place : simpl never.
Arguments commit : simpl never.
Arguments score_candidate : simpl never.
Arguments _apply_policy_to_score : simpl never.
Arguments _packing_quality : simpl never.
Arguments _pat_reason_bucket : simpl never.
Arguments sort_by_key : simpl never.
Arguments detect_mode : simpl never.
Arguments slice_to : simpl never.
Arguments emit : simpl never.
Arguments log_reject : simpl never.

(** ** Numeric helpers *)

Lemma Qleb_spec (x y : Q) : reflect (x <= y) (x <=? y).
Proof.
  unfold Qleb. destruct (Qle_bool x y) eqn:E; constructor.
  - now apply Qle_bool_iff.
  - intro H. apply Qle_bool_iff in H. congruence.
Qed.

Lemma Qltb_spec (x y : Q) : reflect (x < y) (x <? y).
Proof.
  unfold Qltb. destruct (Qle_bool y x) eqn:E; constructor.
  - apply Qle_bool_iff in E. lra.
  - assert (~ y <= x) by (intro H; apply Qle_bool_iff in H; congruence). lra.
Qed.

Lemma qmin_cases (a b : Q) : (b < a /\ qmin a b = b) \/ (a <= b /\ qmin a b = a).
Proof. unfold qmin. destruct (Qltb_spec b a); [left | right]; split; auto; lra. Qed.

Lemma qmax_cases (a b : Q) : (a < b /\ qmax a b = b) \/ (b <= a /\ qmax a b = a).
Proof. unfold qmax. destruct (Qltb_spec a b); [left | right]; split; auto; lra. Qed.

Lemma qabs_cases (a : Q) : (a < 0 /\ qabs a = - a) \/ (0 <= a /\ qabs a = a).
Proof. unfold qabs. destruct (Qltb_spec a 0); [left | right]; split; auto; lra. Qed.

(** Case analysis on every boolean comparison, [qmin], [qmax] and [qabs]
    in sight, then linear arithmetic. *)
Ltac qcases :=
  repeat match goal with
  | |- context [qmin ?a ?b] =>
      let H := fresh in let E := fresh in
      destruct (qmin_cases a b) as [[H E] | [H E]]; rewrite E in *; clear E
  | |- context [qmax ?a ?b] =>
      let H := fresh in let E := fresh in
      destruct (qmax_cases a b) as [[H E] | [H E]]; rewrite E in *; clear E
  | |- context [qabs ?a] =>
      let H := fresh in let E := fresh in
      destruct (qabs_cases a) as [[H E] | [H E]]; rewrite E in *; clear E
  | H0 : context [qmin ?a ?b] |- _ =>
      let H := fresh in let E := fresh in
      destruct (qmin_cases a b) as [[H E] | [H E]]; rewrite E in *; clear E
  | H0 : context [qmax ?a ?b] |- _ =>
      let H := fresh in let E := fresh in
      destruct (qmax_cases a b) as [[H E] | [H E]]; rewrite E in *; clear E
  | H0 : context [qabs ?a] |- _ =>
      let H := fresh in let E := fresh in
      destruct (qabs_cases a) as [[H E] | [H E]]; rewrite E in *; clear E
  end.

Ltac bcases :=
  repeat match goal with
  | |- context [?a <? ?b] => destruct (Qltb_spec a b)
  | |- context [?a <=? ?b] => destruct (Qleb_spec a b)
  | H : context [?a <? ?b] |- _ => destruct (Qltb_spec a b)
  | H : context [?a <=? ?b] |- _ => destruct (Qleb_spec a b)
  end.

Ltac qsolve := qcases; bcases; simpl in *; try discriminate; try tauto; try lra.

Lemma merge_while_S (fuel : nat) (eps : Q) (i : nat) (cur : list Rect) (s : ScanState) :
  merge_while (S fuel) eps i cur s =
  let s' := scan_js eps i (enumerate cur)
              (mkScan (sc_merged s) (sc_used s) (sc_any s) false) in
  if sc_changed s' then merge_while fuel eps i cur s' else s'.
Proof. reflexivity. Qed.

Arguments merge_while : simpl never.

(** *** Facts about the free-rectangle operations *)

Section Pairwise.
Variable A : Type.
Variable R : A -> A -> Prop.
Hypothesis R_sym : forall x y, R x y -> R y x.

Lemma pairwise_app (l1 l2 : list A) :
  pairwise R (l1 ++ l2) <->
  pairwise R l1 /\ pairwise R l2 /\ (forall x y, In x l1 -> In y l2 -> R x y).
Proof.
  induction l1 as [| a l1 IH]; simpl.
  - intuition.
  - rewrite Forall_app, IH. split.
    + intros [[H1 H2] [H3 [H4 H5]]]. repeat split; auto.
      intros x y [<- | Hx] Hy; [ | now apply H5].
      rewrite Forall_forall in H2. now apply H2.
    + intros [[H1 H2] [H3 H4]]. repeat split; auto.
      apply Forall_forall. intros y Hy. apply H4; auto.
Qed.

Lemma pairwise_perm (l l' : list A) :
  Permutation l l' -> pairwise R l -> pairwise R l'.
Proof.
  induction 1; simpl; intros HP; auto.
  - destruct HP as [H1 H2]. split; auto.
    eapply Permutation_Forall; eauto.
  - destruct HP as [H1 [H2 H3]]. inversion H1; subst.
    repeat split; auto.
Qed.

Lemma pairwise_nth (l : list A) (i j : nat) (a b : A) :
  pairwise R l -> i <> j -> nth_error l i = Some a -> nth_error l j = Some b -> R a b.
Proof.
  revert i j. induction l as [| x t IH]; intros i j HP Hij Hi Hj.
  - destruct i; discriminate.
  - destruct HP as [H1 H2]. rewrite Forall_forall in H1.
    destruct i, j; simpl in *.
    + congruence.
    + inversion Hi; subst. apply H1. eapply nth_error_In; eauto.
    + inversion Hj; subst. apply R_sym, H1. eapply nth_error_In; eauto.
    + apply (IH i j); auto.
Qed.

Lemma pairwise_filter (f : A -> bool) (l : list A) :
  pairwise R l -> pairwise R (filter f l).
Proof.
  induction l as [| x t IH]; simpl; auto.
  intros [H1 H2]. destruct (f x); simpl; auto. split; auto.
  apply Forall_forall. intros y Hy. apply filter_In in Hy.
  rewrite Forall_forall in H1. apply H1. tauto.
Qed.

Lemma pairwise_flat_map (B : Type) (h : B -> list A) (Q : B -> B -> Prop) (l : list B) :
  (forall b, In b l -> pairwise R (h b)) ->
  (forall b1 b2 x y, Q b1 b2 -> In x (h b1) -> In y (h b2) -> R x y) ->
  pairwise Q l -> pairwise R (flat_map h l).
Proof.
  intros Hh HQ. induction l as [| b t IH]; simpl; auto.
  intros [H1 H2]. apply pairwise_app. repeat split.
  - apply Hh. now left.
  - apply IH; auto. intros; apply Hh; now right.
  - intros x y Hx Hy. apply in_flat_map in Hy. destruct Hy as [b2 [Hb2 Hy]].
    rewrite Forall_forall in H1. eapply HQ; eauto.
Qed.
End Pairwise.

Lemma pairwise_map (A B : Type) (R : A -> A -> Prop) (S : B -> B -> Prop) (f : A -> B) (l : list A) :
  (forall x y, In x l -> In y l -> R x y -> S (f x) (f y)) ->
  pairwise R l -> pairwise S (map f l).
Proof.
  induction l as [| x t IH]; simpl; auto.
  intros H [H1 H2]. split.
  - apply Forall_forall. intros y Hy. apply in_map_iff in Hy.
    destruct Hy as [y0 [<- Hy0]]. rewrite Forall_forall in H1. apply H; auto.
  - apply IH; auto.
Qed.

(** Elements kept by [prune_aux] come from its input, in order. *)
Lemma prune_aux_In (eps : Q) (after before : list Rect) (r : Rect) :
  In r (prune_aux before after eps) -> In r after.
Proof.
  revert before. induction after as [| a t IH]; simpl; intros before H; auto.
  destruct (existsb _ _).
  - right. eapply IH; eauto.
  - destruct H as [-> | H]; auto. right. eapply IH; eauto.
Qed.

Lemma pairwise_prune (R : Rect -> Rect -> Prop) (eps : Q) (after before : list Rect) :
  pairwise R after -> pairwise R (prune_aux before after eps).
Proof.
  revert before. induction after as [| a t IH]; simpl; intros before H; auto.
  destruct H as [H1 H2]. destruct (existsb _ _); simpl; auto.
  split; auto. apply Forall_forall. intros y Hy. apply prune_aux_In in Hy.
  rewrite Forall_forall in H1. auto.
Qed.

(** What [prune_aux] keeps is contained in no rectangle at another index. *)
Lemma prune_aux_kept (eps : Q) (after before : list Rect) (r : Rect) :
  In r (prune_aux before after eps) ->
  exists l1 l2, after = l1 ++ r :: l2 /\
    forall o, In o (before ++ l1 ++ l2) -> rect_contains o r eps = false.
Proof.
  revert before. induction after as [| a t IH]; simpl; intros before H; [tauto |].
  destruct (existsb _ _) eqn:E.
  - apply IH in H. destruct H as [l1 [l2 [-> H]]]. exists (a :: l1), l2. split; auto.
    intros o Ho. apply H. rewrite <- app_assoc. simpl. exact Ho.
  - destruct H as [-> | H].
    + exists [], t. split; auto. simpl. intros o Ho.
      destruct (rect_contains o r eps) eqn:C; auto.
      assert (existsb (fun other => rect_contains other r eps) (before ++ t) = true)
        by (apply existsb_exists; eauto).
      congruence.
    + apply IH in H. destruct H as [l1 [l2 [-> H]]]. exists (a :: l1), l2. split; auto.
      intros o Ho. apply H. rewrite <- app_assoc. simpl. exact Ho.
Qed.

Lemma no_contain_sym (eps : Q) (a b : Rect) : no_contain eps a b -> no_contain eps b a.
Proof. unfold no_contain. tauto. Qed.

Lemma prune_aux_no_contain (eps : Q) (after before : list Rect) :
  pairwise (no_contain eps) (prune_aux before after eps).
Proof.
  revert before. induction after as [| a t IH]; simpl; intros before; auto.
  destruct (existsb _ _) eqn:E; auto. simpl. split; auto.
  apply Forall_forall. intros y Hy.
  assert (Hy' := prune_aux_In _ _ _ _ Hy).
  apply prune_aux_kept in Hy. destruct Hy as [l1 [l2 [Ht Hy]]]. split.
  - apply Hy. apply in_or_app. left. apply in_or_app. right. now left.
  - destruct (rect_contains y a eps) eqn:C; auto.
    assert (existsb (fun other => rect_contains other a eps) (before ++ t) = true).
    { apply existsb_exists. exists y. split; auto. apply in_or_app. now right. }
    congruence.
Qed.

Lemma _normalize_rect_eq (r : Rect) (eps : Q) :
  _normalize_rect r eps =
  mkRect (clamp0 eps (fst (order2 (rx0 r) (rx1 r)))) (clamp0 eps (snd (order2 (rx0 r) (rx1 r))))
         (clamp0 eps (fst (order2 (rz0 r) (rz1 r)))) (clamp0 eps (snd (order2 (rz0 r) (rz1 r)))).
Proof.
  destruct r as [x0 x1 z0 z1]. unfold _normalize_rect, order2, clamp0. simpl.
  destruct (x1 <? x0); destruct (z1 <? z0); reflexivity.
Qed.

Lemma order2_le (a b : Q) : fst (order2 a b) <= snd (order2 a b).
Proof. unfold order2. destruct (Qltb_spec b a); simpl; lra. Qed.

Lemma clamp0_pair (eps a b : Q) :
  0 < eps -> a <= b ->
  order2 (clamp0 eps a) (clamp0 eps b) = (clamp0 eps a, clamp0 eps b) /\
  clamp0 eps (clamp0 eps a) = clamp0 eps a /\
  clamp0 eps (clamp0 eps b) = clamp0 eps b.
Proof.
  intros He Hab. unfold order2, clamp0.
  destruct (Qltb_spec (qabs a) eps) as [Ha | Ha];
  destruct (Qltb_spec (qabs b) eps) as [Hb | Hb];
  repeat split;
  repeat match goal with
  | |- context [if ?c <? ?d then _ else _] => destruct (Qltb_spec c d)
  end; auto; exfalso; qsolve.
Qed.

Lemma normalize_normal (eps : Q) (r : Rect) : 0 < eps -> normal eps (_normalize_rect r eps).
Proof.
  intros He. unfold normal. rewrite (_normalize_rect_eq r). rewrite _normalize_rect_eq. simpl.
  destruct (clamp0_pair He (order2_le (rx0 r) (rx1 r))) as [E1 [E2 E3]].
  destruct (clamp0_pair He (order2_le (rz0 r) (rz1 r))) as [E4 [E5 E6]].
  rewrite E1, E4. simpl. rewrite E2, E3, E5, E6. reflexivity.
Qed.

Lemma normalize_live_normal (eps : Q) (l : list Rect) :
  0 < eps -> Forall (normal eps) (normalize_live eps l).
Proof.
  intros He. unfold normalize_live. apply Forall_forall. intros r Hr.
  apply in_map_iff in Hr. destruct Hr as [r0 [<- _]]. now apply normalize_normal.
Qed.

Lemma normalize_live_id (eps : Q) (l : list Rect) :
  Forall (normal eps) l ->
  normalize_live eps l = filter (fun r => eps9 <? rect_area r) l.
Proof.
  intros H. unfold normalize_live. rewrite <- (map_id (filter _ l)) at 2.
  apply map_ext_in. intros r Hr. apply filter_In in Hr.
  rewrite Forall_forall in H. apply H. tauto.
Qed.

(** The scan keeps the rectangle it grows normalised. *)
Lemma scan_js_normal (eps : Q) (i : nat) (js : list (nat * Rect)) (s : ScanState) :
  0 < eps -> normal eps (sc_merged s) -> normal eps (sc_merged (scan_js eps i js s)).
Proof.
  intros He. revert s. induction js as [| [j b] rest IH]; simpl; intros s Hs; auto.
  destruct (Nat.eqb i j || nth j (sc_used s) false); auto.
  destruct (try_merge eps (sc_merged s) b); auto.
  apply IH. simpl. now apply normalize_normal.
Qed.

Lemma merge_while_normal (eps : Q) (fuel i : nat) (cur : list Rect) (s : ScanState) :
  0 < eps -> normal eps (sc_merged s) -> normal eps (sc_merged (merge_while fuel eps i cur s)).
Proof.
  intros He. revert s. induction fuel as [| f IH]; intros s Hs; auto.
  rewrite merge_while_S. cbv zeta.
  match goal with |- context [scan_js ?e ?i ?js ?s0] =>
    assert (Hn : normal eps (sc_merged (scan_js e i js s0)))
      by (apply scan_js_normal; auto);
    destruct (sc_changed (scan_js e i js s0)); auto
  end.
Qed.

Lemma enumerate_In (A : Type) (l : list A) (i : nat) (a : A) :
  In (i, a) (enumerate l) -> nth_error l i = Some a.
Proof.
  unfold enumerate. assert (G : forall k, In (i, a) (combine (seq k (length l)) l) ->
                                  exists i', i = (k + i')%nat /\ nth_error l i' = Some a).
  { induction l as [| x t IH]; simpl; intros k H; [tauto |].
    destruct H as [H | H].
    - inversion H; subst. exists O. split; [lia | reflexivity].
    - apply IH in H. destruct H as [i' [-> H]]. exists (S i'). split; [lia | exact H]. }
  intros H. apply G in H. destruct H as [i' [-> H]]. exact H.
Qed.

Lemma merge_round_normal (eps : Q) (cur : list Rect) :
  0 < eps -> Forall (normal eps) cur -> Forall (normal eps) (rd_nxt (merge_round eps cur)).
Proof.
  intros He Hc. unfold merge_round.
  assert (G : forall l st, (forall i a, In (i, a) l -> normal eps a) ->
             Forall (normal eps) (rd_nxt st) ->
             Forall (normal eps) (rd_nxt (fold_left (round_step eps cur) l st))).
  { induction l as [| [i a] t IH]; simpl; intros st Hl Hst; auto.
    apply IH; [intros; eapply Hl; eauto |].
    destruct (nth i (rd_used st) false); auto. simpl.
    apply Forall_app. split; auto. constructor; auto.
    apply merge_while_normal; auto. simpl. eapply Hl; eauto. }
  apply G; simpl; auto. intros i a H. apply enumerate_In in H.
  rewrite Forall_forall in Hc. apply Hc. eapply nth_error_In; eauto.
Qed.

Lemma merge_iters_no_contain (eps : Q) (n : nat) (cur : list Rect) :
  0 < eps -> Forall (normal eps) cur ->
  Forall (normal eps) (merge_iters (S n) eps cur) /\
  pairwise (no_contain eps) (merge_iters (S n) eps cur).
Proof.
  intros He. revert cur. induction n as [| n IH]; intros cur Hc.
  - simpl. assert (Hn := merge_round_normal He Hc).
    assert (Hp : Forall (normal eps) (prune_contained (rd_nxt (merge_round eps cur)) eps)).
    { apply Forall_forall. intros r Hr. apply prune_aux_In in Hr.
      rewrite Forall_forall in Hn. auto. }
    assert (Hr : Forall (normal eps) (normalize_live eps (prune_contained (rd_nxt (merge_round eps cur)) eps)) /\
                 pairwise (no_contain eps) (normalize_live eps (prune_contained (rd_nxt (merge_round eps cur)) eps))).
    { split; [now apply normalize_live_normal |].
      rewrite normalize_live_id by auto. apply pairwise_filter. apply prune_aux_no_contain. }
    destruct (rd_any _); exact Hr.
  - change (merge_iters (S (S n)) eps cur) with
      (let st := merge_round eps cur in
       let nxt := normalize_live eps (prune_contained (rd_nxt st) eps) in
       if rd_any st then merge_iters (S n) eps nxt else nxt).
    cbv zeta. assert (Hn := merge_round_normal He Hc).
    assert (Hp : Forall (normal eps) (prune_contained (rd_nxt (merge_round eps cur)) eps)).
    { apply Forall_forall. intros r Hr. apply prune_aux_In in Hr.
      rewrite Forall_forall in Hn. auto. }
    destruct (rd_any _).
    + apply IH. now apply normalize_live_normal.
    + split; [now apply normalize_live_normal |].
      rewrite normalize_live_id by auto. apply pairwise_filter. apply prune_aux_no_contain.
Qed.

Lemma reserve_no_contain (fr : FreeRects) (used : Rect) :
  pairwise (no_contain eps6) (rects (reserve fr used)).
Proof.
  unfold reserve. cbn [rects]. unfold merge_adjacent.
  destruct (prune_contained _ _) eqn:E; [exact I |].
  apply (@merge_iters_no_contain eps6 49); [reflexivity |].
  apply normalize_live_normal. reflexivity.
Qed.

(** *** Free rectangles on a grid

    When every coordinate is a whole multiple of a step [g] larger than the
    merge tolerance, "equal within the tolerance" is equality and merging
    two rectangles yields exactly their union. *)

Lemma disj_sym (a b : Rect) : disj a b -> disj b a.
Proof. unfold disj. tauto. Qed.

Lemma disj_intersects (a b : Rect) : disj a b -> rect_intersects a b eps9 = false.
Proof.
  unfold disj, rect_intersects, eps9. intros H.
  repeat match goal with
  | |- context [?x <=? ?y] => destruct (Qleb_spec x y)
  end; simpl; auto; exfalso; lra.
Qed.

Lemma union_proper (a b m : Rect) : union_of a b m -> proper a -> proper b -> proper m.
Proof.
  unfold union_of, proper. intros [H | H] Ha Hb; decompose [and] H; clear H; split; qsolve.
Qed.

Lemma union_disj (a b m c : Rect) :
  union_of a b m -> proper c -> disj a c -> disj b c -> disj m c.
Proof.
  unfold union_of, proper, disj. intros [H | H] Hc Ha Hb; decompose [and] H; clear H;
    destruct Hc; qcases; lra.
Qed.

Lemma in_split_perm (A : Type) (l : list A) (x : A) :
  In x l -> exists l', Permutation l (x :: l').
Proof.
  intros H. apply in_split in H. destruct H as [l1 [l2 ->]].
  exists (l1 ++ l2). symmetry. apply Permutation_middle.
Qed.

Lemma set_used_length (j : nat) (used : list bool) : length (set_used j used) = length used.
Proof. revert j. induction used as [| u t IH]; intros [| j]; simpl; auto. Qed.

Lemma set_used_comm (i j : nat) (used : list bool) :
  set_used i (set_used j used) = set_used j (set_used i used).
Proof.
  revert i j. induction used as [| u t IH]; intros [| i] [| j]; simpl; auto.
  now rewrite IH.
Qed.

Lemma nth_set_used_other (i j : nat) (used : list bool) :
  i <> j -> nth j (set_used i used) false = nth j used false.
Proof.
  revert i j. induction used as [| u t IH]; intros [| i] [| j] H; simpl; auto; congruence.
Qed.

Lemma live_all_take (used : list bool) (cur : list Rect) (j : nat) (b : Rect) :
  nth j used false = false -> nth_error cur j = Some b -> (j < length used)%nat ->
  Permutation (live_all used cur) (b :: live_all (set_used j used) cur).
Proof.
  revert cur j. induction used as [| u t IH]; intros cur j Hu Hb Hj; simpl in Hj; [lia |].
  destruct cur as [| c cur]; [destruct j; discriminate |].
  destruct j as [| j]; simpl in *.
  - subst u. inversion Hb; subst. reflexivity.
  - destruct u.
    + apply IH; auto. lia.
    + rewrite (IH cur j) by (auto; lia). apply perm_swap.
Qed.

Lemma live_all_fresh (cur : list Rect) : live_all (repeat false (length cur)) cur = cur.
Proof. induction cur as [| c t IH]; simpl; auto. now rewrite IH. Qed.

Section Grid.
Variable g : Q.
Hypothesis Hg : eps6 < g.

Lemma on_grid_eq (c c' : Q) : on_grid g c -> c == c' -> on_grid g c'.
Proof. intros [k Hk] H. exists k. lra. Qed.

Lemma on_grid_0 : on_grid g 0.
Proof. exists 0%Z. unfold inject_Z. lra. Qed.

Lemma on_grid_opp (c : Q) : on_grid g c -> on_grid g (- c).
Proof.
  intros [k Hk]. exists (- k)%Z. rewrite inject_Z_opp. rewrite Hk. ring.
Qed.

Lemma on_grid_qmin (a b : Q) : on_grid g a -> on_grid g b -> on_grid g (qmin a b).
Proof. intros. unfold qmin. destruct (b <? a); auto. Qed.

Lemma on_grid_qmax (a b : Q) : on_grid g a -> on_grid g b -> on_grid g (qmax a b).
Proof. intros. unfold qmax. destruct (a <? b); auto. Qed.

(** Two grid points closer than the step are ordered exactly. *)
Lemma grid_le (a b t : Q) : on_grid g a -> on_grid g b -> t < g -> a <= b + t -> a <= b.
Proof.
  intros [ka Ha] [kb Hb] Ht H.
  assert (G0 : 0 < g) by (unfold eps6 in Hg; lra).
  destruct (Z_le_gt_dec ka kb) as [L | L].
  - assert (inject_Z ka * g <= inject_Z kb * g).
    { apply Qmult_le_compat_r; [| lra]. rewrite <- Zle_Qle. exact L. }
    lra.
  - assert (L' : (kb + 1 <= ka)%Z) by lia.
    assert (inject_Z (kb + 1) * g <= inject_Z ka * g).
    { apply Qmult_le_compat_r; [| lra]. rewrite <- Zle_Qle. exact L'. }
    rewrite inject_Z_plus in H0. unfold inject_Z at 2 in H0. lra.
Qed.

Lemma grid_close (a b : Q) : on_grid g a -> on_grid g b -> qabs (a - b) <= eps6 -> a == b.
Proof.
  intros Ha Hb H.
  assert (a <= b) by (apply (@grid_le a b eps6); auto; qsolve).
  assert (b <= a) by (apply (@grid_le b a eps6); auto; qsolve).
  lra.
Qed.

Lemma intersects_disj (a b : Rect) :
  rect_on_grid g a -> rect_on_grid g b -> rect_intersects a b eps9 = false -> disj a b.
Proof.
  intros [A0 [A1 [A2 A3]]] [B0 [B1 [B2 B3]]]. unfold rect_intersects, disj.
  assert (E : eps9 < g) by (unfold eps6, eps9 in *; lra).
  destruct (Qleb_spec (rx1 a) (rx0 b + eps9)).
  { intros _. left. eapply grid_le; eauto. }
  destruct (Qleb_spec (rx1 b - eps9) (rx0 a)).
  { intros _. right; left. apply (@grid_le _ _ eps9); auto. lra. }
  destruct (Qleb_spec (rz1 a) (rz0 b + eps9)).
  { intros _. right; right; left. eapply grid_le; eauto. }
  destruct (Qleb_spec (rz1 b - eps9) (rz0 a)).
  { intros _. right; right; right. apply (@grid_le _ _ eps9); auto. lra. }
  simpl. discriminate.
Qed.

Lemma clamp0_grid (c : Q) : on_grid g c -> clamp0 eps6 c == c.
Proof.
  intros H. unfold clamp0. destruct (Qltb_spec (qabs c) eps6); [| reflexivity].
  symmetry. apply grid_close; auto using on_grid_0.
  assert (c - 0 == c) by ring. qsolve.
Qed.

Lemma normalize_grid (r : Rect) :
  rect_on_grid g r -> proper r -> req (_normalize_rect r eps6) r.
Proof.
  intros [A0 [A1 [A2 A3]]] [P1 P2]. rewrite _normalize_rect_eq. unfold req, order2. simpl.
  destruct (Qltb_spec (rx1 r) (rx0 r)); [lra |].
  destruct (Qltb_spec (rz1 r) (rz0 r)); [lra |]. simpl.
  repeat split; now apply clamp0_grid.
Qed.

Lemma try_merge_union (a b m : Rect) :
  rect_on_grid g a -> rect_on_grid g b -> try_merge eps6 a b = Some m -> union_of a b m.
Proof.
  intros [A0 [A1 [A2 A3]]] [B0 [B1 [B2 B3]]].
  destruct a as [ax0 ax1 az0 az1], b as [bx0 bx1 bz0 bz1]. simpl in *.
  unfold try_merge, _almost_equal.
  destruct (Qleb_spec (qabs (az0 - bz0)) eps6) as [Z0 | Z0];
  destruct (Qleb_spec (qabs (az1 - bz1)) eps6) as [Z1 | Z1];
  destruct (Qleb_spec (bx0 - eps6) ax1) as [X0 | X0];
  destruct (Qleb_spec (ax0 - eps6) bx1) as [X1 | X1]; simpl;
  try (intros E; inversion E; subst; clear E; left; simpl;
       repeat split; try reflexivity;
       try (apply grid_close; assumption);
       try (apply (@grid_le _ _ eps6); auto; lra); fail);
  (destruct (Qleb_spec (qabs (ax0 - bx0)) eps6) as [W0 | W0];
   destruct (Qleb_spec (qabs (ax1 - bx1)) eps6) as [W1 | W1];
   destruct (Qleb_spec (bz0 - eps6) az1) as [V0 | V0];
   destruct (Qleb_spec (az0 - eps6) bz1) as [V1 | V1]; simpl;
   try discriminate;
   intros E; inversion E; subst; clear E; right; simpl;
   repeat split; try reflexivity;
   try (apply grid_close; assumption);
   try (apply (@grid_le _ _ eps6); auto; lra)).
Qed.

Lemma union_grid (a b m : Rect) :
  rect_on_grid g a -> rect_on_grid g b -> union_of a b m -> rect_on_grid g m.
Proof.
  intros [A0 [A1 [A2 A3]]] [B0 [B1 [B2 B3]]] [H | H]; decompose [and] H; clear H;
    repeat split;
    match goal with
    | E : ?c == _ |- on_grid g ?c => eapply on_grid_eq; [| symmetry; exact E]
    end; auto using on_grid_qmin, on_grid_qmax.
Qed.

Lemma union_req (a b m m' : Rect) : union_of a b m -> req m' m -> union_of a b m'.
Proof.
  unfold union_of, req. intros [H | H] [E0 [E1 [E2 E3]]]; decompose [and] H; clear H;
    [left | right]; repeat split; auto; lra.
Qed.
End Grid.

Section GridInvariant.
Variable g : Q.
Hypothesis Hg : eps6 < g.
Variable us : list Rect.
Hypothesis us_proper : Forall proper us.

Lemma good_perm (l l' : list Rect) : Permutation l l' -> good g us l -> good g us l'.
Proof.
  intros P [H1 [H2 [H3 H4]]]. repeat split; try (eapply Permutation_Forall; eauto).
  eapply pairwise_perm; eauto using disj_sym.
Qed.

Lemma good_app_l (l1 l2 : list Rect) : good g us (l1 ++ l2) -> good g us l1.
Proof.
  intros [H1 [H2 [H3 H4]]]. rewrite Forall_app in H1, H2, H3.
  apply pairwise_app in H4; auto using disj_sym. unfold good. tauto.
Qed.

Lemma good_merge (a b m : Rect) (rest : list Rect) :
  good g us (a :: b :: rest) -> union_of a b m -> good g us (m :: rest).
Proof.
  intros [H1 [H2 [H3 H4]]] U.
  inversion H1 as [| ? ? Ga H1']; subst. inversion H1' as [| ? ? Gb H1'']; subst.
  inversion H2 as [| ? ? Pa H2']; subst. inversion H2' as [| ? ? Pb H2'']; subst.
  inversion H3 as [| ? ? Da H3']; subst. inversion H3' as [| ? ? Db H3'']; subst.
  simpl in H4. destruct H4 as [Fa [Fb H4]]. inversion Fa as [| ? ? _ Fa']; subst.
  repeat split.
  - constructor; auto. eapply union_grid; [exact Ga | exact Gb | exact U].
  - constructor; auto. eapply union_proper; [exact U | exact Pa | exact Pb].
  - constructor; auto. apply Forall_forall. intros u Hu.
    rewrite Forall_forall in Da, Db, us_proper. eapply union_disj; [exact U | | |]; auto.
  - apply Forall_forall. intros c Hc.
    rewrite Forall_forall in Fa', Fb, H2''. eapply union_disj; [exact U | | |]; auto.
  - exact H4.
Qed.

Lemma scan_js_good (i : nat) (cur nxt : list Rect) (js : list (nat * Rect)) (s : ScanState) :
  (forall j b, In (j, b) js -> nth_error cur j = Some b) ->
  length (sc_used s) = length cur ->
  good g us (nxt ++ sc_merged s :: live_all (set_used i (sc_used s)) cur) ->
  length (sc_used (scan_js eps6 i js s)) = length cur /\
  good g us (nxt ++ sc_merged (scan_js eps6 i js s)
            :: live_all (set_used i (sc_used (scan_js eps6 i js s))) cur).
Proof.
  revert s. induction js as [| [j b] rest IH]; intros s Hjs Hlen Hgood; [simpl; auto |].
  assert (Hrest : forall j0 b0, In (j0, b0) rest -> nth_error cur j0 = Some b0)
    by (intros; apply Hjs; now right).
  simpl. destruct (Nat.eqb_spec i j) as [-> | Hij]; simpl; [now apply IH |].
  destruct (nth j (sc_used s) false) eqn:Hu; [now apply IH |].
  destruct (try_merge eps6 (sc_merged s) b) as [m |] eqn:Hm; [| now apply IH].
  assert (Hb : nth_error cur j = Some b) by (apply Hjs; now left).
  assert (Hj : (j < length cur)%nat) by (apply nth_error_Some; congruence).
  apply IH; auto; simpl; [now rewrite set_used_length |].
  assert (P : Permutation (live_all (set_used i (sc_used s)) cur)
                (b :: live_all (set_used i (set_used j (sc_used s))) cur)).
  { rewrite (set_used_comm i j). apply live_all_take; auto.
    - rewrite nth_set_used_other; auto.
    - rewrite set_used_length. lia. }
  assert (G1 : good g us (sc_merged s :: b :: nxt
                     ++ live_all (set_used i (set_used j (sc_used s))) cur)).
  { eapply good_perm; [| exact Hgood].
    rewrite P. rewrite <- Permutation_middle. apply perm_skip.
    rewrite <- Permutation_middle. reflexivity. }
  assert (Gm : rect_on_grid g (sc_merged s) /\ rect_on_grid g b /\
               proper (sc_merged s) /\ proper b).
  { destruct G1 as [H1 [H2 _]]. inversion H1 as [| ? ? ? H1']; subst.
    inversion H1'; subst. inversion H2 as [| ? ? ? H2']; subst. inversion H2'; subst. tauto. }
  destruct Gm as [Ga [Gb [Pa Pb]]].
  assert (U : union_of (sc_merged s) b m) by (eapply try_merge_union; eauto).
  assert (U' : union_of (sc_merged s) b (_normalize_rect m eps6)).
  { apply (union_req U). apply (normalize_grid Hg).
    - eapply union_grid; [exact Ga | exact Gb | exact U].
    - eapply union_proper; [exact U | exact Pa | exact Pb]. }
  eapply good_perm; [| eapply good_merge; [exact G1 | exact U']].
  apply Permutation_middle.
Qed.

Lemma merge_while_good (fuel i : nat) (cur nxt : list Rect) (s : ScanState) :
  length (sc_used s) = length cur ->
  good g us (nxt ++ sc_merged s :: live_all (set_used i (sc_used s)) cur) ->
  length (sc_used (merge_while fuel eps6 i cur s)) = length cur /\
  good g us (nxt ++ sc_merged (merge_while fuel eps6 i cur s)
            :: live_all (set_used i (sc_used (merge_while fuel eps6 i cur s))) cur).
Proof.
  revert s. induction fuel as [| f IH]; intros s Hlen Hgood; [auto |].
  rewrite merge_while_S. cbv zeta.
  match goal with |- context [scan_js ?e ?i ?js ?s0] =>
    destruct (@scan_js_good i cur nxt js s0) as [L G]; auto;
    [ intros j b Hjb; now apply enumerate_In | ];
    destruct (sc_changed (scan_js e i js s0)); auto
  end.
Qed.

Lemma merge_round_good (cur : list Rect) :
  good g us cur -> good g us (rd_nxt (merge_round eps6 cur)).
Proof.
  intros Hc. unfold merge_round.
  assert (G : forall l st,
             (forall i a, In (i, a) l -> nth_error cur i = Some a) ->
             length (rd_used st) = length cur ->
             good g us (rd_nxt st ++ live_all (rd_used st) cur) ->
             good g us (rd_nxt (fold_left (round_step eps6 cur) l st))).
  { induction l as [| [i a] t IH]; intros st Hl Hlen Hgood.
    - simpl. eapply good_app_l; eauto.
    - cbn [fold_left].
      assert (Ha : nth_error cur i = Some a) by (apply Hl; now left).
      assert (Hi : (i < length cur)%nat) by (apply nth_error_Some; congruence).
      unfold round_step at 2.
      destruct (nth i (rd_used st) false) eqn:Hu.
      + apply IH; auto. intros; apply Hl; now right.
      + match goal with |- context [merge_while ?f ?e ?i ?c ?s0] =>
          destruct (@merge_while_good f i cur (rd_nxt st) s0) as [L Gd]; auto
        end.
        { simpl. eapply good_perm; [| exact Hgood].
          rewrite <- Permutation_middle.
          rewrite (@live_all_take (rd_used st) cur i a) by (auto; lia).
          rewrite <- Permutation_middle. reflexivity. }
        apply IH; [intros; apply Hl; now right | |]; cbn [rd_used rd_nxt].
        * now rewrite set_used_length.
        * rewrite <- app_assoc. exact Gd. }
  apply G.
  - intros i a. apply enumerate_In.
  - simpl. apply repeat_length.
  - simpl. now rewrite live_all_fresh.
Qed.

Lemma good_filter (f : Rect -> bool) (l : list Rect) : good g us l -> good g us (filter f l).
Proof.
  intros [H1 [H2 [H3 H4]]]. repeat split;
    try (apply Forall_forall; intros r Hr; apply filter_In in Hr; destruct Hr as [Hr _];
         match goal with H : Forall _ l |- _ => rewrite Forall_forall in H; now apply H end).
  now apply pairwise_filter.
Qed.

Lemma good_prune (eps : Q) (l : list Rect) : good g us l -> good g us (prune_contained l eps).
Proof.
  intros [H1 [H2 [H3 H4]]]. unfold prune_contained. repeat split;
    try (apply Forall_forall; intros r Hr; apply prune_aux_In in Hr;
         match goal with H : Forall _ l |- _ => rewrite Forall_forall in H; now apply H end).
  now apply pairwise_prune.
Qed.

Lemma req_disj (a a' b b' : Rect) : req a' a -> req b' b -> disj a b -> disj a' b'.
Proof. unfold req, disj. intros [? [? [? ?]]] [? [? [? ?]]] D. lra. Qed.

Lemma req_refl (a : Rect) : req a a.
Proof. unfold req. repeat split; reflexivity. Qed.

Lemma good_normalize (l : list Rect) :
  good g us l -> good g us (map (fun r => _normalize_rect r eps6) l).
Proof.
  intros [H1 [H2 [H3 H4]]].
  assert (E : forall r, In r l -> req (_normalize_rect r eps6) r).
  { intros r Hr. rewrite Forall_forall in H1, H2.
    apply (normalize_grid Hg); auto. }
  repeat split.
  - apply Forall_forall. intros r' Hr'. apply in_map_iff in Hr'.
    destruct Hr' as [r [<- Hr]]. destruct (E r Hr) as [E0 [E1 [E2 E3]]].
    rewrite Forall_forall in H1. destruct (H1 r Hr) as [A0 [A1 [A2 A3]]].
    repeat split;
      [ apply (on_grid_eq A0) | apply (on_grid_eq A1)
      | apply (on_grid_eq A2) | apply (on_grid_eq A3) ]; lra.
  - apply Forall_forall. intros r' Hr'. apply in_map_iff in Hr'.
    destruct Hr' as [r [<- Hr]]. destruct (E r Hr) as [E0 [E1 [E2 E3]]].
    rewrite Forall_forall in H2. destruct (H2 r Hr). unfold proper. lra.
  - apply Forall_forall. intros r' Hr'. apply in_map_iff in Hr'.
    destruct Hr' as [r [<- Hr]]. rewrite Forall_forall in H3.
    apply Forall_forall. intros u Hu. specialize (H3 r Hr). rewrite Forall_forall in H3.
    eapply req_disj; [apply E; auto | apply req_refl | auto].
  - eapply pairwise_map; [| exact H4]. intros x y Hx Hy D.
    eapply req_disj; eauto.
Qed.

Lemma merge_iters_good (n : nat) (cur : list Rect) :
  good g us cur -> good g us (merge_iters n eps6 cur).
Proof.
  revert cur. induction n as [| n IH]; intros cur Hc; [exact Hc |].
  simpl.
  assert (G : good g us (normalize_live eps6 (prune_contained (rd_nxt (merge_round eps6 cur)) eps6))).
  { unfold normalize_live. apply good_normalize, good_filter, good_prune.
    now apply merge_round_good. }
  destruct (rd_any _); auto.
Qed.

Lemma merge_adjacent_good (n : nat) (l : list Rect) :
  good g us l -> good g us (merge_adjacent l eps6 n).
Proof.
  intros H. unfold merge_adjacent. destruct l as [| r t]; [exact H |].
  apply merge_iters_good. unfold normalize_live. now apply good_normalize, good_filter.
Qed.
End GridInvariant.

Lemma inside_refl (f : Rect) : inside f f.
Proof. unfold inside. lra. Qed.

Lemma inside_disj (p f q h : Rect) : inside p f -> inside q h -> disj f h -> disj p q.
Proof. unfold inside, disj. lra. Qed.

Lemma area_proper (r : Rect) : eps9 < rect_area r -> proper r.
Proof.
  unfold rect_area, proper, eps9. intros H.
  destruct (qmax_cases 0 (rx1 r - rx0 r)) as [[H1 E1] | [H1 E1]]; rewrite E1 in H;
  destruct (qmax_cases 0 (rz1 r - rz0 r)) as [[H2 E2] | [H2 E2]]; rewrite E2 in H;
    try (split; lra); exfalso; ring_simplify in H; lra.
Qed.

Lemma split_rect_strips (free used : Rect) (eps : Q) :
  split_rect free used eps = filter (fun r => eps9 <? rect_area r) (split_strips free used eps).
Proof.
  destruct free, used. unfold split_rect, split_strips.
  destruct (_ <? _), (_ <? _), (_ <? _), (_ <? _); reflexivity.
Qed.

Lemma split_strips_inside (free used p : Rect) (eps : Q) :
  In p (split_strips free used eps) -> inside p free /\ disj p used.
Proof.
  destruct free as [fx0 fx1 fz0 fz1], used as [ux0 ux1 uz0 uz1]. unfold split_strips.
  intros H. repeat (apply in_app_or in H; destruct H as [H | H]);
    match type of H with In _ (if ?c then _ else _) => destruct c end;
    simpl in H; try tauto; destruct H as [<- | []];
    unfold inside, disj; simpl; split; qcases; lra.
Qed.

Section Strips.
Variables fx0 fx1 fz0 fz1 ux0 ux1 uz0 uz1 : Q.
Hypothesis Px : ux0 < ux1.
Hypothesis Pz : uz0 < uz1.

Lemma strips_left_right :
disj (mkRect fx0 (qmin ux0 fx1) fz0 fz1) (mkRect (qmax ux1 fx0) fx1 fz0 fz1).
Proof. unfold disj; simpl. left. qcases; lra. Qed.

Lemma strips_left_bottom :
disj (mkRect fx0 (qmin ux0 fx1) fz0 fz1)
     (mkRect (qmax fx0 ux0) (qmin fx1 ux1) fz0 (qmin uz0 fz1)).
Proof. unfold disj; simpl. left. qcases; lra. Qed.

Lemma strips_left_top :
disj (mkRect fx0 (qmin ux0 fx1) fz0 fz1)
     (mkRect (qmax fx0 ux0) (qmin fx1 ux1) (qmax uz1 fz0) fz1).
Proof. unfold disj; simpl. left. qcases; lra. Qed.

Lemma strips_right_bottom :
disj (mkRect (qmax ux1 fx0) fx1 fz0 fz1)
     (mkRect (qmax fx0 ux0) (qmin fx1 ux1) fz0 (qmin uz0 fz1)).
Proof. unfold disj; simpl. right; left. qcases; lra. Qed.

Lemma strips_right_top :
disj (mkRect (qmax ux1 fx0) fx1 fz0 fz1)
     (mkRect (qmax fx0 ux0) (qmin fx1 ux1) (qmax uz1 fz0) fz1).
Proof. unfold disj; simpl. right; left. qcases; lra. Qed.

Lemma strips_bottom_top :
disj (mkRect (qmax fx0 ux0) (qmin fx1 ux1) fz0 (qmin uz0 fz1))
     (mkRect (qmax fx0 ux0) (qmin fx1 ux1) (qmax uz1 fz0) fz1).
Proof. unfold disj; simpl. right; right; left. qcases; lra. Qed.
End Strips.

Lemma split_strips_pairwise (free used : Rect) (eps : Q) :
  proper used -> pairwise disj (split_strips free used eps).
Proof.
  destruct free as [fx0 fx1 fz0 fz1], used as [ux0 ux1 uz0 uz1]. unfold split_strips, proper.
  simpl. intros [P1 P2].
  destruct (_ <? _), (_ <? _), (_ <? _), (_ <? _); simpl;
    repeat split; repeat (match goal with |- Forall _ _ => constructor end);
    auto using strips_left_right, strips_left_bottom, strips_left_top,
      strips_right_bottom, strips_right_top, strips_bottom_top.
Qed.

Lemma split_strips_grid (g : Q) (free used p : Rect) (eps : Q) :
  rect_on_grid g free -> rect_on_grid g used -> In p (split_strips free used eps) ->
  rect_on_grid g p.
Proof.
  destruct free as [fx0 fx1 fz0 fz1], used as [ux0 ux1 uz0 uz1]. unfold split_strips.
  intros [F0 [F1 [F2 F3]]] [U0 [U1 [U2 U3]]] H. simpl in *.
  repeat (apply in_app_or in H; destruct H as [H | H]);
    match type of H with In _ (if ?c then _ else _) => destruct c end;
    simpl in H; try tauto; destruct H as [<- | []];
    repeat split; simpl; auto using on_grid_qmin, on_grid_qmax.
Qed.

Section ReserveInvariant.
Variable g : Q.
Hypothesis Hg : eps6 < g.

Lemma reserve_split_good (us fs : list Rect) (u : Rect) :
  rect_on_grid g u -> proper u -> good g us fs -> good g (u :: us) (reserve_split fs u).
Proof.
  intros Gu Pu [H1 [H2 [H3 H4]]].
  assert (Piece : forall f p, In f fs ->
            In p (if rect_intersects f u eps9 then split_rect f u eps9 else [f]) ->
            rect_on_grid g p /\ proper p /\ inside p f /\ disj p u).
  { intros f p Hf Hp. rewrite Forall_forall in H1, H2.
    destruct (rect_intersects f u eps9) eqn:I.
    - rewrite split_rect_strips in Hp. apply filter_In in Hp. destruct Hp as [Hp Ha].
      destruct (split_strips_inside _ _ _ _ Hp). split; [| split; [| split]]; auto.
      + eapply split_strips_grid; [| | exact Hp]; auto.
      + apply area_proper. destruct (Qltb_spec eps9 (rect_area p)); [auto | discriminate].
    - destruct Hp as [<- | []]. split; [| split; [| split]]; auto.
      + apply inside_refl.
      + apply (intersects_disj Hg); auto. }
  unfold reserve_split. split; [| split; [| split]].
  - apply Forall_forall. intros p Hp. apply in_flat_map in Hp.
    destruct Hp as [f [Hf Hp]]. now apply (Piece f p).
  - apply Forall_forall. intros p Hp. apply in_flat_map in Hp.
    destruct Hp as [f [Hf Hp]]. now apply (Piece f p).
  - apply Forall_forall. intros p Hp. apply in_flat_map in Hp.
    destruct Hp as [f [Hf Hp]]. destruct (Piece f p Hf Hp) as [_ [_ [Hi Hd]]].
    constructor; auto. rewrite Forall_forall in H3. specialize (H3 f Hf).
    apply Forall_forall. intros u0 Hu0. rewrite Forall_forall in H3.
    eapply inside_disj; [exact Hi | apply inside_refl | auto].
  - assert (Own : forall f, pairwise disj
              (if rect_intersects f u eps9 then split_rect f u eps9 else [f])).
    { intros f. destruct (rect_intersects f u eps9); [| simpl; auto].
      rewrite split_rect_strips. apply pairwise_filter. now apply split_strips_pairwise. }
    assert (Cross : forall l, (forall f, In f l -> In f fs) -> pairwise disj l ->
              pairwise disj (flat_map (fun r => if rect_intersects r u eps9
                                                then split_rect r u eps9 else [r]) l)).
    { induction l as [| f t IH]; simpl; auto. intros Hin [F1 F2].
      apply pairwise_app; auto using disj_sym. repeat split; auto.
      intros x y Hx Hy. apply in_flat_map in Hy. destruct Hy as [f2 [Hf2 Hy]].
      destruct (Piece f x (Hin f (or_introl eq_refl)) Hx) as [_ [_ [Ix _]]].
      destruct (Piece f2 y (Hin f2 (or_intror Hf2)) Hy) as [_ [_ [Iy _]]].
      rewrite Forall_forall in F1. eapply inside_disj; eauto. }
    apply Cross; auto.
Qed.

Lemma good_weaken (us us' l : list Rect) :
  (forall u, In u us' -> In u us) -> good g us l -> good g us' l.
Proof.
  intros Hsub [H1 [H2 [H3 H4]]]. repeat split; auto.
  apply Forall_forall. intros f Hf. rewrite Forall_forall in H3. specialize (H3 f Hf).
  apply Forall_forall. intros u Hu. rewrite Forall_forall in H3. auto.
Qed.

Lemma reserve_good (us : list Rect) (fr : FreeRects) (u : Rect) :
  Forall proper us -> rect_on_grid g u -> proper u ->
  good g us (rects fr) -> good g (u :: us) (rects (reserve fr u)).
Proof.
  intros Pus Gu Pu H. unfold reserve. cbn [rects].
  apply (merge_adjacent_good Hg); [constructor; auto |].
  apply good_prune. now apply reserve_split_good.
Qed.

Lemma fold_reserve_good (tail us : list Rect) (fr : FreeRects) :
  Forall proper us -> Forall (rect_on_grid g) tail -> Forall proper tail ->
  good g us (rects fr) ->
  good g (rev tail ++ us) (rects (fold_left reserve tail fr)).
Proof.
  revert us fr. induction tail as [| u t IH]; intros us fr Pus Gt Pt H; [exact H |].
  inversion Gt; subst. inversion Pt; subst. cbn [fold_left rev].
  rewrite <- app_assoc. change ([u] ++ us) with (u :: us).
  apply IH; auto. now apply reserve_good.
Qed.
End ReserveInvariant.

(** The [while changed] loop is given enough passes: a pass that changes
    something marks a fresh index as used, so any larger amount of fuel
    yields the same state. *)
Lemma count_unused_set (j : nat) (used : list bool) :
  nth j used false = false -> (j < length used)%nat ->
  S (count_unused (set_used j used)) = count_unused used.
Proof.
  unfold count_unused. revert j. induction used as [| u t IH]; intros j Hu Hj; simpl in Hj; [lia |].
  destruct j as [| j]; simpl in *.
  - subst u. reflexivity.
  - destruct u; simpl; rewrite <- (IH j) by (auto; lia); reflexivity.
Qed.

Lemma scan_js_count (eps : Q) (i : nat) (cur : list Rect) (js : list (nat * Rect)) (s : ScanState) :
  (forall j b, In (j, b) js -> (j < length cur)%nat) ->
  length (sc_used s) = length cur ->
  length (sc_used (scan_js eps i js s)) = length cur /\
  (count_unused (sc_used (scan_js eps i js s)) <= count_unused (sc_used s))%nat /\
  (sc_changed (scan_js eps i js s) = true ->
   sc_changed s = true \/
   (count_unused (sc_used (scan_js eps i js s)) < count_unused (sc_used s))%nat).
Proof.
  revert s. induction js as [| [j b] rest IH]; intros s Hjs Hlen; simpl; [auto |].
  assert (Hrest : forall j0 b0, In (j0, b0) rest -> (j0 < length cur)%nat)
    by (intros; eapply Hjs; right; eauto).
  destruct (Nat.eqb i j || nth j (sc_used s) false) eqn:C; [now apply IH |].
  destruct (try_merge eps (sc_merged s) b) as [m |]; [| now apply IH].
  apply orb_false_iff in C. destruct C as [_ Hu].
  assert (Hj : (j < length (sc_used s))%nat) by (rewrite Hlen; eapply Hjs; left; eauto).
  assert (Hc := @count_unused_set j (sc_used s) Hu Hj).
  match goal with |- context [scan_js eps i rest ?s0] =>
    destruct (IH s0 Hrest) as [L [C1 C2]]; [simpl; now rewrite set_used_length |]
  end.
  simpl in *. repeat split; auto; [lia |]. intros _. right. lia.
Qed.

Lemma merge_while_fuel (eps : Q) (i : nat) (cur : list Rect) (fuel : nat) (s : ScanState) :
  length (sc_used s) = length cur ->
  (count_unused (sc_used s) < fuel)%nat ->
  merge_while (S fuel) eps i cur s = merge_while fuel eps i cur s.
Proof.
  revert s. induction fuel as [| f IH]; intros s Hlen Hf; [lia |].
  rewrite (merge_while_S (S f)). rewrite (merge_while_S f). cbv zeta.
  match goal with |- context [scan_js ?e ?i ?js ?s0] =>
    destruct (@scan_js_count e i cur js s0) as [L [C1 C2]]; auto;
    [ intros j b Hjb; apply enumerate_In in Hjb; apply nth_error_Some; congruence | ];
    destruct (sc_changed (scan_js e i js s0)) eqn:Ch; auto
  end.
  apply IH; auto. simpl in *. destruct (C2 eq_refl) as [C | C]; [discriminate | lia].
Qed.


(** ** Axle loads *)

Lemma sum_weights_acc (placed : list PlacedItem) (acc : Q) :
  fold_left (fun total p => total + item_weight (p_item p)) placed acc
  == acc + sumQ (fun p => item_weight (p_item p)) placed.
Proof.
  revert acc. induction placed as [| p t IH]; intros acc; simpl.
  - ring.
  - rewrite IH. ring.
Qed.

Lemma sum_weights_sumQ (placed : list PlacedItem) :
  sum_weights placed == sumQ (fun p => item_weight (p_item p)) placed.
Proof. unfold sum_weights. rewrite sum_weights_acc. ring. Qed.

Lemma axle_step_B (L a b : Q) (acc : Q * Q) (p : PlacedItem) :
  snd (axle_step L a (b - a) acc p) == snd acc + axleB_share L a b p.
Proof. unfold axle_step, axleB_share. simpl. unfold Qdiv. ring. Qed.

Lemma axle_step_A (L a b : Q) (acc : Q * Q) (p : PlacedItem) :
  fst (axle_step L a (b - a) acc p) == fst acc + axleA_share L a b p.
Proof. unfold axle_step, axleA_share, axleB_share. simpl. unfold Qdiv. ring. Qed.

Lemma axle_fold (L a b : Q) (placed : list PlacedItem) (acc : Q * Q) :
  fst (fold_left (axle_step L a (b - a)) placed acc) == fst acc + sumQ (axleA_share L a b) placed /\
  snd (fold_left (axle_step L a (b - a)) placed acc) == snd acc + sumQ (axleB_share L a b) placed.
Proof.
  revert acc. induction placed as [| p t IH]; intros acc; simpl.
  - split; ring.
  - destruct (IH (axle_step L a (b - a) acc p)) as [HA HB]. split.
    + rewrite HA, axle_step_A. ring.
    + rewrite HB, axle_step_B. ring.
Qed.

Lemma over_limit_exceeds (limit : option Q) (load : Q) :
  over_limit limit load = true <-> exceeds limit load.
Proof.
  unfold over_limit, exceeds. destruct limit as [l |].
  - destruct (Qltb_spec (l + eps9) load); split; intros H; try discriminate; eauto.
    destruct H as [l' [E H]]. inversion E; subst. contradiction.
  - split; [discriminate | intros [l [E _]]; discriminate].
Qed.

Lemma check_loads_fst (loads : AxleLoads) (vehicle : Vehicle) :
  fst (check_loads loads vehicle) =
  negb (over_limit (payloadMaxKg vehicle) (payload_kg loads)
        || over_limit (axleALimitKg vehicle) (axleA_kg loads)
        || over_limit (axleBLimitKg vehicle) (axleB_kg loads)).
Proof.
  unfold check_loads.
  destruct (over_limit (payloadMaxKg vehicle) _), (over_limit (axleALimitKg vehicle) _),
    (over_limit (axleBLimitKg vehicle) _); reflexivity.
Qed.

(** ** The candidate generator *)

Lemma build_candidate_floor (pool : list Item) (it : Item) (x z : Q) (rot : Z)
  (kind : string) (meta : Meta) :
  In it pool -> floor_cand pool (_build_candidate it x 0 z rot kind meta).
Proof.
  intros H. exists it. unfold _build_candidate. destruct (dims_for_rot it rot) as [dx dz].
  simpl. split; [exact H |]. do 3 (split; [reflexivity |]). split; field.
Qed.

Lemma floor_cand_incl (pool pool' : list Item) (c : Candidate) :
  (forall it, In it pool -> In it pool') -> floor_cand pool c -> floor_cand pool' c.
Proof. intros H [it [Hi Hr]]. exists it. split; auto. Qed.

Lemma set_patternId_floor (pool : list Item) (c : Candidate) (pid : string) :
  floor_cand pool c -> floor_cand pool (set_patternId c pid).
Proof. intros [it H]. exists it. exact H. Qed.

Lemma pattern_row_floor (kind : string) (mk_meta : nat -> Meta) (minX zc : Q)
  (want_w want_l max_dx max_dz slot_w : Q) (row : list Item) :
  forall (j : nat) (pack : list Candidate),
  pattern_row kind mk_meta minX 0 zc want_w want_l max_dx max_dz slot_w j row = Some pack ->
  Forall (floor_cand row) pack.
Proof.
  induction row as [| it rest IH]; intros j pack H; simpl in H.
  - inversion H. constructor.
  - destruct (dims_for_rot it (_rot_for it want_w want_l)) as [dx dz] eqn:D.
    destruct ((max_dx <? dx) || (max_dz <? dz)); [discriminate |].
    destruct (pattern_row kind mk_meta minX 0 zc want_w want_l max_dx max_dz slot_w (S j) rest)
      as [pack' |] eqn:E; [| discriminate].
    inversion H; subst. constructor.
    + apply build_candidate_floor. now left.
    + apply IH in E. eapply Forall_impl; [| exact E].
      intros c Hc. eapply floor_cand_incl; [| exact Hc]. intros; now right.
Qed.

Lemma pick_In (items : list Item) (idxs : list nat) (it : Item) :
  In it (pick items idxs) -> In it items.
Proof.
  induction idxs as [| i rest IH]; simpl; [tauto |].
  destruct (nth_error items i) eqn:E; auto.
  intros [<- | H]; auto. eapply nth_error_In; eauto.
Qed.

Lemma variants_loop_In (cap : nat) (items : list Item) (idx_sets : list (list nat)) :
  forall (seen : list (list nat)) (out : list (list Item)),
  (forall v it, In v out -> In it v -> In it items) ->
  forall v it, In v (variants_loop cap items idx_sets seen out) -> In it v -> In it items.
Proof.
  induction idx_sets as [| idxs rest IH]; intros seen out Hout v it; simpl; [apply Hout |].
  assert (Hout' : forall v it, In v (out ++ [pick items idxs]) -> In it v -> In it items).
  { intros v0 it0 Hv Hi. apply in_app_or in Hv. destruct Hv as [Hv | [<- | []]].
    - eapply Hout; eauto.
    - eapply pick_In; eauto. }
  destruct (forallb _ idxs).
  - destruct (existsb _ seen); [now apply IH |].
    destruct (Nat.leb cap (length (out ++ [pick items idxs]))); [apply Hout' | now apply IH].
  - destruct (Nat.leb cap (length out)); [apply Hout | now apply IH].
Qed.

Lemma variants_take3_In (items : list Item) (v : list Item) (it : Item) :
  In v (_variants_take3 items) -> In it v -> In it items.
Proof.
  unfold _variants_take3. destruct (Nat.ltb (length items) 3); [simpl; tauto |].
  apply variants_loop_In. simpl; tauto.
Qed.

Lemma variants_take5_In (items : list Item) (v : list Item) (it : Item) :
  In v (_variants_take5 items) -> In it v -> In it items.
Proof.
  unfold _variants_take5. destruct (Nat.ltb (length items) 5); [simpl; tauto |].
  apply variants_loop_In. simpl; tauto.
Qed.

Lemma top_In (items : list Item) (n : nat) (it : Item) : In it (_top items n) -> In it items.
Proof. unfold _top. revert n. induction items; intros [| n]; simpl; intuition eauto. Qed.

Lemma firstn_In (A : Type) (l : list A) (n : nat) (x : A) : In x (firstn n l) -> In x l.
Proof. revert n. induction l; intros [| n]; simpl; intuition eauto. Qed.

Lemma skipn_In (A : Type) (l : list A) (n : nat) (x : A) : In x (skipn n l) -> In x l.
Proof. revert n. induction l; intros [| n]; simpl; intuition eauto. Qed.

(** Every pack of every pattern generator places units of its pools on
    the floor. *)
Lemma gen_3across_floor (rect : Rect) (std_items : list Item) (z_anchor : Q) (pid : string)
  (pack : list Candidate) :
  In pack (gen_3across rect std_items z_anchor pid) -> Forall (floor_cand std_items) pack.
Proof.
  unfold gen_3across. destruct rect as [minX maxX minZ maxZ].
  destruct (_ || _); [simpl; tauto |].
  destruct (Nat.ltb _ 3); [simpl; tauto |].
  intros H. apply in_flat_map in H. destruct H as [trio [Ht H]].
  match type of H with In _ (match ?e with _ => _ end) => destruct e as [pack' |] eqn:E end;
    [| destruct H].
  destruct H as [<- | []]. apply pattern_row_floor in E.
  eapply Forall_impl; [| exact E]. intros c Hc. eapply floor_cand_incl; [| exact Hc].
  intros it Hi. eapply top_In. eapply variants_take3_In; eauto.
Qed.

Lemma two_rows_floor (pool : list Item) (row1 row2 : list Item)
  (kind : string) (meta1 meta2 : nat -> Meta) (minX zc1 zc2 : Q)
  (w1 l1 mx1 mz1 s1 w2 l2 mx2 mz2 s2 : Q) (pack : list Candidate) :
  (forall it, In it row1 -> In it pool) -> (forall it, In it row2 -> In it pool) ->
  In pack (match pattern_row kind meta1 minX 0 zc1 w1 l1 mx1 mz1 s1 0 row1 with
           | None => []
           | Some pack1 =>
               match pattern_row kind meta2 minX 0 zc2 w2 l2 mx2 mz2 s2 0 row2 with
               | None => []
               | Some pack2 => [pack1 ++ pack2]
               end
           end) ->
  Forall (floor_cand pool) pack.
Proof.
  intros H1 H2 H.
  destruct (pattern_row kind meta1 minX 0 zc1 w1 l1 mx1 mz1 s1 0 row1) as [p1 |] eqn:E1;
    [| destruct H].
  destruct (pattern_row kind meta2 minX 0 zc2 w2 l2 mx2 mz2 s2 0 row2) as [p2 |] eqn:E2;
    [| destruct H].
  destruct H as [<- | []]. apply pattern_row_floor in E1, E2. apply Forall_app. split.
  - eapply Forall_impl; [| exact E1]. intros c Hc. exact (@floor_cand_incl _ _ _ H1 Hc).
  - eapply Forall_impl; [| exact E2]. intros c Hc. exact (@floor_cand_incl _ _ _ H2 Hc).
Qed.

Lemma gen_3plus2_floor (rect : Rect) (std_items : list Item) (z_anchor : Q) (pid : string)
  (pack : list Candidate) :
  In pack (gen_3plus2 rect std_items z_anchor pid) -> Forall (floor_cand std_items) pack.
Proof.
  unfold gen_3plus2. destruct rect as [minX maxX minZ maxZ].
  destruct (_ || _); [simpl; tauto |].
  destruct (Nat.ltb _ 5); [simpl; tauto |].
  intros H. apply in_flat_map in H. destruct H as [five [Ht H]].
  eapply two_rows_floor; [| | exact H]; intros it Hi;
    eapply top_In; eapply variants_take5_In; eauto using firstn_In, skipn_In.
Qed.

Lemma gen_zigzag_floor (rect : Rect) (std_items : list Item) (z_anchor : Q) (pid : string)
  (pack : list Candidate) :
  In pack (gen_zigzag rect std_items z_anchor pid) -> Forall (floor_cand std_items) pack.
Proof.
  unfold gen_zigzag. destruct rect as [minX maxX minZ maxZ].
  destruct (_ || _); [simpl; tauto |].
  destruct (Nat.ltb _ 5); [simpl; tauto |].
  intros H. apply in_flat_map in H. destruct H as [five [Ht H]].
  eapply two_rows_floor; [| | exact H]; intros it Hi;
    eapply top_In; eapply variants_take5_In; eauto using firstn_In, skipn_In.
Qed.

Lemma gen_140_inner_floor (pool : list Item) (rect : Rect) (rect_w zc z0 : Q) (pid : string)
  (bi : Item) (bi_idx : nat) (rot_b : Z) (dx_b : Q) (std_pool : list Item) :
  In bi pool -> (forall it, In it std_pool -> In it pool) ->
  forall (si_idx : nat) (st : Gen140State),
  Forall (Forall (floor_cand pool)) (g_out st) ->
  Forall (Forall (floor_cand pool))
    (g_out (gen_140_inner rect rect_w zc z0 0 pid bi bi_idx rot_b dx_b si_idx std_pool st)).
Proof.
  intros Hb. induction std_pool as [| si rest IH]; intros Hs si_idx st Hst; simpl; auto.
  assert (Hrest : forall it, In it rest -> In it pool) by (intros; apply Hs; now right).
  destruct (dims_for_rot si (_rot_for si (4 # 5) (6 # 5))) as [dx_s dz_s].
  destruct (_ || _); [now apply IH |].
  destruct (_ <? _); [now apply IH |].
  match goal with |- context [g_out st ++ [?pk]] =>
    assert (Hnew : Forall (Forall (floor_cand pool)) (g_out st ++ [pk]))
  end.
  { apply Forall_app. split; auto. constructor; [| constructor].
    constructor; [| constructor; [| constructor]]; apply build_candidate_floor; auto.
    apply Hs. now left. }
  match goal with |- context [if ?c then _ else _] => destruct c end;
    [exact Hnew | apply IH; auto].
Qed.

Lemma gen_140_outer_floor (pool : list Item) (rect : Rect) (rect_w zc z0 : Q) (pid : string)
  (std_pool big_pool : list Item) :
  (forall it, In it big_pool -> In it pool) -> (forall it, In it std_pool -> In it pool) ->
  forall (bi_idx : nat) (st : Gen140State),
  Forall (Forall (floor_cand pool)) (g_out st) ->
  Forall (Forall (floor_cand pool))
    (g_out (gen_140_outer rect rect_w zc z0 0 pid std_pool bi_idx big_pool st)).
Proof.
  intros Hb Hs. induction big_pool as [| bi rest IH]; intros bi_idx st Hst; simpl; auto.
  assert (Hrest : forall it, In it rest -> In it pool) by (intros; apply Hb; now right).
  destruct (dims_for_rot bi (_rot_for bi (7 # 5) (6 # 5))) as [dx_b dz_b].
  destruct (_ || _); [now apply IH |].
  match goal with |- context [gen_140_inner ?r ?w ?zc ?z0 0 ?p ?b ?bi' ?rot ?dx 0 ?sp ?s0] =>
    assert (Hin : Forall (Forall (floor_cand pool))
                    (g_out (gen_140_inner r w zc z0 0 p b bi' rot dx 0 sp s0)))
      by (apply gen_140_inner_floor; auto; apply Hb; now left);
    destruct (g_returned (gen_140_inner r w zc z0 0 p b bi' rot dx 0 sp s0)); auto
  end.
Qed.

Lemma gen_140plus80_floor (pool : list Item) (rect : Rect) (big_items std_items : list Item)
  (z_anchor : Q) (pid : string) (pack : list Candidate) :
  (forall it, In it big_items -> In it pool) -> (forall it, In it std_items -> In it pool) ->
  In pack (gen_140plus80 rect big_items std_items z_anchor pid) ->
  Forall (floor_cand pool) pack.
Proof.
  intros Hb Hs. unfold gen_140plus80. destruct rect as [minX maxX minZ maxZ].
  destruct (_ || _); [simpl; tauto |].
  destruct (_top big_items MAX_PREFIX_BIG) as [| b0 bt] eqn:Eb; [simpl; tauto |].
  destruct (_top std_items MAX_PREFIX_STD) as [| s0 stl] eqn:Es; [simpl; tauto |].
  intros H.
  match type of H with In _ (g_out ?e) =>
    assert (G : Forall (Forall (floor_cand pool)) (g_out e))
  end.
  { apply gen_140_outer_floor; simpl; auto.
    - intros it Hi. apply Hb. eapply top_In. rewrite Eb. exact Hi.
    - intros it Hi. apply Hs. eapply top_In. rewrite Es. exact Hi. }
  rewrite Forall_forall in G. now apply G.
Qed.

Lemma assign_packs_floor (pool : list Item) (packs : list (list Candidate)) :
  forall st : list Candidate * nat,
  Forall (floor_cand pool) (fst st) ->
  (forall pack, In pack packs -> Forall (floor_cand pool) pack) ->
  Forall (floor_cand pool) (fst (assign_packs packs st)).
Proof.
  unfold assign_packs. induction packs as [| pack rest IH]; intros st Hst Hp; simpl; auto.
  apply IH; [| intros; apply Hp; now right]. simpl.
  apply Forall_app. split; auto. unfold _assign_pattern_id.
  apply Forall_forall. intros c Hc. apply in_map_iff in Hc. destruct Hc as [c0 [<- Hc0]].
  apply set_patternId_floor. specialize (Hp pack (or_introl eq_refl)).
  rewrite Forall_forall in Hp. now apply Hp.
Qed.

Lemma fold_anchors_floor (pool : list Item) (gen : Q -> list (list Candidate)) (zs : list Q) :
  (forall z0 pack, In pack (gen z0) -> Forall (floor_cand pool) pack) ->
  forall st : list Candidate * nat,
  Forall (floor_cand pool) (fst st) ->
  Forall (floor_cand pool) (fst (fold_left (fun st z0 => assign_packs (gen z0) st) zs st)).
Proof.
  intros Hg. induction zs as [| z0 rest IH]; intros st Hst; simpl; auto.
  apply IH. apply assign_packs_floor; auto. intros pack. apply Hg.
Qed.

Lemma patterns_for_rect_floor (pool std_items big_140 : list Item) (r : Rect)
  (st : list Candidate * nat) :
  (forall it, In it std_items -> In it pool) -> (forall it, In it big_140 -> In it pool) ->
  Forall (floor_cand pool) (fst st) ->
  Forall (floor_cand pool) (fst (patterns_for_rect std_items big_140 st r)).
Proof.
  intros Hs Hb Hst. unfold patterns_for_rect.
  apply (@fold_anchors_floor pool (fun z0 => gen_zigzag r std_items z0 "scan")).
  { intros z0 pack Hp. apply gen_zigzag_floor in Hp.
    eapply Forall_impl; [| exact Hp]. intros c Hc. exact (@floor_cand_incl _ _ _ Hs Hc). }
  apply (@fold_anchors_floor pool (fun z0 => gen_3plus2 r std_items z0 "scan")).
  { intros z0 pack Hp. apply gen_3plus2_floor in Hp.
    eapply Forall_impl; [| exact Hp]. intros c Hc. exact (@floor_cand_incl _ _ _ Hs Hc). }
  apply (@fold_anchors_floor pool (fun z0 => gen_140plus80 r big_140 std_items z0 "scan")).
  { intros z0 pack Hp. eapply gen_140plus80_floor; [exact Hb | exact Hs | exact Hp]. }
  apply (@fold_anchors_floor pool (fun z0 => gen_3across r std_items z0 "scan")).
  { intros z0 pack Hp. apply gen_3across_floor in Hp.
    eapply Forall_impl; [| exact Hp]. intros c Hc. exact (@floor_cand_incl _ _ _ Hs Hc). }
  exact Hst.
Qed.

Lemma single_candidates_floor (pool : list Item) (rects : list Rect) (it : Item) (rot : Z) :
  In it pool -> Forall (floor_cand pool) (single_candidates_for rects it rot).
Proof.
  intros Hi. unfold single_candidates_for.
  destruct (dims_for_rot it rot) as [dx dz]. apply Forall_forall. intros c Hc.
  apply in_flat_map in Hc. destruct Hc as [r [Hr Hc]]. destruct r as [mnX mxX mnZ mxZ].
  destruct (_ <? _); [destruct Hc |]. destruct (_ <? _); [destruct Hc |].
  apply in_map_iff in Hc. destruct Hc as [[ax az] [<- _]].
  exists it. simpl. split; [exact Hi |]. do 3 (split; [reflexivity |]). split; field.
Qed.

Lemma generate_floor_candidates_floor (fr : FreeRects) (items_subset : list Item) :
  Forall (floor_cand items_subset) (generate_floor_candidates fr items_subset).
Proof.
  unfold generate_floor_candidates. apply Forall_app. split.
  - match goal with |- context [fold_left ?f ?rs ?st0] =>
      assert (G : forall l st, Forall (floor_cand items_subset) (fst st) ->
                    Forall (floor_cand items_subset) (fst (fold_left f l st)))
    end.
    { induction l as [| r t IH]; intros st Hst; simpl; auto.
      apply IH. apply patterns_for_rect_floor; auto;
        intros it Hi; apply filter_In in Hi; tauto. }
    apply G. constructor.
  - apply Forall_forall. intros c Hc. apply in_flat_map in Hc. destruct Hc as [it [Hi Hc]].
    apply in_flat_map in Hc. destruct Hc as [rot [_ Hc]].
    assert (F := @single_candidates_floor items_subset
                   (firstn 250 (sort_by_area_desc (rects fr))) it rot Hi).
    rewrite Forall_forall in F. now apply F.
Qed.

(** ** Gates *)

Lemma aabb_intersects_sym (a b : AABB) (eps : Q) :
  aabb_intersects a b eps = aabb_intersects b a eps.
Proof.
  unfold aabb_intersects.
  repeat match goal with
  | |- context [?x <=? ?y] => destruct (Qleb_spec x y)
  end; simpl; try reflexivity; exfalso; lra.
Qed.

Lemma no_overlap_sym (p q : PlacedItem) : no_overlap p q -> no_overlap q p.
Proof. unfold no_overlap. now rewrite aabb_intersects_sym. Qed.

Lemma oob_check_envelope (b : AABB) (vehicle : Vehicle) (eps : Q) :
  oob_check b vehicle eps = false <-> in_envelope vehicle b eps.
Proof.
  unfold oob_check, in_envelope.
  repeat match goal with
  | |- context [?x <? ?y] => destruct (Qltb_spec x y)
  end; simpl; split; intros H; try discriminate; try reflexivity; try lra.
Qed.

Lemma check_oob_true (c : Candidate) (vehicle : Vehicle) :
  fst (check_oob c vehicle) = true <-> oob_check (c_aabb c) vehicle eps9 = false.
Proof. unfold check_oob. destruct (oob_check _ _ _); simpl; split; congruence. Qed.

Lemma check_collision_true (c : Candidate) (placed : list PlacedItem) :
  fst (check_collision c placed) = true <->
  forall p, In p placed -> aabb_intersects (c_aabb c) (p_aabb p) eps9 = false.
Proof.
  unfold check_collision, collides_with_any.
  destruct (existsb _ placed) eqn:E; simpl; split; intros H; try congruence.
  - apply existsb_exists in E. destruct E as [p [Hp Hi]]. rewrite (H p Hp) in Hi. discriminate.
  - intros p Hp. destruct (aabb_intersects (c_aabb c) (p_aabb p) eps9) eqn:I; auto.
    assert (existsb (fun p => aabb_intersects (c_aabb c) (p_aabb p) eps9) placed = true)
      by (apply existsb_exists; eauto).
    congruence.
Qed.

Lemma dict_lookup_Ok (A : Type) (d : list (string * A)) (key : string) (v : A) :
  dict_lookup d key = Ok v <-> dict_get d key = Some v.
Proof. unfold dict_lookup. destruct (dict_get d key); split; congruence. Qed.

(** What a successful [can_place] has checked. *)
Lemma can_place_true (s : PlanState) (c : Candidate) (r : list string) :
  can_place s c = Ok (true, r) ->
  oob_check (c_aabb c) (ps_vehicle s) eps9 = false /\
  (forall p, In p (ps_placed s) -> aabb_intersects (c_aabb c) (p_aabb p) eps9 = false) /\
  exists it, dict_get (ps_items_by_id s) (c_itemId c) = Some it /\
    fst (check_loads (compute_loads (ps_placed s ++ [placed_from_candidate c it])
                        (ps_vehicle s)) (ps_vehicle s)) = true.
Proof.
  unfold can_place.
  destruct (check_oob c (ps_vehicle s)) as [ok1 r1] eqn:E1.
  destruct ok1; cbn [negb]; [| discriminate].
  destruct (check_collision c (ps_placed s)) as [ok2 r2] eqn:E2.
  destruct ok2; cbn [negb]; [| discriminate].
  destruct (dict_lookup (ps_items_by_id s) (c_itemId c)) as [it | e] eqn:E3; cbn [bind];
    [| discriminate].
  destruct (check_loads (compute_loads (ps_placed s ++ [placed_from_candidate c it])
                           (ps_vehicle s)) (ps_vehicle s)) as [ok3 r3] eqn:E4.
  destruct ok3; cbn [negb]; [| discriminate].
  intros _. split; [| split].
  - apply check_oob_true. now rewrite E1.
  - apply check_collision_true. now rewrite E2.
  - exists it. split; [now apply dict_lookup_Ok |]. now rewrite E4.
Qed.

Lemma can_place_with_debug (s : PlanState) (d : list DebugEvent) (c : Candidate) :
  can_place (with_debug s d) c = can_place s c.
Proof. reflexivity. Qed.

Lemma can_commit_group_with_debug (s : PlanState) (d : list DebugEvent) (g : list Candidate) :
  _can_commit_group (with_debug s d) g = _can_commit_group s g.
Proof. reflexivity. Qed.

Lemma internal_collision_false (prev rest : list Candidate) :
  internal_collision prev rest = false ->
  pairwise (fun c d => aabb_intersects (c_aabb c) (c_aabb d) eps9 = false) rest /\
  forall c d, In c rest -> In d prev -> aabb_intersects (c_aabb c) (c_aabb d) eps9 = false.
Proof.
  revert prev. induction rest as [| c t IH]; intros prev H; simpl in *.
  - split; [exact I | tauto].
  - destruct (existsb _ prev) eqn:E; [discriminate |].
    apply IH in H. destruct H as [H1 H2]. split; [split; auto |].
    + apply Forall_forall. intros d Hd. rewrite aabb_intersects_sym.
      apply H2; auto. apply in_or_app. right. now left.
    + intros c0 d [<- | Hc] Hd.
      * destruct (aabb_intersects (c_aabb c) (c_aabb d) eps9) eqn:I0; auto.
        assert (existsb (fun d => aabb_intersects (c_aabb c) (c_aabb d) eps9) prev = true)
          by (apply existsb_exists; eauto).
        congruence.
      * apply H2; auto. apply in_or_app. now left.
Qed.

Lemma group_gates_true (vehicle : Vehicle) (placed : list PlacedItem) (group : list Candidate)
  (r : list string) :
  group_gates vehicle placed group = (true, r) ->
  forall c, In c group ->
    oob_check (c_aabb c) vehicle eps9 = false /\
    forall p, In p placed -> aabb_intersects (c_aabb c) (p_aabb p) eps9 = false.
Proof.
  induction group as [| c0 t IH]; cbn [group_gates]; intros H c Hc; [destruct Hc |].
  destruct (check_oob c0 vehicle) as [ok1 r1] eqn:E1.
  destruct ok1; cbn [negb] in H; [| discriminate].
  destruct (check_collision c0 placed) as [ok2 r2] eqn:E2.
  destruct ok2; cbn [negb] in H; [| discriminate].
  destruct Hc as [<- | Hc]; [| now apply IH]. split.
  - apply check_oob_true. now rewrite E1.
  - apply check_collision_true. now rewrite E2.
Qed.

(** The temporary placed list of [_can_commit_group]. *)
Lemma tmp_placed_spec (d : list (string * Item)) (group : list Candidate) :
  forall (acc tmp : list PlacedItem),
  foldM (fun tmp c => it <- dict_lookup d (c_itemId c) ;;
                      Ok (tmp ++ [placed_from_candidate c it])) group acc = Ok tmp ->
  exists ps, tmp = acc ++ ps /\ Forall2 (is_placement d) group ps.
Proof.
  induction group as [| c t IH]; intros acc tmp H; simpl in H.
  - inversion H; subst. exists []. split; [now rewrite app_nil_r | constructor].
  - destruct (dict_lookup d (c_itemId c)) as [it | e] eqn:E; simpl in H; [| discriminate].
    apply IH in H. destruct H as [ps [-> F]].
    exists (placed_from_candidate c it :: ps). split; [now rewrite <- app_assoc |].
    constructor; auto. exists it. split; auto. now apply dict_lookup_Ok.
Qed.

Lemma is_placement_fun (d : list (string * Item)) (c : Candidate) (p q : PlacedItem) :
  is_placement d c p -> is_placement d c q -> p = q.
Proof. intros [it [H1 ->]] [it' [H2 ->]]. congruence. Qed.

Lemma Forall2_placement_fun (d : list (string * Item)) (group : list Candidate)
  (ps qs : list PlacedItem) :
  Forall2 (is_placement d) group ps -> Forall2 (is_placement d) group qs -> ps = qs.
Proof.
  intros H. revert qs. induction H; intros qs Hq; inversion Hq; subst; auto.
  f_equal; eauto using is_placement_fun.
Qed.

(** What a successful [_can_commit_group] has checked. *)
Lemma can_commit_group_true (s : PlanState) (group : list Candidate) (r : list string) :
  _can_commit_group s group = Ok (true, r) ->
  pairwise (fun c d => aabb_intersects (c_aabb c) (c_aabb d) eps9 = false) group /\
  (forall c, In c group ->
     oob_check (c_aabb c) (ps_vehicle s) eps9 = false /\
     forall p, In p (ps_placed s) -> aabb_intersects (c_aabb c) (p_aabb p) eps9 = false) /\
  exists ps, Forall2 (is_placement (ps_items_by_id s)) group ps /\
    fst (check_loads (compute_loads (ps_placed s ++ ps) (ps_vehicle s)) (ps_vehicle s)) = true.
Proof.
  unfold _can_commit_group.
  destruct (internal_collision [] group) eqn:E0; [discriminate |].
  destruct (group_gates (ps_vehicle s) (ps_placed s) group) as [ok1 r1] eqn:E1.
  destruct ok1; cbn [negb]; [| discriminate].
  match goal with |- context [foldM ?f group ?acc] =>
    destruct (foldM f group acc) as [tmp | e] eqn:E2; cbn [bind]; [| discriminate]
  end.
  destruct (check_loads (compute_loads tmp (ps_vehicle s)) (ps_vehicle s)) as [ok3 r3] eqn:E3.
  destruct ok3; cbn [negb]; [| discriminate].
  intros _. split; [| split].
  - apply (internal_collision_false [] group E0).
  - eapply group_gates_true; eauto.
  - apply tmp_placed_spec in E2. destruct E2 as [ps [-> F]]. exists ps. split; auto.
    now rewrite E3.
Qed.

Lemma policy_no_hard_reject (S : Settings) (it : Item) (c : Candidate) (vehicle : Vehicle)
  (mode : ModeDecision) :
  hard_reject_reasons (evaluate_candidate_policy S it c vehicle mode false) = [].
Proof.
  unfold evaluate_candidate_policy.
  repeat match goal with
  | |- context [let '(_, _) := ?e in _] => destruct e
  end. reflexivity.
Qed.

(** ** Commit *)

Lemma commit_spec (s s' : PlanState) (c : Candidate) :
  commit s c = Ok s' ->
  exists p, is_placement (ps_items_by_id s) c p /\
    ps_placed s' = ps_placed s ++ [p] /\
    ps_vehicle s' = ps_vehicle s /\ ps_items_by_id s' = ps_items_by_id s /\
    ps_unplaced s' = ps_unplaced s /\ ps_debug s' = ps_debug s /\
    ps_mode s' = ps_mode s /\ ps_task_id s' = ps_task_id s /\
    ps_transport_type s' = ps_transport_type s /\
    ps_loads s' = Some (compute_loads (ps_placed s') (ps_vehicle s)) /\
    ps_free_rects s' =
      reserve (ps_free_rects s)
        (mkRect (minX (c_aabb c)) (maxX (c_aabb c)) (minZ (c_aabb c)) (maxZ (c_aabb c))).
Proof.
  unfold commit. destruct (dict_lookup (ps_items_by_id s) (c_itemId c)) as [it | e] eqn:E;
    simpl; [| discriminate].
  intros H. inversion H; subst; clear H. simpl.
  exists (placed_from_candidate c it). repeat split; auto.
  exists it. split; auto. now apply dict_lookup_Ok.
Qed.

Lemma commit_all_spec (group : list Candidate) :
  forall s s' : PlanState,
  foldM commit group s = Ok s' ->
  exists ps, Forall2 (is_placement (ps_items_by_id s)) group ps /\
    ps_placed s' = ps_placed s ++ ps /\
    ps_vehicle s' = ps_vehicle s /\ ps_items_by_id s' = ps_items_by_id s /\
    ps_unplaced s' = ps_unplaced s /\ ps_debug s' = ps_debug s /\
    ps_mode s' = ps_mode s /\ ps_task_id s' = ps_task_id s /\
    ps_transport_type s' = ps_transport_type s.
Proof.
  induction group as [| c t IH]; intros s s' H; simpl in H.
  - inversion H; subst. exists []. rewrite app_nil_r. repeat split; auto.
  - destruct (commit s c) as [s1 | e] eqn:E; simpl in H; [| discriminate].
    apply commit_spec in E.
    destruct E as [p [Hp [E1 [E2 [E3 [E4 [E5 [E6 [E7 [E8 _]]]]]]]]]].
    apply IH in H. destruct H as [ps [F [H1 [H2 [H3 [H4 [H5 [H6 [H7 H8]]]]]]]]].
    exists (p :: ps). rewrite E3 in F. repeat split; try congruence.
    + constructor; auto.
    + rewrite H1, E1, <- app_assoc. reflexivity.
Qed.

(** ** Score order *)

Ltac pick_disjunct :=
  solve [ left; first [lia | lra]
        | right; split; [first [lia | lra | assumption] | pick_disjunct]
        | lia | lra ].

Lemma lex_gt4_spec (a b : Score) : lex_gt4 a b = true <-> score_gt a b.
Proof.
  destruct a as [[[a0 a1] a2] a3], b as [[[b0 b1] b2] b3]. unfold lex_gt4, score_gt.
  destruct (Z.eqb_spec a0 b0); destruct (Z.ltb_spec b0 a0);
  destruct (Qeq_bool a1 b1) eqn:E1;
    [apply Qeq_bool_iff in E1 | apply Qeq_bool_neq in E1 | apply Qeq_bool_iff in E1
    | apply Qeq_bool_neq in E1 | apply Qeq_bool_iff in E1 | apply Qeq_bool_neq in E1
    | apply Qeq_bool_iff in E1 | apply Qeq_bool_neq in E1];
  (destruct (Qeq_bool a2 b2) eqn:E2;
    [apply Qeq_bool_iff in E2 | apply Qeq_bool_neq in E2]);
  destruct (Qltb_spec b1 a1); destruct (Qltb_spec b2 a2); destruct (Qltb_spec b3 a3);
  simpl; (split; intros HH; [try discriminate; try pick_disjunct | try reflexivity]);
  try (exfalso; destruct HH as [G | [G0 [G | [G1 [G | [G2 G]]]]]];
       first [lia | lra | contradiction]).
Qed.

Lemma score_gt_trans (x y z : Score) : score_gt x y -> score_gt y z -> score_gt x z.
Proof.
  destruct x as [[[x0 x1] x2] x3], y as [[[y0 y1] y2] y3], z as [[[z0 z1] z2] z3].
  unfold score_gt.
  intros [H | [E [H | [E1 [H | [E2 H]]]]]] [K | [F [K | [F1 [K | [F2 K]]]]]];
    try (left; lia);
    right; (split; [lia |]);
    try (left; lra);
    right; (split; [lra |]);
    try (left; lra);
    right; (split; [lra |]); lra.
Qed.

Lemma score_le_trans (x y z : Score) : ~ score_gt x y -> ~ score_gt y z -> ~ score_gt x z.
Proof.
  destruct x as [[[x0 x1] x2] x3], y as [[[y0 y1] y2] y3], z as [[[z0 z1] z2] z3].
  unfold score_gt. intros H K G.
  assert (T0 : (x0 <= y0)%Z) by (destruct (Z_lt_le_dec y0 x0); [exfalso; apply H | ]; auto).
  assert (U0 : (y0 <= z0)%Z) by (destruct (Z_lt_le_dec z0 y0); [exfalso; apply K | ]; auto).
  destruct G as [G | [G0 G]]; [lia |]. subst z0.
  assert (x0 = y0) by lia. subst y0.
  assert (T1 : x1 <= y1)
    by (destruct (Qlt_le_dec y1 x1); auto; exfalso; apply H; pick_disjunct).
  assert (U1 : y1 <= z1)
    by (destruct (Qlt_le_dec z1 y1); auto; exfalso; apply K; pick_disjunct).
  destruct G as [G | [G1 G]]; [lra |].
  assert (X1 : x1 == y1) by lra. assert (Y1 : y1 == z1) by lra.
  assert (T2 : x2 <= y2)
    by (destruct (Qlt_le_dec y2 x2); auto; exfalso; apply H; pick_disjunct).
  assert (U2 : y2 <= z2)
    by (destruct (Qlt_le_dec z2 y2); auto; exfalso; apply K; pick_disjunct).
  destruct G as [G | [G2 G]]; [lra |].
  assert (X2 : x2 == y2) by lra. assert (Y2 : y2 == z2) by lra.
  assert (T3 : x3 <= y3)
    by (destruct (Qlt_le_dec y3 x3); auto; exfalso; apply H; pick_disjunct).
  assert (U3 : y3 <= z3)
    by (destruct (Qlt_le_dec z3 y3); auto; exfalso; apply K; pick_disjunct).
  lra.
Qed.

Lemma lex_gt4_false (a b : Score) : lex_gt4 a b = false <-> ~ score_gt a b.
Proof.
  rewrite <- lex_gt4_spec. destruct (lex_gt4 a b); split; intros H; congruence.
Qed.

(** ** The search loops of one iteration *)

Section Iteration.
Variable SETTINGS : Settings.
Variable s : PlanState.
Variable vehicle : Vehicle.
Variable mode : ModeDecision.
Variable rem_ids : list string.

Lemma emit_with_debug (d : list DebugEvent) (e : string) (p : Payload) :
  emit (with_debug s d) e p = with_debug s (d ++ [mkDebugEvent e p]).
Proof. reflexivity. Qed.

Lemma log_reject_spec (st : PatLoop) (bucket : string) (p : Payload) :
  (exists d, pl_state st = with_debug s d) ->
  (exists d, pl_state (log_reject SETTINGS st bucket p) = with_debug s d) /\
  pl_best (log_reject SETTINGS st bucket p) = pl_best st.
Proof.
  intros [d Hd]. unfold log_reject. destruct (_ <? _)%Z; simpl; split; eauto.
  rewrite Hd, emit_with_debug. eauto.
Qed.

Lemma group_policies_inr (group : list Candidate) :
  forall (terms : list PolicyDecision) (r : list string + list PolicyDecision),
  group_policies SETTINGS s vehicle mode group terms = Ok r -> exists t, r = inr t.
Proof.
  induction group as [| c t IH]; intros terms r H; simpl in H.
  - inversion H. eauto.
  - destruct (dict_lookup (ps_items_by_id s) (c_itemId c)) as [it | e]; simpl in H;
      [| discriminate].
    rewrite policy_no_hard_reject in H. eauto.
Qed.

Lemma group_policies_with_debug (d : list DebugEvent) (group : list Candidate)
  (terms : list PolicyDecision) :
  group_policies SETTINGS (with_debug s d) vehicle mode group terms =
  group_policies SETTINGS s vehicle mode group terms.
Proof. revert terms. induction group as [| c t IH]; intros terms; simpl; auto.
  destruct (dict_lookup (ps_items_by_id s) (c_itemId c)); simpl; auto.
  destruct (hard_reject_reasons _); auto.
Qed.

(** One pattern group: rejected and the best is unchanged, or feasible
    and the best is defined afterwards. *)
Lemma pattern_step_spec (st st' : PatLoop) (pid : string) (group : list Candidate) :
  (exists d, pl_state st = with_debug s d) ->
  pattern_step SETTINGS vehicle mode rem_ids st (pid, group) = Ok st' ->
  (exists d, pl_state st' = with_debug s d) /\
  ((~ feasible_group s rem_ids group /\ pl_best st' = pl_best st) \/
   (feasible_group s rem_ids group /\
    (pl_best st' = pl_best st \/ (exists b, pl_best st' = Some b /\ pb_group b = group /\
                                              pb_pid b = pid)) /\
    pl_best st' <> None)).
Proof.
  intros Hst. unfold pattern_step.
  destruct (existsb (fun c => negb (in_ids rem_ids (c_itemId c))) group) eqn:Av.
  { intros H. inversion H; subst; clear H.
    destruct (log_reject_spec st "not_available"
                (PPatternNotAvailable pid
                   (firstn 20 (map c_itemId
                      (filter (fun c => negb (in_ids rem_ids (c_itemId c))) group)))
                   (length group)) Hst) as [L1 L2].
    split; auto. left. split; auto. intros [F _].
    apply existsb_exists in Av. destruct Av as [c [Hc Hn]]. rewrite (F c Hc) in Hn.
    discriminate. }
  assert (Avail : forall c, In c group -> in_ids rem_ids (c_itemId c) = true).
  { intros c Hc. destruct (in_ids rem_ids (c_itemId c)) eqn:E; auto.
    assert (existsb (fun c => negb (in_ids rem_ids (c_itemId c))) group = true).
    { apply existsb_exists. exists c. rewrite E. auto. }
    congruence. }
  destruct Hst as [d Hd]. rewrite Hd. rewrite can_commit_group_with_debug.
  destruct (_can_commit_group s group) as [[ok reasons] | e] eqn:Cg; cbn [bind];
    [| discriminate].
  destruct ok; cbn [negb].
  - rewrite group_policies_with_debug.
    destruct (group_policies SETTINGS s vehicle mode group []) as [pols | e] eqn:Gp;
      cbn [bind]; [| discriminate].
    destruct (group_policies_inr _ _ Gp) as [terms ->].
    destruct (group_scores SETTINGS (with_debug s d) mode group terms (0, 0, 0))
      as [[[u k] p] | e]; cbn [bind]; [| discriminate].
    destruct (_packing_quality SETTINGS group) as [quality qdbg].
    assert (Fe : feasible_group s rem_ids group) by (split; eauto).
    destruct (pl_best st) as [b |] eqn:Eb.
    + destruct (lex_gt5 _ (pb_score b)); intros H; inversion H; subst; clear H; simpl.
      * split; [eauto |]. right. split; auto. split; [| discriminate].
        right. eexists. split; [reflexivity |]. auto.
      * split; [eauto |]. right. split; auto. rewrite Eb.
        split; [now left | discriminate].
    + intros H; inversion H; subst; clear H; simpl.
      split; [eauto |]. right. split; auto. split; [| discriminate].
      right. eexists. split; [reflexivity |]. auto.
  - intros H. inversion H; subst; clear H.
    match goal with |- context [log_reject SETTINGS st ?b ?p] =>
      destruct (log_reject_spec st b p (ex_intro _ d Hd)) as [L1 L2]
    end.
    split; auto. left. split; auto. intros [_ [r Hr]]. congruence.
Qed.

Lemma pattern_loop_spec (groups : list (string * list Candidate)) :
  forall st pl : PatLoop,
  (exists d, pl_state st = with_debug s d) ->
  foldM (pattern_step SETTINGS vehicle mode rem_ids) groups st = Ok pl ->
  (exists d, pl_state pl = with_debug s d) /\
  (forall b, pl_best pl = Some b ->
     pl_best st = Some b \/
     (In (pb_pid b, pb_group b) groups /\ feasible_group s rem_ids (pb_group b))) /\
  (pl_best pl = None ->
     pl_best st = None /\ forall e, In e groups -> ~ feasible_group s rem_ids (snd e)).
Proof.
  induction groups as [| [pid group] rest IH]; intros st pl Hst H; cbn [foldM] in H.
  - inversion H; subst. repeat split; auto; try (intros e []).
  - destruct (pattern_step SETTINGS vehicle mode rem_ids st (pid, group)) as [st1 | e] eqn:E;
      cbn [bind] in H; [| discriminate].
    destruct (pattern_step_spec st pid group Hst E) as [Hst1 Hcase].
    destruct (IH st1 pl Hst1 H) as [I1 [I2 I3]]. split; [exact I1 |]. split.
    + intros b Hb. destruct (I2 b Hb) as [Hb1 | [Hin Hf]].
      * destruct Hcase as [[_ Eq] | [Fe [[Eq | [b' [Eb' [Eg Ep]]]] _]]].
        -- left. congruence.
        -- left. congruence.
        -- right. assert (b' = b) by congruence. subst b'. rewrite Eg, Ep.
           split; [now left | exact Fe].
      * right. split; [now right | exact Hf].
    + intros Hn. destruct (I3 Hn) as [Hn1 Hrest].
      destruct Hcase as [[Nf Eq] | [_ [_ Ne]]]; [| contradiction]. split; [congruence |].
      intros e0 [<- | Hin]; [exact Nf | now apply Hrest].
Qed.

Lemma single_score_with_debug (c : Candidate) :
  forall it, dict_lookup (ps_items_by_id s) (c_itemId c) = Ok it ->
  single_score_of SETTINGS s vehicle mode c =
  (sc <- score_candidate s c mode ;;
   Ok (_apply_policy_to_score SETTINGS sc
         (evaluate_candidate_policy SETTINGS it c vehicle mode false))).
Proof. intros it H. unfold single_score_of. now rewrite H. Qed.

(** One candidate of the single search. *)
Lemma single_step_spec (best best' : option SingleBest) (cand : Candidate) :
  single_step SETTINGS s vehicle mode best cand = Ok best' ->
  (~ feasible_single s cand /\ best' = best) \/
  (feasible_single s cand /\
   exists sc, single_score_of SETTINGS s vehicle mode cand = Ok sc /\
     ((best' = best /\ forall b, best = Some b -> lex_gt4 sc (sb_score b) = false) /\
      best <> None
      \/
      (exists b', best' = Some b' /\ sb_cand b' = cand /\ sb_score b' = sc /\
         forall b, best = Some b -> lex_gt4 sc (sb_score b) = true))).
Proof.
  unfold single_step. destruct (pattern_id_of cand) eqn:Pid.
  { intros H. inversion H. left. split; auto. intros [F _]. congruence. }
  destruct (can_place s cand) as [[ok reasons] | e] eqn:Cp; cbn [bind]; [| discriminate].
  destruct ok; cbn [negb].
  - destruct (dict_lookup (ps_items_by_id s) (c_itemId cand)) as [it | e] eqn:Lk; cbn [bind];
      [| discriminate].
    rewrite policy_no_hard_reject.
    assert (Fe : feasible_single s cand) by (split; eauto).
    rewrite (single_score_with_debug cand Lk).
    destruct (score_candidate s cand mode) as [sc | e]; cbn [bind]; [| discriminate].
    destruct best as [b |].
    + destruct (lex_gt4 _ (sb_score b)) eqn:Gt; intros H; inversion H; subst; clear H;
        right; split; auto; eexists; (split; [reflexivity |]).
      * right. eexists. repeat split. intros b0 Hb0. inversion Hb0; subst. exact Gt.
      * left. split; [| discriminate]. split; auto. intros b0 Hb0. inversion Hb0; subst.
        exact Gt.
    + intros H; inversion H; subst; clear H. right. split; auto. eexists.
      split; [reflexivity |]. right. eexists. repeat split. intros b0 Hb0. discriminate.
  - intros H. inversion H. left. split; auto. intros [_ [r Hr]]. congruence.
Qed.

Lemma single_loop_spec (cands : list Candidate) :
  forall best0 best : option SingleBest,
  foldM (single_step SETTINGS s vehicle mode) cands best0 = Ok best ->
  (best = None -> best0 = None /\ forall c, In c cands -> ~ feasible_single s c) /\
  (forall b, best = Some b ->
     (best0 = Some b \/
      (In (sb_cand b) cands /\ feasible_single s (sb_cand b) /\
       single_score_of SETTINGS s vehicle mode (sb_cand b) = Ok (sb_score b))) /\
     (forall b0, best0 = Some b0 -> ~ score_gt (sb_score b0) (sb_score b)) /\
     (forall c sc, In c cands -> feasible_single s c ->
        single_score_of SETTINGS s vehicle mode c = Ok sc -> ~ score_gt sc (sb_score b))).
Proof.
  induction cands as [| c0 rest IH]; intros best0 best H; cbn [foldM] in H.
  - inversion H; subst. split; [intros ->; split; auto |].
    intros b Hb. split; [now left |]. split.
    + intros b0 Hb0. assert (b0 = b) by congruence. subst.
      rewrite <- lex_gt4_false. destruct (sb_score b) as [[[a0 a1] a2] a3]. unfold lex_gt4.
      rewrite Z.eqb_refl. rewrite !Qeq_bool_refl. simpl.
      destruct (Qltb_spec a3 a3); auto. lra.
    + intros c sc [].
  - destruct (single_step SETTINGS s vehicle mode best0 c0) as [best1 | e] eqn:E;
      cbn [bind] in H; [| discriminate].
    destruct (IH best1 best H) as [I1 I2]. pose proof (single_step_spec best0 c0 E) as Hcase.
    split.
    + intros Hn. destruct (I1 Hn) as [Hn1 Hrest].
      destruct Hcase as [[Nf Eq] | [Fe [sc [Hsc [[[Eq _] Ne] | [b' [Eb' _]]]]]]].
      * split; [congruence |]. intros c [<- | Hin]; auto.
      * congruence.
      * congruence.
    + intros b Hb. destruct (I2 b Hb) as [J1 [J2 J3]].
      destruct Hcase as [[Nf Eq] | [Fe [sc [Hsc [[[Eq Le] Ne] | [b' [Eb' [Ec [Es Gt]]]]]]]]].
      * subst best1. split; [| split].
        -- destruct J1 as [J1 | [Hin J1]]; [now left | right; split; [now right | exact J1]].
        -- exact J2.
        -- intros c sc [<- | Hin] Hf Hs; [contradiction | eapply J3; eauto].
      * subst best1. split; [| split].
        -- destruct J1 as [J1 | [Hin J1]]; [now left | right; split; [now right | exact J1]].
        -- exact J2.
        -- intros c sc' [<- | Hin] Hf Hs; [| eapply J3; eauto].
           assert (sc' = sc) by congruence. subst sc'.
           destruct best0 as [b0 |]; [| congruence].
           apply (@score_le_trans sc (sb_score b0) (sb_score b)).
           ++ apply lex_gt4_false. now apply Le.
           ++ now apply J2.
      * subst best1. split; [| split].
        -- destruct J1 as [J1 | [Hin J1]].
           ++ assert (b' = b) by congruence. subst b'. right. rewrite Ec, Es.
              split; [now left | split; auto].
           ++ right. split; [now right | exact J1].
        -- intros b0 Hb0 G. specialize (Gt b0 Hb0). apply lex_gt4_spec in Gt.
           apply (J2 b' eq_refl). rewrite Es. eapply score_gt_trans; eauto.
        -- intros c sc' [<- | Hin] Hf Hs; [| eapply J3; eauto].
           assert (sc' = sc) by congruence. subst sc'. rewrite <- Es. now apply J2.
Qed.
End Iteration.

(** ** One iteration *)

Lemma same_frame_with_debug (s : PlanState) (d : list DebugEvent) :
  same_frame s (with_debug s d).
Proof. unfold same_frame. simpl. tauto. Qed.

Lemma select_and_commit_cases (S : Settings) (state : PlanState) (vehicle : Vehicle)
  (mode : ModeDecision) (remaining window : list Item) (candidates : list Candidate)
  (step : Step) :
  select_and_commit S state vehicle mode remaining window candidates = Ok step ->
  (some_feasible_group state remaining candidates /\
   pattern_outcome state remaining candidates step)
  \/
  (~ some_feasible_group state remaining candidates /\
   some_feasible_single state candidates /\
   single_outcome S state vehicle mode remaining candidates step)
  \/
  (~ some_feasible_group state remaining candidates /\
   ~ some_feasible_single state candidates /\
   exhausted_outcome state remaining step).
Proof.
  unfold select_and_commit.
  set (state1 := emit state "candidates_generated" _).
  assert (H1 : exists d, pl_state (mkPatLoop state1 None 0 []) = with_debug state d)
    by (eexists; reflexivity).
  destruct (foldM (pattern_step S vehicle mode (map item_id remaining))
              (_group_pattern_candidates candidates) (mkPatLoop state1 None 0 []))
    as [pl | e] eqn:Epl; cbn [bind]; [| discriminate].
  destruct (@pattern_loop_spec S state vehicle mode (map item_id remaining)
              (_group_pattern_candidates candidates) _ _ H1 Epl) as [[d Hd] [P2 P3]].
  set (state2 := match _group_pattern_candidates candidates with
                 | [] => pl_state pl
                 | _ :: _ => emit (pl_state pl) "pattern_reject_summary" _
                 end).
  assert (H2 : exists d2, state2 = with_debug state d2).
  { unfold state2. destruct (_group_pattern_candidates candidates); rewrite Hd; eauto.
    rewrite emit_with_debug. eauto. }
  destruct H2 as [d2 Hd2]. rewrite Hd2. clearbody state2.
  destruct (foldM (single_step S (with_debug state d2) vehicle mode) candidates None)
    as [best | e] eqn:Es; cbn [bind]; [| discriminate].
  destruct (@single_loop_spec S (with_debug state d2) vehicle mode candidates _ _ Es)
    as [S1 S2].
  destruct (pl_best pl) as [bp |] eqn:Ebp.
  - (* a pattern group is committed *)
    destruct (P2 bp eq_refl) as [Hn | [Hin Hf]]; [discriminate |].
    destruct (foldM commit (pb_group bp) (with_debug state d2)) as [s3 | e] eqn:Ec;
      cbn [bind]; [| destruct best; discriminate].
    intros H. assert (Hstep : step = Continue
                (emit s3 "pattern_committed"
                   (PPatternCommitted (Some (pb_pid bp)) (length (pb_group bp))
                      (map c_itemId (pb_group bp)) (Some (pb_score bp)) (pb_dbg bp)))
                (filter (fun it => negb (in_ids (map c_itemId (pb_group bp)) (item_id it)))
                        remaining))
      by (destruct best; inversion H; reflexivity).
    clear H. left. split; [exists (pb_pid bp, pb_group bp); split; auto |].
    apply commit_all_spec in Ec.
    destruct Ec as [ps [F [E1 [E2 [E3 [E4 [E5 [E6 [E7 E8]]]]]]]]].
    exists (pb_pid bp), (pb_group bp), ps. eexists. split; [exact Hin |].
    split; [exact Hf |]. split; [exact F |]. split; [exact Hstep |].
    unfold same_frame. simpl in *. repeat split; auto.
  - destruct (P3 eq_refl) as [_ Hnone].
    assert (NoG : ~ some_feasible_group state remaining candidates).
    { intros [e [He Hf]]. exact (Hnone e He Hf). }
    destruct best as [bs |].
    + (* the best single is committed *)
      destruct (S2 bs eq_refl) as [[Hn | [Hin [Hf Hsc]]] [_ Hbest]]; [discriminate |].
      destruct (commit (with_debug state d2) (sb_cand bs)) as [s3 | e] eqn:Ec; cbn [bind];
        [| discriminate].
      intros H. inversion H; subst; clear H. right; left. split; [exact NoG |].
      split; [exists (sb_cand bs); split; auto |].
      apply commit_spec in Ec.
      destruct Ec as [p [Hp [E1 [E2 [E3 [E4 [E5 [E6 [E7 [E8 _]]]]]]]]]].
      exists (sb_cand bs), (sb_score bs), p. eexists.
      split; [exact Hin |]. split; [exact Hf |]. split; [exact Hsc |].
      split; [exact Hbest |]. split; [exact Hp |]. split; [reflexivity |].
      unfold same_frame. simpl in *. repeat split; auto.
    + (* exhaustion *)
      destruct (S1 eq_refl) as [_ Hnos].
      intros H. inversion H; subst; clear H. right; right. split; [exact NoG |].
      split; [intros [c [Hc Hf]]; exact (Hnos c Hc Hf) |].
      eexists. split; [reflexivity |]. unfold same_frame. simpl. repeat split; auto.
Qed.

(** ** The pattern dictionary *)

Lemma group_append_spec (groups : list (string * list Candidate)) (pid : string)
  (c : Candidate) (P : string -> list Candidate -> Prop) :
  (forall k g, In (k, g) groups -> P k g) ->
  P pid [c] ->
  (forall g, In (pid, g) groups -> P pid (g ++ [c])) ->
  forall k g, In (k, g) (group_append groups pid c) -> P k g.
Proof.
  induction groups as [| [k0 g0] rest IH]; intros Hall Hnew Happ k g H; simpl in H.
  - destruct H as [H | []]. inversion H; subst. exact Hnew.
  - destruct (String.eqb_spec k0 pid) as [-> | Hne].
    + destruct H as [H | H].
      * inversion H; subst. apply Happ. now left.
      * apply Hall. now right.
    + destruct H as [H | H].
      * inversion H; subst. apply Hall. now left.
      * apply IH; auto.
        -- intros k1 g1 H1. apply Hall. now right.
        -- intros g1 H1. apply Happ. now right.
Qed.

(** Every group of the dictionary is a non-empty set of candidates that
    carry the group's identifier. *)
Lemma group_pattern_candidates_spec (cands : list Candidate) (pid : string)
  (group : list Candidate) :
  In (pid, group) (_group_pattern_candidates cands) ->
  group <> [] /\ forall c, In c group -> In c cands /\ pattern_id_of c = Some pid.
Proof.
  unfold _group_pattern_candidates.
  assert (G : forall l groups,
            (forall k g, In (k, g) groups ->
               g <> [] /\ forall c, In c g -> In c cands /\ pattern_id_of c = Some k) ->
            (forall c, In c l -> In c cands) ->
            forall k g,
            In (k, g) (fold_left (fun groups c =>
                                    match pattern_id_of c with
                                    | None => groups
                                    | Some pid => group_append groups pid c
                                    end) l groups) ->
            g <> [] /\ forall c, In c g -> In c cands /\ pattern_id_of c = Some k).
  { induction l as [| c t IH]; intros groups Hg Hl k g H; simpl in H; [now apply Hg |].
    eapply IH; [| intros; apply Hl; now right | exact H].
    destruct (pattern_id_of c) as [p |] eqn:Ep; [| exact Hg].
    apply group_append_spec; auto.
    - split; [discriminate |]. intros c0 [<- | []]. split; auto. apply Hl. now left.
    - intros g0 H0. destruct (Hg _ _ H0) as [Hne Hc]. split.
      + destruct g0; discriminate.
      + intros c0 Hc0. apply in_app_or in Hc0. destruct Hc0 as [Hc0 | [<- | []]]; auto.
        split; auto. apply Hl. now left. }
  apply G; auto. intros k g [].
Qed.

(** ** Lists *)

Lemma filter_length_lt (A : Type) (f : A -> bool) (l : list A) (x : A) :
  In x l -> f x = false -> (length (filter f l) < length l)%nat.
Proof.
  induction l as [| a t IH]; intros Hin Hf; [destruct Hin |]. simpl.
  assert (Hle : (length (filter f t) <= length t)%nat) by apply filter_length_le.
  destruct Hin as [-> | Hin].
  - rewrite Hf. lia.
  - specialize (IH Hin Hf). destruct (f a); simpl; lia.
Qed.

Lemma slice_to_In (A : Type) (l : list A) (n : Z) (x : A) : In x (slice_to l n) -> In x l.
Proof. unfold slice_to. destruct (0 <=? n)%Z; apply firstn_In. Qed.

Lemma in_ids_true (ids : list string) (key : string) :
  in_ids ids key = true <-> In key ids.
Proof.
  unfold in_ids. rewrite existsb_exists. split.
  - intros [k [Hk E]]. apply String.eqb_eq in E. now subst.
  - intros H. exists key. split; auto. apply String.eqb_refl.
Qed.

Lemma pairwise_Forall2 (A B : Type) (R : A -> A -> Prop) (R' : B -> B -> Prop)
  (T : A -> B -> Prop) (l : list A) (l' : list B) :
  (forall a b a' b', R a b -> T a a' -> T b b' -> R' a' b') ->
  Forall2 T l l' -> pairwise R l -> pairwise R' l'.
Proof.
  intros HT F. induction F as [| a a' t t' Ha F IH]; simpl; auto.
  intros [H1 H2]. split; auto. clear IH H2.
  induction F as [| b b' u u' Hb F IH]; constructor; inversion H1; subst; eauto.
Qed.

Lemma Forall2_In_r (A B : Type) (T : A -> B -> Prop) (l : list A) (l' : list B) (y : B) :
  Forall2 T l l' -> In y l' -> exists x, In x l /\ T x y.
Proof.
  intros F. induction F as [| a a' t t' Ha F IH]; intros H; [destruct H |].
  destruct H as [<- | H].
  - exists a. split; auto. now left.
  - destruct (IH H) as [x [Hx Tx]]. exists x. split; auto. now right.
Qed.

(** ** Invariants of the packer loop *)

Lemma placement_aabb (d : list (string * Item)) (c : Candidate) (p : PlacedItem) :
  is_placement d c p -> p_aabb p = c_aabb c /\ p_y p = c_y c /\ p_dims p = (c_dx c, c_dy c, c_dz c).
Proof. intros [it [_ ->]]. unfold placed_from_candidate. simpl. auto. Qed.

Lemma floor_cand_on_floor (d : list (string * Item)) (pool : list Item) (c : Candidate)
  (p : PlacedItem) :
  floor_cand pool c -> is_placement d c p -> on_floor p.
Proof.
  intros [it [_ [_ [Hy [Hdy [Hmin Hmax]]]]]] Hp.
  destruct (placement_aabb Hp) as [Ea [Ey Ed]]. unfold on_floor.
  rewrite Ea, Ey, Ed. simpl. rewrite Hdy. auto.
Qed.

Section PackInvariant.
Variable SETTINGS : Settings.
Variable vehicle : Vehicle.
Variable mode : ModeDecision.

Lemma pack_iteration_cases (state : PlanState) (remaining : list Item) (step : Step) :
  pack_iteration SETTINGS state vehicle mode remaining = Ok step ->
  let window := slice_to remaining (TOP_N_WINDOW SETTINGS) in
  let candidates := generate_floor_candidates (ps_free_rects state) window in
  (some_feasible_group state remaining candidates /\
   pattern_outcome state remaining candidates step)
  \/
  (~ some_feasible_group state remaining candidates /\
   some_feasible_single state candidates /\
   single_outcome SETTINGS state vehicle mode remaining candidates step)
  \/
  (~ some_feasible_group state remaining candidates /\
   ~ some_feasible_single state candidates /\
   exhausted_outcome state remaining step).
Proof. unfold pack_iteration. apply select_and_commit_cases. Qed.

Lemma pack_iteration_inv (d : list (string * Item)) (state : PlanState)
  (remaining : list Item) (step : Step) :
  plan_inv vehicle d state ->
  pack_iteration SETTINGS state vehicle mode remaining = Ok step ->
  plan_inv vehicle d (step_state step).
Proof.
  intros [Iv [Id [Ip [Ib If]]]] H. apply pack_iteration_cases in H.
  set (window := slice_to remaining (TOP_N_WINDOW SETTINGS)) in *.
  set (candidates := generate_floor_candidates (ps_free_rects state) window) in *.
  assert (Fl : Forall (floor_cand window) candidates)
    by apply generate_floor_candidates_floor.
  rewrite Forall_forall in Fl. cbv zeta in H.
  destruct H as [[_ Hp] | [[_ [_ Hs]] | [_ [_ He]]]].
  - destruct Hp as [pid [group [ps [s' [Hin [[_ [r Hc]] [F [-> [Epl [_ Fr]]]]]]]]]].
    destruct Fr as [Fv [Fi _]]. simpl. unfold plan_inv. rewrite Epl, Fv, Fi.
    apply can_commit_group_true in Hc. destruct Hc as [C1 [C2 _]].
    destruct (group_pattern_candidates_spec _ _ _ Hin) as [_ Hmem].
    split; [exact Iv |]. split; [exact Id |]. split; [| split].
    + apply pairwise_app; [exact no_overlap_sym |]. split; [exact Ip |]. split.
      * eapply pairwise_Forall2; [| exact F | exact C1].
        intros a b a' b' R Ta Tb. unfold no_overlap.
        destruct (placement_aabb Ta) as [-> _]. destruct (placement_aabb Tb) as [-> _].
        exact R.
      * intros x y Hx Hy. destruct (@Forall2_In_r _ _ _ _ _ y F Hy) as [c [Hc Tc]].
        unfold no_overlap. destruct (placement_aabb Tc) as [-> _].
        rewrite aabb_intersects_sym. now apply (C2 c Hc).
    + apply Forall_app. split; [exact Ib |]. apply Forall_forall. intros y Hy.
      destruct (@Forall2_In_r _ _ _ _ _ y F Hy) as [c [Hc Tc]]. unfold in_bounds.
      destruct (placement_aabb Tc) as [-> _]. rewrite <- Iv. now apply (C2 c Hc).
    + apply Forall_app. split; [exact If |]. apply Forall_forall. intros y Hy.
      destruct (@Forall2_In_r _ _ _ _ _ y F Hy) as [c [Hc Tc]].
      eapply floor_cand_on_floor; [| exact Tc]. apply Fl. now apply Hmem.
  - destruct Hs as [c [sc [p [s' [Hin [[Hpid [r Hc]] [_ [_ [Tp [-> [Epl [_ Fr]]]]]]]]]]]].
    destruct Fr as [Fv [Fi _]]. simpl. unfold plan_inv. rewrite Epl, Fv, Fi.
    apply can_place_true in Hc. destruct Hc as [C1 [C2 _]].
    destruct (placement_aabb Tp) as [Ea _].
    split; [exact Iv |]. split; [exact Id |]. split; [| split].
    + apply pairwise_app; [exact no_overlap_sym |]. split; [exact Ip |].
      split; [simpl; auto |]. intros x y Hx [<- | []]. unfold no_overlap. rewrite Ea.
      rewrite aabb_intersects_sym. now apply C2.
    + apply Forall_app. split; [exact Ib |]. constructor; [| constructor].
      unfold in_bounds. rewrite Ea, <- Iv. exact C1.
    + apply Forall_app. split; [exact If |]. constructor; [| constructor].
      eapply floor_cand_on_floor; [| exact Tp]. now apply Fl.
  - destruct He as [s' [-> [Epl [_ [_ [_ Fr]]]]]]. destruct Fr as [Fv [Fi _]].
    simpl. unfold plan_inv. rewrite Epl, Fv, Fi. tauto.
Qed.

Lemma pack_loop_inv (d : list (string * Item)) :
  forall (fuel : nat) (state s' : PlanState) (remaining : list Item),
  plan_inv vehicle d state ->
  pack_loop SETTINGS fuel state vehicle mode remaining = Ok s' ->
  plan_inv vehicle d s'.
Proof.
  induction fuel as [| fuel IH]; intros state s' remaining Hi H;
    destruct remaining as [| it rest]; simpl in H; try discriminate;
    try (inversion H; subst; exact Hi).
  destruct (pack_iteration SETTINGS state vehicle mode (it :: rest)) as [step | e] eqn:E;
    cbn [bind] in H; [| discriminate].
  assert (Hs := @pack_iteration_inv d state (it :: rest) step Hi E).
  destruct step as [s1 | s1 rem1]; simpl in Hs.
  - inversion H; subst. exact Hs.
  - eapply IH; eauto.
Qed.
End PackInvariant.

Lemma initial_state_inv (items : list Item) (vehicle : Vehicle) (task_id transport_type : string)
  (mode : ModeDecision) :
  plan_inv vehicle (fold_left (fun d it => dict_set d (item_id it) it) items [])
    (initial_state items vehicle task_id transport_type mode).
Proof.
  unfold plan_inv, initial_state. simpl. repeat split; auto; constructor.
Qed.

(** Every finished plan satisfies the invariant. *)
Lemma pack_inv (S : Settings) (fuel : nat) (items : list Item) (vehicle : Vehicle)
  (task_id transport_type : string) (plan : PlanResult) :
  pack_with_fuel S fuel items vehicle task_id transport_type = Ok plan ->
  pr_vehicle plan = vehicle /\
  pairwise no_overlap (pr_placed plan) /\
  Forall (in_bounds vehicle) (pr_placed plan) /\
  Forall on_floor (pr_placed plan).
Proof.
  unfold pack_with_fuel.
  destruct (detect_mode S items vehicle) as [mode | e]; cbn [bind]; [| discriminate].
  destruct (pack_loop S fuel _ vehicle mode _) as [s' | e] eqn:E; cbn [bind]; [| discriminate].
  intros H. inversion H; subst; clear H. simpl.
  apply pack_loop_inv with (d := fold_left (fun d it => dict_set d (item_id it) it) items [])
    in E; [| apply initial_state_inv].
  destruct E as [Iv [_ [Ip [Ib If]]]]. auto.
Qed.

(** ** Queue shrink and termination *)

Lemma insert_by_key_length (key : Item -> Z * Q) (x : Item) (l : list Item) :
  length (insert_by_key key x l) = S (length l).
Proof. induction l as [| y t IH]; simpl; auto. destruct (key_lt _ _); simpl; auto. Qed.

Lemma insert_by_key_In (key : Item -> Z * Q) (x y : Item) (l : list Item) :
  In y (insert_by_key key x l) <-> y = x \/ In y l.
Proof.
  induction l as [| z t IH]; simpl.
  - intuition.
  - destruct (key_lt _ _); simpl; [intuition |]. rewrite IH. intuition.
Qed.

Lemma sort_by_key_spec (key : Item -> Z * Q) (l : list Item) :
  length (sort_by_key key l) = length l /\
  forall y, In y (sort_by_key key l) <-> In y l.
Proof.
  unfold sort_by_key.
  assert (G : forall l acc,
            length (fold_left (fun acc x => insert_by_key key x acc) l acc)
            = (length l + length acc)%nat /\
            forall y, In y (fold_left (fun acc x => insert_by_key key x acc) l acc)
                      <-> In y l \/ In y acc).
  { clear l. induction l as [| x t IH]; intros acc; simpl.
    - split; auto. intuition.
    - destruct (IH (insert_by_key key x acc)) as [L I]. split.
      + rewrite L, insert_by_key_length. lia.
      + intros y. rewrite I, insert_by_key_In. intuition. }
  destruct (G l []) as [L I]. split.
  - rewrite L. simpl. lia.
  - intros y. rewrite I. simpl. tauto.
Qed.

Section Termination.
Variable SETTINGS : Settings.
Variable vehicle : Vehicle.
Variable mode : ModeDecision.

(** An iteration that goes on has removed at least one unit. *)
Lemma pack_iteration_decreases (state s' : PlanState) (remaining remaining' : list Item) :
  pack_iteration SETTINGS state vehicle mode remaining = Ok (Continue s' remaining') ->
  (length remaining' < length remaining)%nat /\
  forall it, In it remaining' -> In it remaining.
Proof.
  intros H. apply pack_iteration_cases in H. cbv zeta in H.
  set (window := slice_to remaining (TOP_N_WINDOW SETTINGS)) in *.
  set (candidates := generate_floor_candidates (ps_free_rects state) window) in *.
  destruct H as [[_ Hp] | [[_ [_ Hs]] | [_ [_ He]]]].
  - destruct Hp as [pid [group [ps [s1 [Hin [[Hav _] [_ [Hst _]]]]]]]].
    inversion Hst; subst; clear Hst.
    split; [| intros it Hit; apply filter_In in Hit; tauto].
    destruct (group_pattern_candidates_spec _ _ _ Hin) as [Hne _].
    destruct group as [| c g]; [congruence |].
    assert (Hc := Hav c (or_introl eq_refl)). apply in_ids_true in Hc.
    apply in_map_iff in Hc. destruct Hc as [it [Eid Hit]].
    apply (filter_length_lt _ _ it Hit).
    apply negb_false_iff. apply in_ids_true. rewrite Eid. now left.
  - destruct Hs as [c [sc [p [s1 [Hin [_ [_ [_ [_ [Hst _]]]]]]]]]].
    inversion Hst; subst; clear Hst.
    split; [| intros it Hit; apply filter_In in Hit; tauto].
    assert (Fl : Forall (floor_cand window) candidates)
      by apply generate_floor_candidates_floor.
    rewrite Forall_forall in Fl. destruct (Fl c Hin) as [it [Hit [Eid _]]].
    apply slice_to_In in Hit. apply (filter_length_lt _ _ it Hit).
    apply negb_false_iff. apply String.eqb_eq. auto.
  - destruct He as [s1 [Hst _]]. discriminate.
Qed.

(** More fuel than queued units changes nothing. *)
Lemma pack_loop_fuel_enough (fuel : nat) :
  forall (state : PlanState) (remaining : list Item),
  (length remaining <= fuel)%nat ->
  pack_loop SETTINGS (S fuel) state vehicle mode remaining
  = pack_loop SETTINGS fuel state vehicle mode remaining.
Proof.
  induction fuel as [| fuel IH]; intros state remaining Hlen.
  - destruct remaining as [| it rest]; [| simpl in Hlen; lia]. reflexivity.
  - destruct remaining as [| it rest]; [reflexivity |].
    change (pack_loop SETTINGS (S (S fuel)) state vehicle mode (it :: rest))
      with (step <- pack_iteration SETTINGS state vehicle mode (it :: rest) ;;
            match step with
            | Exhausted s => Ok s
            | Continue s remaining' => pack_loop SETTINGS (S fuel) s vehicle mode remaining'
            end).
    change (pack_loop SETTINGS (S fuel) state vehicle mode (it :: rest))
      with (step <- pack_iteration SETTINGS state vehicle mode (it :: rest) ;;
            match step with
            | Exhausted s => Ok s
            | Continue s remaining' => pack_loop SETTINGS fuel s vehicle mode remaining'
            end).
    destruct (pack_iteration SETTINGS state vehicle mode (it :: rest)) as [step | e] eqn:E;
      cbn [bind]; [| reflexivity].
    destruct step as [s1 | s1 rem1]; [reflexivity |].
    apply pack_iteration_decreases in E. destruct E as [E _].
    apply IH. simpl in *. lia.
Qed.

Lemma pack_loop_more_fuel (extra fuel : nat) (state : PlanState) (remaining : list Item) :
  (length remaining <= fuel)%nat ->
  pack_loop SETTINGS (extra + fuel) state vehicle mode remaining
  = pack_loop SETTINGS fuel state vehicle mode remaining.
Proof.
  intros H. induction extra as [| n IH]; [reflexivity |].
  change (S n + fuel)%nat with (S (n + fuel)). rewrite pack_loop_fuel_enough by lia. exact IH.
Qed.

(** *** No lookup fails *)

Lemma dict_lookup_total (d : list (string * Item)) (k : string) :
  has_key d k -> exists v, dict_lookup d k = Ok v.
Proof. intros [v H]. exists v. now apply dict_lookup_Ok. Qed.

Lemma tmp_placed_total (d : list (string * Item)) (group : list Candidate) :
  (forall c, In c group -> has_key d (c_itemId c)) ->
  forall acc, exists tmp,
    foldM (fun tmp c => it <- dict_lookup d (c_itemId c) ;;
                        Ok (tmp ++ [placed_from_candidate c it])) group acc = Ok tmp.
Proof.
  induction group as [| c t IH]; intros Hk acc; cbn [foldM]; [eauto |].
  destruct (@dict_lookup_total _ _ (Hk c (or_introl eq_refl))) as [it ->]. cbn [bind].
  apply IH. intros; apply Hk; now right.
Qed.

Lemma can_commit_group_total (s : PlanState) (group : list Candidate) :
  (forall c, In c group -> has_key (ps_items_by_id s) (c_itemId c)) ->
  exists r, _can_commit_group s group = Ok r.
Proof.
  intros Hk. unfold _can_commit_group.
  destruct (internal_collision [] group); [eauto |].
  destruct (group_gates (ps_vehicle s) (ps_placed s) group) as [ok1 r1].
  destruct ok1; cbn [negb]; [| eauto].
  destruct (@tmp_placed_total _ _ Hk (ps_placed s)) as [tmp ->]. cbn [bind].
  destruct (check_loads (compute_loads tmp (ps_vehicle s)) (ps_vehicle s)) as [ok3 r3].
  destruct ok3; cbn [negb]; eauto.
Qed.

Lemma score_candidate_total (s : PlanState) (c : Candidate) :
  has_key (ps_items_by_id s) (c_itemId c) ->
  exists sc, score_candidate s c mode = Ok sc.
Proof.
  intros Hk. unfold score_candidate. destruct (@dict_lookup_total _ _ Hk) as [it ->].
  cbn [bind]. eauto.
Qed.

Lemma group_policies_total (s : PlanState) (group : list Candidate) :
  (forall c, In c group -> has_key (ps_items_by_id s) (c_itemId c)) ->
  forall terms, exists r, group_policies SETTINGS s vehicle mode group terms = Ok r.
Proof.
  induction group as [| c t IH]; intros Hk terms; cbn [group_policies]; [eauto |].
  destruct (@dict_lookup_total _ _ (Hk c (or_introl eq_refl))) as [it ->]. cbn [bind].
  rewrite policy_no_hard_reject. apply IH. intros; apply Hk; now right.
Qed.

Lemma group_scores_total (s : PlanState) (group : list Candidate) :
  (forall c, In c group -> has_key (ps_items_by_id s) (c_itemId c)) ->
  forall terms acc, exists r, group_scores SETTINGS s mode group terms acc = Ok r.
Proof.
  induction group as [| c t IH]; intros Hk terms acc; cbn [group_scores]; [eauto |].
  destruct terms as [| pol terms]; [eauto |].
  destruct (@score_candidate_total s c (Hk c (or_introl eq_refl))) as [sc ->]. cbn [bind].
  destruct (_apply_policy_to_score SETTINGS sc pol) as [[[sc0 sc1] sc2] sc3].
  destruct acc as [[u k] p]. apply IH. intros; apply Hk; now right.
Qed.

Lemma can_place_total (s : PlanState) (c : Candidate) :
  has_key (ps_items_by_id s) (c_itemId c) -> exists r, can_place s c = Ok r.
Proof.
  intros Hk. unfold can_place.
  destruct (check_oob c (ps_vehicle s)) as [ok1 r1]. destruct ok1; cbn [negb]; [| eauto].
  destruct (check_collision c (ps_placed s)) as [ok2 r2]. destruct ok2; cbn [negb]; [| eauto].
  destruct (@dict_lookup_total _ _ Hk) as [it ->]. cbn [bind].
  destruct (check_loads (compute_loads (ps_placed s ++ [placed_from_candidate c it])
                           (ps_vehicle s)) (ps_vehicle s)) as [ok3 r3].
  destruct ok3; cbn [negb]; eauto.
Qed.

Lemma commit_total (s : PlanState) (c : Candidate) :
  has_key (ps_items_by_id s) (c_itemId c) -> exists s', commit s c = Ok s'.
Proof.
  intros Hk. unfold commit. destruct (@dict_lookup_total _ _ Hk) as [it ->]. cbn [bind]. eauto.
Qed.

Lemma commit_all_total (group : list Candidate) :
  forall s, (forall c, In c group -> has_key (ps_items_by_id s) (c_itemId c)) ->
  exists s', foldM commit group s = Ok s'.
Proof.
  induction group as [| c t IH]; intros s Hk; cbn [foldM]; [eauto |].
  destruct (@commit_total s c (Hk c (or_introl eq_refl))) as [s1 E]. rewrite E. cbn [bind].
  apply IH. apply commit_spec in E. destruct E as [_ [_ [_ [_ [Ei _]]]]].
  rewrite Ei. intros; apply Hk; now right.
Qed.

Section IterationTotal.
Variable s : PlanState.
Variable remaining : list Item.
Hypothesis keys : forall it, In it remaining -> has_key (ps_items_by_id s) (item_id it).

Lemma available_key (c : Candidate) :
  in_ids (map item_id remaining) (c_itemId c) = true ->
  has_key (ps_items_by_id s) (c_itemId c).
Proof.
  intros H. apply in_ids_true in H. apply in_map_iff in H. destruct H as [it [<- Hit]].
  now apply keys.
Qed.

Lemma pattern_step_total (st : PatLoop) (entry : string * list Candidate) :
  (exists d, pl_state st = with_debug s d) ->
  exists st', pattern_step SETTINGS vehicle mode (map item_id remaining) st entry = Ok st'.
Proof.
  intros [d Hd]. destruct entry as [pid group]. unfold pattern_step.
  destruct (existsb (fun c => negb (in_ids (map item_id remaining) (c_itemId c))) group)
    eqn:Av; [eauto |].
  assert (Hk : forall c, In c group -> has_key (ps_items_by_id s) (c_itemId c)).
  { intros c Hc. apply available_key.
    destruct (in_ids (map item_id remaining) (c_itemId c)) eqn:E; auto.
    assert (existsb (fun c => negb (in_ids (map item_id remaining) (c_itemId c))) group
            = true) by (apply existsb_exists; exists c; rewrite E; auto).
    congruence. }
  rewrite Hd. rewrite can_commit_group_with_debug.
  destruct (@can_commit_group_total s group Hk) as [[ok reasons] ->]. cbn [bind].
  destruct ok; cbn [negb]; [| eauto].
  rewrite group_policies_with_debug.
  destruct (@group_policies_total s group Hk []) as [pols Gp]. rewrite Gp. cbn [bind].
  destruct (@group_policies_inr SETTINGS s vehicle mode group [] pols Gp) as [terms ->].
  destruct (@group_scores_total (with_debug s d) group Hk terms (0, 0, 0)) as [[[u k] p] ->].
  cbn [bind]. destruct (_packing_quality SETTINGS group) as [quality qdbg].
  match goal with |- context [if ?b then _ else _] => destruct b end; eauto.
Qed.

Lemma pattern_loop_total (groups : list (string * list Candidate)) :
  forall st, (exists d, pl_state st = with_debug s d) ->
  exists pl, foldM (pattern_step SETTINGS vehicle mode (map item_id remaining)) groups st
             = Ok pl.
Proof.
  induction groups as [| [pid group] rest IH]; intros st Hst; cbn [foldM]; [eauto |].
  destruct (@pattern_step_total st (pid, group) Hst) as [st1 E]. rewrite E. cbn [bind].
  apply IH. exact (proj1 (@pattern_step_spec SETTINGS s vehicle mode (map item_id remaining) st st1 pid group Hst E)).
Qed.

Lemma single_step_total (d : list DebugEvent) (best : option SingleBest) (cand : Candidate) :
  (pattern_id_of cand = None -> has_key (ps_items_by_id s) (c_itemId cand)) ->
  exists best', single_step SETTINGS (with_debug s d) vehicle mode best cand = Ok best'.
Proof.
  intros Hk. unfold single_step. destruct (pattern_id_of cand); [eauto |].
  specialize (Hk eq_refl). rewrite can_place_with_debug.
  destruct (@can_place_total s cand Hk) as [[ok reasons] ->]. cbn [bind].
  destruct ok; cbn [negb]; [| eauto].
  change (ps_items_by_id (with_debug s d)) with (ps_items_by_id s).
  destruct (@dict_lookup_total _ _ Hk) as [it ->]. cbn [bind]. rewrite policy_no_hard_reject.
  destruct (@score_candidate_total (with_debug s d) cand Hk) as [sc ->]. cbn [bind].
  match goal with |- context [if ?b then _ else _] => destruct b end; eauto.
Qed.

Lemma single_loop_total (d : list DebugEvent) (cands : list Candidate) :
  (forall c, In c cands -> pattern_id_of c = None ->
     has_key (ps_items_by_id s) (c_itemId c)) ->
  forall best, exists best',
    foldM (single_step SETTINGS (with_debug s d) vehicle mode) cands best = Ok best'.
Proof.
  induction cands as [| c t IH]; intros Hk best; cbn [foldM]; [eauto |].
  destruct (@single_step_total d best c (Hk c (or_introl eq_refl))) as [b1 ->]. cbn [bind].
  apply IH. intros; apply Hk; auto. now right.
Qed.

Lemma select_and_commit_total (window : list Item) (candidates : list Candidate) :
  (forall c, In c candidates -> pattern_id_of c = None ->
     has_key (ps_items_by_id s) (c_itemId c)) ->
  exists step, select_and_commit SETTINGS s vehicle mode remaining window candidates = Ok step.
Proof.
  intros Hk. unfold select_and_commit.
  set (state1 := emit s "candidates_generated" _).
  assert (H1 : exists d, pl_state (mkPatLoop state1 None 0 []) = with_debug s d)
    by (eexists; reflexivity).
  destruct (@pattern_loop_total (_group_pattern_candidates candidates) _ H1) as [pl Epl].
  rewrite Epl. cbn [bind].
  destruct (@pattern_loop_spec SETTINGS s vehicle mode (map item_id remaining)
              (_group_pattern_candidates candidates) _ _ H1 Epl) as [[d Hd] [P2 _]].
  set (state2 := match _group_pattern_candidates candidates with
                 | [] => pl_state pl
                 | _ :: _ => emit (pl_state pl) "pattern_reject_summary" _
                 end).
  assert (H2 : exists d2, state2 = with_debug s d2).
  { unfold state2. destruct (_group_pattern_candidates candidates); rewrite Hd; eauto.
    rewrite emit_with_debug. eauto. }
  destruct H2 as [d2 Hd2]. rewrite Hd2. clearbody state2.
  destruct (@single_loop_total d2 candidates Hk None) as [best Es]. rewrite Es. cbn [bind].
  pose proof (@single_loop_spec SETTINGS (with_debug s d2) vehicle mode candidates _ _ Es)
    as [_ S2].
  destruct (pl_best pl) as [bp |] eqn:Ebp.
  - destruct (P2 bp eq_refl) as [Hn | [_ [Hav _]]]; [discriminate |].
    destruct (@commit_all_total (pb_group bp) (with_debug s d2)) as [s3 Ec].
    { intros c Hc. apply available_key. now apply Hav. }
    rewrite Ec. cbn [bind]. destruct best; eauto.
  - destruct best as [bs |]; [| eauto].
    destruct (S2 bs eq_refl) as [[Hn | [Hin [[Hpid _] _]]] _]; [discriminate |].
    destruct (@commit_total (with_debug s d2) (sb_cand bs)) as [s3 Ec]; [now apply Hk |].
    rewrite Ec. cbn [bind]. eauto.
Qed.

Lemma pack_iteration_total :
  exists step, pack_iteration SETTINGS s vehicle mode remaining = Ok step.
Proof.
  unfold pack_iteration. apply select_and_commit_total. intros c Hc _.
  assert (Fl := generate_floor_candidates_floor (ps_free_rects s)
                  (slice_to remaining (TOP_N_WINDOW SETTINGS))).
  rewrite Forall_forall in Fl. destruct (Fl c Hc) as [it [Hit [-> _]]].
  apply keys. eapply slice_to_In; eauto.
Qed.
End IterationTotal.

Lemma pack_iteration_frame (state : PlanState) (remaining : list Item) (step : Step) :
  pack_iteration SETTINGS state vehicle mode remaining = Ok step ->
  same_frame state (step_state step).
Proof.
  intros H. apply pack_iteration_cases in H. cbv zeta in H.
  destruct H as [[_ Hp] | [[_ [_ Hs]] | [_ [_ He]]]].
  - destruct Hp as [pid [group [ps [s1 [_ [_ [_ [-> [_ [_ Fr]]]]]]]]]]. exact Fr.
  - destruct Hs as [c [sc [p [s1 [_ [_ [_ [_ [_ [-> [_ [_ Fr]]]]]]]]]]]]. exact Fr.
  - destruct He as [s1 [-> [_ [_ [_ [_ Fr]]]]]]. exact Fr.
Qed.

(** With its queue covered by the unit index, the loop returns a state. *)
Lemma pack_loop_total (fuel : nat) :
  forall (state : PlanState) (remaining : list Item),
  (length remaining <= fuel)%nat ->
  (forall it, In it remaining -> has_key (ps_items_by_id state) (item_id it)) ->
  exists s', pack_loop SETTINGS fuel state vehicle mode remaining = Ok s'.
Proof.
  induction fuel as [| fuel IH]; intros state remaining Hlen Hk.
  - destruct remaining as [| it rest]; [| simpl in Hlen; lia]. simpl. eauto.
  - destruct remaining as [| it rest]; [simpl; eauto |].
    change (pack_loop SETTINGS (S fuel) state vehicle mode (it :: rest))
      with (step <- pack_iteration SETTINGS state vehicle mode (it :: rest) ;;
            match step with
            | Exhausted s => Ok s
            | Continue s remaining' => pack_loop SETTINGS fuel s vehicle mode remaining'
            end).
    destruct (@pack_iteration_total state (it :: rest) Hk) as [step E]. rewrite E. cbn [bind].
    destruct step as [s1 | s1 rem1]; [eauto |].
    destruct (@pack_iteration_frame state (it :: rest) _ E) as [_ [Ei _]]. simpl in Ei.
    apply pack_iteration_decreases in E. destruct E as [Hlt Hsub].
    apply IH; [simpl in *; lia |]. intros it0 Hit0. rewrite Ei. apply Hk. now apply Hsub.
Qed.
End Termination.

(** ** The run as a whole *)

Lemma dict_get_set (A : Type) (d : list (string * A)) (key key' : string) (value : A) :
  dict_get (dict_set d key value) key'
  = if String.eqb key key' then Some value else dict_get d key'.
Proof.
  induction d as [| [k v] rest IH]; simpl.
  - reflexivity.
  - destruct (String.eqb_spec k key) as [-> | Hne]; simpl.
    + destruct (String.eqb key key'); reflexivity.
    + rewrite IH. destruct (String.eqb_spec k key') as [-> | Hne'];
        destruct (String.eqb_spec key key') as [-> | Hne'']; congruence.
Qed.

Lemma items_by_id_keys (items : list Item) :
  forall it, In it items ->
  has_key (fold_left (fun d it => dict_set d (item_id it) it) items []) (item_id it).
Proof.
  assert (G : forall l d it,
            In it l \/ has_key d (item_id it) ->
            has_key (fold_left (fun d it => dict_set d (item_id it) it) l d) (item_id it)).
  { induction l as [| x t IH]; intros d it H; simpl.
    - destruct H as [[] | H]; exact H.
    - apply IH. destruct H as [[-> | H] | [v H]].
      + right. unfold has_key. rewrite dict_get_set, String.eqb_refl. eauto.
      + now left.
      + right. unfold has_key. rewrite dict_get_set. destruct (String.eqb _ _); eauto. }
  intros it H. apply G. now left.
Qed.

Lemma div_checked_Ok (a b : Q) : 0 < b -> div_checked a b = Ok (a / b).
Proof.
  intros H. unfold div_checked. destruct (Qeq_bool b 0) eqn:E; auto.
  apply Qeq_bool_iff in E. lra.
Qed.

Lemma div_checked_cases (a b : Q) :
  div_checked a b = Ok (a / b) \/ div_checked a b = Err ZeroDivisionError.
Proof. unfold div_checked. destruct (Qeq_bool b 0); auto. Qed.

Lemma qmax_pos_r (a b : Q) : 0 < b -> 0 < qmax a b.
Proof. intros H. destruct (qmax_cases a b) as [[L ->] | [L ->]]; lra. Qed.

Lemma detect_mode_total (S : Settings) (items : list Item) (vehicle : Vehicle) :
  0 < EPS S -> exists m, detect_mode S items vehicle = Ok m.
Proof.
  intros He. unfold detect_mode. destruct items as [| i t]; [eauto |].
  destruct (mode_totals (i :: t)) as [[tw tv] tf].
  rewrite !div_checked_Ok by (apply qmax_pos_r; exact He). cbn [bind].
  repeat match goal with |- context [if ?b then _ else _] => destruct b end; eauto.
Qed.

Lemma detect_mode_error (S : Settings) (items : list Item) (vehicle : Vehicle) (e : error) :
  detect_mode S items vehicle = Err e -> e = ZeroDivisionError.
Proof.
  unfold detect_mode. destruct items as [| i t]; [discriminate |].
  destruct (mode_totals (i :: t)) as [[tw tv] tf].
  repeat match goal with
  | |- context [div_checked ?a ?b] =>
      destruct (div_checked_cases a b) as [-> | ->]; cbn [bind]
  end;
  repeat match goal with |- context [if ?b then _ else _] => destruct b end;
  intros H; inversion H; reflexivity.
Qed.

Section PackTotal.
Variable SETTINGS : Settings.
Variable items : list Item.
Variable vehicle : Vehicle.
Variables task_id transport_type : string.

Lemma pack_after_mode (mode : ModeDecision) (extra : nat) :
  detect_mode SETTINGS items vehicle = Ok mode ->
  exists plan,
    pack_with_fuel SETTINGS (extra + length items) items vehicle task_id transport_type
    = Ok plan /\
    pack SETTINGS items vehicle task_id transport_type = Ok plan.
Proof.
  intros Hm. unfold pack, pack_with_fuel. rewrite Hm. cbn [bind].
  set (key := fun it : Item => sort_key_for_queue SETTINGS it vehicle mode).
  destruct (sort_by_key_spec key items) as [Hlen Hin].
  rewrite pack_loop_more_fuel by lia.
  destruct (@pack_loop_total SETTINGS vehicle mode (length items)
              (initial_state items vehicle task_id transport_type mode)
              (sort_by_key key items)) as [s' ->].
  - lia.
  - intros it Hit. apply items_by_id_keys. now apply Hin.
  - cbn [bind]. eauto.
Qed.

(** [pack] returns a plan, or fails in [detect_mode] on a zero divisor;
    it never runs out of iterations, and iterations beyond one per unit
    are never used. *)
Lemma pack_terminates :
  ((exists plan, pack SETTINGS items vehicle task_id transport_type = Ok plan) \/
   pack SETTINGS items vehicle task_id transport_type = Err ZeroDivisionError) /\
  forall extra,
    pack_with_fuel SETTINGS (extra + length items) items vehicle task_id transport_type
    = pack SETTINGS items vehicle task_id transport_type.
Proof.
  destruct (detect_mode SETTINGS items vehicle) as [mode | e] eqn:Hm.
  - split.
    + left. destruct (@pack_after_mode mode 0 Hm) as [plan [_ H]]. eauto.
    + intros extra. destruct (@pack_after_mode mode extra Hm) as [plan [H1 H2]]. congruence.
  - assert (e = ZeroDivisionError) by (eapply detect_mode_error; eauto). subst e. split.
    + right. unfold pack, pack_with_fuel. rewrite Hm. reflexivity.
    + intros extra. unfold pack, pack_with_fuel. rewrite Hm. reflexivity.
Qed.

Lemma pack_total : 0 < EPS SETTINGS ->
  exists plan, pack SETTINGS items vehicle task_id transport_type = Ok plan.
Proof.
  intros He. destruct (@detect_mode_total SETTINGS items vehicle He) as [mode Hm].
  destruct (@pack_after_mode mode 0 Hm) as [plan [_ H]]. eauto.
Qed.
End PackTotal.

(** ** The load gate *)

Lemma payload_of_loads (placed : list PlacedItem) (vehicle : Vehicle) :
  payload_kg (compute_loads placed vehicle) = sum_weights placed.
Proof.
  unfold compute_loads. destruct (axleAPosFromHeadM vehicle), (axleBPosFromHeadM vehicle);
    try reflexivity.
  destruct (_ <? _); reflexivity.
Qed.

Lemma sumQ_app (A : Type) (f : A -> Q) (l1 l2 : list A) :
  sumQ f (l1 ++ l2) == sumQ f l1 + sumQ f l2.
Proof. induction l1 as [| x t IH]; simpl; [ring | rewrite IH; ring]. Qed.

Lemma sumQ_nonneg (A : Type) (f : A -> Q) (l : list A) :
  (forall x, In x l -> 0 <= f x) -> 0 <= sumQ f l.
Proof.
  induction l as [| x t IH]; intros H; simpl; [lra |].
  assert (0 <= f x) by (apply H; now left).
  assert (0 <= sumQ f t) by (apply IH; intros; apply H; now right). lra.
Qed.

Lemma can_place_load_gate (s : PlanState) (c : Candidate) (it : Item) :
  dict_get (ps_items_by_id s) (c_itemId c) = Some it ->
  oob_check (c_aabb c) (ps_vehicle s) eps9 = false ->
  (forall p, In p (ps_placed s) -> aabb_intersects (c_aabb c) (p_aabb p) eps9 = false) ->
  can_place s c =
  Ok (check_loads (compute_loads (ps_placed s ++ [placed_from_candidate c it]) (ps_vehicle s))
        (ps_vehicle s)).
Proof.
  intros Hk Ho Hc. unfold can_place.
  destruct (check_oob c (ps_vehicle s)) as [ok1 r1] eqn:E1.
  assert (ok1 = true).
  { change ok1 with (fst (ok1, r1)). rewrite <- E1. now apply check_oob_true. }
  subst ok1. cbn [negb].
  destruct (check_collision c (ps_placed s)) as [ok2 r2] eqn:E2.
  assert (ok2 = true).
  { change ok2 with (fst (ok2, r2)). rewrite <- E2. now apply check_collision_true. }
  subst ok2. cbn [negb].
  apply dict_lookup_Ok in Hk. rewrite Hk. cbn [bind].
  unfold check_loads.
  destruct (over_limit (payloadMaxKg (ps_vehicle s)) _),
    (over_limit (axleALimitKg (ps_vehicle s)) _),
    (over_limit (axleBLimitKg (ps_vehicle s)) _); reflexivity.
Qed.

Lemma check_loads_false_iff (loads : AxleLoads) (vehicle : Vehicle) :
  fst (check_loads loads vehicle) = false <->
  exceeds (payloadMaxKg vehicle) (payload_kg loads) \/
  exceeds (axleALimitKg vehicle) (axleA_kg loads) \/
  exceeds (axleBLimitKg vehicle) (axleB_kg loads).
Proof.
  rewrite check_loads_fst, negb_false_iff, !orb_true_iff, !over_limit_exceeds. tauto.
Qed.

Lemma sum_weights_app (l1 l2 : list PlacedItem) :
  sum_weights (l1 ++ l2) == sum_weights l1 + sumQ (fun p => item_weight (p_item p)) l2.
Proof. rewrite !sum_weights_sumQ, sumQ_app. reflexivity. Qed.

Lemma payload_within_limit (placed : list PlacedItem) (vehicle : Vehicle) (m : Q) :
  payloadMaxKg vehicle = Some m ->
  fst (check_loads (compute_loads placed vehicle) vehicle) = true ->
  sum_weights placed <= m + eps9.
Proof.
  intros Hm H. rewrite check_loads_fst in H. apply negb_true_iff in H.
  apply orb_false_iff in H. destruct H as [H _]. apply orb_false_iff in H.
  destruct H as [H _]. rewrite Hm, payload_of_loads in H. simpl in H.
  destruct (Qltb_spec (m + eps9) (sum_weights placed)); [discriminate | lra].
Qed.

(** When every queued unit would push the payload past its limit, the
    iteration commits nothing and flows the queue into the unplaced set. *)
Lemma load_exhaustion (S : Settings) (state : PlanState) (vehicle : Vehicle)
  (mode : ModeDecision) (remaining : list Item) (step : Step) (m : Q) :
  payloadMaxKg (ps_vehicle state) = Some m ->
  (forall k v, dict_get (ps_items_by_id state) k = Some v -> 0 <= item_weight v) ->
  (forall it v, In it remaining ->
     dict_get (ps_items_by_id state) (item_id it) = Some v ->
     m + eps9 < sum_weights (ps_placed state) + item_weight v) ->
  pack_iteration S state vehicle mode remaining = Ok step ->
  exhausted_outcome state remaining step.
Proof.
  intros Hm Hpos Hover H. apply pack_iteration_cases in H. cbv zeta in H.
  set (window := slice_to remaining (TOP_N_WINDOW S)) in *.
  set (candidates := generate_floor_candidates (ps_free_rects state) window) in *.
  destruct H as [[_ Hp] | [[_ [_ Hs]] | [_ [_ He]]]]; [exfalso | exfalso | exact He].
  - destruct Hp as [pid [group [ps0 [s1 [Hin [[Hav [r Hc]] _]]]]]].
    destruct (group_pattern_candidates_spec _ _ _ Hin) as [Hne _].
    apply can_commit_group_true in Hc. destruct Hc as [_ [_ [ps [F Hl]]]].
    apply (payload_within_limit _ _ Hm) in Hl. rewrite sum_weights_app in Hl.
    destruct F as [| c p g ps' Tc F]; [congruence |].
    assert (Hc := Hav c (or_introl eq_refl)). apply in_ids_true in Hc.
    apply in_map_iff in Hc. destruct Hc as [it [Eid Hit]].
    destruct Tc as [v [Hv ->]]. rewrite <- Eid in Hv.
    specialize (Hover it v Hit Hv).
    assert (0 <= sumQ (fun p => item_weight (p_item p)) ps').
    { apply sumQ_nonneg. intros x Hx. destruct (@Forall2_In_r _ _ _ _ _ x F Hx) as [c' [_ Tx]].
      destruct Tx as [v' [Hv' ->]]. simpl. eapply Hpos; eauto. }
    simpl in Hl. unfold placed_from_candidate in Hl. simpl in Hl. lra.
  - destruct Hs as [c [sc [p [s1 [Hin [[_ [r Hc]] _]]]]]].
    apply can_place_true in Hc. destruct Hc as [_ [_ [v [Hv Hl]]]].
    apply (payload_within_limit _ _ Hm) in Hl. rewrite sum_weights_app in Hl.
    assert (Fl : Forall (floor_cand window) candidates)
      by apply generate_floor_candidates_floor.
    rewrite Forall_forall in Fl. destruct (Fl c Hin) as [it [Hit [Eid _]]].
    apply slice_to_In in Hit. rewrite Eid in Hv. specialize (Hover it v Hit Hv).
    simpl in Hl. unfold placed_from_candidate in Hl. simpl in Hl. lra.
Qed.

Lemma dict_get_In (A : Type) (d : list (string * A)) (k : string) (v : A) :
  dict_get d k = Some v -> exists k', In (k', v) d.
Proof.
  induction d as [| [k0 v0] rest IH]; simpl; [discriminate |].
  destruct (String.eqb k0 k).
  - intros E. inversion E; subst. exists k0. now left.
  - intros E. destruct (IH E) as [k' Hk]. exists k'. now right.
Qed.

(** ** The committed set never exceeds a limit *)

Lemma pack_iteration_loads (S : Settings) (vehicle : Vehicle) (mode : ModeDecision)
  (state : PlanState) (remaining : list Item) (step : Step) :
  loads_ok state ->
  pack_iteration S state vehicle mode remaining = Ok step ->
  loads_ok (step_state step).
Proof.
  intros Hl H. apply pack_iteration_cases in H. cbv zeta in H.
  destruct H as [[_ Hp] | [[_ [_ Hs]] | [_ [_ He]]]].
  - destruct Hp as [pid [group [ps [s' [_ [[_ [r Hc]] [F [-> [Epl [_ Fr]]]]]]]]]].
    destruct Fr as [Fv _]. apply can_commit_group_true in Hc.
    destruct Hc as [_ [_ [ps' [F' Hc]]]].
    right. cbn [step_state].
    rewrite Epl, Fv, (Forall2_placement_fun F F'). exact Hc.
  - destruct Hs as [c [sc [p [s' [_ [[_ [r Hc]] [_ [_ [Tp [-> [Epl [_ Fr]]]]]]]]]]]].
    destruct Fr as [Fv _]. apply can_place_true in Hc.
    destruct Hc as [_ [_ [it [Hit Hc]]]].
    assert (Ep : p = placed_from_candidate c it).
    { apply (@is_placement_fun (ps_items_by_id state) c); [exact Tp |]. exists it. auto. }
    right. cbn [step_state]. rewrite Epl, Fv, Ep. exact Hc.
  - destruct He as [s' [-> [Epl [_ [_ [_ Fr]]]]]]. destruct Fr as [Fv _].
    cbn [step_state]. unfold loads_ok. rewrite Epl, Fv. exact Hl.
Qed.

Lemma pack_loop_loads (S : Settings) (vehicle : Vehicle) (mode : ModeDecision) :
  forall (fuel : nat) (state s' : PlanState) (remaining : list Item),
  loads_ok state ->
  pack_loop S fuel state vehicle mode remaining = Ok s' ->
  loads_ok s'.
Proof.
  induction fuel as [| fuel IH]; intros state s' remaining Hi H;
    destruct remaining as [| it rest]; simpl in H; try discriminate;
    try (inversion H; subst; exact Hi).
  destruct (pack_iteration S state vehicle mode (it :: rest)) as [step | e] eqn:E;
    cbn [bind] in H; [| discriminate].
  assert (Hs := @pack_iteration_loads S vehicle mode state (it :: rest) step Hi E).
  destruct step as [s1 | s1 rem1]; simpl in Hs.
  - inversion H; subst. exact Hs.
  - eapply IH; eauto.
Qed.

(** A finished plan with a placed unit passes the load check. *)
Lemma pack_loads (S : Settings) (items : list Item) (vehicle : Vehicle)
  (task_id transport_type : string) (plan : PlanResult) :
  pack S items vehicle task_id transport_type = Ok plan ->
  pr_placed plan = [] \/
  fst (check_loads (compute_loads (pr_placed plan) vehicle) vehicle) = true.
Proof.
  unfold pack, pack_with_fuel.
  destruct (detect_mode S items vehicle) as [mode | e]; cbn [bind]; [| discriminate].
  destruct (pack_loop S _ _ vehicle mode _) as [s' | e] eqn:E; cbn [bind]; [| discriminate].
  intros H. inversion H; subst; clear H. cbn [pr_placed snapshot].
  assert (Hv : ps_vehicle s' = vehicle).
  { apply pack_loop_inv with (d := fold_left (fun d it => dict_set d (item_id it) it) items [])
      in E; [| apply initial_state_inv]. apply E. }
  apply pack_loop_loads in E; [| left; reflexivity].
  destruct E as [E | E]; [left; exact E | right; rewrite <- Hv; exact E].
Qed.

(** ** Sequences of reservations *)

Lemma init_good (g : Q) (vehicle : Vehicle) :
  0 < innerWidth vehicle -> 0 < innerLength vehicle ->
  on_grid g (innerWidth vehicle / 2) -> on_grid g (innerLength vehicle / 2) ->
  good g [] (rects (init_for_vehicle vehicle)).
Proof.
  intros Hw Hl Gw Gl. unfold init_for_vehicle, good. cbn [rects].
  split; [| split; [| split]].
  - constructor; [| constructor]. unfold rect_on_grid. cbn [rx0 rx1 rz0 rz1].
    split; [apply on_grid_opp; exact Gw |]. split; [exact Gw |].
    split; [apply on_grid_opp; exact Gl | exact Gl].
  - constructor; [| constructor]. unfold proper. cbn [rx0 rx1 rz0 rz1].
    assert (0 < innerWidth vehicle / 2) by (apply Qlt_shift_div_l; lra).
    assert (0 < innerLength vehicle / 2) by (apply Qlt_shift_div_l; lra).
    split; lra.
  - constructor; [constructor | constructor].
  - simpl. split; [constructor | exact I].
Qed.

Lemma rect_contains_mono (eps eps' : Q) (a b : Rect) :
  eps <= eps' -> rect_contains a b eps' = false -> rect_contains a b eps = false.
Proof.
  intros He. unfold rect_contains.
  repeat match goal with
  | |- context [?x <=? ?y] => destruct (Qleb_spec x y)
  end; simpl; auto; try discriminate; exfalso; lra.
Qed.

Lemma fold_reserve_no_contain (us : list Rect) (fr : FreeRects) :
  us <> [] -> pairwise (no_contain eps6) (rects (fold_left reserve us fr)).
Proof.
  intros Hne. destruct (exists_last Hne) as [l [u ->]].
  rewrite fold_left_app. cbn [fold_left]. apply reserve_no_contain.
Qed.

(** ** Sums *)

Lemma sumQ_plus (A : Type) (f g : A -> Q) (l : list A) :
  sumQ (fun x => f x + g x) l == sumQ f l + sumQ g l.
Proof. induction l as [| x t IH]; simpl; [ring | rewrite IH; ring]. Qed.

Lemma sumQ_ext (A : Type) (f g : A -> Q) (l : list A) :
  (forall x, f x == g x) -> sumQ f l == sumQ g l.
Proof. intros H. induction l as [| x t IH]; simpl; [reflexivity | rewrite IH, H; reflexivity]. Qed.

(** Comparisons respect the equality of rationals. *)
Lemma Qleb_eq (x x' y y' : Q) : x == x' -> y == y' -> (x <=? y) = (x' <=? y').
Proof.
  intros Hx Hy. destruct (Qleb_spec x y), (Qleb_spec x' y'); auto; exfalso; lra.
Qed.

Lemma Qltb_eq (x x' y y' : Q) : x == x' -> y == y' -> (x <? y) = (x' <? y').
Proof.
  intros Hx Hy. destruct (Qltb_spec x y), (Qltb_spec x' y'); auto; exfalso; lra.
Qed.

Lemma qmax_comm (a b : Q) : qmax a b == qmax b a.
Proof. qsolve. Qed.

Lemma qmin_comm (a b : Q) : qmin a b == qmin b a.
Proof. qsolve. Qed.

Lemma get_setting_nonneg (o : option Q) (d : Q) :
  opt_nonneg o -> 0 <= d -> 0 <= _get_setting o d.
Proof. destruct o; simpl; auto. Qed.

(** ** The mode and the value K *)

Lemma detect_mode_alpha (S : Settings) (items : list Item) (vehicle : Vehicle)
  (md : ModeDecision) :
  detect_mode S items vehicle = Ok md ->
  match alpha md with
  | Some a => mode_name md = mode_mixed /\ 1 # 5 <= a /\ a <= 4 # 5
  | None => mode_name md <> mode_mixed
  end.
Proof.
  unfold detect_mode. destruct items as [| i t].
  - intros H. inversion H; subst. simpl. split; [reflexivity | split; lra].
  - destruct (mode_totals (i :: t)) as [[tw tv] tf].
    repeat match goal with
    | |- context [div_checked ?a ?b] =>
        destruct (div_checked_cases a b) as [-> | ->]; cbn [bind]; [| discriminate]
    end.
    repeat match goal with
    | |- context [if ?b then _ else _] => destruct b
    end; intros H; inversion H; subst; cbn [alpha mode_name]; try discriminate.
    split; [reflexivity |]. split; qsolve.
Qed.

Lemma ratio_or_one_pos (it : Item) : 0 < ratio_or_one it.
Proof. unfold ratio_or_one. destruct (Qltb_spec 0 (item_ratio it)); lra. Qed.

Lemma qmax0_nonneg (a : Q) : 0 <= qmax 0 a.
Proof. qsolve. Qed.

Lemma item_volume_clamped_nonneg (it : Item) : 0 <= item_volume_clamped it.
Proof.
  unfold item_volume_clamped.
  repeat apply Qmult_le_0_compat; apply qmax0_nonneg.
Qed.

Lemma compute_k_nonneg (it : Item) (md : ModeDecision) :
  match alpha md with
  | Some a => 0 <= a /\ a <= 1
  | None => mode_name md <> mode_mixed
  end ->
  0 <= compute_k it md.
Proof.
  intros H. unfold compute_k.
  assert (Hr : 0 <= ratio_or_one it) by (pose proof (ratio_or_one_pos it); lra).
  assert (Hw := qmax0_nonneg (item_weight it)).
  assert (Hv := item_volume_clamped_nonneg it).
  assert (Pw : 0 <= qmax 0 (item_weight it) * ratio_or_one it)
    by (apply Qmult_le_0_compat; assumption).
  assert (Pv : 0 <= item_volume_clamped it * ratio_or_one it)
    by (apply Qmult_le_0_compat; assumption).
  destruct (mode_name md); [exact Pw | exact Pv |].
  destruct (alpha md) as [a |]; [| congruence].
  destruct H as [H0 H1].
  assert (0 <= a * (qmax 0 (item_weight it) * ratio_or_one it))
    by (apply Qmult_le_0_compat; assumption).
  assert (0 <= (1 - a) * (item_volume_clamped it * ratio_or_one it))
    by (apply Qmult_le_0_compat; [lra | assumption]).
  lra.
Qed.

(** ** Pruning *)

Lemma prune_aux_keeps (eps : Q) (l1 l2 : list Rect) (r : Rect) :
  forall before,
  (forall o, In o (before ++ l1 ++ l2) -> rect_contains o r eps = false) ->
  In r (prune_aux before (l1 ++ r :: l2) eps).
Proof.
  induction l1 as [| x t IH]; intros before H; simpl.
  - assert (E : existsb (fun other => rect_contains other r eps) (before ++ l2) = false).
    { destruct (existsb _ _) eqn:E; [| reflexivity].
      apply existsb_exists in E. destruct E as [o [Ho Hc]].
      rewrite (H o Ho) in Hc. discriminate. }
    rewrite E. now left.
  - assert (G : In r (prune_aux (before ++ [x]) (t ++ r :: l2) eps)).
    { apply IH. intros o Ho. apply H. rewrite <- app_assoc in Ho. exact Ho. }
    destruct (existsb _ _); [exact G | right; exact G].
Qed.

Lemma rect_contains_refl (r : Rect) (eps : Q) : 0 <= eps -> rect_contains r r eps = true.
Proof.
  intros H. unfold rect_contains.
  repeat match goal with
  | |- context [?x <=? ?y] => destruct (Qleb_spec x y)
  end; simpl; auto; exfalso; lra.
Qed.

Lemma nth_error_other (A : Type) (m1 m2 : list A) (r x : A) (i : nat) :
  nth_error (m1 ++ r :: m2) i = Some x -> i <> length m1 -> In x (m1 ++ m2).
Proof.
  intros H Hi. apply in_app_iff. destruct (Nat.lt_ge_cases i (length m1)) as [L | L].
  - left. rewrite nth_error_app1 in H by exact L. eapply nth_error_In; eauto.
  - right. rewrite nth_error_app2 in H by exact L.
    destruct (i - length m1)%nat as [| k] eqn:E; [lia |].
    simpl in H. eapply nth_error_In; eauto.
Qed.

Lemma nth_error_middle (A : Type) (l1 l2 : list A) (r : A) :
  nth_error (l1 ++ r :: l2) (length l1) = Some r.
Proof. rewrite nth_error_app2 by lia. rewrite Nat.sub_diag. reflexivity. Qed.

(** ** The queue order *)

Lemma key_lt_spec (a b : Z * Q) :
  key_lt a b = true <-> (fst a < fst b)%Z \/ (fst a = fst b /\ snd a < snd b).
Proof.
  unfold key_lt. destruct (Z.eqb_spec (fst a) (fst b)) as [E | E]; cbn [negb].
  - destruct (Qltb_spec (snd a) (snd b)) as [L | L]; split; intros G; auto;
      try discriminate.
    destruct G as [G | [_ G]]; [lia | contradiction].
  - destruct (Z.ltb_spec (fst a) (fst b)) as [L | L]; split; intros G; auto;
      try discriminate.
    destruct G as [G | [G _]]; [lia | contradiction].
Qed.

Lemma key_le_spec (a b : Z * Q) :
  key_le a b <-> (fst a < fst b)%Z \/ (fst a = fst b /\ snd a <= snd b).
Proof.
  unfold key_le. destruct (key_lt b a) eqn:E.
  - apply key_lt_spec in E. split; [discriminate |].
    intros [H | [H1 H2]]; destruct E as [E | [E1 E2]]; try lia; lra.
  - split; [intros _ | reflexivity].
    assert (N : ~ ((fst b < fst a)%Z \/ (fst b = fst a /\ snd b < snd a))).
    { intros H. apply key_lt_spec in H. congruence. }
    destruct (Z.lt_trichotomy (fst a) (fst b)) as [H | [H | H]]; [auto | | tauto].
    right. split; [exact H |]. destruct (Qlt_le_dec (snd b) (snd a)); [| assumption].
    exfalso. apply N. right. split; [lia | assumption].
Qed.

Lemma key_le_trans (a b c : Z * Q) : key_le a b -> key_le b c -> key_le a c.
Proof.
  rewrite !key_le_spec. intros [H | [H1 H2]] [G | [G1 G2]]; try (left; lia).
  right. split; [lia | lra].
Qed.

Lemma queue_key_eqb_spec (a b : Z * Q) : queue_key_eqb a b = true <-> key_eq a b.
Proof.
  unfold queue_key_eqb, key_eq. rewrite andb_true_iff, Z.eqb_eq, Qeq_bool_iff. tauto.
Qed.

Section SortByKey.
Variable key : Item -> Z * Q.

Lemma insert_by_key_perm (x : Item) (l : list Item) :
  Permutation (insert_by_key key x l) (x :: l).
Proof.
  induction l as [| y t IH]; simpl; [reflexivity |].
  destruct (key_lt (key x) (key y)); [reflexivity |].
  rewrite IH. apply perm_swap.
Qed.

Lemma insert_by_key_sorted (x : Item) (l : list Item) :
  StronglySorted (key_ordered key) l -> StronglySorted (key_ordered key) (insert_by_key key x l).
Proof.
  induction l as [| y t IH]; intros Hs; simpl.
  - constructor; constructor.
  - inversion Hs as [| y' t' Ht Hy]; subst.
    destruct (key_lt (key x) (key y)) eqn:E.
    + constructor; [exact Hs |]. constructor.
      * unfold key_ordered. apply key_le_spec. apply key_lt_spec in E.
        destruct E as [E | [E1 E2]]; [left; lia | right; split; [lia | lra]].
      * rewrite Forall_forall in Hy |- *. intros z Hz. unfold key_ordered.
        apply key_le_trans with (b := key y); [| apply Hy; exact Hz].
        apply key_le_spec. apply key_lt_spec in E.
        destruct E as [E | [E1 E2]]; [left; lia | right; split; [lia | lra]].
    + constructor; [apply IH; exact Ht |].
      rewrite Forall_forall in Hy |- *. intros z Hz.
      apply insert_by_key_In in Hz. destruct Hz as [-> | Hz]; [| apply Hy; exact Hz].
      exact E.
Qed.

Lemma sort_by_key_snoc (l : list Item) (x : Item) :
  sort_by_key key (l ++ [x]) = insert_by_key key x (sort_by_key key l).
Proof. unfold sort_by_key. rewrite fold_left_app. reflexivity. Qed.

Lemma sort_by_key_perm (l : list Item) : Permutation (sort_by_key key l) l.
Proof.
  induction l as [| x t IH] using rev_ind; [reflexivity |].
  rewrite sort_by_key_snoc, insert_by_key_perm, IH.
  apply Permutation_cons_append.
Qed.

Lemma sort_by_key_sorted (l : list Item) : StronglySorted (key_ordered key) (sort_by_key key l).
Proof.
  induction l as [| x t IH] using rev_ind; [constructor |].
  rewrite sort_by_key_snoc. apply insert_by_key_sorted. exact IH.
Qed.

Lemma insert_by_key_filter (k : Z * Q) (x : Item) (l : list Item) :
  StronglySorted (key_ordered key) l ->
  filter (fun y => queue_key_eqb (key y) k) (insert_by_key key x l)
  = filter (fun y => queue_key_eqb (key y) k) l
    ++ (if queue_key_eqb (key x) k then [x] else []).
Proof.
  induction l as [| y t IH]; intros Hs; simpl.
  - reflexivity.
  - inversion Hs as [| y' t' Ht Hy]; subst.
    destruct (key_lt (key x) (key y)) eqn:E.
    + cbn [filter]. destruct (queue_key_eqb (key x) k) eqn:Ex.
      * assert (N : forall z, In z (y :: t) -> queue_key_eqb (key z) k = false).
        { intros z Hz. destruct (queue_key_eqb (key z) k) eqn:Ez; [| reflexivity].
          exfalso. apply queue_key_eqb_spec in Ex, Ez.
          destruct Ex as [X1 X2], Ez as [Z1 Z2].
          assert (Lz : key_ordered key y z).
          { destruct Hz as [-> | Hz]; [apply key_le_spec; right; split; [reflexivity | lra] |].
            rewrite Forall_forall in Hy. apply Hy. exact Hz. }
          unfold key_ordered in Lz. apply key_le_spec in Lz. apply key_lt_spec in E.
          destruct E as [E | [E1 E2]], Lz as [Lz | [L1 L2]]; try lia; lra. }
        assert (F : filter (fun y0 => queue_key_eqb (key y0) k) (y :: t) = []).
        { clear - N. induction (y :: t) as [| z r IHr]; [reflexivity |]. simpl.
          rewrite (N z (or_introl eq_refl)). apply IHr. intros w Hw. apply N. now right. }
        cbn [filter] in F. rewrite F. reflexivity.
      * rewrite app_nil_r. reflexivity.
    + cbn [filter]. rewrite (IH Ht).
      destruct (queue_key_eqb (key y) k); reflexivity.
Qed.

Lemma sort_by_key_stable (k : Z * Q) (l : list Item) :
  filter (fun y => queue_key_eqb (key y) k) (sort_by_key key l)
  = filter (fun y => queue_key_eqb (key y) k) l.
Proof.
  induction l as [| x t IH] using rev_ind; [reflexivity |].
  rewrite sort_by_key_snoc, insert_by_key_filter by apply sort_by_key_sorted.
  rewrite IH, filter_app. reflexivity.
Qed.
End SortByKey.

(** ** Packs and groups *)

Lemma tag_packs_app (packs1 packs2 : list (list Candidate)) :
  forall n, tag_packs n (packs1 ++ packs2)
            = tag_packs n packs1 ++ tag_packs (n + length packs1) packs2.
Proof.
  induction packs1 as [| p t IH]; intros n; simpl.
  - rewrite Nat.add_0_r. reflexivity.
  - rewrite IH, <- app_assoc. replace (S n + length t)%nat with (n + S (length t))%nat by lia.
    reflexivity.
Qed.

Lemma number_packs_app (packs1 packs2 : list (list Candidate)) :
  forall n, number_packs n (packs1 ++ packs2)
            = number_packs n packs1 ++ number_packs (n + length packs1) packs2.
Proof.
  induction packs1 as [| p t IH]; intros n; simpl.
  - rewrite Nat.add_0_r. reflexivity.
  - rewrite IH. replace (S n + length t)%nat with (n + S (length t))%nat by lia.
    reflexivity.
Qed.

Lemma assign_packs_tag (packs : list (list Candidate)) :
  forall st : list Candidate * nat,
  assign_packs packs st = (fst st ++ tag_packs (snd st) packs, (snd st + length packs)%nat).
Proof.
  unfold assign_packs. induction packs as [| p t IH]; intros [out n]; simpl.
  - rewrite app_nil_r, Nat.add_0_r. reflexivity.
  - rewrite IH. simpl. rewrite <- app_assoc. f_equal. lia.
Qed.

Lemma fold_anchors_tag (gen : Q -> list (list Candidate)) (zs : list Q) :
  forall st : list Candidate * nat,
  fold_left (fun st z0 => assign_packs (gen z0) st) zs st
  = (fst st ++ tag_packs (snd st) (flat_map gen zs),
     (snd st + length (flat_map gen zs))%nat).
Proof.
  induction zs as [| z0 rest IH]; intros [out n]; simpl.
  - rewrite app_nil_r, Nat.add_0_r. reflexivity.
  - rewrite IH, assign_packs_tag. cbn [fst snd].
    rewrite tag_packs_app, length_app, <- app_assoc. f_equal. lia.
Qed.

Lemma patterns_for_rect_tag (std_items big_140 : list Item) (r : Rect)
  (st : list Candidate * nat) :
  patterns_for_rect std_items big_140 st r
  = (fst st ++ tag_packs (snd st) (packs_for_rect std_items big_140 r),
     (snd st + length (packs_for_rect std_items big_140 r))%nat).
Proof.
  unfold patterns_for_rect, packs_for_rect.
  rewrite (fold_anchors_tag (fun z0 => gen_3across r std_items z0 "scan")).
  rewrite (fold_anchors_tag (fun z0 => gen_140plus80 r big_140 std_items z0 "scan")).
  rewrite (fold_anchors_tag (fun z0 => gen_3plus2 r std_items z0 "scan")).
  rewrite (fold_anchors_tag (fun z0 => gen_zigzag r std_items z0 "scan")).
  cbn [fst snd]. rewrite !tag_packs_app, !length_app, <- !app_assoc, !Nat.add_assoc.
  f_equal.
Qed.

Lemma fold_rects_tag (std_items big_140 : list Item) (rs : list Rect) :
  forall st : list Candidate * nat,
  fold_left (patterns_for_rect std_items big_140) rs st
  = (fst st ++ tag_packs (snd st) (flat_map (packs_for_rect std_items big_140) rs),
     (snd st + length (flat_map (packs_for_rect std_items big_140) rs))%nat).
Proof.
  induction rs as [| r t IH]; intros [out n]; simpl.
  - rewrite app_nil_r, Nat.add_0_r. reflexivity.
  - rewrite IH, patterns_for_rect_tag. cbn [fst snd].
    rewrite tag_packs_app, length_app, <- app_assoc. f_equal. lia.
Qed.

(** The candidate list is the tagged packs followed by the singles. *)
Lemma generate_floor_candidates_split (fr : FreeRects) (items_subset : list Item) :
  generate_floor_candidates fr items_subset
  = tag_packs 0 (generated_packs fr items_subset) ++ generated_singles fr items_subset.
Proof.
  unfold generate_floor_candidates, generated_packs, generated_singles. cbv zeta.
  rewrite fold_rects_tag. reflexivity.
Qed.

Lemma pattern_pid_inj (n m : nat) : pattern_pid n = pattern_pid m -> n = m.
Proof.
  unfold pattern_pid. intros H. simpl in H. inversion H as [E].
  apply Unsigned.to_uint_inj.
  assert (G : Some (Nat.to_uint n) = Some (Nat.to_uint m))
    by (rewrite <- !NilEmpty.usu, E; reflexivity).
  now inversion G.
Qed.

Lemma pattern_id_of_set (c : Candidate) (n : nat) :
  pattern_id_of (set_patternId c (pattern_pid n)) = Some (pattern_pid n).
Proof. reflexivity. Qed.

Lemma group_append_new (groups : list (string * list Candidate)) (pid : string)
  (c : Candidate) :
  ~ In pid (map fst groups) -> group_append groups pid c = groups ++ [(pid, [c])].
Proof.
  induction groups as [| [k g] rest IH]; intros H; simpl; [reflexivity |].
  destruct (String.eqb_spec k pid) as [E | E].
  - exfalso. apply H. now left.
  - rewrite IH; [reflexivity |]. intros G. apply H. now right.
Qed.

Lemma group_append_last (groups : list (string * list Candidate)) (pid : string)
  (g : list Candidate) (c : Candidate) :
  ~ In pid (map fst groups) ->
  group_append (groups ++ [(pid, g)]) pid c = groups ++ [(pid, g ++ [c])].
Proof.
  induction groups as [| [k g0] rest IH]; intros H; simpl.
  - rewrite String.eqb_refl. reflexivity.
  - destruct (String.eqb_spec k pid) as [E | E].
    + exfalso. apply H. now left.
    + rewrite IH; [reflexivity |]. intros G. apply H. now right.
Qed.

Lemma group_fold_same (groups : list (string * list Candidate)) (n : nat)
  (cs : list Candidate) :
  ~ In (pattern_pid n) (map fst groups) ->
  forall g,
  fold_left group_step (_assign_pattern_id cs (pattern_pid n)) (groups ++ [(pattern_pid n, g)])
  = groups ++ [(pattern_pid n, g ++ _assign_pattern_id cs (pattern_pid n))].
Proof.
  intros H. induction cs as [| c t IH]; intros g; simpl.
  - rewrite app_nil_r. reflexivity.
  - unfold group_step at 2. rewrite pattern_id_of_set, group_append_last by exact H.
    unfold _assign_pattern_id in IH. rewrite IH, <- app_assoc. reflexivity.
Qed.

Lemma group_fold_pack (groups : list (string * list Candidate)) (n : nat)
  (pack : list Candidate) :
  ~ In (pattern_pid n) (map fst groups) -> pack <> [] ->
  fold_left group_step (_assign_pattern_id pack (pattern_pid n)) groups
  = groups ++ [(pattern_pid n, _assign_pattern_id pack (pattern_pid n))].
Proof.
  intros H Hne. destruct pack as [| c t]; [congruence |]. simpl.
  unfold group_step at 2. rewrite pattern_id_of_set, group_append_new by exact H.
  apply (@group_fold_same groups n t H [set_patternId c (pattern_pid n)]).
Qed.

Lemma number_packs_keys (packs : list (list Candidate)) :
  forall n k, In k (map fst (number_packs n packs)) ->
  exists j, (n <= j < n + length packs)%nat /\ k = pattern_pid j.
Proof.
  induction packs as [| p t IH]; intros n k H; simpl in H; [destruct H |].
  destruct H as [<- | H].
  - exists n. simpl. split; [lia | reflexivity].
  - destruct (IH _ _ H) as [j [Hj ->]]. exists j. simpl. split; [lia | reflexivity].
Qed.

Lemma group_fold_packs (packs : list (list Candidate)) :
  forall (n : nat) (groups : list (string * list Candidate)),
  (forall k, In k (map fst groups) -> exists j, (j < n)%nat /\ k = pattern_pid j) ->
  Forall (fun pack => pack <> []) packs ->
  fold_left group_step (tag_packs n packs) groups = groups ++ number_packs n packs.
Proof.
  induction packs as [| p t IH]; intros n groups Hk Hne; simpl.
  - rewrite app_nil_r. reflexivity.
  - inversion Hne as [| p' t' Hp Ht]; subst.
    rewrite fold_left_app, group_fold_pack; [| | exact Hp].
    + rewrite IH; [rewrite <- app_assoc; reflexivity | | exact Ht].
      intros k Hin. rewrite map_app in Hin. apply in_app_iff in Hin.
      destruct Hin as [Hin | [<- | []]].
      * destruct (Hk k Hin) as [j [Hj ->]]. exists j. split; [lia | reflexivity].
      * exists n. split; [lia | reflexivity].
    + intros Hin. destruct (Hk _ Hin) as [j [Hj E]]. apply pattern_pid_inj in E. lia.
Qed.

Lemma group_fold_singles (cs : list Candidate) (groups : list (string * list Candidate)) :
  Forall (fun c => pattern_id_of c = None) cs ->
  fold_left group_step cs groups = groups.
Proof.
  revert groups. induction cs as [| c t IH]; intros groups H; simpl; [reflexivity |].
  inversion H as [| c' t' Hc Ht]; subst. unfold group_step at 2. rewrite Hc.
  apply IH. exact Ht.
Qed.

Lemma generated_singles_no_pattern (fr : FreeRects) (items_subset : list Item) :
  Forall (fun c => pattern_id_of c = None) (generated_singles fr items_subset).
Proof.
  unfold generated_singles. apply Forall_forall. intros c Hc.
  apply in_flat_map in Hc. destruct Hc as [it [_ Hc]].
  apply in_flat_map in Hc. destruct Hc as [rot [_ Hc]].
  unfold single_candidates_for in Hc. destruct (dims_for_rot it rot) as [dx dz].
  apply in_flat_map in Hc. destruct Hc as [r [_ Hc]]. destruct r as [a b c0 d].
  destruct (_ <? _); [destruct Hc |]. destruct (_ <? _); [destruct Hc |].
  apply in_map_iff in Hc. destruct Hc as [[ax az] [<- _]]. reflexivity.
Qed.

Lemma group_pattern_candidates_fold (cands : list Candidate) :
  _group_pattern_candidates cands = fold_left group_step cands [].
Proof. reflexivity. Qed.

(** ** The members of a pack *)

Lemma pick_length (items : list Item) (idxs : list nat) :
  forallb (fun i => Nat.ltb i (length items)) idxs = true ->
  length (pick items idxs) = length idxs.
Proof.
  induction idxs as [| i rest IH]; simpl; [reflexivity |].
  intros H. apply andb_true_iff in H. destruct H as [Hi Hr].
  apply Nat.ltb_lt in Hi. destruct (nth_error items i) eqn:E.
  - simpl. rewrite IH; auto.
  - apply nth_error_None in E. lia.
Qed.

Lemma pick_ids_NoDup (items : list Item) (idxs : list nat) :
  NoDup (map item_id items) -> NoDup idxs ->
  NoDup (map item_id (pick items idxs)).
Proof.
  intros Hn. induction idxs as [| i rest IH]; intros Hi; simpl; [constructor |].
  inversion Hi as [| i' r' Hnot Hrest]; subst.
  destruct (nth_error items i) as [it |] eqn:E; [| apply IH; exact Hrest].
  simpl. constructor; [| apply IH; exact Hrest].
  intros Hin. apply Hnot. clear IH Hi Hrest Hnot.
  induction rest as [| j r IHr]; simpl in Hin; [destruct Hin |].
  destruct (nth_error items j) as [it' |] eqn:E'; [| right; apply IHr; exact Hin].
  simpl in Hin. destruct Hin as [Hid | Hin]; [| right; apply IHr; exact Hin].
  left. symmetry.
  assert (L : (i < length (map item_id items))%nat).
  { rewrite length_map. apply nth_error_Some. congruence. }
  apply (proj1 (NoDup_nth_error (map item_id items)) Hn i j L).
  rewrite !nth_error_map, E, E'. simpl. congruence.
Qed.

Lemma variants_loop_pick (cap : nat) (items : list Item) (idx_sets : list (list nat)) :
  forall (seen : list (list nat)) (out : list (list Item)) (v : list Item),
  In v (variants_loop cap items idx_sets seen out) ->
  In v out \/
  exists idxs, In idxs idx_sets /\
    forallb (fun i => Nat.ltb i (length items)) idxs = true /\ v = pick items idxs.
Proof.
  induction idx_sets as [| idxs rest IH]; intros seen out v H; simpl in H; [now left |].
  destruct (forallb (fun i => Nat.ltb i (length items)) idxs) eqn:F.
  - destruct (existsb _ seen).
    + destruct (IH _ _ _ H) as [G | [ix [G1 G2]]]; [now left |].
      right. exists ix. split; [now right | exact G2].
    + assert (K : In v (out ++ [pick items idxs]) ->
                  In v out \/ exists ix, In ix (idxs :: rest) /\
                    forallb (fun i => Nat.ltb i (length items)) ix = true /\
                    v = pick items ix).
      { intros G. apply in_app_iff in G. destruct G as [G | [<- | []]]; [now left |].
        right. exists idxs. split; [now left | split; [exact F | reflexivity]]. }
      destruct (Nat.leb cap (length (out ++ [pick items idxs]))); [now apply K |].
      destruct (IH _ _ _ H) as [G | [ix [G1 G2]]]; [now apply K |].
      right. exists ix. split; [now right | exact G2].
  - destruct (Nat.leb cap (length out)); [now left |].
    destruct (IH _ _ _ H) as [G | [ix [G1 G2]]]; [now left |].
    right. exists ix. split; [now right | exact G2].
Qed.

Lemma variants_take3_pick (items : list Item) (v : list Item) :
  In v (_variants_take3 items) ->
  length v = 3%nat /\ (NoDup (map item_id items) -> NoDup (map item_id v)).
Proof.
  unfold _variants_take3. destruct (Nat.ltb (length items) 3); [intros []|].
  intros H. apply variants_loop_pick in H. destruct H as [[] | [idxs [Hi [Hf ->]]]].
  assert (K : length idxs = 3%nat /\ NoDup idxs).
  { destruct (Nat.leb 4 (length items)), (Nat.leb 5 (length items)); simpl in Hi;
      repeat (destruct Hi as [<- | Hi]; [split; [reflexivity | repeat constructor; simpl; intuition lia] |]);
      destruct Hi. }
  destruct K as [K1 K2]. split.
  - rewrite pick_length; assumption.
  - intros Hn. apply pick_ids_NoDup; assumption.
Qed.

Lemma variants_take5_pick (items : list Item) (v : list Item) :
  In v (_variants_take5 items) ->
  length v = 5%nat /\ (NoDup (map item_id items) -> NoDup (map item_id v)).
Proof.
  unfold _variants_take5. destruct (Nat.ltb (length items) 5); [intros []|].
  intros H. apply variants_loop_pick in H. destruct H as [[] | [idxs [Hi [Hf ->]]]].
  assert (K : length idxs = 5%nat /\ NoDup idxs).
  { destruct (Nat.leb 6 (length items)), (Nat.leb 7 (length items)); simpl in Hi;
      repeat (destruct Hi as [<- | Hi]; [split; [reflexivity | repeat constructor; simpl; intuition lia] |]);
      destruct Hi. }
  destruct K as [K1 K2]. split.
  - rewrite pick_length; assumption.
  - intros Hn. apply pick_ids_NoDup; assumption.
Qed.

Lemma pattern_row_ids (kind : string) (mk_meta : nat -> Meta) (minX y zc : Q)
  (want_w want_l max_dx max_dz slot_w : Q) (row : list Item) :
  forall (j : nat) (pack : list Candidate),
  pattern_row kind mk_meta minX y zc want_w want_l max_dx max_dz slot_w j row = Some pack ->
  map c_itemId pack = map item_id row.
Proof.
  induction row as [| it rest IH]; intros j pack H; simpl in H.
  - inversion H. reflexivity.
  - destruct (dims_for_rot it (_rot_for it want_w want_l)) as [dx dz] eqn:D.
    destruct ((max_dx <? dx) || (max_dz <? dz)); [discriminate |].
    destruct (pattern_row kind mk_meta minX y zc want_w want_l max_dx max_dz slot_w (S j) rest)
      as [pack' |] eqn:E; [| discriminate].
    inversion H; subst. simpl. rewrite (IH _ _ E). f_equal.
    unfold _build_candidate. rewrite D. reflexivity.
Qed.

Lemma NoDup_map_In_inj (A B : Type) (f : A -> B) (l : list A) (a b : A) :
  NoDup (map f l) -> In a l -> In b l -> f a = f b -> a = b.
Proof.
  induction l as [| x t IH]; intros Hn Ha Hb E; [destruct Ha |].
  simpl in Hn. inversion Hn as [| x' t' Hx Ht]; subst.
  destruct Ha as [-> | Ha], Hb as [-> | Hb]; auto.
  - exfalso. apply Hx. rewrite E. now apply in_map.
  - exfalso. apply Hx. rewrite <- E. now apply in_map.
Qed.

Lemma keys_filter_NoDup (A B : Type) (key : A -> B) (keep : A -> bool) (items : list A) :
  NoDup (map key items) -> NoDup (map key (filter keep items)).
Proof.
  intros Hn. induction items as [| x t IH]; [constructor |].
  cbn [map] in Hn. apply NoDup_cons_iff in Hn. destruct Hn as [Hx Ht].
  cbn [filter]. destruct (keep x); [| exact (IH Ht)].
  cbn [map]. apply NoDup_cons; [| exact (IH Ht)].
  intros Hin. apply Hx. apply in_map_iff in Hin. destruct Hin as [y [E Hy]].
  apply filter_In in Hy. rewrite <- E. apply in_map. tauto.
Qed.

Lemma NoDup_map_firstn (A B : Type) (f : A -> B) (n : nat) (l : list A) :
  NoDup (map f l) -> NoDup (map f (firstn n l)).
Proof.
  revert n. induction l as [| x t IH]; intros [| n] Hn; simpl; try constructor.
  - inversion Hn as [| x' t' Hx Ht]; subst. intros Hin. apply Hx.
    apply in_map_iff in Hin. destruct Hin as [y [E Hy]]. rewrite <- E. apply in_map.
    eapply firstn_In; eauto.
  - inversion Hn; subst. auto.
Qed.

Lemma Qleb_true (x y : Q) : (x <=? y) = true -> x <= y.
Proof. destruct (Qleb_spec x y); [auto | discriminate]. Qed.

Lemma Qltb_true (x y : Q) : (x <? y) = true -> x < y.
Proof. destruct (Qltb_spec x y); [auto | discriminate]. Qed.

Lemma Qltb_false (x y : Q) : (x <? y) = false -> y <= x.
Proof. destruct (Qltb_spec x y); [discriminate | lra]. Qed.

Lemma Qleb_false (x y : Q) : (x <=? y) = false -> y < x.
Proof. destruct (Qleb_spec x y); [discriminate | lra]. Qed.

Lemma std_is_not_140 (it : Item) :
  is_std_80x120 it (3 # 100) = true -> is_140x120 it (3 # 100) = false.
Proof.
  intros H. destruct (is_140x120 it (3 # 100)) eqn:E; [exfalso | reflexivity].
  unfold is_std_80x120, is_140x120, close_to in *.
  apply orb_true_iff in H, E. rewrite !andb_true_iff in H, E.
  destruct H as [[H1 H2] | [H1 H2]], E as [[G1 G2] | [G1 G2]];
    apply Qleb_true in H1, H2, G1, G2; qcases; lra.
Qed.

Lemma pack_of_members (pool members : list Item) (pack : list Candidate) :
  map c_itemId pack = map item_id members ->
  (forall it, In it members -> In it pool) ->
  (length members = 2 \/ length members = 3 \/ length members = 5)%nat ->
  (NoDup (map item_id pool) -> NoDup (map item_id members)) ->
  pack_of_pool pool pack.
Proof.
  intros E Hin Hl Hn. unfold pack_of_pool.
  assert (L : length pack = length members).
  { rewrite <- (length_map c_itemId), E, length_map. reflexivity. }
  split; [rewrite L; exact Hl |]. split.
  - intros c Hc. apply (in_map c_itemId) in Hc. rewrite E in Hc.
    apply in_map_iff in Hc. destruct Hc as [it [Hid Hit]]. exists it. auto.
  - intros Hp. rewrite E. auto.
Qed.

Section PacksOfPool.
Variable pool : list Item.

Lemma std_pool_In (it : Item) : In it (_top (std_items_of pool) MAX_PREFIX_STD) -> In it pool.
Proof. intros H. apply top_In in H. unfold std_items_of in H. apply filter_In in H. tauto. Qed.

Lemma std_pool_NoDup :
  NoDup (map item_id pool) -> NoDup (map item_id (_top (std_items_of pool) MAX_PREFIX_STD)).
Proof. intros H. unfold _top, std_items_of. apply NoDup_map_firstn. apply keys_filter_NoDup. exact H. Qed.

Lemma gen_3across_pack (rect : Rect) (z_anchor : Q) (pid : string) (pack : list Candidate) :
  In pack (gen_3across rect (std_items_of pool) z_anchor pid) -> pack_of_pool pool pack.
Proof.
  unfold gen_3across. destruct rect as [minX maxX minZ maxZ].
  destruct (_ || _); [simpl; tauto |].
  destruct (Nat.ltb _ 3); [simpl; tauto |].
  intros H. apply in_flat_map in H. destruct H as [trio [Ht H]].
  match type of H with In _ (match ?e with _ => _ end) => destruct e as [pack' |] eqn:E end;
    [| destruct H].
  destruct H as [<- | []]. apply pattern_row_ids in E.
  destruct (variants_take3_pick _ _ Ht) as [L N].
  apply (@pack_of_members pool trio pack' E).
  - intros it Hi. apply std_pool_In. eapply variants_take3_In; eauto.
  - rewrite L. auto.
  - intros Hp. apply N. apply std_pool_NoDup. exact Hp.
Qed.

Lemma two_rows_pack (five : list Item) (n : nat)
  (kind : string) (meta1 meta2 : nat -> Meta) (minX y zc1 zc2 : Q)
  (w1 l1 mx1 mz1 s1 w2 l2 mx2 mz2 s2 : Q) (pack : list Candidate) :
  In five (_variants_take5 (_top (std_items_of pool) MAX_PREFIX_STD)) ->
  In pack (match pattern_row kind meta1 minX y zc1 w1 l1 mx1 mz1 s1 0 (firstn n five) with
           | None => []
           | Some pack1 =>
               match pattern_row kind meta2 minX y zc2 w2 l2 mx2 mz2 s2 0 (skipn n five) with
               | None => []
               | Some pack2 => [pack1 ++ pack2]
               end
           end) ->
  pack_of_pool pool pack.
Proof.
  intros Ht H.
  destruct (pattern_row kind meta1 minX y zc1 w1 l1 mx1 mz1 s1 0 (firstn n five))
    as [p1 |] eqn:E1; [| destruct H].
  destruct (pattern_row kind meta2 minX y zc2 w2 l2 mx2 mz2 s2 0 (skipn n five))
    as [p2 |] eqn:E2; [| destruct H].
  destruct H as [<- | []]. apply pattern_row_ids in E1, E2.
  destruct (variants_take5_pick _ _ Ht) as [L N].
  apply (@pack_of_members pool five (p1 ++ p2)).
  - rewrite map_app, E1, E2, <- map_app, firstn_skipn. reflexivity.
  - intros it Hi. apply std_pool_In. eapply variants_take5_In; eauto.
  - rewrite L. auto.
  - intros Hp. apply N. apply std_pool_NoDup. exact Hp.
Qed.

Lemma gen_3plus2_pack (rect : Rect) (z_anchor : Q) (pid : string) (pack : list Candidate) :
  In pack (gen_3plus2 rect (std_items_of pool) z_anchor pid) -> pack_of_pool pool pack.
Proof.
  unfold gen_3plus2. destruct rect as [minX maxX minZ maxZ].
  destruct (_ || _); [simpl; tauto |].
  destruct (Nat.ltb _ 5); [simpl; tauto |].
  intros H. apply in_flat_map in H. destruct H as [five [Ht H]].
  eapply two_rows_pack; [exact Ht | exact H].
Qed.

Lemma gen_zigzag_pack (rect : Rect) (z_anchor : Q) (pid : string) (pack : list Candidate) :
  In pack (gen_zigzag rect (std_items_of pool) z_anchor pid) -> pack_of_pool pool pack.
Proof.
  unfold gen_zigzag. destruct rect as [minX maxX minZ maxZ].
  destruct (_ || _); [simpl; tauto |].
  destruct (Nat.ltb _ 5); [simpl; tauto |].
  intros H. apply in_flat_map in H. destruct H as [five [Ht H]].
  eapply two_rows_pack; [exact Ht | exact H].
Qed.

Lemma pair_pack (bi si : Item) (xb xs y zc : Q) (rot_b rot_s : Z) (kind : string)
  (meta_b meta_s : Meta) :
  In bi (big_140_of pool) -> In si (std_items_of pool) ->
  pack_of_pool pool [_build_candidate bi xb y zc rot_b kind meta_b;
                     _build_candidate si xs y zc rot_s kind meta_s].
Proof.
  intros Hb Hs. unfold big_140_of in Hb. unfold std_items_of in Hs. apply filter_In in Hb, Hs. destruct Hb as [Hb Tb], Hs as [Hs Ts].
  apply (@pack_of_members pool [bi; si]).
  - simpl. unfold _build_candidate.
    destruct (dims_for_rot bi rot_b), (dims_for_rot si rot_s). reflexivity.
  - intros it [<- | [<- | []]]; assumption.
  - simpl. auto.
  - intros Hn. simpl. constructor; [| constructor; [simpl; tauto | constructor]].
    intros [E | []]. assert (bi = si) by (eapply NoDup_map_In_inj; eauto). subst.
    apply std_is_not_140 in Ts. congruence.
Qed.

Lemma gen_140_inner_pack (rect : Rect) (rect_w zc z0 y : Q) (pid : string)
  (bi : Item) (bi_idx : nat) (rot_b : Z) (dx_b : Q) (std_pool : list Item) :
  In bi (big_140_of pool) -> (forall it, In it std_pool -> In it (std_items_of pool)) ->
  forall (si_idx : nat) (st : Gen140State),
  Forall (pack_of_pool pool) (g_out st) ->
  Forall (pack_of_pool pool)
    (g_out (gen_140_inner rect rect_w zc z0 y pid bi bi_idx rot_b dx_b si_idx std_pool st)).
Proof.
  intros Hb. induction std_pool as [| si rest IH]; intros Hs si_idx st Hst; simpl; auto.
  assert (Hrest : forall it, In it rest -> In it (std_items_of pool)) by (intros; apply Hs; now right).
  destruct (dims_for_rot si (_rot_for si (4 # 5) (6 # 5))) as [dx_s dz_s].
  destruct (_ || _); [now apply IH |].
  destruct (_ <? _); [now apply IH |].
  match goal with |- context [g_out st ++ [?pk]] =>
    assert (Hnew : Forall (pack_of_pool pool) (g_out st ++ [pk]))
  end.
  { apply Forall_app. split; auto. constructor; [| constructor].
    apply pair_pack; auto. apply Hs. now left. }
  match goal with |- context [if ?c then _ else _] => destruct c end;
    [exact Hnew | apply IH; auto].
Qed.

Lemma gen_140_outer_pack (rect : Rect) (rect_w zc z0 y : Q) (pid : string)
  (std_pool big_pool : list Item) :
  (forall it, In it big_pool -> In it (big_140_of pool)) ->
  (forall it, In it std_pool -> In it (std_items_of pool)) ->
  forall (bi_idx : nat) (st : Gen140State),
  Forall (pack_of_pool pool) (g_out st) ->
  Forall (pack_of_pool pool)
    (g_out (gen_140_outer rect rect_w zc z0 y pid std_pool bi_idx big_pool st)).
Proof.
  intros Hb Hs. induction big_pool as [| bi rest IH]; intros bi_idx st Hst; simpl; auto.
  assert (Hrest : forall it, In it rest -> In it (big_140_of pool)) by (intros; apply Hb; now right).
  destruct (dims_for_rot bi (_rot_for bi (7 # 5) (6 # 5))) as [dx_b dz_b].
  destruct (_ || _); [now apply IH |].
  match goal with |- context [gen_140_inner ?r ?w ?zc ?z0 ?y0 ?p ?b ?bi' ?rot ?dx 0 ?sp ?s0] =>
    assert (Hin : Forall (pack_of_pool pool)
                    (g_out (gen_140_inner r w zc z0 y0 p b bi' rot dx 0 sp s0)))
      by (apply gen_140_inner_pack; auto; apply Hb; now left);
    destruct (g_returned (gen_140_inner r w zc z0 y0 p b bi' rot dx 0 sp s0)); auto
  end.
Qed.

Lemma gen_140plus80_pack (rect : Rect) (z_anchor : Q) (pid : string) (pack : list Candidate) :
  In pack (gen_140plus80 rect (big_140_of pool) (std_items_of pool) z_anchor pid) -> pack_of_pool pool pack.
Proof.
  unfold gen_140plus80. destruct rect as [minX maxX minZ maxZ].
  destruct (_ || _); [simpl; tauto |].
  destruct (_top (big_140_of pool) MAX_PREFIX_BIG) as [| b0 bt] eqn:Eb; [simpl; tauto |].
  destruct (_top (std_items_of pool) MAX_PREFIX_STD) as [| s0 stl] eqn:Es; [simpl; tauto |].
  intros H.
  match type of H with In _ (g_out ?e) =>
    assert (G : Forall (pack_of_pool pool) (g_out e))
  end.
  { apply gen_140_outer_pack; simpl; auto.
    - intros it Hi. eapply top_In. rewrite Eb. exact Hi.
    - intros it Hi. eapply top_In. rewrite Es. exact Hi. }
  rewrite Forall_forall in G. now apply G.
Qed.

Lemma packs_for_rect_pack (r : Rect) (pack : list Candidate) :
  In pack (packs_for_rect (std_items_of pool) (big_140_of pool) r) -> pack_of_pool pool pack.
Proof.
  unfold packs_for_rect. rewrite !in_app_iff, !in_flat_map.
  intros [[z [_ H]] | [[z [_ H]] | [[z [_ H]] | [z [_ H]]]]].
  - eapply gen_3across_pack; eauto.
  - eapply gen_140plus80_pack; eauto.
  - eapply gen_3plus2_pack; eauto.
  - eapply gen_zigzag_pack; eauto.
Qed.
End PacksOfPool.

Lemma generated_packs_pack (fr : FreeRects) (pool : list Item) (pack : list Candidate) :
  In pack (generated_packs fr pool) -> pack_of_pool pool pack.
Proof.
  unfold generated_packs. cbv zeta. intros H. apply in_flat_map in H.
  destruct H as [r [_ H]]. exact (@packs_for_rect_pack pool r pack H).
Qed.

Lemma number_packs_In (packs : list (list Candidate)) :
  forall n pid group,
  In (pid, group) (number_packs n packs) ->
  exists j pack, nth_error packs j = Some pack /\ pid = pattern_pid (n + j) /\
                 group = _assign_pattern_id pack pid.
Proof.
  induction packs as [| p t IH]; intros n pid group H; simpl in H; [destruct H |].
  destruct H as [E | H].
  - inversion E; subst. exists 0%nat, p. rewrite Nat.add_0_r. auto.
  - destruct (IH _ _ _ H) as [j [pack [Hj [-> ->]]]]. exists (S j), pack.
    replace (n + S j)%nat with (S n + j)%nat by lia. auto.
Qed.

Lemma number_packs_keys_NoDup (packs : list (list Candidate)) :
  forall n, NoDup (map fst (number_packs n packs)).
Proof.
  induction packs as [| p t IH]; intros n; simpl; constructor; [| apply IH].
  intros H. apply number_packs_keys in H. destruct H as [j [Hj E]].
  apply pattern_pid_inj in E. lia.
Qed.

Lemma assign_pattern_id_ids (pack : list Candidate) (pid : string) :
  map c_itemId (_assign_pattern_id pack pid) = map c_itemId pack.
Proof. unfold _assign_pattern_id. rewrite map_map. reflexivity. Qed.

Lemma assign_pattern_id_pack (pool : list Item) (pack : list Candidate) (pid : string) :
  pack_of_pool pool pack -> pack_of_pool pool (_assign_pattern_id pack pid).
Proof.
  intros [L [M N]]. unfold pack_of_pool. rewrite assign_pattern_id_ids.
  assert (E : length (_assign_pattern_id pack pid) = length pack)
    by (unfold _assign_pattern_id; apply length_map).
  rewrite E. split; [exact L |]. split; [| exact N].
  intros c Hc. unfold _assign_pattern_id in Hc. apply in_map_iff in Hc.
  destruct Hc as [c0 [<- Hc0]]. exact (M c0 Hc0).
Qed.

Lemma pack_of_pool_nonempty (pool : list Item) (pack : list Candidate) :
  pack_of_pool pool pack -> pack <> [].
Proof. intros [L _] ->. simpl in L. lia. Qed.

(** The groups of the candidate list are the generated packs. *)
Lemma group_generated (fr : FreeRects) (pool : list Item) :
  _group_pattern_candidates (generate_floor_candidates fr pool)
  = number_packs 0 (generated_packs fr pool).
Proof.
  rewrite generate_floor_candidates_split, group_pattern_candidates_fold, fold_left_app.
  rewrite group_fold_packs.
  - apply group_fold_singles. apply generated_singles_no_pattern.
  - intros k [].
  - apply Forall_forall. intros pack Hp.
    apply (@pack_of_pool_nonempty pool). eapply generated_packs_pack; eauto.
Qed.

(** ** No unit is lost or placed twice *)

Lemma group_ids_NoDup (fr : FreeRects) (pool : list Item) (pid : string)
  (group : list Candidate) :
  In (pid, group) (_group_pattern_candidates (generate_floor_candidates fr pool)) ->
  NoDup (map item_id pool) -> NoDup (map c_itemId group).
Proof.
  intros H Hn. rewrite group_generated in H. apply number_packs_In in H.
  destruct H as [j [pack [Hj [Hpid ->]]]]. rewrite assign_pattern_id_ids.
  assert (P : pack_of_pool pool pack).
  { apply (@generated_packs_pack fr). eapply nth_error_In; eauto. }
  destruct P as [_ [_ N]]. auto.
Qed.

Lemma index_of_items (items : list Item) :
  index_of items (fold_left (fun d it => dict_set d (item_id it) it) items []).
Proof.
  unfold index_of.
  assert (G : forall l d,
             (forall k it, dict_get d k = Some it -> item_id it = k /\ In it items) ->
             (forall it, In it l -> In it items) ->
             forall k it,
               dict_get (fold_left (fun d it => dict_set d (item_id it) it) l d) k = Some it ->
               item_id it = k /\ In it items).
  { induction l as [| x t IH]; intros d Hd Hl k it; simpl; [apply Hd |].
    apply IH; [| intros; apply Hl; now right].
    intros k' it'. rewrite dict_get_set.
    destruct (String.eqb_spec (item_id x) k') as [E | E].
    - intros H. inversion H; subst. split; [reflexivity | apply Hl; now left].
    - apply Hd. }
  apply G; [intros k it H; discriminate | auto].
Qed.

Lemma placement_ids (items : list Item) (d : list (string * Item)) (group : list Candidate)
  (ps : list PlacedItem) :
  index_of items d -> Forall2 (is_placement d) group ps ->
  placed_ids ps = map c_itemId group /\ forall p, In p ps -> In (p_item p) items.
Proof.
  intros Hd F. induction F as [| c p g ps' T F IH]; simpl.
  - split; [reflexivity | tauto].
  - destruct IH as [E M]. destruct T as [it [Hit ->]]. destruct (Hd _ _ Hit) as [Hid Hin].
    split.
    + unfold placed_ids in *. simpl. rewrite E. f_equal. exact Hid.
    + intros p [<- | Hp]; [exact Hin | apply M; exact Hp].
Qed.

Lemma filter_ids_perm (remaining : list Item) (gids : list string) :
  NoDup (map item_id remaining) -> NoDup gids ->
  (forall k, In k gids -> In k (map item_id remaining)) ->
  Permutation
    (gids ++ map item_id (filter (fun it => negb (in_ids gids (item_id it))) remaining))
    (map item_id remaining).
Proof.
  intros Hr Hg Hsub. apply NoDup_Permutation.
  - apply NoDup_app; [exact Hg | apply keys_filter_NoDup; exact Hr |].
    intros k Hk Hin. apply in_map_iff in Hin. destruct Hin as [it [<- Hit]].
    apply filter_In in Hit. destruct Hit as [_ Hf]. apply negb_true_iff in Hf.
    apply in_ids_true in Hk. congruence.
  - exact Hr.
  - intros k. rewrite in_app_iff. split.
    + intros [Hk | Hk]; [apply Hsub; exact Hk |].
      apply in_map_iff in Hk. destruct Hk as [it [<- Hit]]. apply filter_In in Hit.
      apply in_map. tauto.
    + intros Hk. destruct (in_ids gids k) eqn:E.
      * left. apply in_ids_true. exact E.
      * right. apply in_map_iff in Hk. destruct Hk as [it [<- Hit]].
        apply in_map. apply filter_In. split; [exact Hit |]. rewrite E. reflexivity.
Qed.

Lemma slice_to_ids_NoDup (l : list Item) (n : Z) :
  NoDup (map item_id l) -> NoDup (map item_id (slice_to l n)).
Proof. intros H. unfold slice_to. destruct (0 <=? n)%Z; apply NoDup_map_firstn; exact H. Qed.

Lemma perm_NoDup_tail (A : Type) (a b c l : list A) :
  Permutation (a ++ b ++ c) l -> NoDup l -> NoDup c.
Proof.
  intros P N. apply (Permutation_NoDup (Permutation_sym P)) in N.
  apply NoDup_app_remove_l in N. apply NoDup_app_remove_l in N. exact N.
Qed.

Lemma perm_move (A : Type) (P G U R R' I : list A) :
  Permutation (P ++ U ++ R) I -> Permutation (G ++ R') R ->
  Permutation ((P ++ G) ++ U ++ R') I.
Proof.
  intros H1 H2. rewrite <- H1, <- H2, <- app_assoc.
  apply Permutation_app_head. apply Permutation_app_swap_app.
Qed.

Section Accounting.
Variable SETTINGS : Settings.
Variable vehicle : Vehicle.
Variable mode : ModeDecision.
Variable items : list Item.
Hypothesis ids_differ : NoDup (map item_id items).

Lemma pack_iteration_accounted (state : PlanState) (remaining : list Item) (step : Step) :
  index_of items (ps_items_by_id state) ->
  accounted items (ps_placed state) (ps_unplaced state) remaining ->
  pack_iteration SETTINGS state vehicle mode remaining = Ok step ->
  accounted items (ps_placed (step_state step)) (ps_unplaced (step_state step))
    (match step with
     | Continue _ remaining' => remaining'
     | Exhausted _ => []
     end).
Proof.
  intros Hd [Hp [Hpl [Hun Hrem]]] H.
  assert (Nr : NoDup (map item_id remaining)) by (eapply perm_NoDup_tail; eauto).
  apply pack_iteration_cases in H. cbv zeta in H.
  set (window := slice_to remaining (TOP_N_WINDOW SETTINGS)) in *.
  set (candidates := generate_floor_candidates (ps_free_rects state) window) in *.
  assert (Nw : NoDup (map item_id window)) by (apply slice_to_ids_NoDup; exact Nr).
  assert (Fl : Forall (floor_cand window) candidates)
    by apply generate_floor_candidates_floor.
  rewrite Forall_forall in Fl.
  destruct H as [[_ Ho] | [[_ [_ Ho]] | [_ [_ Ho]]]].
  - destruct Ho as [pid [group [ps [s' [Hin [[Hav _] [F [-> [Epl [Eun _]]]]]]]]]].
    cbn [step_state]. rewrite Epl, Eun.
    destruct (placement_ids Hd F) as [Eids Hitems].
    assert (Ng : NoDup (map c_itemId group)) by (eapply group_ids_NoDup; eauto).
    assert (Sub : forall k, In k (map c_itemId group) -> In k (map item_id remaining)).
    { intros k Hk. apply in_map_iff in Hk. destruct Hk as [c [<- Hc]].
      apply in_ids_true. apply Hav. exact Hc. }
    unfold accounted. split; [| split; [| split]].
    + unfold placed_ids in *. rewrite map_app, Eids.
      eapply perm_move; [exact Hp |]. apply filter_ids_perm; assumption.
    + intros p Hpin. apply in_app_iff in Hpin. destruct Hpin; auto.
    + exact Hun.
    + intros it Hit. apply filter_In in Hit. apply Hrem. tauto.
  - destruct Ho as [c [sc [p [s' [Hin [_ [_ [_ [Tp [-> [Epl [Eun _]]]]]]]]]]]].
    cbn [step_state]. rewrite Epl, Eun.
    assert (F : Forall2 (is_placement (ps_items_by_id state)) [c] [p])
      by (constructor; [exact Tp | constructor]).
    destruct (placement_ids Hd F) as [Eids Hitems].
    assert (Sub : forall k, In k [c_itemId c] -> In k (map item_id remaining)).
    { intros k [<- | []]. destruct (Fl c Hin) as [it [Hit [-> _]]].
      apply in_map. eapply slice_to_In; eauto. }
    assert (Ng : NoDup [c_itemId c]) by (constructor; [simpl; tauto | constructor]).
    unfold accounted. split; [| split; [| split]].
    + unfold placed_ids in *. rewrite map_app, Eids.
      eapply perm_move; [exact Hp |].
      etransitivity; [| exact (@filter_ids_perm remaining [c_itemId c] Nr Ng Sub)].
      cbn [map]. apply Permutation_app_head.
      match goal with |- Permutation (map _ ?a) (map _ ?b) => replace a with b end;
        [reflexivity |].
      apply filter_ext. intros it. unfold in_ids. simpl. rewrite orb_false_r. reflexivity.
    + intros q Hq. apply in_app_iff in Hq. destruct Hq; auto.
    + exact Hun.
    + intros it Hit. apply filter_In in Hit. apply Hrem. tauto.
  - destruct Ho as [s' [-> [Epl [_ [_ [Eun _]]]]]]. cbn [step_state]. rewrite Epl, Eun.
    unfold accounted. split; [| split; [| split]].
    + rewrite map_app, map_map. cbn [map item_id set_status]. rewrite app_nil_r.
      rewrite <- Hp. reflexivity.
    + exact Hpl.
    + intros u Hu. apply in_app_iff in Hu. destruct Hu as [Hu | Hu]; [auto |].
      apply in_map_iff in Hu. destruct Hu as [it [<- Hit]]. exists it. auto.
    + intros it [].
Qed.

Lemma pack_loop_accounted :
  forall (fuel : nat) (state s' : PlanState) (remaining : list Item),
  index_of items (ps_items_by_id state) ->
  accounted items (ps_placed state) (ps_unplaced state) remaining ->
  pack_loop SETTINGS fuel state vehicle mode remaining = Ok s' ->
  accounted items (ps_placed s') (ps_unplaced s') [].
Proof.
  induction fuel as [| fuel IH]; intros state s' remaining Hd Hi H;
    destruct remaining as [| it rest]; simpl in H; try discriminate;
    try (inversion H; subst; exact Hi).
  destruct (pack_iteration SETTINGS state vehicle mode (it :: rest)) as [step | e] eqn:E;
    cbn [bind] in H; [| discriminate].
  assert (Hs := @pack_iteration_accounted state (it :: rest) step Hd Hi E).
  assert (Fr := @pack_iteration_frame SETTINGS vehicle mode state (it :: rest) step E).
  destruct step as [s1 | s1 rem1]; cbn [step_state] in Hs, Fr.
  - inversion H; subst. exact Hs.
  - eapply IH; [| exact Hs | exact H]. destruct Fr as [_ [-> _]]. exact Hd.
Qed.
End Accounting.

Lemma pack_accounted (S : Settings) (items : list Item) (vehicle : Vehicle)
  (task_id transport_type : string) (plan : PlanResult) :
  NoDup (map item_id items) ->
  pack S items vehicle task_id transport_type = Ok plan ->
  accounted items (pr_placed plan) (pr_unplaced plan) [].
Proof.
  intros Hn. unfold pack, pack_with_fuel.
  destruct (detect_mode S items vehicle) as [mode | e]; cbn [bind]; [| discriminate].
  destruct (pack_loop S _ _ vehicle mode _) as [s' | e] eqn:E; cbn [bind]; [| discriminate].
  intros H. inversion H; subst; clear H. cbn [pr_placed pr_unplaced snapshot].
  eapply pack_loop_accounted; [exact Hn | | | exact E].
  - apply index_of_items.
  - unfold accounted. cbn. split; [| split; [| split]].
    + apply Permutation_map. apply sort_by_key_perm.
    + intros p [].
    + intros u [].
    + intros it Hit. eapply Permutation_in; [apply sort_by_key_perm | exact Hit].
Qed.

(** *** The free rectangles stay on the floor *)

Lemma clamp0_between (eps a b c : Q) :
  a <= 0 -> 0 <= b -> a <= c -> c <= b -> a <= clamp0 eps c /\ clamp0 eps c <= b.
Proof. intros. unfold clamp0. destruct (qabs c <? eps); lra. Qed.

Lemma clamp0_mono (eps a b : Q) : 0 < eps -> a <= b -> clamp0 eps a <= clamp0 eps b.
Proof.
  intros He Hab. unfold clamp0.
  destruct (Qltb_spec (qabs a) eps); destruct (Qltb_spec (qabs b) eps); qsolve.
Qed.

Lemma order2_among (a b : Q) :
  (fst (order2 a b) = a /\ snd (order2 a b) = b) \/
  (fst (order2 a b) = b /\ snd (order2 a b) = a).
Proof. unfold order2. destruct (b <? a); simpl; auto. Qed.

Lemma normalize_floor_part (eps : Q) (f r : Rect) :
  0 < eps -> holds_origin f -> floor_part f r -> floor_part f (_normalize_rect r eps).
Proof.
  intros He [O1 [O2 [O3 O4]]] [[I1 [I2 [I3 I4]]] [Lx Lz]]. rewrite _normalize_rect_eq.
  assert (Ex : order2 (rx0 r) (rx1 r) = (rx0 r, rx1 r))
    by (unfold order2; destruct (Qltb_spec (rx1 r) (rx0 r)); [lra | reflexivity]).
  assert (Ez : order2 (rz0 r) (rz1 r) = (rz0 r, rz1 r))
    by (unfold order2; destruct (Qltb_spec (rz1 r) (rz0 r)); [lra | reflexivity]).
  rewrite Ex, Ez. cbn [fst snd].
  assert (Mx := clamp0_mono He Lx). assert (Mz := clamp0_mono He Lz).
  unfold floor_part, inside. cbn [rx0 rx1 rz0 rz1].
  assert (B1 := @clamp0_between eps (rx0 f) (rx1 f) (rx0 r) O1 O2 I1 ltac:(lra)).
  assert (B2 := @clamp0_between eps (rx0 f) (rx1 f) (rx1 r) O1 O2 ltac:(lra) I2).
  assert (B3 := @clamp0_between eps (rz0 f) (rz1 f) (rz0 r) O3 O4 I3 ltac:(lra)).
  assert (B4 := @clamp0_between eps (rz0 f) (rz1 f) (rz1 r) O3 O4 ltac:(lra) I4).
  tauto.
Qed.

Lemma try_merge_floor_part (eps : Q) (f a b m : Rect) :
  try_merge eps a b = Some m -> floor_part f a -> floor_part f b -> floor_part f m.
Proof.
  destruct a as [ax0 ax1 az0 az1], b as [bx0 bx1 bz0 bz1]. unfold try_merge, floor_part, inside.
  cbn [rx0 rx1 rz0 rz1]. intros H Ha Hb.
  destruct (_ && _ && _).
  - inversion H; subst. cbn [rx0 rx1 rz0 rz1]. qcases; repeat split; lra.
  - destruct (_ && _ && _); [| discriminate].
    inversion H; subst. cbn [rx0 rx1 rz0 rz1]. qcases; repeat split; lra.
Qed.

Section Floor.
Variable eps : Q.
Variable f : Rect.
Hypothesis eps_pos : 0 < eps.
Hypothesis origin : holds_origin f.

Lemma scan_js_floor (i : nat) (js : list (nat * Rect)) (s : ScanState) :
  (forall j b, In (j, b) js -> floor_part f b) ->
  floor_part f (sc_merged s) -> floor_part f (sc_merged (scan_js eps i js s)).
Proof.
  revert s. induction js as [| [j b] rest IH]; simpl; intros s Hjs Hs; auto.
  assert (Hrest : forall j' b', In (j', b') rest -> floor_part f b') by (intros; eapply Hjs; eauto).
  destruct (Nat.eqb i j || nth j (sc_used s) false); auto.
  destruct (try_merge eps (sc_merged s) b) as [m |] eqn:E; auto.
  apply IH; auto. simpl. apply normalize_floor_part; auto.
  eapply try_merge_floor_part; eauto.
Qed.

Lemma merge_while_floor (fuel i : nat) (cur : list Rect) (s : ScanState) :
  Forall (floor_part f) cur ->
  floor_part f (sc_merged s) -> floor_part f (sc_merged (merge_while fuel eps i cur s)).
Proof.
  intros Hc. revert s. induction fuel as [| n IH]; intros s Hs; auto.
  rewrite merge_while_S. cbv zeta.
  match goal with |- context [scan_js ?e ?i ?js ?s0] =>
    assert (Hn : floor_part f (sc_merged (scan_js e i js s0)));
    [| destruct (sc_changed (scan_js e i js s0)); auto]
  end.
  apply scan_js_floor; auto. intros j b H. apply enumerate_In in H.
  rewrite Forall_forall in Hc. apply Hc. eapply nth_error_In; eauto.
Qed.

Lemma merge_round_floor (cur : list Rect) :
  Forall (floor_part f) cur ->
  Forall (floor_part f) (rd_nxt (merge_round eps cur)).
Proof.
  intros Hc. unfold merge_round.
  assert (G : forall l st, (forall i a, In (i, a) l -> floor_part f a) ->
             Forall (floor_part f) (rd_nxt st) ->
             Forall (floor_part f) (rd_nxt (fold_left (round_step eps cur) l st))).
  { induction l as [| [i a] t IH]; simpl; intros st Hl Hst; auto.
    apply IH; [intros; eapply Hl; eauto |].
    destruct (nth i (rd_used st) false); auto. simpl.
    apply Forall_app. split; auto. constructor; auto.
    apply merge_while_floor; auto. simpl. eapply Hl; eauto. }
  apply G; simpl; auto. intros i a H. apply enumerate_In in H.
  rewrite Forall_forall in Hc. apply Hc. eapply nth_error_In; eauto.
Qed.

Lemma normalize_live_floor (l : list Rect) :
  Forall (floor_part f) l -> Forall (floor_part f) (normalize_live eps l).
Proof.
  intros H. unfold normalize_live. apply Forall_forall. intros r Hr.
  apply in_map_iff in Hr. destruct Hr as [r0 [<- Hr0]]. apply filter_In in Hr0.
  apply normalize_floor_part; auto. rewrite Forall_forall in H. apply H. tauto.
Qed.

Lemma merge_iters_floor (n : nat) (cur : list Rect) :
  Forall (floor_part f) cur -> Forall (floor_part f) (merge_iters n eps cur).
Proof.
  revert cur. induction n as [| n IH]; intros cur Hc; [exact Hc |].
  simpl.
  assert (Hn : Forall (floor_part f)
                 (normalize_live eps (prune_contained (rd_nxt (merge_round eps cur)) eps))).
  { apply normalize_live_floor. apply Forall_forall. intros r Hr. apply prune_aux_In in Hr.
    assert (Hm := merge_round_floor Hc).
    rewrite Forall_forall in Hm. auto. }
  destruct (rd_any _); auto.
Qed.

Lemma merge_adjacent_floor (n : nat) (l : list Rect) :
  Forall (floor_part f) l -> Forall (floor_part f) (merge_adjacent l eps n).
Proof.
  intros H. unfold merge_adjacent. destruct l as [| a t]; [constructor |].
  apply merge_iters_floor. apply normalize_live_floor. exact H.
Qed.
End Floor.

Lemma reserve_split_floor (f : Rect) (rs : list Rect) (used : Rect) :
  Forall (floor_part f) rs -> Forall (floor_part f) (reserve_split rs used).
Proof.
  intros H. unfold reserve_split. apply Forall_forall. intros p Hp.
  apply in_flat_map in Hp. destruct Hp as [r [Hr Hp]].
  rewrite Forall_forall in H. assert (Hrf := H r Hr).
  destruct (rect_intersects r used eps9).
  - rewrite split_rect_strips in Hp. apply filter_In in Hp. destruct Hp as [Hp Ha].
    apply split_strips_inside in Hp. destruct Hp as [Hp _].
    apply Qltb_true in Ha. apply area_proper in Ha.
    unfold floor_part, inside, proper in *. repeat split; lra.
  - destruct Hp as [<- | []]. exact Hrf.
Qed.

Lemma reserve_floor (f : Rect) (fr : FreeRects) (used : Rect) :
  holds_origin f -> Forall (floor_part f) (rects fr) ->
  Forall (floor_part f) (rects (reserve fr used)).
Proof.
  intros Ho H. unfold reserve. cbn [rects].
  apply merge_adjacent_floor; [reflexivity | exact Ho |].
  apply Forall_forall. intros r Hr. apply prune_aux_In in Hr.
  assert (Hs := @reserve_split_floor f (rects fr) used H).
  rewrite Forall_forall in Hs. auto.
Qed.

Lemma fold_reserve_floor (f : Rect) (us : list Rect) (fr : FreeRects) :
  holds_origin f -> Forall (floor_part f) (rects fr) ->
  Forall (floor_part f) (rects (fold_left reserve us fr)).
Proof.
  intros Ho. revert fr. induction us as [| u t IH]; intros fr H; [exact H |].
  simpl. apply IH. apply reserve_floor; [exact Ho | exact H].
Qed.

Lemma half_nonneg (x : Q) : 0 <= x -> 0 <= x / 2.
Proof. intros H. apply Qle_shift_div_l; lra. Qed.

(** *** Loads and free space follow the placed list *)

Lemma with_debug_sync (s : PlanState) (d : list DebugEvent) :
  in_sync s -> in_sync (with_debug s d).
Proof. intros H. exact H. Qed.

Lemma commit_sync (s s' : PlanState) (c : Candidate) :
  commit s c = Ok s' -> in_sync s -> in_sync s'.
Proof.
  intros H [_ Hf]. apply commit_spec in H.
  destruct H as [p [Hp [E1 [E2 [_ [_ [_ [_ [_ [_ [E3 E4]]]]]]]]]]].
  destruct (placement_aabb Hp) as [Ea _].
  unfold in_sync. rewrite E3, E4, E2, E1, Hf.
  split.
  - destruct (ps_placed s); reflexivity.
  - rewrite map_app, fold_left_app. cbn [map fold_left]. unfold footprint_of.
    rewrite Ea. reflexivity.
Qed.

Lemma commit_all_sync (group : list Candidate) :
  forall s s' : PlanState, foldM commit group s = Ok s' -> in_sync s -> in_sync s'.
Proof.
  induction group as [| c t IH]; intros s s' H Hs; simpl in H.
  - inversion H; subst. exact Hs.
  - destruct (commit s c) as [s1 | e] eqn:E; simpl in H; [| discriminate].
    eapply IH; [exact H |]. eapply commit_sync; eauto.
Qed.

Lemma select_and_commit_sync (S : Settings) (state : PlanState) (vehicle : Vehicle)
  (mode : ModeDecision) (remaining window : list Item) (candidates : list Candidate)
  (step : Step) :
  select_and_commit S state vehicle mode remaining window candidates = Ok step ->
  in_sync state -> in_sync (step_state step).
Proof.
  intros H Hs. revert H. unfold select_and_commit.
  set (state1 := emit state "candidates_generated" _).
  assert (H1 : exists d, pl_state (mkPatLoop state1 None 0 []) = with_debug state d)
    by (eexists; reflexivity).
  destruct (foldM (pattern_step S vehicle mode (map item_id remaining))
              (_group_pattern_candidates candidates) (mkPatLoop state1 None 0 []))
    as [pl | e] eqn:Epl; cbn [bind]; [| discriminate].
  destruct (@pattern_loop_spec S state vehicle mode (map item_id remaining)
              (_group_pattern_candidates candidates) _ _ H1 Epl) as [[d Hd] _].
  set (state2 := match _group_pattern_candidates candidates with
                 | [] => pl_state pl
                 | _ :: _ => emit (pl_state pl) "pattern_reject_summary" _
                 end).
  assert (H2 : exists d2, state2 = with_debug state d2).
  { unfold state2. destruct (_group_pattern_candidates candidates); rewrite Hd; eauto.
    rewrite emit_with_debug. eauto. }
  destruct H2 as [d2 Hd2]. rewrite Hd2. clearbody state2.
  assert (Hs2 : in_sync (with_debug state d2)) by (apply with_debug_sync; exact Hs).
  destruct (foldM (single_step S (with_debug state d2) vehicle mode) candidates None)
    as [best | e]; cbn [bind]; [| discriminate].
  destruct (pl_best pl) as [bp |].
  - destruct (foldM commit (pb_group bp) (with_debug state d2)) as [s3 | e] eqn:Ec;
      cbn [bind]; [| destruct best; discriminate].
    intros H. assert (Hstep : step_state step =
                emit s3 "pattern_committed"
                   (PPatternCommitted (Some (pb_pid bp)) (length (pb_group bp))
                      (map c_itemId (pb_group bp)) (Some (pb_score bp)) (pb_dbg bp)))
      by (destruct best; inversion H; reflexivity).
    rewrite Hstep. apply with_debug_sync. eapply commit_all_sync; eauto.
  - destruct best as [bs |].
    + destruct (commit (with_debug state d2) (sb_cand bs)) as [s3 | e] eqn:Ec; cbn [bind];
        [| discriminate].
      intros H. inversion H; subst; clear H. cbn [step_state].
      apply with_debug_sync. eapply commit_sync; eauto.
    + intros H. inversion H; subst; clear H. cbn [step_state]. exact Hs.
Qed.

Lemma pack_loop_sync (S : Settings) (vehicle : Vehicle) (mode : ModeDecision) :
  forall (fuel : nat) (state s' : PlanState) (remaining : list Item),
  in_sync state ->
  pack_loop S fuel state vehicle mode remaining = Ok s' -> in_sync s'.
Proof.
  induction fuel as [| fuel IH]; intros state s' remaining Hi H;
    destruct remaining as [| it rest]; simpl in H; try discriminate;
    try (inversion H; subst; exact Hi).
  destruct (pack_iteration S state vehicle mode (it :: rest)) as [step | e] eqn:E;
    cbn [bind] in H; [| discriminate].
  assert (Hs : in_sync (step_state step))
    by (unfold pack_iteration in E; eapply select_and_commit_sync; eauto).
  destruct step as [s1 | s1 rem1]; cbn [step_state] in Hs.
  - inversion H; subst. exact Hs.
  - eapply IH; [exact Hs | exact H].
Qed.

Lemma initial_state_sync (items : list Item) (vehicle : Vehicle)
  (task_id transport_type : string) (mode : ModeDecision) :
  in_sync (initial_state items vehicle task_id transport_type mode).
Proof. split; reflexivity. Qed.

(** *** Single candidates *)









(** *** The answers of the gates *)

Lemma check_loads_reasons (loads : AxleLoads) (vehicle : Vehicle) :
  In (snd (check_loads loads vehicle))
     [[]; ["payload_limit"]; ["axleA_limit"]; ["axleB_limit"];
      ["payload_limit"; "axleA_limit"]; ["payload_limit"; "axleB_limit"];
      ["axleA_limit"; "axleB_limit"];
      ["payload_limit"; "axleA_limit"; "axleB_limit"]]%string /\
  (fst (check_loads loads vehicle) = true <-> snd (check_loads loads vehicle) = []).
Proof.
  unfold check_loads.
  destruct (over_limit (payloadMaxKg vehicle) (payload_kg loads));
  destruct (over_limit (axleALimitKg vehicle) (axleA_kg loads));
  destruct (over_limit (axleBLimitKg vehicle) (axleB_kg loads));
  cbn; (split; [tauto | split; intros H; first [reflexivity | discriminate]]).
Qed.

Lemma load_reasons_bucket (reasons : list string) :
  In reasons
     [["payload_limit"]; ["axleA_limit"]; ["axleB_limit"];
      ["payload_limit"; "axleA_limit"]; ["payload_limit"; "axleB_limit"];
      ["axleA_limit"; "axleB_limit"];
      ["payload_limit"; "axleA_limit"; "axleB_limit"]]%string ->
  reasons <> [] /\
  incl reasons ["payload_limit"; "axleA_limit"; "axleB_limit"]%string /\
  _pat_reason_bucket reasons = "axles"%string.
Proof.
  intros H. repeat (destruct H as [<- | H]; [split; [discriminate | split;
    [intros x Hx; simpl in *; tauto | vm_compute; reflexivity]] |]).
  destruct H.
Qed.

Lemma group_gates_reasons (vehicle : Vehicle) (placed : list PlacedItem)
  (group : list Candidate) (r : list string) :
  group_gates vehicle placed group = (false, r) ->
  r = ["oob"%string] \/ r = ["collision"%string].
Proof.
  induction group as [| c t IH]; simpl; [discriminate |].
  unfold check_oob, check_collision.
  destruct (oob_check _ _ _); cbn [negb].
  - intros H. inversion H. auto.
  - destruct (collides_with_any _ _ _); cbn [negb].
    + intros H. inversion H. auto.
    + exact IH.
Qed.

Lemma tmp_placed_error (d : list (string * Item)) (group : list Candidate) (e : error) :
  forall acc : list PlacedItem,
  foldM (fun tmp c => it <- dict_lookup d (c_itemId c) ;;
                      Ok (tmp ++ [placed_from_candidate c it])) group acc = Err e ->
  exists c, In c group /\ dict_get d (c_itemId c) = None /\ e = KeyError (c_itemId c).
Proof.
  induction group as [| c t IH]; intros acc H; simpl in H; [discriminate |].
  unfold dict_lookup in H. destruct (dict_get d (c_itemId c)) as [it |] eqn:E; cbn [bind] in H.
  - apply IH in H. destruct H as [c' [H1 H2]]. exists c'. split; [now right | exact H2].
  - inversion H; subst. exists c. split; [now left | split; [exact E | reflexivity]].
Qed.

(** *** The vehicle presets *)

Lemma get_vehicle_preset (transport_type : option string) :
  exists w h l, get_vehicle transport_type = preset_vehicle w h l /\ 0 < w /\ 0 < h /\ 0 < l.
Proof.
  assert (D : exists w h l, DEFAULT_VEHICLE = preset_vehicle w h l /\ 0 < w /\ 0 < h /\ 0 < l).
  { eexists _, _, _. split; [reflexivity |]. repeat split; reflexivity. }
  destruct transport_type as [t |]; [| exact D].
  unfold get_vehicle. destruct t as [| a t]; [exact D |].
  generalize (String a t). intros k. unfold VEHICLE_PRESETS. cbn [dict_get].
  repeat match goal with
  | |- context [String.eqb ?x k] => destruct (String.eqb x k)
  end; try exact D;
  (eexists _, _, _; split; [reflexivity |]; repeat split; reflexivity).
Qed.

(** *** The mode decision *)

Lemma mode_totals_nonneg (items : list Item) :
  0 <= fst (fst (mode_totals items)) /\ 0 <= snd (fst (mode_totals items)) /\
  0 <= snd (mode_totals items).
Proof.
  unfold mode_totals.
  assert (G : forall acc : Q * Q * Q,
             0 <= fst (fst acc) /\ 0 <= snd (fst acc) /\ 0 <= snd acc ->
             let r := fold_left (fun acc i =>
                        let '(tw, tv, tf) := acc in
                        (tw + qmax 0 (item_weight i), tv + item_volume_clamped i,
                         tf + ratio_or_one i)) items acc in
             0 <= fst (fst r) /\ 0 <= snd (fst r) /\ 0 <= snd r).
  { induction items as [| i t IH]; intros [[tw tv] tf] H; [exact H |].
    cbn [fold_left]. apply IH. cbn [fst snd] in *.
    pose proof (qmax0_nonneg (item_weight i)). pose proof (item_volume_clamped_nonneg i).
    pose proof (ratio_or_one_pos i). repeat split; lra. }
  apply (G (0, 0, 0)). cbn. repeat split; lra.
Qed.

Lemma div_nonneg (a b : Q) : 0 <= a -> 0 < b -> 0 <= a / b.
Proof. intros Ha Hb. apply Qle_shift_div_l; [exact Hb | lra]. Qed.

Lemma detect_mode_pressures (S : Settings) (items : list Item) (vehicle : Vehicle)
  (md : ModeDecision) :
  0 < EPS S -> detect_mode S items vehicle = Ok md ->
  0 <= weight_pressure md /\ 0 <= floor_pressure md /\ 0 <= volume_pressure md.
Proof.
  intros He. unfold detect_mode. destruct items as [| i t].
  - intros H. inversion H; subst. cbn. repeat split; lra.
  - destruct (mode_totals_nonneg (i :: t)) as [Tw [Tv Tf]].
    destruct (mode_totals (i :: t)) as [[tw tv] tf]. cbn [fst snd] in Tw, Tv, Tf.
    repeat match goal with
    | |- context [div_checked ?a (qmax ?c (EPS S))] =>
        let P := fresh "P" in
        assert (P : 0 < qmax c (EPS S)) by (apply qmax_pos_r; exact He);
        rewrite (@div_checked_Ok a (qmax c (EPS S)) P); cbn [bind];
        let N := fresh "N" in
        assert (N : 0 <= a / qmax c (EPS S)) by (apply div_nonneg; assumption);
        generalize dependent (a / qmax c (EPS S)); intros ? ?
    end.
    repeat match goal with
    | |- context [if ?c then _ else _] => destruct c
    end;
    intros Hmd; inversion Hmd; subst; cbn; repeat split; assumption.
Qed.

Lemma compute_k_between (it : Item) (md : ModeDecision) :
  match alpha md with
  | Some a => 0 <= a /\ a <= 1
  | None => mode_name md <> mode_mixed
  end ->
  qmin (qmax 0 (item_weight it) * ratio_or_one it) (item_volume_clamped it * ratio_or_one it)
    <= compute_k it md /\
  compute_k it md
    <= qmax (qmax 0 (item_weight it) * ratio_or_one it) (item_volume_clamped it * ratio_or_one it).
Proof.
  intros H. unfold compute_k.
  set (A := qmax 0 (item_weight it) * ratio_or_one it).
  set (B := item_volume_clamped it * ratio_or_one it).
  destruct (mode_name md).
  - destruct (qmin_cases A B) as [[? ->] | [? ->]];
    destruct (qmax_cases A B) as [[? ->] | [? ->]]; split; lra.
  - destruct (qmin_cases A B) as [[? ->] | [? ->]];
    destruct (qmax_cases A B) as [[? ->] | [? ->]]; split; lra.
  - destruct (alpha md) as [a |]; [| congruence]. destruct H as [H0 H1].
    destruct (Qlt_le_dec A B) as [L | L].
    + assert (0 <= a * (B - A)) by (apply Qmult_le_0_compat; lra).
      assert (0 <= (1 - a) * (B - A)) by (apply Qmult_le_0_compat; lra).
      destruct (qmin_cases A B) as [[? ->] | [? ->]];
      destruct (qmax_cases A B) as [[? ->] | [? ->]]; split; lra.
    + assert (0 <= a * (A - B)) by (apply Qmult_le_0_compat; lra).
      assert (0 <= (1 - a) * (A - B)) by (apply Qmult_le_0_compat; lra).
      destruct (qmin_cases A B) as [[? ->] | [? ->]];
      destruct (qmax_cases A B) as [[? ->] | [? ->]]; split; lra.
Qed.

(** * The written-out vocabulary agrees with the gates *)

Lemma separated_iff (a b : AABB) (eps : Q) :
  aabb_intersects a b eps = false <-> separated a b eps.
Proof.
  unfold aabb_intersects, separated.
  repeat match goal with
  | |- context [?x <=? ?y] => destruct (Qleb_spec x y)
  end; cbn; split; intros H; try reflexivity; try discriminate; try tauto;
  exfalso; repeat (destruct H as [H | H]; try lra).
Qed.

Lemma places_iff (d : list (string * Item)) (c : Candidate) (p : PlacedItem) :
  is_placement d c p <-> places d c p.
Proof.
  unfold is_placement, places, placed_from_candidate. split.
  - intros [it [H ->]]. exists it. cbn. repeat split; auto.
  - intros [it [H [H1 [H2 [H3 [H4 [H5 [H6 [H7 [H8 H9]]]]]]]]]]. exists it. split; [exact H |].
    destruct p; cbn in *. subst. reflexivity.
Qed.

Lemma Forall2_places_iff (d : list (string * Item)) (group : list Candidate)
  (ps : list PlacedItem) :
  Forall2 (is_placement d) group ps <-> Forall2 (places d) group ps.
Proof.
  split; intros H; induction H; constructor; auto; now apply places_iff.
Qed.

Lemma set_status_marked (it : Item) : marked_unplaced it (set_status it st_unplaced).
Proof. unfold marked_unplaced, set_status. cbn. repeat split; reflexivity. Qed.


Lemma no_pattern_iff (c : Candidate) : pattern_id_of c = None <-> no_pattern c.
Proof.
  unfold pattern_id_of, no_pattern. destruct (m_patternId (c_meta c)) as [p |].
  - destruct (String.eqb_spec p EmptyString) as [-> | Hne].
    + split; intros H; auto.
    + split; [discriminate |].
      intros [H | H]; [discriminate | inversion H; contradiction].
  - split; auto.
Qed.

Lemma pattern_id_carries (c : Candidate) (pid : string) :
  pattern_id_of c = Some pid <-> pid <> EmptyString /\ carries_pid pid c = true.
Proof.
  unfold pattern_id_of, carries_pid. destruct (m_patternId (c_meta c)) as [p |].
  - destruct (String.eqb_spec p EmptyString) as [-> | Hne].
    + split; [discriminate |]. intros [Hp H]. apply String.eqb_eq in H. congruence.
    + split.
      * intros H. inversion H; subst. split; [exact Hne | apply String.eqb_refl].
      * intros [_ H]. apply String.eqb_eq in H. congruence.
  - split; [discriminate | intros [_ H]; discriminate].
Qed.

(** ** The pattern dictionary is the grouping by identifier *)

(** The entry of the dictionary under [k], empty when there is none. *)
Lemma group_append_keys (groups : list (string * list Candidate)) (pid : string)
  (c : Candidate) :
  map fst (group_append groups pid c) = map fst groups \/
  (~ In pid (map fst groups) /\ map fst (group_append groups pid c) = map fst groups ++ [pid]).
Proof.
  induction groups as [| [k g] rest IH]; cbn.
  - right. split; [tauto | reflexivity].
  - destruct (String.eqb_spec k pid) as [-> | Hne]; cbn; [now left |].
    destruct IH as [-> | [Hn ->]]; [now left |].
    right. split; [| reflexivity]. intros [H | H]; [contradiction | exact (Hn H)].
Qed.

Lemma group_append_NoDup (groups : list (string * list Candidate)) (pid : string)
  (c : Candidate) :
  NoDup (map fst groups) -> NoDup (map fst (group_append groups pid c)).
Proof.
  intros H. destruct (group_append_keys groups pid c) as [-> | [Hn ->]]; [exact H |].
  apply NoDup_app; [exact H | constructor; [simpl; tauto | constructor] |].
  intros x Hx [<- | []]. exact (Hn Hx).
Qed.

Lemma group_append_In (groups : list (string * list Candidate)) (pid : string)
  (c : Candidate) (k : string) (g : list Candidate) :
  NoDup (map fst groups) ->
  (In (k, g) (group_append groups pid c) <->
   (k <> pid /\ In (k, g) groups) \/
   (k = pid /\ ((exists g0, In (pid, g0) groups /\ g = g0 ++ [c]) \/
                (~ In pid (map fst groups) /\ g = [c])))).
Proof.
  induction groups as [| [k0 g0] rest IH]; cbn; intros Hn.
  - split.
    + intros [H | []]. inversion H; subst. right. split; [reflexivity |]. right. tauto.
    + intros [[_ []] | [-> [[g1 [[] _]] | [_ ->]]]]. now left.
  - apply NoDup_cons_iff in Hn. destruct Hn as [Hk0 Hn].
    destruct (String.eqb_spec k0 pid) as [-> | Hne]; cbn.
    + split.
      * intros [H | H].
        -- inversion H; subst. right. split; [reflexivity |]. left. exists g0. split; auto.
        -- assert (k <> pid).
           { intros ->. apply Hk0. apply in_map_iff. exists (pid, g). auto. }
           left. split; auto.
      * intros [[Hne [H | H]] | [-> [[g1 [[H | H] ->]] | [Hnot _]]]].
        -- inversion H; subst. contradiction.
        -- now right.
        -- inversion H; subst. now left.
        -- exfalso. apply Hk0. apply in_map_iff. exists (pid, g1). auto.
        -- exfalso. apply Hnot. now left.
    + rewrite (IH Hn). split.
      * intros [H | [[Hk H] | [-> [[g1 [H ->]] | [Hnot ->]]]]].
        -- inversion H; subst. left. split; auto.
        -- left. split; auto.
        -- right. split; [reflexivity |]. left. exists g1. split; auto.
        -- right. split; [reflexivity |]. right. split; [| reflexivity].
           intros [H | H]; [contradiction | exact (Hnot H)].
      * intros [[Hk [H | H]] | [-> [[g1 [[H | H] ->]] | [Hnot ->]]]].
        -- now left.
        -- right. left. split; auto.
        -- inversion H; subst. contradiction.
        -- right. right. split; [reflexivity |]. left. exists g1. split; auto.
        -- right. right. split; [reflexivity |]. right. split; [| reflexivity].
           intros H. apply Hnot. now right.
Qed.

Lemma members_of_snoc (l : list Candidate) (c : Candidate) (k : string) :
  members_of (l ++ [c]) k =
  if carries_pid k c then members_of l k ++ [c] else members_of l k.
Proof.
  unfold members_of. rewrite filter_app. cbn. destruct (carries_pid k c).
  - reflexivity.
  - now rewrite app_nil_r.
Qed.

Lemma carries_pid_fun (c : Candidate) (k pid : string) :
  carries_pid pid c = true -> carries_pid k c = true -> k = pid.
Proof.
  unfold carries_pid. destruct (m_patternId (c_meta c)) as [p |]; [| discriminate].
  intros H1 H2. apply String.eqb_eq in H1. apply String.eqb_eq in H2. congruence.
Qed.

Lemma group_fold_grouping (l : list Candidate) :
  forall (seen : list Candidate) (groups : list (string * list Candidate)),
  NoDup (map fst groups) ->
  (forall k g, In (k, g) groups <-> is_pattern_group seen k g) ->
  let groups' := fold_left (fun groups c =>
                              match pattern_id_of c with
                              | None => groups
                              | Some pid => group_append groups pid c
                              end) l groups in
  NoDup (map fst groups') /\
  forall k g, In (k, g) groups' <-> is_pattern_group (seen ++ l) k g.
Proof.
  induction l as [| c t IH]; intros seen groups Hn Hg; cbn.
  - rewrite app_nil_r. split; assumption.
  - replace (seen ++ c :: t) with ((seen ++ [c]) ++ t) by (rewrite <- app_assoc; reflexivity).
    destruct (pattern_id_of c) as [pid |] eqn:E.
    + apply pattern_id_carries in E. destruct E as [Hpid Hc].
      apply IH; [now apply group_append_NoDup |].
      intros k g. rewrite (@group_append_In groups pid c k g Hn).
      unfold is_pattern_group. rewrite members_of_snoc.
      destruct (String.eqb_spec k pid) as [-> | Hne].
      * rewrite Hc. split.
        -- intros [[Hk _] | [_ [[g0 [H0 ->]] | [Hnot ->]]]]; [contradiction | |].
           ++ apply Hg in H0. destruct H0 as [_ [_ ->]].
              split; [exact Hpid |]. split; [| reflexivity].
              intros H. apply app_eq_nil in H. destruct H as [_ H]. discriminate.
           ++ split; [exact Hpid |]. split; [discriminate |].
              destruct (members_of seen pid) as [| x r] eqn:M; [reflexivity |].
              exfalso. apply Hnot. apply in_map_iff. exists (pid, x :: r). split; [reflexivity |].
              apply Hg. split; [exact Hpid |]. split; [discriminate | now rewrite M].
        -- intros [_ [_ ->]]. right. split; [reflexivity |].
           destruct (members_of seen pid) as [| x r] eqn:M.
           ++ right. split; [| reflexivity]. intros H. apply in_map_iff in H.
              destruct H as [[k0 g0] [Hk H]]. cbn in Hk. subst k0.
              apply Hg in H. destruct H as [_ [Hne Hm]]. rewrite M in Hm. contradiction.
           ++ left. exists (x :: r). split; [| reflexivity].
              apply Hg. split; [exact Hpid |]. split; [discriminate | now rewrite M].
      * assert (Hk : carries_pid k c = false).
        { destruct (carries_pid k c) eqn:K; [| reflexivity].
          exfalso. apply Hne. exact (@carries_pid_fun c k pid Hc K). }
        rewrite Hk. rewrite Hg. unfold is_pattern_group. split.
        -- intros [[_ H] | [Hk' _]]; [exact H | contradiction].
        -- intros H. left. split; [exact Hne | exact H].
    + apply IH; [exact Hn |].
      intros k g. rewrite Hg. unfold is_pattern_group. rewrite members_of_snoc.
      destruct (carries_pid k c) eqn:K; [| tauto].
      split; intros [Hk H]; exfalso.
      * assert (P : pattern_id_of c = Some k) by (apply pattern_id_carries; auto). congruence.
      * assert (P : pattern_id_of c = Some k) by (apply pattern_id_carries; auto). congruence.
Qed.

(** [_group_pattern_candidates] returns exactly the pattern groups of the
    candidate list, each under its identifier and under no other. *)
Lemma groups_iff (candidates : list Candidate) (pid : string) (group : list Candidate) :
  In (pid, group) (_group_pattern_candidates candidates) <->
  is_pattern_group candidates pid group.
Proof.
  unfold _group_pattern_candidates.
  destruct (@group_fold_grouping candidates [] []) as [_ H].
  - constructor.
  - intros k g. unfold is_pattern_group. cbn. split; [tauto |]. intros [_ [H1 H2]]. auto.
  - cbn in H. apply H.
Qed.

(** ** The gates, written out *)

Lemma later_earlier_nil (A : Type) (R : A -> A -> Prop) : later_earlier R [].
Proof. intros i j x y _ H. destruct i; discriminate. Qed.

Lemma later_earlier_cons (A : Type) (R : A -> A -> Prop) (x : A) (t : list A) :
  later_earlier R (x :: t) <-> (forall y, In y t -> R y x) /\ later_earlier R t.
Proof.
  unfold later_earlier. split.
  - intros H. split.
    + intros y Hy. apply In_nth_error in Hy. destruct Hy as [n Hn].
      apply (H (S n) O y x); [lia | exact Hn | reflexivity].
    + intros i j a b Hij Hi Hj. apply (H (S i) (S j) a b); [lia | exact Hi | exact Hj].
  - intros [H1 H2] i j a b Hij Hi Hj. destruct i as [| i]; [lia |]. cbn in Hi.
    destruct j as [| j]; cbn in Hj.
    + inversion Hj; subst. apply H1. eapply nth_error_In; eauto.
    + apply (H2 i j a b); [lia | exact Hi | exact Hj].
Qed.

Lemma later_earlier_pairwise (A : Type) (R : A -> A -> Prop) (l : list A) :
  pairwise (fun x y => R y x) l <-> later_earlier R l.
Proof.
  induction l as [| x t IH]; cbn.
  - split; [intros _; apply later_earlier_nil | auto].
  - rewrite later_earlier_cons, Forall_forall, IH. tauto.
Qed.




Lemma check_oob_reasons (c : Candidate) (vehicle : Vehicle) :
  fst (check_oob c vehicle) = true -> check_oob c vehicle = (true, []).
Proof. unfold check_oob. destruct (oob_check _ _ _); cbn; [discriminate | reflexivity]. Qed.

Lemma check_collision_reasons (c : Candidate) (placed : list PlacedItem) :
  fst (check_collision c placed) = true -> check_collision c placed = (true, []).
Proof.
  unfold check_collision. destruct (collides_with_any _ _ _); cbn; [discriminate | reflexivity].
Qed.













(** ** Atomic commits *)

Lemma atomic_step_of (S : Settings) (vehicle : Vehicle) (mode : ModeDecision)
  (state : PlanState) (remaining : list Item) (step : Step) :
  pack_iteration S state vehicle mode remaining = Ok step ->
  atomic_step S state remaining step.
Proof.
  intros H. apply pack_iteration_cases in H. cbv zeta in H. unfold atomic_step. cbv zeta.
  destruct H as [[_ Ho] | [[_ [_ Ho]] | [_ [_ Ho]]]].
  - left. destruct Ho as [pid [group [ps [s' [Hin [_ [F [Hs [Hp _]]]]]]]]].
    exists pid, group, ps, s'. split; [now apply groups_iff |].
    split; [now apply Forall2_places_iff |]. split; assumption.
  - right; left. destruct Ho as [c [sc [p [s' [Hin [[Hn _] [_ [_ [Hp [Hs [Hpl _]]]]]]]]]]].
    exists c, p, s'. split; [exact Hin |]. split; [now apply no_pattern_iff |].
    split; [now apply places_iff |]. split; assumption.
  - right; right. destruct Ho as [s' [Hs [Hp _]]]. exists s'. split; assumption.
Qed.

Lemma in_sync_free_after (vehicle : Vehicle) (state : PlanState) :
  in_sync state -> ps_vehicle state = vehicle ->
  ps_free_rects state = free_after vehicle (ps_placed state).
Proof. intros [_ H] <-. exact H. Qed.

Lemma pack_loop_atomic (S : Settings) (vehicle : Vehicle) (mode : ModeDecision)
  (d : list (string * Item)) :
  forall (fuel : nat) (state s' : PlanState) (remaining : list Item),
  in_sync state -> ps_vehicle state = vehicle -> ps_items_by_id state = d ->
  pack_loop S fuel state vehicle mode remaining = Ok s' ->
  atomic_run S vehicle d (ps_placed state) remaining (ps_placed s').
Proof.
  induction fuel as [| fuel IH]; intros state s' remaining Hi Hv Hd H;
    destruct remaining as [| it rest]; simpl in H; try discriminate;
    try (inversion H; subst; apply ar_stop).
  destruct (pack_iteration S state vehicle mode (it :: rest)) as [step | e] eqn:E;
    cbn [bind] in H; [| discriminate].
  assert (Hs : in_sync (step_state step))
    by (unfold pack_iteration in E; eapply select_and_commit_sync; eauto).
  destruct (@pack_iteration_frame S vehicle mode state (it :: rest) step E) as [Fv [Fd _]].
  assert (A := @atomic_step_of S vehicle mode state (it :: rest) step E).
  unfold atomic_step in A. cbv zeta in A.
  rewrite (in_sync_free_after Hi Hv) in A. fold (candidates_at S vehicle (ps_placed state) (it :: rest)) in A.
  rewrite Hd in A.
  destruct A as [[pid [group [ps [s1 [Hg [F [-> Hp]]]]]]] | [[c [p [s1 [Hc [Hn [Hpl [-> Hp]]]]]]] | [s1 [-> Hp]]]];
    cbn [step_state] in Hs, Fv, Fd.
  - eapply ar_group; [exact Hg | exact F |]. rewrite <- Hp.
    apply (IH s1 s'); [exact Hs | congruence | congruence | exact H].
  - eapply ar_single; [exact Hc | exact Hn | exact Hpl |]. rewrite <- Hp.
    apply (IH s1 s'); [exact Hs | congruence | congruence | exact H].
  - inversion H; subst. rewrite Hp. apply ar_stop.
Qed.

Lemma pack_atomic_run (S : Settings) (items : list Item) (vehicle : Vehicle)
  (task_id transport_type : string) (plan : PlanResult) :
  pack S items vehicle task_id transport_type = Ok plan ->
  exists mode,
    detect_mode S items vehicle = Ok mode /\
    atomic_run S vehicle (fold_left (fun d it => dict_set d (item_id it) it) items []) []
      (sort_by_key (fun it => sort_key_for_queue S it vehicle mode) items)
      (pr_placed plan).
Proof.
  unfold pack, pack_with_fuel.
  destruct (detect_mode S items vehicle) as [mode | e]; cbn [bind]; [| discriminate].
  destruct (pack_loop S _ _ vehicle mode _) as [s' | e] eqn:E; cbn [bind]; [| discriminate].
  intros H. inversion H; subst; clear H. cbn [pr_placed snapshot].
  exists mode. split; [reflexivity |].
  apply pack_loop_atomic with (d := fold_left (fun d it => dict_set d (item_id it) it) items [])
    in E; [exact E | apply initial_state_sync | reflexivity | reflexivity].
Qed.

(** What a run has placed stays placed. *)
Lemma atomic_run_extends (S : Settings) (vehicle : Vehicle) (d : list (string * Item))
  (placed : list PlacedItem) (remaining : list Item) (final : list PlacedItem) :
  atomic_run S vehicle d placed remaining final -> exists rest, final = placed ++ rest.
Proof.
  intros H. induction H as [placed remaining
                           | placed remaining pid group ps final Hg F R [rest ->]
                           | placed remaining c p final Hc Hn Hp R [rest ->]].
  - exists []. now rewrite app_nil_r.
  - exists (ps ++ rest). now rewrite app_assoc.
  - exists ([p] ++ rest). now rewrite app_assoc.
Qed.

(** ** Boxes of a finished plan *)

Lemma pack_separated (S : Settings) (items : list Item) (vehicle : Vehicle)
  (task_id transport_type : string) (plan : PlanResult) :
  pack S items vehicle task_id transport_type = Ok plan ->
  later_earlier (fun p q => aabb_intersects (p_aabb p) (p_aabb q) eps9 = false)
    (pr_placed plan).
Proof.
  intros H. apply pack_inv in H. destruct H as [_ [HP _]].
  intros i j p q Hij Hi Hj.
  apply (@pairwise_nth _ no_overlap no_overlap_sym _ i j p q HP); [lia | exact Hi | exact Hj].
Qed.

(** * Verified properties *)

(** ** Axle loads ([constraints/axles.py]) *)

(** C7 (amended): for every placed set, [compute_loads] returns a payload
    equal to the sum of the placed units' weights.  When an axle position
    is missing both axle loads are 0 (only the payload is tracked).  When
    both positions [a] and [b] are configured and differ by at least 1e-9,
    axle B carries the sum over the placed units of
    [w * ((z + L/2) - a) / (b - a)] and axle A the sum of the remainders
    [w - share].  When both are configured but closer than 1e-9 the axle
    model is ignored and both axle loads are 0. *)
Theorem compute_loads_spec (placed : list PlacedItem) (vehicle : Vehicle) :
  payload_kg (compute_loads placed vehicle)
    == sumQ (fun p => item_weight (p_item p)) placed /\
  (axleAPosFromHeadM vehicle = None \/ axleBPosFromHeadM vehicle = None ->
   axleA_kg (compute_loads placed vehicle) = 0 /\
   axleB_kg (compute_loads placed vehicle) = 0) /\
  (forall a b,
     axleAPosFromHeadM vehicle = Some a -> axleBPosFromHeadM vehicle = Some b ->
     eps9 <= qabs (b - a) ->
     axleB_kg (compute_loads placed vehicle)
       == sumQ (axleB_share (innerLength vehicle) a b) placed /\
     axleA_kg (compute_loads placed vehicle)
       == sumQ (axleA_share (innerLength vehicle) a b) placed) /\
  (forall a b,
     axleAPosFromHeadM vehicle = Some a -> axleBPosFromHeadM vehicle = Some b ->
     qabs (b - a) < eps9 ->
     axleA_kg (compute_loads placed vehicle) = 0 /\
     axleB_kg (compute_loads placed vehicle) = 0).
Proof.
  split; [| split; [| split]].
  - rewrite payload_of_loads. apply sum_weights_sumQ.
  - unfold compute_loads. intros [E | E]; rewrite E.
    + split; reflexivity.
    + destruct (axleAPosFromHeadM vehicle); split; reflexivity.
  - intros a b Ea Eb Hs. unfold compute_loads. rewrite Ea, Eb.
    destruct (Qltb_spec (qabs (b - a)) eps9) as [Hlt | _]; [lra |].
    cbn [axleA_kg axleB_kg].
    destruct (axle_fold (innerLength vehicle) a b placed (0, 0)) as [HA HB].
    cbn [fst snd] in HA, HB. split; [rewrite HB | rewrite HA]; ring.
  - intros a b Ea Eb Hs. unfold compute_loads. rewrite Ea, Eb.
    destruct (Qltb_spec (qabs (b - a)) eps9) as [_ | Hge]; [split; reflexivity | lra].
Qed.

(** The lever-arm rule at axles 2 m and 8 m from the head of a 10 m hold. *)
Lemma compute_loads_spec_witness :
  axleB_kg (compute_loads ex_axle_placed ex_axle_vehicle_ok)
    == sumQ (axleB_share (innerLength ex_axle_vehicle_ok) 2 8) ex_axle_placed /\
  axleA_kg (compute_loads ex_axle_placed ex_axle_vehicle_ok)
    == sumQ (axleA_share (innerLength ex_axle_vehicle_ok) 2 8) ex_axle_placed.
Proof.
  apply (proj1 (proj2 (proj2 (compute_loads_spec ex_axle_placed ex_axle_vehicle_ok)))).
  - reflexivity.
  - reflexivity.
  - vm_compute. discriminate.
Defined.

(** C7 as stated fails: with both axle positions configured, 0 and
    0.0000000005, the unit of 100 kg in the middle of the 10 m hold
    contributes nothing to axle B, while the stated share
    [w * ((z + L/2) - a) / (b - a)] is 10^12. *)
Lemma compute_loads_close_axles_counterexample :
  axleAPosFromHeadM ex_axle_vehicle = Some 0 /\
  axleBPosFromHeadM ex_axle_vehicle = Some (1 # 2000000000) /\
  axleB_kg (compute_loads ex_axle_placed ex_axle_vehicle) == 0 /\
  sumQ (axleB_share (innerLength ex_axle_vehicle) 0 (1 # 2000000000)) ex_axle_placed
    == 1000000000000 /\
  ~ axleB_kg (compute_loads ex_axle_placed ex_axle_vehicle)
      == sumQ (axleB_share (innerLength ex_axle_vehicle) 0 (1 # 2000000000)) ex_axle_placed.
Proof.
  split; [reflexivity |]. split; [reflexivity |].
  split; [vm_compute; reflexivity |]. split; [vm_compute; reflexivity |].
  vm_compute. discriminate.
Qed.

(** ** The mode classifier ([scoring/coeff.py]) *)

(** C6 (amended): for an empty unit set [detect_mode] returns mode mixed
    with the three pressures 0 and alpha 0.5.  For a non-empty set the
    pressures are the totals divided by the capacities (each at least the
    tolerance); the mode is weight exactly when the weight pressure is at
    least the threshold and the floor pressure is below it, volume exactly
    when the floor pressure is at least the threshold and the weight
    pressure is below it, mixed otherwise; in mode mixed alpha is
    [(weight_pressure - floor_pressure + 1) / 2] clamped to [0.2, 0.8], in
    the two other modes there is no alpha. *)
Theorem detect_mode_spec (S : Settings) (vehicle : Vehicle) :
  detect_mode S [] vehicle = Ok (mkModeDecision mode_mixed 0 0 0 (Some (1 # 2))) /\
  forall items md,
    items <> [] -> detect_mode S items vehicle = Ok md ->
    let thr := MODE_PRESSURE_THRESHOLD S in
    let wp := weight_pressure md in
    let fp := floor_pressure md in
    wp = fst (fst (mode_totals items)) / qmax (weight_capacity_of items vehicle) (EPS S) /\
    fp = snd (mode_totals items) / qmax (floor_capacity_of S vehicle) (EPS S) /\
    volume_pressure md
      = snd (fst (mode_totals items)) / qmax (vol_capacity_of S vehicle) (EPS S) /\
    (mode_name md = mode_weight <-> thr <= wp /\ fp < thr) /\
    (mode_name md = mode_volume <-> thr <= fp /\ wp < thr) /\
    (mode_name md = mode_mixed <->
       ~ (thr <= wp /\ fp < thr) /\ ~ (thr <= fp /\ wp < thr)) /\
    (mode_name md = mode_mixed -> alpha md = Some (clamp_alpha ((wp - fp + 1) / 2))) /\
    (mode_name md <> mode_mixed -> alpha md = None).
Proof.
  split; [reflexivity |].
  intros items md Hne H thr wp fp. subst thr wp fp.
  unfold detect_mode in H. destruct items as [| i t]; [congruence |].
  unfold weight_capacity_of, floor_capacity_of, vol_capacity_of.
  destruct (mode_totals (i :: t)) as [[tw tv] tf]. cbn [fst snd].
  repeat match type of H with
  | context [div_checked ?a ?b] =>
      destruct (div_checked_cases a b) as [E | E]; rewrite E in H; cbn [bind] in H;
      [| discriminate]; clear E
  end.
  set (thr := MODE_PRESSURE_THRESHOLD S) in *.
  match type of H with context [thr <=? ?w] => set (wp := w) in * end.
  match type of H with context [?f <? thr] => set (fp := f) in * end.
  destruct (Qleb_spec thr wp) as [Hw | Hw], (Qltb_spec fp thr) as [Hf | Hf];
    cbn [andb] in H;
    try (destruct (Qleb_spec thr fp) as [Hf' | Hf'], (Qltb_spec wp thr) as [Hw' | Hw'];
         cbn [andb] in H);
    inversion H; subst md; cbn [weight_pressure floor_pressure volume_pressure
                                 mode_name alpha];
    (split; [reflexivity |]); (split; [reflexivity |]); (split; [reflexivity |]);
    repeat split; try discriminate; try congruence; try reflexivity; try lra;
    try (intros; exfalso; lra); try (intros [? ?]; exfalso; lra);
    try (intros [? ?]; lra).
Qed.

(** Five light pallets in the 1000 kg hold: mode mixed, alpha clamped. *)
Lemma detect_mode_spec_witness :
  ex_five <> [] /\
  detect_mode ex_settings ex_five ex_vehicle = Ok (ex_mode ex_five) /\
  mode_name (ex_mode ex_five) = mode_mixed /\
  alpha (ex_mode ex_five)
    = Some (clamp_alpha ((weight_pressure (ex_mode ex_five)
                          - floor_pressure (ex_mode ex_five) + 1) / 2)).
Proof.
  assert (Hne : ex_five <> []) by discriminate.
  assert (Hd : detect_mode ex_settings ex_five ex_vehicle = Ok (ex_mode ex_five))
    by (vm_compute; reflexivity).
  destruct (proj2 (detect_mode_spec ex_settings ex_vehicle) ex_five (ex_mode ex_five) Hne Hd)
    as [_ [_ [_ [_ [_ [_ [Ha _]]]]]]].
  assert (Hm : mode_name (ex_mode ex_five) = mode_mixed) by (vm_compute; reflexivity).
  split; [exact Hne |]. split; [exact Hd |]. split; [exact Hm |]. exact (Ha Hm).
Defined.

(** C6 as stated fails at the threshold: one unit of 850 kg against a
    payload limit of 1000 kg has weight pressure 0.85, which does not
    exceed the threshold 0.85, and floor pressure far below it; the mode is
    weight. *)
Lemma detect_mode_threshold_counterexample :
  exists md,
    detect_mode ex_settings [ex_boundary_item] ex_vehicle = Ok md /\
    mode_name md = mode_weight /\
    weight_pressure md == MODE_PRESSURE_THRESHOLD ex_settings /\
    ~ MODE_PRESSURE_THRESHOLD ex_settings < weight_pressure md /\
    floor_pressure md < MODE_PRESSURE_THRESHOLD ex_settings.
Proof.
  eexists. split; [vm_compute; reflexivity |].
  split; [reflexivity |]. split; [vm_compute; reflexivity |].
  split; [vm_compute; discriminate | vm_compute; reflexivity].
Qed.

(** ** Finished plans ([solver/packer.py]) *)

(** C2: in every finished plan produced by [pack], the bounding boxes of
    any two distinct placed units do not intersect beyond the tolerance
    1e-9, whether the units were committed singly or as members of a
    pattern group.  Of the two units let [p] be the one placed later and
    [q] the earlier one: along one of the three axes the box of [p] ends
    at most 1e-9 behind the start of the box of [q], or starts at most
    1e-9 before its end; these are the six comparisons of the collision
    test, which answers no for the pair. *)
Theorem pack_no_overlap (S : Settings) (items : list Item) (vehicle : Vehicle)
  (task_id transport_type : string) (plan : PlanResult) :
  pack S items vehicle task_id transport_type = Ok plan ->
  forall i j p q,
    (j < i)%nat ->
    nth_error (pr_placed plan) i = Some p -> nth_error (pr_placed plan) j = Some q ->
    (maxX (p_aabb p) <= minX (p_aabb q) + eps9 \/
     maxX (p_aabb q) - eps9 <= minX (p_aabb p) \/
     maxY (p_aabb p) <= minY (p_aabb q) + eps9 \/
     maxY (p_aabb q) - eps9 <= minY (p_aabb p) \/
     maxZ (p_aabb p) <= minZ (p_aabb q) + eps9 \/
     maxZ (p_aabb q) - eps9 <= minZ (p_aabb p)) /\
    aabb_intersects (p_aabb p) (p_aabb q) eps9 = false.
Proof.
  intros H i j p q Hij Hi Hj.
  assert (K := @pack_separated S items vehicle task_id transport_type plan H i j p q Hij Hi Hj).
  split; [| exact K]. apply separated_iff in K. exact K.
Qed.

(** The five pallets are committed as one pattern group; its members are
    apart from each other. *)
Lemma pack_no_overlap_witness :
  pack ex_settings ex_five ex_vehicle "task" "truck" = Ok (ex_plan ex_five) /\
  length (pr_placed (ex_plan ex_five)) = 5%nat /\
  forall i j p q,
    (j < i)%nat ->
    nth_error (pr_placed (ex_plan ex_five)) i = Some p ->
    nth_error (pr_placed (ex_plan ex_five)) j = Some q ->
    separated (p_aabb p) (p_aabb q) eps9.
Proof.
  assert (H : pack ex_settings ex_five ex_vehicle "task" "truck" = Ok (ex_plan ex_five))
    by (vm_compute; reflexivity).
  split; [exact H |]. split; [vm_compute; reflexivity |].
  intros i j p q Hij Hi Hj.
  exact (proj1 (pack_no_overlap ex_settings ex_five ex_vehicle "task" "truck" H Hij Hi Hj)).
Defined.

(** C9: every placed unit of every finished plan has its bounding box in
    the envelope [-halfWidth, halfWidth] x [0, innerHeight] x
    [-halfLength, halfLength] of the plan's vehicle, within the tolerance
    1e-9. *)
Theorem pack_in_bounds (S : Settings) (items : list Item) (vehicle : Vehicle)
  (task_id transport_type : string) (plan : PlanResult) :
  pack S items vehicle task_id transport_type = Ok plan ->
  pr_vehicle plan = vehicle /\
  forall p, In p (pr_placed plan) ->
    oob_check (p_aabb p) vehicle eps9 = false /\
    - (innerWidth vehicle / 2) - eps9 <= minX (p_aabb p) /\
    maxX (p_aabb p) <= innerWidth vehicle / 2 + eps9 /\
    0 - eps9 <= minY (p_aabb p) /\
    maxY (p_aabb p) <= innerHeight vehicle + eps9 /\
    - (innerLength vehicle / 2) - eps9 <= minZ (p_aabb p) /\
    maxZ (p_aabb p) <= innerLength vehicle / 2 + eps9.
Proof.
  intros H. apply pack_inv in H. destruct H as [Hv [_ [HB _]]].
  split; [exact Hv |]. intros p Hp. rewrite Forall_forall in HB.
  split; [exact (HB p Hp) |]. exact (proj1 (oob_check_envelope _ _ _) (HB p Hp)).
Qed.

Lemma pack_in_bounds_witness :
  pack ex_settings ex_five ex_vehicle "task" "truck" = Ok (ex_plan ex_five) /\
  pr_vehicle (ex_plan ex_five) = ex_vehicle /\
  Forall (fun p => in_envelope ex_vehicle (p_aabb p) eps9) (pr_placed (ex_plan ex_five)).
Proof.
  assert (H : pack ex_settings ex_five ex_vehicle "task" "truck" = Ok (ex_plan ex_five))
    by (vm_compute; reflexivity).
  destruct (pack_in_bounds ex_settings ex_five ex_vehicle "task" "truck" H) as [Hv HB].
  split; [exact H |]. split; [exact Hv |].
  apply Forall_forall. intros p Hp. exact (proj2 (HB p Hp)).
Defined.

(** C10: every candidate of the generator, single or pattern member, has
    [y = 0] and a bounding box from height 0 to the height of a unit of
    the pool that carries the candidate's identifier; hence every placed
    unit of a finished plan has [y = 0] and a box that starts at height 0
    and ends at the height of its placed dimensions: no unit rests on
    another, whatever its [canBeStacked] flag. *)
Theorem generator_and_plan_on_floor :
  (forall (free_rects : FreeRects) (pool : list Item) (c : Candidate),
     In c (generate_floor_candidates free_rects pool) ->
     c_y c = 0 /\ minY (c_aabb c) == 0 /\
     exists it, In it pool /\ c_itemId c = item_id it /\
                c_dy c = item_height it /\ maxY (c_aabb c) == item_height it) /\
  (forall (S : Settings) (items : list Item) (vehicle : Vehicle)
          (task_id transport_type : string) (plan : PlanResult),
     pack S items vehicle task_id transport_type = Ok plan ->
     forall p, In p (pr_placed plan) ->
       p_y p = 0 /\ minY (p_aabb p) == 0 /\ maxY (p_aabb p) == snd (fst (p_dims p))).
Proof.
  split.
  - intros fr pool c Hc.
    assert (Fl := generate_floor_candidates_floor fr pool). rewrite Forall_forall in Fl.
    destruct (Fl c Hc) as [it [Hit [Hid [Hy [Hdy [Hmin Hmax]]]]]].
    split; [exact Hy |]. split; [exact Hmin |]. exists it. auto.
  - intros S items vehicle task_id transport_type plan H p Hp.
    apply pack_inv in H. destruct H as [_ [_ [_ HF]]].
    rewrite Forall_forall in HF. exact (HF p Hp).
Qed.

Lemma generator_and_plan_on_floor_witness :
  pack ex_settings ex_five ex_vehicle "task" "truck" = Ok (ex_plan ex_five) /\
  Forall on_floor (pr_placed (ex_plan ex_five)).
Proof.
  assert (H : pack ex_settings ex_five ex_vehicle "task" "truck" = Ok (ex_plan ex_five))
    by (vm_compute; reflexivity).
  split; [exact H |]. apply Forall_forall.
  exact (proj2 generator_and_plan_on_floor ex_settings ex_five ex_vehicle
           "task"%string "truck"%string (ex_plan ex_five) H).
Defined.

(** C4: pattern groups are committed whole.  An iteration of the loop
    adds to the placed list either one placement for every candidate that
    carries one pattern identifier among the candidates of that iteration,
    in their order, while the units of all of them leave the queue; or the
    placement of one candidate that carries no pattern identifier; or
    nothing, and then the loop stops.  Hence the placed list of every
    finished plan is a sequence of such blocks, each taken from the
    candidates generated for the free space and the queue that the blocks
    before it leave; and what a block has placed stays in the list to the
    end.  No iteration commits part of a group. *)
Theorem pack_pattern_atomic (S : Settings) (vehicle : Vehicle) :
  (forall (mode : ModeDecision) (state : PlanState) (remaining : list Item) (step : Step),
     pack_iteration S state vehicle mode remaining = Ok step ->
     atomic_step S state remaining step) /\
  (forall (items : list Item) (task_id transport_type : string) (plan : PlanResult),
     pack S items vehicle task_id transport_type = Ok plan ->
     exists mode,
       detect_mode S items vehicle = Ok mode /\
       atomic_run S vehicle (fold_left (fun d it => dict_set d (item_id it) it) items []) []
         (sort_by_key (fun it => sort_key_for_queue S it vehicle mode) items)
         (pr_placed plan)) /\
  (forall (d : list (string * Item)) (placed : list PlacedItem) (remaining : list Item)
          (final : list PlacedItem),
     atomic_run S vehicle d placed remaining final -> exists rest, final = placed ++ rest).
Proof.
  split; [| split].
  - intros mode state remaining step H.
    exact (@atomic_step_of S vehicle mode state remaining step H).
  - intros items task_id transport_type plan H.
    exact (@pack_atomic_run S items vehicle task_id transport_type plan H).
  - intros d placed remaining final H.
    exact (@atomic_run_extends S vehicle d placed remaining final H).
Qed.

(** The first iteration on the five pallets commits a group of five: all
    the candidates that carry its identifier. *)
Lemma pack_pattern_atomic_witness :
  pack_iteration ex_settings (ex_state ex_five) ex_vehicle (ex_mode ex_five)
    (ex_queue ex_five) = Ok (ex_step ex_five) /\
  (exists pid group,
     is_pattern_group
       (generate_floor_candidates (ps_free_rects (ex_state ex_five))
          (slice_to (ex_queue ex_five) (TOP_N_WINDOW ex_settings))) pid group /\
     length group = 5%nat) /\
  pack ex_settings ex_five ex_vehicle "task" "truck" = Ok (ex_plan ex_five) /\
  exists mode,
    detect_mode ex_settings ex_five ex_vehicle = Ok mode /\
    atomic_run ex_settings ex_vehicle
      (fold_left (fun d it => dict_set d (item_id it) it) ex_five []) []
      (sort_by_key (fun it => sort_key_for_queue ex_settings it ex_vehicle mode) ex_five)
      (pr_placed (ex_plan ex_five)).
Proof.
  assert (E : pack_iteration ex_settings (ex_state ex_five) ex_vehicle (ex_mode ex_five)
                (ex_queue ex_five) = Ok (ex_step ex_five)) by (vm_compute; reflexivity).
  assert (H : pack ex_settings ex_five ex_vehicle "task" "truck" = Ok (ex_plan ex_five))
    by (vm_compute; reflexivity).
  assert (L : length (ps_placed (step_state (ex_step ex_five))) = 5%nat)
    by (vm_compute; reflexivity).
  assert (L0 : ps_placed (ex_state ex_five) = []) by (vm_compute; reflexivity).
  destruct (pack_pattern_atomic ex_settings ex_vehicle) as [A [B _]].
  split; [exact E |]. split; [| split; [exact H | exact (B _ _ _ _ H)]].
  assert (K := A _ _ _ _ E). unfold atomic_step in K. cbv zeta in K.
  destruct K as [[pid [group [ps [s' [Hg [F [Hs Hp]]]]]]] | [[c [p [s' [_ [_ [_ [Hs Hp]]]]]]] | [s' [Hs Hp]]]];
    rewrite Hs in L; cbn [step_state] in L; rewrite Hp, L0 in L.
  - exists pid, group. split; [exact Hg |].
    rewrite (Forall2_length F). exact L.
  - discriminate L.
  - discriminate L.
Defined.

(** ** The packer loop *)



(** The scenario of the five standard pallets: the first iteration commits
    a pattern group of all five (three across, two turned) and empties the
    queue. *)
Example five_pallets_pattern_first :
  pack_iteration ex_settings (ex_state ex_five) ex_vehicle (ex_mode ex_five)
    (ex_queue ex_five) = Ok (ex_step ex_five) /\
  ex_queue_after ex_five = [] /\
  map (fun p => item_id (p_item p)) (ps_placed (ex_state_after ex_five))
    = ["p5"; "p4"; "p3"; "p2"; "p1"]%string /\
  map evt (ps_debug (ex_state_after ex_five))
    = ["mode_detected"; "candidates_generated"; "pattern_reject_summary";
       "pattern_committed"]%string.
Proof. vm_compute. repeat split. Qed.

(** C5: an iteration either stops the loop (exhaustion) or hands back a
    strictly shorter queue, made of units of the queue it received; hence
    [pack] terminates on every unit list: one iteration per input unit is
    enough, more fuel changes nothing, and the only failure is the
    division by zero of the mode classifier, which a positive tolerance
    setting excludes. *)
Theorem pack_queue_shrinks_and_terminates (S : Settings) (vehicle : Vehicle) :
  (forall (mode : ModeDecision) (state : PlanState) (remaining : list Item) (step : Step),
     pack_iteration S state vehicle mode remaining = Ok step ->
     (exists s', step = Exhausted s') \/
     (exists s' remaining',
        step = Continue s' remaining' /\
        (length remaining' < length remaining)%nat /\
        forall it, In it remaining' -> In it remaining)) /\
  (forall (items : list Item) (task_id transport_type : string),
     ((exists plan, pack S items vehicle task_id transport_type = Ok plan) \/
      pack S items vehicle task_id transport_type = Err ZeroDivisionError) /\
     (forall extra,
        pack_with_fuel S (extra + length items) items vehicle task_id transport_type
        = pack S items vehicle task_id transport_type) /\
     (0 < EPS S -> exists plan, pack S items vehicle task_id transport_type = Ok plan)).
Proof.
  split.
  - intros mode state remaining [s' | s' remaining'] H.
    + left. eauto.
    + right. exists s', remaining'. split; [reflexivity |].
      exact (@pack_iteration_decreases S vehicle mode state s' remaining remaining' H).
  - intros items task_id transport_type.
    destruct (@pack_terminates S items vehicle task_id transport_type) as [H1 H2].
    split; [exact H1 |]. split; [exact H2 |].
    intros He. exact (@pack_total S items vehicle task_id transport_type He).
Qed.

(** The heavy pair: the first iteration places one unit and hands back a
    queue of one; the run returns a plan. *)
Lemma pack_queue_shrinks_and_terminates_witness :
  pack_iteration ex_settings (ex_state [ex_heavy_a; ex_heavy_b]) ex_vehicle
    (ex_mode [ex_heavy_a; ex_heavy_b]) (ex_queue [ex_heavy_a; ex_heavy_b])
  = Ok (ex_step [ex_heavy_a; ex_heavy_b]) /\
  0 < EPS ex_settings /\
  ((exists s', ex_step [ex_heavy_a; ex_heavy_b] = Exhausted s') \/
   (exists s' remaining',
      ex_step [ex_heavy_a; ex_heavy_b] = Continue s' remaining' /\
      (length remaining' < length (ex_queue [ex_heavy_a; ex_heavy_b]))%nat /\
      forall it, In it remaining' -> In it (ex_queue [ex_heavy_a; ex_heavy_b]))) /\
  exists plan, pack ex_settings [ex_heavy_a; ex_heavy_b] ex_vehicle "task" "truck" = Ok plan.
Proof.
  assert (H : pack_iteration ex_settings (ex_state [ex_heavy_a; ex_heavy_b]) ex_vehicle
                (ex_mode [ex_heavy_a; ex_heavy_b]) (ex_queue [ex_heavy_a; ex_heavy_b])
              = Ok (ex_step [ex_heavy_a; ex_heavy_b])) by (vm_compute; reflexivity).
  assert (He : 0 < EPS ex_settings) by (vm_compute; reflexivity).
  destruct (pack_queue_shrinks_and_terminates ex_settings ex_vehicle) as [H1 H2].
  split; [exact H |]. split; [exact He |]. split.
  - exact (H1 _ _ _ _ H).
  - exact (proj2 (proj2 (H2 [ex_heavy_a; ex_heavy_b] "task"%string "truck"%string)) He).
Defined.

(** ** The load gate *)

(** C8: the load gate ([would_pass_with_candidate], the last gate of
    [can_place]) rejects a candidate exactly when, with the candidate
    added to the placed set, the recomputed payload or a recomputed axle
    load is above its configured limit by more than 1e-9; for a candidate
    that passes the bounds and collision gates the verdict of [can_place]
    is that of the load gate.  When the payload limit refuses every unit
    of the queue, the iteration returns with the placed set, the free
    space and the loads untouched, and the units of the queue become
    unplaced.  Hence the placed set of a finished plan, once it holds a
    unit, exceeds no configured limit. *)
Theorem load_gate_spec :
  (forall (placed : list PlacedItem) (c : Candidate) (it : Item) (vehicle : Vehicle),
     let loads := compute_loads (placed ++ [placed_from_candidate c it]) vehicle in
     snd (would_pass_with_candidate placed c it vehicle) = loads /\
     (fst (fst (would_pass_with_candidate placed c it vehicle)) = false <->
      exceeds (payloadMaxKg vehicle) (payload_kg loads) \/
      exceeds (axleALimitKg vehicle) (axleA_kg loads) \/
      exceeds (axleBLimitKg vehicle) (axleB_kg loads))) /\
  (forall (s : PlanState) (c : Candidate) (it : Item),
     dict_get (ps_items_by_id s) (c_itemId c) = Some it ->
     oob_check (c_aabb c) (ps_vehicle s) eps9 = false ->
     (forall p, In p (ps_placed s) -> aabb_intersects (c_aabb c) (p_aabb p) eps9 = false) ->
     exists r,
       can_place s c
       = Ok (fst (fst (would_pass_with_candidate (ps_placed s) c it (ps_vehicle s))), r)) /\
  (forall (S : Settings) (state : PlanState) (vehicle : Vehicle) (mode : ModeDecision)
          (remaining : list Item) (m : Q),
     payloadMaxKg (ps_vehicle state) = Some m ->
     Forall (fun kv => 0 <= item_weight (snd kv)) (ps_items_by_id state) ->
     Forall (fun it => exists v,
               dict_get (ps_items_by_id state) (item_id it) = Some v /\
               m + eps9 < sum_weights (ps_placed state) + item_weight v) remaining ->
     exists s',
       pack_iteration S state vehicle mode remaining = Ok (Exhausted s') /\
       ps_placed s' = ps_placed state /\
       ps_free_rects s' = ps_free_rects state /\
       ps_loads s' = ps_loads state /\
       ps_unplaced s'
       = ps_unplaced state ++ map (fun it => set_status it st_unplaced) remaining) /\
  (forall (S : Settings) (items : list Item) (vehicle : Vehicle)
          (task_id transport_type : string) (plan : PlanResult),
     pack S items vehicle task_id transport_type = Ok plan ->
     pr_placed plan <> [] ->
     ~ exceeds (payloadMaxKg vehicle) (payload_kg (compute_loads (pr_placed plan) vehicle)) /\
     ~ exceeds (axleALimitKg vehicle) (axleA_kg (compute_loads (pr_placed plan) vehicle)) /\
     ~ exceeds (axleBLimitKg vehicle) (axleB_kg (compute_loads (pr_placed plan) vehicle))).
Proof.
  split; [| split; [| split]].
  - intros placed c it vehicle loads. subst loads. unfold would_pass_with_candidate.
    destruct (check_loads _ vehicle) as [ok reasons] eqn:E. cbn [fst snd].
    split; [reflexivity |]. rewrite <- check_loads_false_iff, E. reflexivity.
  - intros s c it Hk Ho Hc. rewrite (can_place_load_gate s c Hk Ho Hc).
    unfold would_pass_with_candidate.
    destruct (check_loads _ (ps_vehicle s)) as [ok reasons]. cbn [fst]. eauto.
  - intros S state vehicle mode remaining m Hm Hpos Hover.
    rewrite Forall_forall in Hpos, Hover.
    assert (Hk : forall it, In it remaining ->
                   has_key (ps_items_by_id state) (item_id it)).
    { intros it Hit. destruct (Hover it Hit) as [v [Hv _]]. exists v. exact Hv. }
    destruct (@pack_iteration_total S vehicle mode state remaining Hk) as [step Hs].
    assert (He : exhausted_outcome state remaining step).
    { apply (@load_exhaustion S state vehicle mode remaining step m Hm); [| | exact Hs].
      - intros k v Hv. destruct (dict_get_In _ _ Hv) as [k' Hin]. exact (Hpos _ Hin).
      - intros it v Hit Hv. destruct (Hover it Hit) as [v' [Hv' Hlt]].
        rewrite Hv in Hv'. inversion Hv'; subst. exact Hlt. }
    destruct He as [s' [-> [E1 [E2 [E3 [E4 _]]]]]]. exists s'. auto.
  - intros S items vehicle task_id transport_type plan H Hne.
    destruct (pack_loads _ _ _ _ _ H) as [E | E]; [contradiction |].
    assert (N : fst (check_loads (compute_loads (pr_placed plan) vehicle) vehicle) <> false)
      by (rewrite E; discriminate).
    rewrite check_loads_false_iff in N. tauto.
Qed.

(** After the 600 kg unit is placed, the 401 kg unit is 1 kg over the
    1000 kg limit: the second iteration is an exhaustion that keeps the
    placed set, the free space and the loads. *)
Lemma load_gate_spec_witness :
  payloadMaxKg (ps_vehicle (ex_state_after [ex_heavy_a; ex_heavy_b])) = Some 1000 /\
  map (fun p => item_id (p_item p)) (ps_placed (ex_state_after [ex_heavy_a; ex_heavy_b]))
    = ["a"%string] /\
  map item_id (ex_queue_after [ex_heavy_a; ex_heavy_b]) = ["b"%string] /\
  exists s',
    pack_iteration ex_settings (ex_state_after [ex_heavy_a; ex_heavy_b]) ex_vehicle
      (ex_mode [ex_heavy_a; ex_heavy_b]) (ex_queue_after [ex_heavy_a; ex_heavy_b])
    = Ok (Exhausted s') /\
    ps_placed s' = ps_placed (ex_state_after [ex_heavy_a; ex_heavy_b]) /\
    ps_free_rects s' = ps_free_rects (ex_state_after [ex_heavy_a; ex_heavy_b]) /\
    ps_loads s' = ps_loads (ex_state_after [ex_heavy_a; ex_heavy_b]) /\
    ps_unplaced s'
    = ps_unplaced (ex_state_after [ex_heavy_a; ex_heavy_b])
      ++ map (fun it => set_status it st_unplaced) (ex_queue_after [ex_heavy_a; ex_heavy_b]).
Proof.
  split; [vm_compute; reflexivity |]. split; [vm_compute; reflexivity |].
  split; [vm_compute; reflexivity |].
  apply (proj1 (proj2 (proj2 load_gate_spec)) ex_settings (ex_state_after [ex_heavy_a; ex_heavy_b])
           ex_vehicle (ex_mode [ex_heavy_a; ex_heavy_b])
           (ex_queue_after [ex_heavy_a; ex_heavy_b]) 1000).
  - vm_compute. reflexivity.
  - vm_compute. repeat constructor; discriminate.
  - vm_compute. repeat constructor. eexists. split; [reflexivity | reflexivity].
Defined.

(** The scenario of the two heavy units, run from start to end: the first
    is placed and stays placed, the second ends unplaced. *)
Example payload_limit_scenario :
  exists plan,
    pack ex_settings [ex_heavy_a; ex_heavy_b] ex_vehicle "task" "truck" = Ok plan /\
    map (fun p => item_id (p_item p)) (pr_placed plan) = ["a"%string] /\
    map (fun it => (item_id it, item_status it)) (pr_unplaced plan)
      = [("b"%string, st_unplaced)] /\
    option_map payload_kg (pr_loads plan) = Some 600.
Proof.
  eexists. split; [vm_compute; reflexivity |]. vm_compute. repeat split.
Qed.

(** ** The free-rectangle tracker ([geometry/free_rects.py]) *)

(** C1 (amended): after [init_for_vehicle] and any sequence of [reserve]
    calls, no free rectangle contains another, whatever the tolerance up
    to 1e-6.  When the half width and the half length of the vehicle and
    the coordinates of every reserved rectangle are multiples of a step
    [g] larger than the merge tolerance 1e-6, the vehicle's dimensions are
    positive and the reserved rectangles are not degenerate, then no free
    rectangle overlaps a reserved rectangle and no two free rectangles
    overlap, beyond 1e-9 and indeed exactly. *)
Theorem free_rects_invariant_on_grid :
  (forall (vehicle : Vehicle) (us : list Rect) (i j : nat) (a b : Rect) (eps : Q),
     eps <= eps6 -> i <> j ->
     nth_error (rects (fold_left reserve us (init_for_vehicle vehicle))) i = Some a ->
     nth_error (rects (fold_left reserve us (init_for_vehicle vehicle))) j = Some b ->
     rect_contains a b eps = false) /\
  (forall (g : Q) (vehicle : Vehicle) (us : list Rect),
     eps6 < g ->
     0 < innerWidth vehicle -> 0 < innerLength vehicle ->
     on_grid g (innerWidth vehicle / 2) -> on_grid g (innerLength vehicle / 2) ->
     Forall (rect_on_grid g) us -> Forall proper us ->
     (forall f u,
        In f (rects (fold_left reserve us (init_for_vehicle vehicle))) -> In u us ->
        rect_intersects f u eps9 = false /\ disj f u) /\
     (forall i j a b,
        i <> j ->
        nth_error (rects (fold_left reserve us (init_for_vehicle vehicle))) i = Some a ->
        nth_error (rects (fold_left reserve us (init_for_vehicle vehicle))) j = Some b ->
        rect_intersects a b eps9 = false /\ disj a b)).
Proof.
  split.
  - intros vehicle us i j a b eps He Hij Hi Hj.
    destruct us as [| u t].
    + cbn [fold_left init_for_vehicle rects] in Hi, Hj.
      destruct i as [| i], j as [| j]; try congruence.
      * destruct j; discriminate.
      * destruct i; discriminate.
      * destruct i; discriminate.
    + assert (Hne : u :: t <> []) by discriminate.
      assert (HP := @fold_reserve_no_contain (u :: t) (init_for_vehicle vehicle) Hne).
      assert (Hs : forall x y, no_contain eps6 x y -> no_contain eps6 y x)
        by (intros x y; apply no_contain_sym).
      destruct (@pairwise_nth _ (no_contain eps6) Hs _ i j a b HP Hij Hi Hj) as [H1 _].
      exact (@rect_contains_mono eps eps6 a b He H1).
  - intros g vehicle us Hg Hw Hl Gw Gl Gus Pus.
    assert (G0 := @init_good g vehicle Hw Hl Gw Gl).
    assert (G := @fold_reserve_good g Hg us [] (init_for_vehicle vehicle)
                   (Forall_nil _) Gus Pus G0).
    destruct G as [_ [_ [Hu Hd]]]. split.
    + intros f u Hf Hin. rewrite Forall_forall in Hu. specialize (Hu f Hf).
      rewrite Forall_forall in Hu.
      assert (D : disj f u) by (apply Hu; rewrite app_nil_r; apply in_rev in Hin; exact Hin).
      split; [exact (@disj_intersects _ _ D) | exact D].
    + intros i j a b Hij Hi Hj.
      assert (D : disj a b) by exact (@pairwise_nth _ disj disj_sym _ i j a b Hd Hij Hi Hj).
      split; [exact (@disj_intersects _ _ D) | exact D].
Qed.

(** Two pallets reserved on the millimetre grid of the 2.45 x 13.60 floor. *)
Lemma free_rects_invariant_on_grid_witness :
  eps6 < 1 # 1000 /\
  Forall (rect_on_grid (1 # 1000)) ex_used_mm /\ Forall proper ex_used_mm /\
  (forall f u,
     In f (rects (fold_left reserve ex_used_mm (init_for_vehicle ex_vehicle))) ->
     In u ex_used_mm -> rect_intersects f u eps9 = false /\ disj f u) /\
  (forall i j a b,
     i <> j ->
     nth_error (rects (fold_left reserve ex_used_mm (init_for_vehicle ex_vehicle))) i = Some a ->
     nth_error (rects (fold_left reserve ex_used_mm (init_for_vehicle ex_vehicle))) j = Some b ->
     rect_intersects a b eps9 = false /\ disj a b).
Proof.
  assert (Hg : eps6 < 1 # 1000) by (vm_compute; reflexivity).
  assert (Gus : Forall (rect_on_grid (1 # 1000)) ex_used_mm).
  { constructor; [| constructor; [| constructor]].
    - split; [exists (-1225)%Z; vm_compute; reflexivity |].
      split; [exists (-425)%Z; vm_compute; reflexivity |].
      split; [exists 5600%Z; vm_compute; reflexivity | exists 6800%Z; vm_compute; reflexivity].
    - split; [exists (-425)%Z; vm_compute; reflexivity |].
      split; [exists 375%Z; vm_compute; reflexivity |].
      split; [exists 5600%Z; vm_compute; reflexivity | exists 6800%Z; vm_compute; reflexivity]. }
  assert (Pus : Forall proper ex_used_mm).
  { constructor; [| constructor; [| constructor]]; split; vm_compute; reflexivity. }
  split; [exact Hg |]. split; [exact Gus |]. split; [exact Pus |].
  apply (proj2 free_rects_invariant_on_grid (1 # 1000) ex_vehicle ex_used_mm).
  - exact Hg.
  - vm_compute. reflexivity.
  - vm_compute. reflexivity.
  - exists 1225%Z. vm_compute. reflexivity.
  - exists 6800%Z. vm_compute. reflexivity.
  - exact Gus.
  - exact Pus.
Defined.

(** C1 as stated fails.  On a 3 x 3 floor, reserve three footprints side
    by side along the far wall whose near edges are at 0.5, 0.5 + 2^-20
    and 0.5 + 2^-19.  The strips left in front of them have far edges
    within the merge tolerance 1e-6 of one another and are merged, each
    merge keeping the far edge of the strip added last: the single free
    rectangle that remains ends at 0.5 + 2^-19 and overlaps the first
    footprint over a depth of 2^-19, more than 1e-9 and more than 1e-6. *)
Lemma free_rects_overlap_counterexample :
  exists f,
    rects (fold_left reserve [ex_used1; ex_used2; ex_used3]
             (init_for_vehicle ex_small_vehicle)) = [f] /\
    rz1 f == 262145 # 524288 /\ rz0 ex_used1 == 1 # 2 /\
    rect_intersects f ex_used1 eps9 = true /\
    rect_intersects f ex_used1 eps6 = true.
Proof.
  eexists. split; [vm_compute; reflexivity |].
  split; [vm_compute; reflexivity |]. split; [vm_compute; reflexivity |].
  split; vm_compute; reflexivity.
Qed.

(** * Further properties of the sources *)

(** ** Axle loads and boxes *)

(** X1: when both axle positions are configured and at least 1e-9 apart,
    the two axle loads of [compute_loads] add up to the payload: the
    lever-arm rule moves weight between the axles and loses none. *)
Theorem axle_loads_sum_to_payload (placed : list PlacedItem) (vehicle : Vehicle) (a b : Q) :
  axleAPosFromHeadM vehicle = Some a -> axleBPosFromHeadM vehicle = Some b ->
  eps9 <= qabs (b - a) ->
  axleA_kg (compute_loads placed vehicle) + axleB_kg (compute_loads placed vehicle)
  == payload_kg (compute_loads placed vehicle).
Proof.
  intros Ea Eb Hs. rewrite payload_of_loads, sum_weights_sumQ.
  unfold compute_loads. rewrite Ea, Eb.
  destruct (Qltb_spec (qabs (b - a)) eps9) as [Hlt | _]; [lra |].
  cbn [axleA_kg axleB_kg].
  destruct (axle_fold (innerLength vehicle) a b placed (0, 0)) as [HA HB].
  cbn [fst snd] in HA, HB. rewrite HA, HB.
  rewrite (sumQ_ext (axleA_share (innerLength vehicle) a b)
             (fun p => item_weight (p_item p) + - axleB_share (innerLength vehicle) a b p))
    by (intros p; unfold axleA_share; ring).
  rewrite sumQ_plus.
  assert (E : sumQ (fun p => - axleB_share (innerLength vehicle) a b p) placed
              == - sumQ (axleB_share (innerLength vehicle) a b) placed).
  { clear. induction placed as [| p t IH]; simpl; [ring | rewrite IH; ring]. }
  rewrite E. ring.
Qed.

Lemma axle_loads_sum_to_payload_witness :
  eps9 <= qabs (8 - 2) /\
  axleA_kg (compute_loads ex_axle_placed ex_axle_vehicle_ok)
  + axleB_kg (compute_loads ex_axle_placed ex_axle_vehicle_ok)
  == payload_kg (compute_loads ex_axle_placed ex_axle_vehicle_ok).
Proof.
  assert (H : eps9 <= qabs (8 - 2)) by (vm_compute; discriminate).
  split; [exact H |].
  exact (@axle_loads_sum_to_payload ex_axle_placed ex_axle_vehicle_ok 2 8
           eq_refl eq_refl H).
Defined.





(** X20: the vehicles that [get_vehicle] hands out, for a known type, an
    unknown one, an empty one or none, have positive inner dimensions and
    carry neither a payload limit nor an axle model.  Hence for every
    placed list [compute_loads] reports the payload with both axle loads
    0, and [check_loads] accepts it without a reason: with these vehicles
    the load gate never rejects anything. *)
Theorem service_vehicles_have_no_limits (transport_type : option string)
  (placed : list PlacedItem) :
  0 < innerWidth (get_vehicle transport_type) /\
  0 < innerLength (get_vehicle transport_type) /\
  0 < innerHeight (get_vehicle transport_type) /\
  compute_loads placed (get_vehicle transport_type) = mkAxleLoads 0 0 (sum_weights placed) /\
  check_loads (compute_loads placed (get_vehicle transport_type)) (get_vehicle transport_type)
  = (true, []).
Proof.
  destruct (get_vehicle_preset transport_type) as [w [h [l [-> [Hw [Hh Hl]]]]]].
  unfold preset_vehicle. cbn [innerWidth innerLength innerHeight].
  split; [exact Hw |]. split; [exact Hl |]. split; [exact Hh |].
  split; reflexivity.
Qed.

(** ** Classes, zones and the placement policy *)

(** X4: the class of a unit does not depend on which of its two floor
    dimensions is called width and which length: [item_class], and each of
    the five tests it is made of, give the same answer when the two are
    exchanged.  The class is always one of the four names. *)
Theorem item_class_swap (it : Item) (viw : option Q) :
  is_oversize (swap_wl it) viw (1 # 100) = is_oversize it viw (1 # 100) /\
  is_standard_80x120 (swap_wl it) (3 # 100) = is_standard_80x120 it (3 # 100) /\
  is_fin_100x120 (swap_wl it) (3 # 100) = is_fin_100x120 it (3 # 100) /\
  is_square_120 (swap_wl it) (3 # 100) = is_square_120 it (3 # 100) /\
  is_box_like (swap_wl it) = is_box_like it /\
  item_class (swap_wl it) viw = item_class it viw /\
  In (item_class it viw) ["oversize"; "standard"; "box"; "other"]%string.
Proof.
  assert (Ho : is_oversize (swap_wl it) viw (1 # 100) = is_oversize it viw (1 # 100)).
  { unfold is_oversize, swap_wl. cbn [item_width item_length].
    rewrite (Qleb_eq (x := (8 # 5) + (1 # 100)) (x' := (8 # 5) + (1 # 100))
               (y := qmax (item_length it) (item_width it))
               (y' := qmax (item_width it) (item_length it)))
      by (try reflexivity; apply qmax_comm).
    rewrite (Qleb_eq (x := (12 # 5) + (1 # 100)) (x' := (12 # 5) + (1 # 100))
               (y := qmax (item_length it) (item_width it))
               (y' := qmax (item_width it) (item_length it)))
      by (try reflexivity; apply qmax_comm).
    destruct viw as [v |]; [| reflexivity].
    rewrite (orb_comm (v - (1 # 50) <=? item_length it)). reflexivity. }
  assert (Hs : is_standard_80x120 (swap_wl it) (3 # 100) = is_standard_80x120 it (3 # 100)).
  { unfold is_standard_80x120, swap_wl. cbn [item_width item_length].
    rewrite orb_comm. f_equal; apply andb_comm. }
  assert (Hf : is_fin_100x120 (swap_wl it) (3 # 100) = is_fin_100x120 it (3 # 100)).
  { unfold is_fin_100x120, swap_wl. cbn [item_width item_length].
    rewrite orb_comm. f_equal; apply andb_comm. }
  assert (Hq : is_square_120 (swap_wl it) (3 # 100) = is_square_120 it (3 # 100)).
  { unfold is_square_120, swap_wl. cbn [item_width item_length]. apply andb_comm. }
  assert (Hb : is_box_like (swap_wl it) = is_box_like it).
  { unfold is_box_like, footprint_m2, swap_wl.
    cbn [item_width item_length item_height item_palletType item_palletTypeNorm].
    rewrite (Qleb_eq (x := item_length it * item_width it)
               (x' := item_width it * item_length it)
               (y := (2 # 5) * (2 # 5)) (y' := (2 # 5) * (2 # 5)))
      by (try reflexivity; ring).
    rewrite (Qleb_eq (x := qmin (item_length it) (item_width it))
               (x' := qmin (item_width it) (item_length it))
               (y := 3 # 5) (y' := 3 # 5))
      by (try reflexivity; apply qmin_comm).
    reflexivity. }
  repeat (split; [assumption |]). split.
  - unfold item_class. rewrite Ho, Hs, Hf, Hq, Hb. reflexivity.
  - unfold item_class.
    repeat match goal with |- context [if ?b then _ else _] => destruct b end;
      simpl; auto.
Qed.

(** X5: [is_oversize] answers yes exactly when the larger floor dimension
    reaches 1.60 m plus the tolerance, or a vehicle width is given and one
    floor dimension comes within 2 cm of it: the test against 2.40 m never
    decides, the test against 1.60 m has answered before. *)
Theorem is_oversize_spec (it : Item) (viw : option Q) (tol : Q) :
  is_oversize it viw tol = true <->
  (8 # 5) + tol <= qmax (item_width it) (item_length it) \/
  exists v, viw = Some v /\
            (v - (1 # 50) <= item_width it \/ v - (1 # 50) <= item_length it).
Proof.
  unfold is_oversize.
  destruct (Qleb_spec ((8 # 5) + tol) (qmax (item_width it) (item_length it))) as [H1 | H1].
  { split; auto. }
  destruct (Qleb_spec ((12 # 5) + tol) (qmax (item_width it) (item_length it))) as [H2 | H2].
  { exfalso. lra. }
  destruct viw as [v |].
  - destruct (Qleb_spec (v - (1 # 50)) (item_width it)) as [Hw | Hw],
             (Qleb_spec (v - (1 # 50)) (item_length it)) as [Hl | Hl]; cbn [orb];
      split; intros H; try discriminate; eauto;
      destruct H as [H | [v' [E [H | H]]]]; try contradiction;
      inversion E; subst; contradiction.
  - split; [discriminate |]. intros [H | [v [E _]]]; [contradiction | discriminate].
Qed.

(** X6: [zone_for_z] always answers A, B, C or D.  For a hold of
    non-negative length and non-negative zone shares the zone never moves
    towards the head when the position moves towards the tail, and every
    position at or before the head is in zone A. *)
Theorem zone_for_z_monotone (vehicle : Vehicle) (cfg : ZoneConfig) :
  (forall z, In (zone_for_z z vehicle cfg) ["A"; "B"; "C"; "D"]%string) /\
  (0 <= innerLength vehicle -> 0 <= zc_a cfg -> 0 <= zc_b cfg -> 0 <= zc_c cfg ->
   (forall z1 z2, z1 <= z2 ->
      (zone_rank (zone_for_z z1 vehicle cfg) <= zone_rank (zone_for_z z2 vehicle cfg))%nat) /\
   (forall z, z <= - (innerLength vehicle / 2) -> zone_for_z z vehicle cfg = "A"%string)).
Proof.
  split.
  - intros z. unfold zone_for_z.
    repeat match goal with |- context [if ?b then _ else _] => destruct b end;
      simpl; auto.
  - intros HL Ha Hb Hc.
    assert (Pa : 0 <= innerLength vehicle * zc_a cfg) by (apply Qmult_le_0_compat; assumption).
    assert (Pb : 0 <= innerLength vehicle * zc_b cfg) by (apply Qmult_le_0_compat; assumption).
    assert (Pc : 0 <= innerLength vehicle * zc_c cfg) by (apply Qmult_le_0_compat; assumption).
    set (L := innerLength vehicle) in *.
    set (pa := L * zc_a cfg) in *. set (pb := L * zc_b cfg) in *.
    set (pc := L * zc_c cfg) in *.
    split.
    + intros z1 z2 Hz. unfold zone_for_z, x_from_head. fold L. fold pa. fold pb. fold pc.
      cbv zeta.
      destruct (Qltb_spec (z1 + L / 2) 0), (Qltb_spec (z2 + L / 2) 0);
        repeat match goal with
        | |- context [?x <? ?y] => destruct (Qltb_spec x y)
        end;
        repeat match goal with
        | |- context [?x <=? ?y] => destruct (Qleb_spec x y)
        end; unfold zone_rank; simpl; try lia; exfalso; lra.
    + intros z Hz. unfold zone_for_z, x_from_head. fold L. fold pa. cbv zeta.
      destruct (Qltb_spec (z + L / 2) 0);
        repeat match goal with
        | |- context [?x <? ?y] => destruct (Qltb_spec x y)
        end;
        repeat match goal with
        | |- context [?x <=? ?y] => destruct (Qleb_spec x y)
        end; simpl; auto; exfalso; lra.
Qed.

Lemma zone_for_z_monotone_witness :
  (zone_rank (zone_for_z (- (5)) ex_vehicle DEFAULT_ZONES)
   <= zone_rank (zone_for_z 5 ex_vehicle DEFAULT_ZONES))%nat /\
  zone_for_z (- (7)) ex_vehicle DEFAULT_ZONES = "A"%string.
Proof.
  destruct (zone_for_z_monotone ex_vehicle DEFAULT_ZONES) as [_ H].
  destruct H as [H1 H2]; try (vm_compute; discriminate).
  split.
  - apply H1. vm_compute. discriminate.
  - apply H2. vm_compute. discriminate.
Defined.

(** X7: the decision of [evaluate_candidate_policy].  When no configured
    guidance weight is negative, bonus and penalty are not negative.  The
    tags report the zone of the candidate's position and the class of the
    unit.  A hard rejection is only ever [oversize_in_D], and it is issued
    exactly when hard rules are allowed, [POLICY_HARD_OVERSIZE_IN_D] is
    set, the unit is oversize and the zone is D. *)
Theorem evaluate_candidate_policy_spec (S : Settings) (it : Item) (c : Candidate)
  (vehicle : Vehicle) (mode : ModeDecision) (allow_hard_rules : bool) :
  let pol := evaluate_candidate_policy S it c vehicle mode allow_hard_rules in
  (policy_weights_nonneg S -> 0 <= zone_bonus pol /\ 0 <= zone_penalty pol) /\
  tag_zone pol = zone_for_z (c_z c) vehicle (_zones_from_settings S) /\
  tag_class pol = item_class it (Some (innerWidth vehicle)) /\
  tag_mode pol = mode_name mode /\
  (hard_reject_reasons pol = [] \/ hard_reject_reasons pol = ["oversize_in_D"%string]) /\
  (hard_reject_reasons pol <> [] <->
   allow_hard_rules = true /\ POLICY_HARD_OVERSIZE_IN_D S = Some true /\
   tag_class pol = "oversize"%string /\ tag_zone pol = "D"%string).
Proof.
  cbv zeta. split; [| split; [| split; [| split; [| split]]]].
  - intros (H1 & H2 & H3 & H4 & H5 & H6 & H7 & H8 & H9 & H10 & H11 & H12).
    unfold evaluate_candidate_policy.
    pose proof (@get_setting_nonneg _ 2 H1 ltac:(lra)) as G1.
    pose proof (@get_setting_nonneg _ 3 H2 ltac:(lra)) as G2.
    pose proof (@get_setting_nonneg _ (1 # 2) H3 ltac:(lra)) as G3.
    pose proof (@get_setting_nonneg _ (1 # 2) H4 ltac:(lra)) as G4.
    pose proof (@get_setting_nonneg _ 1 H5 ltac:(lra)) as G5.
    pose proof (@get_setting_nonneg _ 2 H6 ltac:(lra)) as G6.
    pose proof (@get_setting_nonneg _ (1 # 2) H7 ltac:(lra)) as G7.
    pose proof (@get_setting_nonneg _ (3 # 2) H8 ltac:(lra)) as G8.
    pose proof (@get_setting_nonneg _ (1 # 2) H9 ltac:(lra)) as G9.
    pose proof (@get_setting_nonneg _ (4 # 5) H10 ltac:(lra)) as G10.
    pose proof (@get_setting_nonneg _ (7 # 10) H11 ltac:(lra)) as G11.
    pose proof (@get_setting_nonneg _ (3 # 2) H12 ltac:(lra)) as G12.
    repeat match goal with
    | H : 0 <= _get_setting ?o ?d |- _ => generalize dependent (_get_setting o d); intros
    end.
    cbv zeta.
    destruct (mode_name mode);
      repeat match goal with
      | |- context [if ?b then _ else _] => destruct b
      end; cbn [zone_bonus zone_penalty]; split; lra.
  - unfold evaluate_candidate_policy. cbv zeta.
    repeat match goal with
    | |- context [let '(_, _) := ?e in _] => destruct e
    end. reflexivity.
  - unfold evaluate_candidate_policy. cbv zeta.
    repeat match goal with
    | |- context [let '(_, _) := ?e in _] => destruct e
    end. reflexivity.
  - unfold evaluate_candidate_policy. cbv zeta.
    repeat match goal with
    | |- context [let '(_, _) := ?e in _] => destruct e
    end. reflexivity.
  - unfold evaluate_candidate_policy. cbv zeta.
    repeat match goal with
    | |- context [let '(_, _) := ?e in _] => destruct e
    end. cbn [hard_reject_reasons].
    destruct allow_hard_rules; [| left; reflexivity].
    match goal with |- context [if ?b then _ else _] => destruct b end; auto.
  - unfold evaluate_candidate_policy. cbv zeta.
    repeat match goal with
    | |- context [let '(_, _) := ?e in _] => destruct e
    end. cbn [hard_reject_reasons tag_class tag_zone].
    destruct allow_hard_rules.
    + destruct (POLICY_HARD_OVERSIZE_IN_D S) as [[|] |]; cbn [_get_setting andb].
      * destruct (String.eqb_spec (item_class it (Some (innerWidth vehicle))) "oversize");
          cbn [andb].
        -- destruct (String.eqb_spec
                       (zone_for_z (c_z c) vehicle (_zones_from_settings S)) "D").
           ++ split; [auto | intros _; discriminate].
           ++ split; [intros H; exfalso; apply H; reflexivity | intros [_ [_ [_ H]]]; contradiction].
        -- split; [intros H; exfalso; apply H; reflexivity | intros [_ [_ [H _]]]; contradiction].
      * split; [intros H; exfalso; apply H; reflexivity | intros [_ [H _]]; discriminate].
      * split; [intros H; exfalso; apply H; reflexivity | intros [_ [H _]]; discriminate].
    + split; [intros H; exfalso; apply H; reflexivity | intros [H _]; discriminate].
Qed.

Lemma evaluate_candidate_policy_spec_witness :
  policy_weights_nonneg ex_settings /\
  0 <= zone_bonus (evaluate_candidate_policy ex_settings ex_heavy_a
                     (_build_candidate ex_heavy_a 0 0 0 0 "single"
                        (mkMeta None None None None None None None None None))
                     ex_vehicle (ex_mode ex_five) false) /\
  0 <= zone_penalty (evaluate_candidate_policy ex_settings ex_heavy_a
                       (_build_candidate ex_heavy_a 0 0 0 0 "single"
                          (mkMeta None None None None None None None None None))
                       ex_vehicle (ex_mode ex_five) false).
Proof.
  assert (H : policy_weights_nonneg ex_settings) by (vm_compute; tauto).
  split; [exact H |].
  exact (proj1 (evaluate_candidate_policy_spec ex_settings ex_heavy_a
                  (_build_candidate ex_heavy_a 0 0 0 0 "single"
                     (mkMeta None None None None None None None None None))
                  ex_vehicle (ex_mode ex_five) false) H).
Defined.

(** ** The value K and the queue *)

(** X8: the second component of the queue key is the negated value K of
    [compute_k], so within a class the queue runs by decreasing K; and K
    is not negative for every mode that [detect_mode] returns, whatever
    the unit (negative weights and dimensions count as 0, a ratio that is
    not positive as 1). *)
Theorem queue_key_is_negated_k (S : Settings) (it : Item) (vehicle : Vehicle) :
  (forall mode, snd (sort_key_for_queue S it vehicle mode) = - compute_k it mode) /\
  (forall items v md, detect_mode S items v = Ok md -> 0 <= compute_k it md).
Proof.
  split.
  - intros mode. unfold sort_key_for_queue, compute_k. cbn [snd].
    destruct (mode_name mode); reflexivity.
  - intros items v md H. apply compute_k_nonneg. apply detect_mode_alpha in H.
    destruct (alpha md) as [a |]; [| exact H]. destruct H as [_ [H1 H2]]. split; lra.
Qed.

Lemma queue_key_is_negated_k_witness :
  detect_mode ex_settings ex_five ex_vehicle = Ok (ex_mode ex_five) /\
  0 <= compute_k ex_heavy_a (ex_mode ex_five).
Proof.
  assert (H : detect_mode ex_settings ex_five ex_vehicle = Ok (ex_mode ex_five))
    by (vm_compute; reflexivity).
  split; [exact H |].
  exact (proj2 (queue_key_is_negated_k ex_settings ex_heavy_a ex_vehicle)
           ex_five ex_vehicle (ex_mode ex_five) H).
Defined.

(** X9: the queue that [pack] builds with [remaining.sort(key=...)] holds
    the input units, each as often as the input does; it is ordered by the
    key (class priority first, then decreasing K); and units with equal
    keys keep the order of the input. *)
Theorem pack_queue_sorted (key : Item -> Z * Q) (items : list Item) :
  Permutation (sort_by_key key items) items /\
  StronglySorted (key_ordered key) (sort_by_key key items) /\
  (forall k,
     filter (fun y => queue_key_eqb (key y) k) (sort_by_key key items)
     = filter (fun y => queue_key_eqb (key y) k) items).
Proof.
  split; [apply sort_by_key_perm |]. split; [apply sort_by_key_sorted |].
  intros k. apply sort_by_key_stable.
Qed.

(** X21: the ranges of the mode decision.  With a positive tolerance
    setting the three pressures that [detect_mode] reports are not
    negative, whatever the vehicle and the units.  The weight [alpha] is
    present exactly in mixed mode and then lies in [0.2, 0.8].  For such a
    mode the value K of [compute_k] lies between the unit's weight value
    (clamped weight times ratio) and its volume value (clamped volume
    times ratio). *)
Theorem detect_mode_ranges (S : Settings) (items : list Item) (vehicle : Vehicle)
  (md : ModeDecision) :
  0 < EPS S -> detect_mode S items vehicle = Ok md ->
  (0 <= weight_pressure md /\ 0 <= floor_pressure md /\ 0 <= volume_pressure md) /\
  match alpha md with
  | Some a => mode_name md = mode_mixed /\ 1 # 5 <= a /\ a <= 4 # 5
  | None => mode_name md <> mode_mixed
  end /\
  forall it,
    qmin (qmax 0 (item_weight it) * ratio_or_one it) (item_volume_clamped it * ratio_or_one it)
      <= compute_k it md /\
    compute_k it md
      <= qmax (qmax 0 (item_weight it) * ratio_or_one it)
              (item_volume_clamped it * ratio_or_one it).
Proof.
  intros He H. split; [exact (@detect_mode_pressures S items vehicle md He H) |].
  assert (Ha := @detect_mode_alpha S items vehicle md H).
  split; [exact Ha |]. intros it. apply compute_k_between.
  destruct (alpha md) as [a |]; [| exact Ha]. destruct Ha as [_ [L U]]. split; lra.
Qed.

Lemma detect_mode_ranges_witness :
  detect_mode ex_settings ex_five ex_vehicle = Ok (ex_mode ex_five) /\
  0 <= weight_pressure (ex_mode ex_five) /\
  mode_name (ex_mode ex_five) = mode_mixed.
Proof.
  assert (H : detect_mode ex_settings ex_five ex_vehicle = Ok (ex_mode ex_five))
    by (vm_compute; reflexivity).
  assert (He : 0 < EPS ex_settings) by (vm_compute; reflexivity).
  destruct (detect_mode_ranges ex_settings ex_five ex_vehicle He H) as [[P _] [A _]].
  split; [exact H |]. split; [exact P |].
  destruct (alpha (ex_mode ex_five)) eqn:E; [exact (proj1 A) |].
  vm_compute in E. discriminate E.
Defined.

(** ** Free rectangles *)

(** X10: every piece that [split_rect] returns lies inside the free
    rectangle it was cut from, does not reach into the used rectangle, has
    an area above 1e-9 (so both its sides are positive); there are at most
    four pieces. *)
Theorem split_rect_pieces (free used : Rect) (eps : Q) :
  (length (split_rect free used eps) <= 4)%nat /\
  forall p, In p (split_rect free used eps) ->
    inside p free /\ disj p used /\ eps9 < rect_area p /\ proper p.
Proof.
  rewrite split_rect_strips. split.
  - eapply Nat.le_trans; [apply filter_length_le |].
    unfold split_strips. destruct free, used.
    repeat match goal with |- context [if ?b then _ else _] => destruct b end;
      simpl; lia.
  - intros p Hp. apply filter_In in Hp. destruct Hp as [Hin Ha].
    destruct (@split_strips_inside free used p eps Hin) as [Hi Hd].
    assert (A : eps9 < rect_area p) by (destruct (Qltb_spec eps9 (rect_area p)); [assumption | discriminate]).
    split; [exact Hi |]. split; [exact Hd |]. split; [exact A |].
    apply area_proper. exact A.
Qed.

Lemma split_rect_pieces_witness :
  In (mkRect (- (1 # 2)) (3 # 2) (- (3 # 2)) (3 # 2)) (split_rect ex_floor ex_used1 eps9) /\
  inside (mkRect (- (1 # 2)) (3 # 2) (- (3 # 2)) (3 # 2)) ex_floor /\
  disj (mkRect (- (1 # 2)) (3 # 2) (- (3 # 2)) (3 # 2)) ex_used1.
Proof.
  assert (H : In (mkRect (- (1 # 2)) (3 # 2) (- (3 # 2)) (3 # 2))
                (split_rect ex_floor ex_used1 eps9)) by (vm_compute; auto).
  destruct (proj2 (split_rect_pieces ex_floor ex_used1 eps9) _ H) as [H1 [H2 _]].
  split; [exact H |]. split; [exact H1 | exact H2].
Defined.

(** X11: [prune_contained] keeps a rectangle exactly when no rectangle at
    another position of the list contains it (within the tolerance); it
    adds nothing.  Hence of a rectangle that occurs
    twice, with a tolerance that is not negative, no occurrence is kept. *)
Theorem prune_contained_spec (rects : list Rect) (eps : Q) :
  (forall r, In r (prune_contained rects eps) <->
     exists l1 l2, rects = l1 ++ r :: l2 /\
       forall o, In o (l1 ++ l2) -> rect_contains o r eps = false) /\
  (forall r l1 l2 l3,
     0 <= eps -> rects = l1 ++ r :: l2 ++ r :: l3 ->
     ~ In r (prune_contained rects eps)).
Proof.
  assert (K : forall r, In r (prune_contained rects eps) <->
     exists l1 l2, rects = l1 ++ r :: l2 /\
       forall o, In o (l1 ++ l2) -> rect_contains o r eps = false).
  { intros r. unfold prune_contained. split.
    - intros H. apply prune_aux_kept in H. exact H.
    - intros [l1 [l2 [-> H]]]. apply prune_aux_keeps. exact H. }
  split; [exact K |].
  intros r l1 l2 l3 He E Hin. apply K in Hin. destruct Hin as [m1 [m2 [E2 Hc]]].
  assert (Hr : In r (m1 ++ m2)).
  { assert (N1 : nth_error rects (length l1) = Some r)
      by (rewrite E; apply nth_error_middle).
    assert (N2 : nth_error rects (length (l1 ++ r :: l2)) = Some r).
    { rewrite E. replace (l1 ++ r :: l2 ++ r :: l3) with ((l1 ++ r :: l2) ++ r :: l3)
        by (rewrite <- app_assoc; reflexivity).
      apply nth_error_middle. }
    rewrite E2 in N1, N2.
    destruct (Nat.eq_dec (length l1) (length m1)) as [D | D].
    - apply (@nth_error_other _ m1 m2 r r _ N2). rewrite length_app. cbn [length]. lia.
    - apply (@nth_error_other _ m1 m2 r r _ N1). exact D. }
  pose proof (rect_contains_refl r He) as T.
  rewrite (Hc r Hr) in T. discriminate.
Qed.

Lemma prune_contained_spec_witness :
  0 <= eps9 /\ ~ In ex_floor (prune_contained [ex_floor; ex_floor] eps9).
Proof.
  assert (H : 0 <= eps9) by (vm_compute; discriminate).
  split; [exact H |].
  exact (proj2 (prune_contained_spec [ex_floor; ex_floor] eps9) ex_floor [] [] [] H eq_refl).
Defined.

(** X14: the free rectangles never leave the floor.  For a vehicle whose
    inner width and length are not negative, after any sequence of
    reservations (of any rectangles, on the floor or not) every free
    rectangle has its corners in order and lies inside the floor
    [-W/2, W/2] x [-L/2, L/2] exactly: splitting, pruning, merging within
    1e-6 and the snapping of small coordinates to 0 never push a free
    rectangle past a wall. *)
Theorem free_rects_stay_on_floor (vehicle : Vehicle) (us : list Rect) (r : Rect) :
  0 <= innerWidth vehicle -> 0 <= innerLength vehicle ->
  In r (rects (fold_left reserve us (init_for_vehicle vehicle))) ->
  - (innerWidth vehicle / 2) <= rx0 r /\ rx0 r <= rx1 r /\ rx1 r <= innerWidth vehicle / 2 /\
  - (innerLength vehicle / 2) <= rz0 r /\ rz0 r <= rz1 r /\ rz1 r <= innerLength vehicle / 2.
Proof.
  intros Hw Hl Hr.
  set (f := mkRect (- (innerWidth vehicle / 2)) (innerWidth vehicle / 2)
                   (- (innerLength vehicle / 2)) (innerLength vehicle / 2)).
  assert (Pw := half_nonneg Hw). assert (Pl := half_nonneg Hl).
  assert (Ho : holds_origin f) by (unfold holds_origin, f; cbn [rx0 rx1 rz0 rz1]; repeat split; lra).
  assert (Hi : Forall (floor_part f) (rects (init_for_vehicle vehicle))).
  { unfold init_for_vehicle. cbn [rects]. constructor; [| constructor].
    unfold floor_part, inside, f. cbn [rx0 rx1 rz0 rz1]. repeat split; lra. }
  assert (H := @fold_reserve_floor f us (init_for_vehicle vehicle) Ho Hi).
  rewrite Forall_forall in H. destruct (H r Hr) as [[I1 [I2 [I3 I4]]] [Lx Lz]].
  unfold f in *. cbn [rx0 rx1 rz0 rz1] in *. repeat split; lra.
Qed.

Lemma free_rects_stay_on_floor_witness :
  Forall (fun r => - (innerWidth ex_small_vehicle / 2) <= rx0 r /\
                   rx1 r <= innerWidth ex_small_vehicle / 2)
    (rects (fold_left reserve [ex_used1; ex_used2; ex_used3] (init_for_vehicle ex_small_vehicle))).
Proof.
  apply Forall_forall. intros r Hr.
  assert (Hw : 0 <= innerWidth ex_small_vehicle) by (vm_compute; discriminate).
  assert (Hl : 0 <= innerLength ex_small_vehicle) by (vm_compute; discriminate).
  destruct (free_rects_stay_on_floor ex_small_vehicle [ex_used1; ex_used2; ex_used3] r Hw Hl Hr)
    as [H1 [_ [H3 _]]].
  split; [exact H1 | exact H3].
Defined.

(** ** Candidates, packs and groups *)

(** X12: [_group_pattern_candidates] gives back the packs of the pattern
    generators.  The candidate list of [generate_floor_candidates] is the
    packs of [gen_3across], [gen_140plus80], [gen_3plus2] and [gen_zigzag]
    in generation order, the n-th under the identifier [p<n>], followed by
    the single candidates; grouping it yields one group per pack, in the
    same order, under pairwise different identifiers.  A group holds two,
    three or five candidates, each for a unit of the window; when the
    identifiers of the window are all different, so are those of the
    members of a group. *)
Theorem pattern_groups_are_packs (free_rects : FreeRects) (pool : list Item) :
  generate_floor_candidates free_rects pool
  = tag_packs 0 (generated_packs free_rects pool) ++ generated_singles free_rects pool /\
  _group_pattern_candidates (generate_floor_candidates free_rects pool)
  = number_packs 0 (generated_packs free_rects pool) /\
  NoDup (map fst (_group_pattern_candidates (generate_floor_candidates free_rects pool))) /\
  (forall pid group,
     In (pid, group) (_group_pattern_candidates (generate_floor_candidates free_rects pool)) ->
     (length group = 2 \/ length group = 3 \/ length group = 5)%nat /\
     (forall c, In c group ->
        pattern_id_of c = Some pid /\ exists it, In it pool /\ c_itemId c = item_id it) /\
     (NoDup (map item_id pool) -> NoDup (map c_itemId group))).
Proof.
  split; [apply generate_floor_candidates_split |].
  split; [apply group_generated |].
  split; [rewrite group_generated; apply number_packs_keys_NoDup |].
  intros pid group H.
  destruct (group_pattern_candidates_spec _ _ _ H) as [_ Hmem].
  rewrite group_generated in H. apply number_packs_In in H.
  destruct H as [j [pack [Hj [Hpid ->]]]].
  assert (P : pack_of_pool pool (_assign_pattern_id pack pid)).
  { apply assign_pattern_id_pack. apply (@generated_packs_pack free_rects).
    eapply nth_error_In; eauto. }
  destruct P as [L [M N]]. split; [exact L |]. split; [| exact N].
  intros c Hc. split; [apply Hmem; exact Hc | apply M; exact Hc].
Qed.

Lemma pattern_groups_are_packs_witness :
  NoDup (map item_id ex_five) /\
  (forall pid group,
     In (pid, group)
        (_group_pattern_candidates
           (generate_floor_candidates (ps_free_rects (ex_state ex_five)) ex_five)) ->
     NoDup (map c_itemId group)) /\
  map fst (_group_pattern_candidates
             (generate_floor_candidates (ps_free_rects (ex_state ex_five)) ex_five))
  = map pattern_pid (seq 0 16).
Proof.
  assert (H : NoDup (map item_id ex_five)).
  { vm_compute. repeat (constructor; [simpl; intuition discriminate |]). constructor. }
  split; [exact H |]. split.
  - intros pid group Hin.
    exact (proj2 (proj2 (proj2 (proj2 (proj2
             (pattern_groups_are_packs (ps_free_rects (ex_state ex_five)) ex_five)))
             pid group Hin)) H).
  - vm_compute. reflexivity.
Defined.



(** X18: every answer of [_can_commit_group] is classified.  An
    acceptance carries no reasons.  A rejection carries exactly
    [pattern_internal_collision], [oob] or [collision], or a non-empty
    selection of [payload_limit], [axleA_limit], [axleB_limit]; and
    [_pat_reason_bucket] files it under [internal_collision], [oob],
    [collision] or [axles] respectively, never under [unknown] or
    [other]. *)
Theorem pattern_rejections_are_classified (s : PlanState) (group : list Candidate)
  (ok : bool) (reasons : list string) :
  _can_commit_group s group = Ok (ok, reasons) ->
  (ok = true /\ reasons = []) \/
  (ok = false /\
   ((reasons = ["pattern_internal_collision"%string] /\
     _pat_reason_bucket reasons = "internal_collision"%string) \/
    (reasons = ["oob"%string] /\ _pat_reason_bucket reasons = "oob"%string) \/
    (reasons = ["collision"%string] /\ _pat_reason_bucket reasons = "collision"%string) \/
    (reasons <> [] /\
     incl reasons ["payload_limit"; "axleA_limit"; "axleB_limit"]%string /\
     _pat_reason_bucket reasons = "axles"%string))).
Proof.
  unfold _can_commit_group.
  destruct (internal_collision [] group).
  { intros H. inversion H; subst. right. split; [reflexivity |]. left.
    split; reflexivity. }
  destruct (group_gates (ps_vehicle s) (ps_placed s) group) as [ok1 r1] eqn:E1.
  destruct ok1; cbn [negb].
  2: { intros H. inversion H; subst. right. split; [reflexivity |].
       destruct (group_gates_reasons _ _ _ E1) as [-> | ->].
       - right; left. split; reflexivity.
       - right; right; left. split; reflexivity. }
  match goal with |- context [foldM ?f group ?acc] =>
    destruct (foldM f group acc) as [tmp | e]; cbn [bind]; [| discriminate]
  end.
  destruct (check_loads_reasons (compute_loads tmp (ps_vehicle s)) (ps_vehicle s)) as [Hin Hok].
  destruct (check_loads (compute_loads tmp (ps_vehicle s)) (ps_vehicle s)) as [ok3 r3].
  cbn [fst snd] in Hin, Hok.
  destruct ok3; cbn [negb]; intros H; inversion H; subst.
  - left. split; reflexivity.
  - right. split; [reflexivity |]. right; right; right.
    cbn [app]. apply load_reasons_bucket.
    destruct Hin as [<- | Hin]; [| exact Hin].
    assert (false = true) by (apply Hok; reflexivity). discriminate.
Qed.

Lemma pattern_rejections_are_classified_witness :
  _can_commit_group (ex_state ex_five) [ex_single; ex_single]
  = Ok (false, ["pattern_internal_collision"%string]) /\
  _pat_reason_bucket ["pattern_internal_collision"%string] = "internal_collision"%string.
Proof.
  assert (H : _can_commit_group (ex_state ex_five) [ex_single; ex_single]
              = Ok (false, ["pattern_internal_collision"%string])) by (vm_compute; reflexivity).
  split; [exact H |].
  destruct (pattern_rejections_are_classified (ex_state ex_five) [ex_single; ex_single] H)
    as [[D _] | [_ [[_ B] | [[D _] | [[D _] | [_ [D _]]]]]]]; try discriminate D.
  - exact B.
  - exfalso. assert (K := D "pattern_internal_collision"%string (or_introl eq_refl)).
    simpl in K. intuition discriminate.
Defined.

(** X19: the gates fail only on a missing unit, and only after the
    geometry.  [can_place] raises an error exactly when the candidate is
    inside the hold and free of collisions but its identifier is not in
    the unit index, and the error is the [KeyError] of that identifier; a
    candidate that is out of bounds or collides is answered with a
    rejection even when its unit is unknown.  [_can_commit_group] raises
    only the [KeyError] of a member whose unit is unknown, after the group
    passed the internal, bounds and collision tests.  [commit] raises
    exactly that error for an unknown unit. *)
Theorem gates_raise_only_key_error (s : PlanState) :
  (forall c e, can_place s c = Err e <->
     oob_check (c_aabb c) (ps_vehicle s) eps9 = false /\
     collides_with_any (c_aabb c) (ps_placed s) eps9 = false /\
     dict_get (ps_items_by_id s) (c_itemId c) = None /\ e = KeyError (c_itemId c)) /\
  (forall group e, _can_commit_group s group = Err e ->
     internal_collision [] group = false /\
     fst (group_gates (ps_vehicle s) (ps_placed s) group) = true /\
     exists c, In c group /\ dict_get (ps_items_by_id s) (c_itemId c) = None /\
               e = KeyError (c_itemId c)) /\
  (forall c e, commit s c = Err e <->
     dict_get (ps_items_by_id s) (c_itemId c) = None /\ e = KeyError (c_itemId c)).
Proof.
  split; [| split].
  - intros c e. unfold can_place, check_oob, check_collision, dict_lookup.
    destruct (oob_check (c_aabb c) (ps_vehicle s) eps9); cbn [negb].
    { split; [discriminate | intros [D _]; discriminate]. }
    destruct (collides_with_any (c_aabb c) (ps_placed s) eps9); cbn [negb].
    { split; [discriminate | intros [_ [D _]]; discriminate]. }
    destruct (dict_get (ps_items_by_id s) (c_itemId c)) as [it |]; cbn [bind].
    + destruct (check_loads _ _) as [ok r]. destruct ok; cbn [negb];
        (split; [discriminate | intros [_ [_ [D _]]]; discriminate]).
    + split.
      * intros H. inversion H. auto.
      * intros [_ [_ [_ ->]]]. reflexivity.
  - intros group e. unfold _can_commit_group.
    destruct (internal_collision [] group); [discriminate |].
    destruct (group_gates (ps_vehicle s) (ps_placed s) group) as [ok1 r1].
    destruct ok1; cbn [negb]; [| discriminate].
    match goal with |- context [foldM ?f group ?acc] =>
      destruct (foldM f group acc) as [tmp | e'] eqn:E; cbn [bind]
    end.
    + destruct (check_loads _ _) as [ok r]. destruct ok; discriminate.
    + intros H. inversion H; subst. split; [reflexivity |]. split; [reflexivity |].
      eapply tmp_placed_error; eauto.
  - intros c e. unfold commit, dict_lookup.
    destruct (dict_get (ps_items_by_id s) (c_itemId c)) as [it |]; cbn [bind].
    + split; [discriminate | intros [D _]; discriminate].
    + split.
      * intros H. inversion H. auto.
      * intros [_ ->]. reflexivity.
Qed.

(** X13: when the units handed to the packer have pairwise different ids, a
    finished plan accounts for every unit exactly once: the ids of the
    placed units followed by the ids of the unplaced ones are a
    rearrangement of the input ids, so no unit is lost, placed twice, or
    both placed and reported unplaced.  Every placed unit carries an input
    unit unchanged; every unplaced one has the status unplaced and is
    otherwise, field by field, a unit of the input. *)
Theorem pack_accounts_for_every_unit (S : Settings) (items : list Item) (vehicle : Vehicle)
  (task_id transport_type : string) (plan : PlanResult) :
  NoDup (map item_id items) ->
  pack S items vehicle task_id transport_type = Ok plan ->
  Permutation (placed_ids (pr_placed plan) ++ map item_id (pr_unplaced plan))
    (map item_id items) /\
  NoDup (placed_ids (pr_placed plan) ++ map item_id (pr_unplaced plan)) /\
  (forall p, In p (pr_placed plan) -> In (p_item p) items) /\
  (forall u, In u (pr_unplaced plan) ->
     item_status u = st_unplaced /\
     exists it, In it items /\ marked_unplaced it u).
Proof.
  intros Hn H.
  destruct (@pack_accounted S items vehicle task_id transport_type plan Hn H)
    as [Hp [Hpl [Hun _]]].
  cbn [map] in Hp. rewrite app_nil_r in Hp.
  split; [exact Hp |]. split; [| split; [exact Hpl |]].
  - exact (Permutation_NoDup (Permutation_sym Hp) Hn).
  - intros u Hu. destruct (Hun u Hu) as [it [Hit ->]].
    split; [reflexivity |]. exists it. split; [exact Hit | apply set_status_marked].
Qed.

(** The heavy pair: one unit is placed, the other is reported unplaced. *)
Lemma pack_accounts_for_every_unit_witness :
  NoDup (map item_id [ex_heavy_a; ex_heavy_b]) /\
  pack ex_settings [ex_heavy_a; ex_heavy_b] ex_vehicle "task" "truck"
  = Ok (ex_plan [ex_heavy_a; ex_heavy_b]) /\
  length (pr_placed (ex_plan [ex_heavy_a; ex_heavy_b])) = 1%nat /\
  length (pr_unplaced (ex_plan [ex_heavy_a; ex_heavy_b])) = 1%nat /\
  Forall (fun u => item_status u = st_unplaced) (pr_unplaced (ex_plan [ex_heavy_a; ex_heavy_b])).
Proof.
  assert (N : NoDup (map item_id [ex_heavy_a; ex_heavy_b])).
  { apply (NoDup_count_occ' string_dec). intros x Hx. vm_compute in Hx.
    repeat (destruct Hx as [<- | Hx]; [vm_compute; reflexivity |]). destruct Hx. }
  assert (H : pack ex_settings [ex_heavy_a; ex_heavy_b] ex_vehicle "task" "truck"
              = Ok (ex_plan [ex_heavy_a; ex_heavy_b])) by (vm_compute; reflexivity).
  split; [exact N |]. split; [exact H |].
  split; [vm_compute; reflexivity |]. split; [vm_compute; reflexivity |].
  apply Forall_forall. intros u Hu.
  exact (proj1 (proj2 (proj2 (proj2
           (pack_accounts_for_every_unit ex_settings [ex_heavy_a; ex_heavy_b] ex_vehicle
              "task" "truck" N H))) u Hu)).
Defined.

(** X15: the loads a finished plan reports are current: they are the
    result of [compute_loads] on the plan's whole placed list and its
    vehicle, and they are absent exactly when nothing was placed.  No
    iteration leaves the loads of an earlier placed list behind. *)
Theorem plan_loads_are_current (S : Settings) (items : list Item) (vehicle : Vehicle)
  (task_id transport_type : string) (plan : PlanResult) :
  pack S items vehicle task_id transport_type = Ok plan ->
  pr_loads plan = match pr_placed plan with
                  | [] => None
                  | _ :: _ => Some (compute_loads (pr_placed plan) vehicle)
                  end.
Proof.
  unfold pack, pack_with_fuel.
  destruct (detect_mode S items vehicle) as [mode | e]; cbn [bind]; [| discriminate].
  destruct (pack_loop S _ _ vehicle mode _) as [s' | e] eqn:E; cbn [bind]; [| discriminate].
  intros H. inversion H; subst; clear H. cbn [pr_placed pr_loads snapshot].
  assert (Hv : ps_vehicle s' = vehicle).
  { apply pack_loop_inv with (d := fold_left (fun d it => dict_set d (item_id it) it) items [])
      in E; [| apply initial_state_inv]. apply E. }
  apply pack_loop_sync in E; [| apply initial_state_sync].
  destruct E as [E _]. rewrite <- Hv. exact E.
Qed.

Lemma plan_loads_are_current_witness :
  pack ex_settings ex_five ex_vehicle "task" "truck" = Ok (ex_plan ex_five) /\
  pr_loads (ex_plan ex_five) = Some (compute_loads (pr_placed (ex_plan ex_five)) ex_vehicle).
Proof.
  assert (H : pack ex_settings ex_five ex_vehicle "task" "truck" = Ok (ex_plan ex_five))
    by (vm_compute; reflexivity).
  split; [exact H |].
  rewrite (plan_loads_are_current ex_settings ex_five ex_vehicle "task" "truck" H).
  vm_compute. reflexivity.
Defined.

(** X16: the free space of the packer is a function of what it has
    placed.  In whatever state the loop started on the initial state ends,
    the free rectangles are those obtained from the empty floor of the
    vehicle by reserving the footprints of the placed units, one by one in
    the order of placement; nothing else ever changes them. *)
Theorem free_space_follows_placed (S : Settings) (items remaining : list Item)
  (vehicle : Vehicle) (task_id transport_type : string) (mode : ModeDecision) (fuel : nat)
  (s : PlanState) :
  pack_loop S fuel (initial_state items vehicle task_id transport_type mode) vehicle mode
    remaining = Ok s ->
  ps_free_rects s =
    fold_left reserve (map footprint_of (ps_placed s)) (init_for_vehicle vehicle).
Proof.
  intros E.
  assert (Hv : ps_vehicle s = vehicle).
  { apply pack_loop_inv with (d := fold_left (fun d it => dict_set d (item_id it) it) items [])
      in E; [| apply initial_state_inv]. apply E. }
  apply pack_loop_sync in E; [| apply initial_state_sync].
  destruct E as [_ E]. rewrite <- Hv. exact E.
Qed.

Lemma free_space_follows_placed_witness :
  pack_loop ex_settings 5 (ex_state ex_five) ex_vehicle (ex_mode ex_five) (ex_queue ex_five)
    = Ok (ex_final ex_five) /\
  length (ps_placed (ex_final ex_five)) = 5%nat /\
  ps_free_rects (ex_final ex_five) =
    fold_left reserve (map footprint_of (ps_placed (ex_final ex_five)))
      (init_for_vehicle ex_vehicle).
Proof.
  assert (H : pack_loop ex_settings 5 (ex_state ex_five) ex_vehicle (ex_mode ex_five)
                (ex_queue ex_five) = Ok (ex_final ex_five)) by (vm_compute; reflexivity).
  split; [exact H |]. split; [vm_compute; reflexivity |].
  exact (free_space_follows_placed ex_settings ex_five (ex_queue ex_five) ex_vehicle
           "task" "truck" (ex_mode ex_five) 5 H).
Defined.
